(* ===== verification/_CoqProject ===== *)
-Q . S2P
Prelude.v
Stable.v
Protocol.v
Serde.v
Model.v
NoteStates.v
InputNote.v
OutputNote.v
TxRecord.v
TxTracker.v
NodeErrors.v
Errors.v
NoteTracker.v
TxOrdering.v
Rpc.v
Grpc.v
SyncUpdate.v
StateSync.v
Text.v
Amounts.v
Endpoint.v
AccountTypes.v
TxRequest.v
SmtForest.v
Sql.v
Versioned.v
Db.v
AccountDb.v
AccountHistory.v
AccountUndo.v
AccountReplace.v
Store.v
ChainDb.v
AccountReaders.v
NoteDb.v
NoteSpec.v
TxDb.v
SqliteStore.v
SqliteSync.v
ChainSpec.v
ForeignKeys.v
StoreContract.v
Client.v
NoteImport.v
ClientSync.v
ClientSpec.v
ClientAccounts.v
ClientAccountSpec.v
Proto.v
ProtoNotes.v
AccountProofs.v
AccountProofSpec.v
ForeignInputs.v
ClientTx.v
ClientTxSpec.v
DataStore.v
DataStoreSpec.v
RequestCodec.v
ClientNotes.v
FileSystem.v
KeyStore.v
KeyStoreSpec.v
GrpcClient.v
GrpcRequests.v
GrpcClientSpec.v
GrpcTransport.v
Migrations.v
ClientBuild.v
TransportNode.v
Cli.v
