(* ===== verification/Prelude.v ===== *)
(** * Miden client: a verification development

    This library models the core of the Rust client ([src/crates/rust-client/src],
    to which the paths below are relative unless they start with another crate), the SQLite
    store [src/crates/sqlite-store/src] and a part of the command line
    [src/bin/miden-cli/src], and proves what the client relies on: that notes are accepted
    only with a valid proof, that spent notes and settled transactions are recognised as
    such, that a sync reaches the tip of the chain without losing anything on the way, that
    the store keeps what it is given and undoes what is discarded, and that requests are
    checked before they are executed.

    ** The program and its parts

    The client keeps records of notes and transactions.  An input note record moves
    through nine states as the client learns about the note (inclusion proof, block
    header, nullifier) and uses it in transactions; an output note record through
    five.  A sync asks a node for what happened since the last one: it brings the
    committed notes, transactions and nullifiers of the new blocks, which two
    trackers turn into changes of the records, and advances a partial MMR of the
    chain.  The node is reached through an interface whose gRPC implementation connects
    on demand and pages, splits and retries requests.  Everything is kept in a store behind
    an interface, implemented over SQLite with a forest of account trees beside the tables.
    Transactions start from a request, which a builder makes and which is checked against the
    account; the executor reads its inputs through a data store over the client's store and
    the node, and what it returns is proved, submitted and stored.  Private notes travel over
    a transport network; keys are files.

    ** Files

    Foundations.
    - [Prelude]: this file.  Results, machine integers, ordered maps and sets
      (Rust's [BTreeMap] and [BTreeSet] as [gmap] and [gset] with sorted iteration),
      parsing of numbers, computations that can panic, hints and tactics.  [Stable]: stable
      sorting.  [Text]: the operations of [str].
    - [Protocol]: the types and functions of the protocol crates that the client
      uses, as the class [Protocol], and their documented behaviour, as the class
      [ProtocolLaws]; [AccountTypes]: the same for accounts, storage and vaults.  [Serde]:
      byte encodings, as codecs with a round-trip law.  [Model]: one concrete instance of
      these classes, used by the witnesses.

    Records and trackers.
    - [NoteStates] and [InputNote]: [store/note_record/input_note_record].  Each state
      is a record; the trait [NoteStateHandler] is a class with one instance per
      state, and [InputNoteState] dispatches to them as the code does.
    - [OutputNote]: [store/note_record/output_note_record].
    - [TxRecord]: [transaction/record.rs].  [TxTracker]: the
      [TransactionUpdateTracker] of [sync/state_sync_update.rs].
    - [NodeErrors] and [Errors]: the error types and the decoding of the errors of the node.
      [NoteTracker]: [note/note_update_tracker.rs] and the note types of [rpc/domain].
    - [TxOrdering]: the two helpers at the end of [sync/state_sync.rs] that order the
      transactions of a sync.

    The node.
    - [Rpc]: the trait [NodeRpcClient] of [rpc/mod.rs]; its required methods are the
      fields of a class, its provided methods are definitions.  [Grpc]: retries,
      paging, chunking and limits of [rpc/tonic_client] and [rpc/domain/limits.rs].
      [GrpcClient], [GrpcRequests] and [GrpcClientSpec]: the connection and its state, the
      accept header, the requests in one call and those in several, which are related to
      [Grpc] and [AccountProofs], and the interleavings of two tasks over one client.
    - [Proto], [ProtoNotes], [AccountProofs] and [AccountProofSpec]: the messages of the node
      ([rpc/domain]) and their conversion, with the proofs of accounts.
    - [SyncUpdate]: block updates, account updates and summaries
      ([sync/state_sync_update.rs], [sync/mod.rs]).  [StateSync]: [sync/state_sync.rs],
      a whole sync over the trackers and the node interface.

    The store.
    - [Store]: the trait of [store/mod.rs].  [SmtForest]: [store/smt_forest.rs].
    - [Sql], [Versioned] and [Db]: statements, tables with a history and the tables of
      [sqlite-store/src/store.sql].  [AccountDb], [AccountReaders], [ChainDb], [NoteDb] and
      [TxDb]: the modules of the SQLite store.  [SqliteStore]: its instance of the interface.
      [Migrations]: [db_management/utils.rs].
    - [AccountHistory], [AccountUndo], [AccountReplace], [NoteSpec], [ChainSpec],
      [SqliteSync] and [ForeignKeys]: what the tables guarantee.  [StoreContract]: what the
      client assumes of a store, as a class, and its instance for SQLite.

    The client.
    - [Client], [ClientSync], [ClientSpec]: limits, tags, blocks and the sync of the client
      ([lib.rs], [sync]).  [NoteImport]: [note/import.rs].  [ClientAccounts] and
      [ClientAccountSpec]: [account].  [ClientNotes]: [note].  [ClientBuild]: [builder.rs],
      [grpc_support] and [settings].
    - [TxRequest] and [RequestCodec]: [transaction/request] and its encoding.
      [ForeignInputs], [ClientTx] and [ClientTxSpec]: [transaction/mod.rs] and
      [transaction/request/foreign.rs].  [DataStore] and [DataStoreSpec]:
      [store/data_store.rs].
    - [Amounts] and [Endpoint]: [utils.rs] and [rpc/endpoint.rs].  [FileSystem], [KeyStore] and
      [KeyStoreSpec]: [keystore].  [GrpcTransport] and [TransportNode]: [note_transport] and
      the network in memory of [test_utils/note_transport.rs].
    - [Cli]: the names of accounts and assets of [miden-cli].

    ** Conventions

    Definitions keep the names of the code, with the type as a prefix where Rust has
    a method of the same name on several types.  A method that changes its receiver
    returns the new one.  [Result] is [result]; [expect] and arithmetic that can
    panic return [Panicked] of [loop_result].  Integers are [Z], with the range
    written out where it matters ([try_from], [checked_add], [saturating_sub]).
    Computations over a state are of type [dbm]: they return the state they leave also when
    they fail, so that what a failing call keeps is part of the model; a database transaction
    restores the tables and not what is in memory.  Asynchronous calls run one after the
    other, as the code awaits them, except in [GrpcClientSpec], where the steps of two tasks
    are interleaved.  The partial MMR, a mutable reference of the caller of a sync, is
    threaded through it as a state that also a failing step changes.  Where the answer of the
    node can change between two requests, it is a function of the number of the request.

    ** What the theorems show

    - Input notes ([InputNote]): authenticated notes carry a proof of their own
      commitment; the life cycle is exactly the stated graph; consumption is final;
      a note in processing is kept for its transaction; encodings round trip.
    - Output notes ([OutputNote]): identity never changes, and consumption is final
      and only by the note's own nullifier.
    - Transactions ([TxTracker], [TxRecord]): discarding reaches exactly the pending
      transactions that build on invalid states, and ends; settled transactions
      never change; an inclusion commits its target.
    - Trackers ([NoteTracker], [TxOrdering]): the nullifier index is exact; committed
      notes are verified; nullifiers consume their notes and are ordered as the
      transactions were executed, whatever the order of the response.
    - Node ([Rpc], [Grpc]): the page loops end, leave no gap and lose nothing;
      splitting a request into chunks does not change its answer; a call is retried
      within its budget.  [StateSync.grpc_honest_nullifiers] connects the gRPC client
      to what a sync asks of a node.  [GrpcClientSpec]: every request but the
      one for the unversioned status names the genesis block once it is known, and the
      interleaving in which it does not.
    - Messages ([AccountProofSpec], [ForeignInputs]): an account is used only with a proof
      that commits to what was fetched.
    - Sync ([StateSync], [ClientSpec]): a sync ends at the tip, and with the MMR delta that
      belongs to it the next one finds nothing to do; what it stores as authenticated is
      verified, also when notes come from the transport network; notes spent on chain are consumed;
      what stays pending is live; over any store that keeps [StoreContract], the sync of the
      client is that of an abstract client.
    - Store ([SmtForest], [AccountUndo], [SqliteSync], [NoteSpec], [ChainSpec],
      [ForeignKeys], [Migrations]): reference counts are exact; discarding states restores
      the tables; notes, blocks and transactions refine maps of records; foreign keys hold
      after every sequence of operations; a database is migrated once.
    - Requests ([TxRequest], [RequestCodec], [ClientTxSpec], [DataStoreSpec]): the executor
      gets the notes of the request in order, authenticated ones with their proof, and the
      paths of the blocks that the store knows, others being left out without an error; built requests find the recipients of their own notes; the
      balance check and the output check are exact; requests are decoded as they were
      encoded; the notes of an applied transaction are in processing.
    - Around the client ([ClientNotes], [KeyStoreSpec], [GrpcTransport], [TransportNode],
      [ClientBuild], [Amounts], [Cli]): consumable notes and the reader of consumed ones are
      exact; the keystore refines a map of keys and its index survives faults of the file
      system, unless the keys are kept in the temporary directory; delivered notes are
      rebuilt, and delivered once, in a network whose clock has moved on between sends; a built client takes over what
      the store knows; amounts are exact, and assets are read as they are shown.

    Some theorems state where the code does less than its comments say: a page loop
    that can stop below the tip, transactions of later pages that are not fetched, an
    MMR that stays advanced after a failed sync, commitments of the first instead of
    the last transaction of a block, unordered nullifiers of transactions that leave
    the account as it was, recipients that are replaced, answers that make the
    gRPC client fail or panic, a note that keeps the client from syncing, a connection that
    misses the genesis block, blocks that the data store leaves out, an index that is cut
    in the temporary directory, and a migration that is fatal when it is interrupted.

    ** Fuel

    [TxTracker.discard_fuel] gets one more than the number of pending transactions:
    every level of the recursion discards one ([discard_terminates]).
    [TxOrdering.walk_chain] gets two more than the size of its map, which shrinks in
    each step ([chain_walk_ends]).  The retry loop gets one more than the retry
    budget, and the page loops of [Grpc] the iteration limit of the code plus one;
    both always end ([GrpcClientSpec.grpc_call_is_retried] for a whole call).
    [Rpc.sync_notes_pages] has no limit in the code: its fuel is an
    argument, and [sync_notes_terminates] says which is enough for a chain.
    [NoteDb.chunks] gets the length of its list and [Amounts.pad_zeros] the length to reach,
    of which each step takes at least one.  The rounds over the input notes of a transaction
    in [ClientTx] have no limit in the code: the fuel is an argument, and one more than the
    notes is enough, as every failing round drops one
    ([ClientTxSpec.valid_input_notes_terminates]).  The walk over Merkle nodes in [DataStore]
    gets one more than their number.  The reader of [ClientNotes] gets an argument, for which
    more than the consumed notes is enough ([ClientNotes.reader_enumerates]).

    ** What is not modelled

    Code of other crates (cryptography, the VM with its executor and prover, note scripts,
    the MMR, protobuf messages and the transport of gRPC, the migration library, JSON and
    TOML) is behind classes.  Not modelled are the IndexedDB store and the web client, which
    are bindings to JavaScript, and the variants of the code for WebAssembly; the pool of
    database connections; the parsing of arguments, the configuration files, the output and
    the commands of the command line; the texts of most errors and what is logged; and
    the test and benchmark programs. *)

From Stdlib Require Import ZArith Lia.
From stdpp Require Import base gmap sorting list strings pretty.

(** ** Fallible code: Rust's [Result] *)

Inductive result (E A : Type) : Type :=
| Ok (a : A)
| Err (e : E).
Arguments Ok {E A} a.
Arguments Err {E A} e.

#[global] Instance result_ret E : MRet (result E) := λ A a, Ok a.
#[global] Instance result_bind E : MBind (result E) := λ A B f m,
  match m with Ok a => f a | Err e => Err e end.
#[global] Instance result_fmap E : FMap (result E) := λ A B f m,
  match m with Ok a => Ok (f a) | Err e => Err e end.

(** [Result::map_err]. *)
Definition map_err {E E' A} (f : E → E') (m : result E A) : result E' A :=
  match m with Ok a => Ok a | Err e => Err (f e) end.

(** [Option::ok_or]. *)
Definition ok_or {E A} (o : option A) (e : E) : result E A :=
  match o with Some a => Ok a | None => Err e end.

Definition is_ok {E A} (m : result E A) : bool :=
  match m with Ok _ => true | Err _ => false end.

(** A [for] loop whose body may leave early with [?]. *)
Fixpoint try_fold {E A B} (f : B → A → result E B) (l : list A) (b : B) : result E B :=
  match l with
  | [] => Ok b
  | a :: l => b' ← f b a; try_fold f l b'
  end.

(** [iter().map(f).collect::<Result<Vec<_>, _>>()]. *)
Fixpoint try_map {E A B} (f : A → result E B) (l : list A) : result E (list B) :=
  match l with
  | [] => Ok []
  | a :: l => b ← f a; bs ← try_map f l; Ok (b :: bs)
  end.

(** ** Machine integers

    A [u32] or [u64] is a [Z] in range; the wrap-around, saturation or panic of
    each Rust operation is written at its use through these operations. *)

Definition U8_MAX : Z := 255.
Definition U16_MAX : Z := 65535.
Definition U32_MAX : Z := 4294967295.
Definition U64_MAX : Z := 18446744073709551615.

Definition in_range (max z : Z) : Prop := (0 ≤ z ≤ max)%Z.
Definition in_rangeb (max z : Z) : bool := ((0 <=? z) && (z <=? max))%Z.

Definition saturating_sub (a b : Z) : Z := Z.max 0 (a - b).
Definition saturating_add (max a b : Z) : Z := Z.min max (a + b).
(** [None] is the [None] of [checked_sub] on an unsigned type. *)
Definition checked_sub (a b : Z) : option Z := if (a <? b)%Z then None else Some (a - b)%Z.
(** A plain [+] on an unsigned type: [None] is the overflow panic. *)
Definition checked_add (max a b : Z) : option Z :=
  if (a + b <=? max)%Z then Some (a + b)%Z else None.
(** [T::try_from] between integer types. *)
Definition try_from (max z : Z) : option Z := if in_rangeb max z then Some z else None.

(** ** Ordered maps: Rust's [BTreeMap] and [BTreeSet]

    The contents of a [BTreeMap<K, V>] is a [gmap K V]; the code also relies on
    the iteration order, which is the order of the keys. *)

Class KeyType (K : Type) := {
  key_eq_dec :: EqDecision K;
  key_countable :: Countable K;
  key_le : relation K;
  key_le_dec :: RelDecision key_le;
  key_le_order :: PartialOrder key_le;
  key_le_total :: Total key_le
}.

Section btree.
Context {K V : Type} `{!KeyType K}.

Definition entry_le (a b : K * V) : Prop := key_le a.1 b.1.
#[export] Instance entry_le_dec : ∀ a b, Decision (entry_le a b) :=
  λ a b, key_le_dec a.1 b.1.

(** [iter()]: the entries in the order of their keys. *)
Definition btree_to_list (m : gmap K V) : list (K * V) :=
  merge_sort entry_le (map_to_list m).

(** [keys()] and [values()]. *)
Definition btree_keys (m : gmap K V) : list K := (btree_to_list m).*1.
Definition btree_values (m : gmap K V) : list V := (btree_to_list m).*2.

(** A loop over [values_mut()]: each value is replaced and an accumulator is
    threaded, in key order. *)
Definition btree_iter_mut {A} (f : V → A → V * A) (m : gmap K V) (a : A) : gmap K V * A :=
  foldl (λ acc kv,
    let '(v', a') := f kv.2 acc.2 in (<[kv.1 := v']> acc.1, a')) (m, a) (btree_to_list m).

(** [values_mut().find(p)]: the key of the first value that satisfies [p]. *)
Definition btree_find (p : V → bool) (m : gmap K V) : option (K * V) :=
  head (filter (λ kv, p kv.2 = true) (btree_to_list m)).

(** [collect::<BTreeMap<_, _>>()]: a later entry replaces an earlier one. *)
Definition btree_collect (l : list (K * V)) : gmap K V :=
  foldl (λ m kv, <[kv.1 := kv.2]> m) ∅ l.

(** [entry(k).or_insert(v)]. *)
Definition btree_or_insert (k : K) (v : V) (m : gmap K V) : gmap K V :=
  match m !! k with Some _ => m | None => <[k := v]> m end.

(** [entry(k).and_modify(f).or_insert(v)]. *)
Definition btree_modify_or_insert (k : K) (f : V → V) (v : V) (m : gmap K V) : gmap K V :=
  match m !! k with Some old => <[k := f old]> m | None => <[k := v]> m end.
End btree.

(** [iter()] on a [BTreeSet]. *)
Definition bset_elements {K} `{!KeyType K} (s : gset K) : list K :=
  merge_sort key_le (elements s).

(** ** Numbers in text *)

Definition digit (c : Ascii.ascii) : option Z :=
  let n := Z.of_nat (Ascii.nat_of_ascii c) in
  if (48 <=? n)%Z && (n <=? 57)%Z then Some (n - 48)%Z else None.

Fixpoint parse_digits (max acc : Z) (s : string) : option Z :=
  match s with
  | EmptyString => Some acc
  | String c s =>
      d ← digit c;
      let acc := (acc * 10 + d)%Z in
      if (acc <=? max)%Z then parse_digits max acc s else None
  end.

(** [str::parse] into an unsigned integer: digits after an optional sign. *)
Definition parse_unsigned (max : Z) (s : string) : option Z :=
  match s with
  | EmptyString => None
  | String c s' =>
      if Nat.eqb (Ascii.nat_of_ascii c) 43 then
        match s' with
        | EmptyString => None
        | _ => parse_digits max 0 s'
        end
      else parse_digits max 0 s
  end.

(** ** Key types *)

#[export] Instance Z_key : KeyType Z := {| key_le := Z.le |}.

Section pair_key.
Context {A B : Type} `{!KeyType A} `{!KeyType B}.

(** The derived [Ord] of a pair compares the first components first. *)
Definition pair_le (x y : A * B) : Prop :=
  (x.1 ≠ y.1 ∧ key_le x.1 y.1) ∨ (x.1 = y.1 ∧ key_le x.2 y.2).

#[export] Instance pair_le_dec : RelDecision pair_le.
Proof. intros x y. unfold pair_le. apply _. Defined.
#[export] Instance pair_le_order : PartialOrder pair_le.
Proof.
  split; [split|].
  - intros x. right. split; reflexivity.
  - intros [a1 b1] [a2 b2] [a3 b3]. unfold pair_le; simpl.
    intros [[H1 L1]|[-> L1]] [[H2 L2]|[-> L2]]; simpl in *; auto.
    + left. split; [|by etrans]. intros ->. apply H1. by apply (anti_symm key_le).
    + right. split; [done|]. by etrans.
  - intros [a1 b1] [a2 b2]. unfold pair_le; simpl.
    intros [[H1 L1]|[-> L1]] [[H2 L2]|[Heq L2]]; simpl in *; try congruence.
    + destruct H1. by apply (anti_symm key_le).
    + f_equal. by apply (anti_symm key_le).
Qed.
#[export] Instance pair_le_total : Total pair_le.
Proof.
  intros [a1 b1] [a2 b2]. unfold pair_le; simpl.
  destruct (decide (a1 = a2)) as [->|Hne].
  - destruct (total key_le b1 b2); auto.
  - destruct (total key_le a1 a2); auto.
Qed.
#[export] Instance pair_key : KeyType (A * B) := {| key_le := pair_le |}.
End pair_key.

(** ** Lemmas on results *)

Lemma bind_Ok {E A B} (f : A → result E B) (m : result E A) b :
  (m ≫= f) = Ok b ↔ ∃ a, m = Ok a ∧ f a = Ok b.
Proof. destruct m; simpl; naive_solver. Qed.

Lemma bind_Err {E A B} (f : A → result E B) (m : result E A) e :
  (m ≫= f) = Err e ↔ m = Err e ∨ ∃ a, m = Ok a ∧ f a = Err e.
Proof. destruct m; simpl; naive_solver. Qed.

Lemma map_err_Ok {E E' A} (f : E → E') (m : result E A) a :
  map_err f m = Ok a ↔ m = Ok a.
Proof. destruct m; simpl; naive_solver. Qed.

Lemma ok_or_Ok {E A} (o : option A) (e : E) a : ok_or o e = Ok a ↔ o = Some a.
Proof. destruct o; simpl; naive_solver. Qed.

(** Break an equation between results into its successful steps. *)
Ltac inv_ok :=
  repeat match goal with
  | H : _ ≫= _ = Ok _ |- _ =>
      apply bind_Ok in H; destruct H as (? & ? & H); simpl in H
  | H : (let '(_, _) := ?x in _) = Ok _ |- _ => is_var x; destruct x; simpl in H
  | H : map_err _ _ = Ok _ |- _ => apply map_err_Ok in H
  | H : ok_or _ _ = Ok _ |- _ => apply ok_or_Ok in H
  | H : Ok _ = Ok _ |- _ => injection H as H
  | H : Err _ = Ok _ |- _ => discriminate H
  | H : Ok _ = Err _ |- _ => discriminate H
  end; simplify_eq/=.

(** Case analysis on every [match] and [if] of the goal and the hypotheses. *)
Ltac split_cases := repeat (case_match || case_decide); simplify_eq/=.

(** The lemmas and constructors that close the routine cases. *)
Create HintDb miden discriminated.

(** An invariant of the accumulator is kept by a loop that succeeds. *)
Lemma try_fold_inv {E A B} (P : B → Prop) (f : B → A → result E B) l b b' :
  P b → (∀ x a y, a ∈ l → P x → f x a = Ok y → P y) →
  try_fold f l b = Ok b' → P b'.
Proof.
  revert b. induction l as [|a l IH]; simpl; intros b Hb Hf H; inv_ok; [done|].
  eapply IH; [| |done].
  - eapply Hf; [left|done|done].
  - intros b1 c b2 Hc. apply Hf. by right.
Qed.

Lemma try_fold_app {E A B} (f : B → A → result E B) l1 l2 b :
  try_fold f (l1 ++ l2) b = (b' ← try_fold f l1 b; try_fold f l2 b').
Proof. revert b. induction l1 as [|a l IH]; simpl; intros b; [done|]. by destruct (f b a); simpl. Qed.

Lemma try_map_Ok {E A B} (f : A → result E B) l bs :
  try_map f l = Ok bs ↔ Forall2 (λ a b, f a = Ok b) l bs.
Proof.
  split.
  - revert bs. induction l as [|a l IH]; intros bs Hl; cbn in Hl; [by injection Hl as <-|].
    inv_ok. constructor; auto.
  - induction 1 as [|a b l bs Ha _ IH]; [done|]. cbn. by rewrite Ha, IH.
Qed.

(** ** Lemmas on lists *)

(** An association list with distinct keys is a function. *)
Lemma NoDup_fst_functional {A B} (l : list (A * B)) a b b' :
  NoDup l.*1 → (a, b) ∈ l → (a, b') ∈ l → b = b'.
Proof.
  induction l as [|[a0 b0] l IH]; simpl; intros Hnd H1 H2; [by apply not_elem_of_nil in H1|].
  apply NoDup_cons in Hnd as [Hni Hnd].
  apply elem_of_cons in H1 as [H1|H1], H2 as [H2|H2]; simplify_eq; auto; exfalso; apply Hni;
    apply list_elem_of_fmap; eexists (_, _); by split.
Qed.

Lemma NoDup_fmap_eq {A B} (f : A → B) l x y :
  NoDup (f <$> l) → x ∈ l → y ∈ l → f x = f y → x = y.
Proof.
  induction l as [|z l IH]; [by intros _ ?%not_elem_of_nil|]. intros [Hz Hl]%NoDup_cons.
  intros [->|Hx]%elem_of_cons [->|Hy]%elem_of_cons Heq; [done| | |by apply IH].
  - exfalso. apply Hz. rewrite Heq. by apply list_elem_of_fmap_2.
  - exfalso. apply Hz. rewrite <-Heq. by apply list_elem_of_fmap_2.
Qed.

Lemma NoDup_fmap_filter {A B} (f : A → B) (P : A → Prop) `{!∀ x, Decision (P x)} l :
  NoDup (f <$> l) → NoDup (f <$> filter P l).
Proof.
  induction l as [|x l IH]; [done|]. intros [Hx Hl]%NoDup_cons. rewrite filter_cons.
  case_decide; [|auto]. apply NoDup_cons. split; [|auto]. intros Hin. apply Hx.
  apply list_elem_of_fmap in Hin as (y & -> & Hy). apply list_elem_of_filter in Hy as [_ Hy].
  apply list_elem_of_fmap. eauto.
Qed.

Lemma elem_of_concat {A} (x : A) (ls : list (list A)) :
  x ∈ concat ls ↔ ∃ l, x ∈ l ∧ l ∈ ls.
Proof.
  induction ls as [|l ls IH]; simpl.
  - split; [intros Hx|intros (? & _ & Hx)]; by apply not_elem_of_nil in Hx.
  - rewrite elem_of_app, IH. setoid_rewrite elem_of_cons. naive_solver.
Qed.

(** ** Lemmas on ordered maps *)

Section btree_lemmas.
Context {K V : Type} `{!KeyType K}.
Implicit Types (m : gmap K V) (k : K) (v : V).

#[local] Instance entry_le_total : Total (entry_le (K:=K) (V:=V)).
Proof. intros x y. apply (total key_le). Qed.
#[local] Instance entry_le_trans : Transitive (entry_le (K:=K) (V:=V)).
Proof. intros x y z. apply (transitivity (R:=key_le)). Qed.

Lemma btree_to_list_perm m : btree_to_list m ≡ₚ map_to_list m.
Proof. apply merge_sort_Permutation. Qed.

Lemma elem_of_btree_to_list m k v : (k, v) ∈ btree_to_list m ↔ m !! k = Some v.
Proof. rewrite btree_to_list_perm. apply elem_of_map_to_list. Qed.

Lemma NoDup_btree_keys m : NoDup (btree_keys m).
Proof. unfold btree_keys. rewrite btree_to_list_perm. apply NoDup_fst_map_to_list. Qed.

Lemma NoDup_btree_to_list m : NoDup (btree_to_list m).
Proof. eapply NoDup_fmap_1, NoDup_btree_keys. Qed.

Lemma btree_to_list_sorted m : StronglySorted entry_le (btree_to_list m).
Proof. apply StronglySorted_merge_sort; apply _. Qed.

Lemma btree_keys_sorted m : StronglySorted key_le (btree_keys m).
Proof.
  unfold btree_keys. generalize (btree_to_list_sorted m). generalize (btree_to_list m).
  induction 1 as [|[k v] l Hs IH Hall]; simpl; constructor; [done|].
  apply Forall_fmap. eapply Forall_impl; [done|]. by intros [] ?.
Qed.

Lemma elem_of_btree_values m v : v ∈ btree_values m ↔ ∃ k, m !! k = Some v.
Proof.
  unfold btree_values. rewrite list_elem_of_fmap. split.
  - intros ([k v'] & -> & Hin). exists k. by apply elem_of_btree_to_list.
  - intros [k Hk]. exists (k, v). split; [done|]. by apply elem_of_btree_to_list.
Qed.

Lemma elem_of_btree_keys m k : k ∈ btree_keys m ↔ is_Some (m !! k).
Proof.
  unfold btree_keys. rewrite list_elem_of_fmap. split.
  - intros ([k' v'] & -> & Hin). exists v'. by apply elem_of_btree_to_list.
  - intros [v Hk]. exists (k, v). split; [done|]. by apply elem_of_btree_to_list.
Qed.

Lemma length_btree_to_list m : length (btree_to_list m) = size m.
Proof. by rewrite btree_to_list_perm, length_map_to_list. Qed.

(** Inserting the images of a duplicate-free entry list of [m] into [m]. *)
Lemma lookup_foldl_insert (g : V → V) (l : list (K * V)) m k :
  NoDup l.*1 → (∀ k v, (k, v) ∈ l → m !! k = Some v) →
  foldl (λ acc kv, <[kv.1 := g kv.2]> acc) m l !! k =
    if decide (k ∈ l.*1) then g <$> m !! k else m !! k.
Proof.
  revert m. induction l as [|[k' v'] l IH]; intros m Hnd Hin; [done|].
  apply NoDup_cons in Hnd as [Hni Hnd]. simpl in *.
  rewrite IH; [|done|].
  - destruct (decide (k ∈ l.*1)) as [Hk|Hk].
    + rewrite decide_True by (by right). rewrite lookup_insert_ne; [done|]. by intros ->.
    + destruct (decide (k = k')) as [->|Hne].
      * rewrite decide_True by left. rewrite lookup_insert_eq.
        by rewrite (Hin k' v') by left.
      * rewrite decide_False; [by rewrite lookup_insert_ne|].
        rewrite elem_of_cons. naive_solver.
  - intros k2 v2 H2. rewrite lookup_insert_ne; [apply Hin; by right|].
    intros ->. apply Hni. apply list_elem_of_fmap. by exists (k2, v2).
Qed.

(** A [values_mut()] loop whose new values do not depend on the accumulator
    maps every value, and its accumulator is the fold over the old values. *)
Lemma btree_iter_mut_spec {A} (g : V → V) (h : V → A → A) m a :
  btree_iter_mut (λ v a, (g v, h v a)) m a =
    (g <$> m, foldl (λ a v, h v a) a (btree_values m)).
Proof.
  unfold btree_iter_mut, btree_values.
  assert (∀ l m a,
    foldl (λ (acc : gmap K V * A) (kv : K * V),
       (<[kv.1:=g kv.2]> acc.1, h kv.2 acc.2)) (m, a) l =
    (foldl (λ acc kv, <[kv.1 := g kv.2]> acc) m l, foldl (λ a v, h v a) a l.*2)) as Hsplit.
  { intros l. induction l as [|kv l IH]; intros m' a'; [done|]. simpl. apply IH. }
  rewrite Hsplit. f_equal. apply map_eq. intros k.
  rewrite lookup_foldl_insert, lookup_fmap.
  - case_decide as Hk; [done|]. destruct (m !! k) eqn:E; [|done].
    destruct Hk. apply elem_of_btree_keys. eauto.
  - apply NoDup_btree_keys.
  - intros ? ?. apply elem_of_btree_to_list.
Qed.

Lemma btree_iter_mut_ext {A} (f f' : V → A → V * A) m a :
  (∀ v a, f v a = f' v a) → btree_iter_mut f m a = btree_iter_mut f' m a.
Proof.
  intros Hf. unfold btree_iter_mut. generalize (m, a). generalize (btree_to_list m).
  intros l. induction l as [|kv l IH]; intros acc; [done|]. simpl. rewrite Hf. apply IH.
Qed.

Lemma btree_find_Some p m k v :
  btree_find p m = Some (k, v) →
  m !! k = Some v ∧ p v = true ∧
  ∀ k' v', m !! k' = Some v' → p v' = true → key_le k k'.
Proof.
  unfold btree_find. intros H.
  assert ((k, v) ∈ filter (λ kv, p kv.2 = true) (btree_to_list m)) as Hin.
  { destruct (filter _ _) as [|x l]; [done|]. simpl in H. simplify_eq. left. }
  apply list_elem_of_filter in Hin as [Hp Hin].
  split; [by apply elem_of_btree_to_list|]. split; [done|].
  intros k' v' Hk' Hp'. apply elem_of_btree_to_list in Hk'.
  revert H Hin Hk'. generalize (btree_to_list_sorted m). generalize (btree_to_list m).
  induction 1 as [|[k0 v0] l Hs IH Hall]; [done|].
  rewrite filter_cons. case_decide as Hd; simpl.
  - intros ? _ [?|Hin]%elem_of_cons; simplify_eq; [reflexivity|].
    rewrite Forall_forall in Hall. by apply (Hall (k', v')).
  - intros ? [?|?]%elem_of_cons [?|?]%elem_of_cons; simplify_eq/=; auto.
Qed.

Lemma btree_find_None p m :
  btree_find p m = None ↔ ∀ k v, m !! k = Some v → p v = false.
Proof.
  unfold btree_find. split.
  - intros H k v Hk. destruct (p v) eqn:E; [|done].
    assert ((k, v) ∈ filter (λ kv, p kv.2 = true) (btree_to_list m)) as Hin.
    { apply list_elem_of_filter. split; [done|]. by apply elem_of_btree_to_list. }
    destruct (filter _ _); [by apply not_elem_of_nil in Hin|done].
  - intros H. destruct (filter _ _) as [|[k v] l] eqn:E; [done|].
    assert ((k, v) ∈ filter (λ kv, p kv.2 = true) (btree_to_list m)) as Hin
      by (rewrite E; left).
    apply list_elem_of_filter in Hin as [Hp Hin]. simpl in Hp.
    apply elem_of_btree_to_list, H in Hin. congruence.
Qed.

Lemma btree_collect_app (l : list (K * V)) kv :
  btree_collect (l ++ [kv]) = <[kv.1 := kv.2]> (btree_collect l).
Proof. unfold btree_collect. by rewrite foldl_snoc. Qed.

Lemma lookup_btree_collect_Some (l : list (K * V)) k v :
  btree_collect l !! k = Some v → (k, v) ∈ l.
Proof.
  induction l as [|[k' v'] l IH] using rev_ind; [done|].
  rewrite btree_collect_app. simpl. rewrite lookup_insert.
  case_decide; intros; simplify_eq; apply elem_of_app; [right; left|left; auto].
Qed.

Lemma lookup_btree_collect_None (l : list (K * V)) k :
  btree_collect l !! k = None ↔ k ∉ l.*1.
Proof.
  induction l as [|[k' v'] l IH] using rev_ind; [split; [intros _; apply not_elem_of_nil|done]|].
  rewrite btree_collect_app, fmap_app, not_elem_of_app. simpl.
  rewrite lookup_insert, list_elem_of_singleton. case_decide; naive_solver.
Qed.

(** With distinct keys nothing is replaced. *)
Lemma lookup_btree_collect (l : list (K * V)) k v :
  NoDup l.*1 → btree_collect l !! k = Some v ↔ (k, v) ∈ l.
Proof.
  intros Hnd. split; [apply lookup_btree_collect_Some|]. intros Hin.
  destruct (btree_collect l !! k) as [v'|] eqn:E.
  - apply lookup_btree_collect_Some in E. f_equal.
    by eapply NoDup_fst_functional.
  - apply lookup_btree_collect_None in E. destruct E.
    apply list_elem_of_fmap. by exists (k, v).
Qed.
End btree_lemmas.

Lemma elem_of_bset_elements {K} `{!KeyType K} (s : gset K) k : k ∈ bset_elements s ↔ k ∈ s.
Proof. unfold bset_elements. rewrite merge_sort_Permutation. apply elem_of_elements. Qed.

Lemma NoDup_bset_elements {K} `{!KeyType K} (s : gset K) : NoDup (bset_elements s).
Proof. unfold bset_elements. rewrite merge_sort_Permutation. apply NoDup_elements. Qed.

(** ** Computations that can panic or loop *)

(** How they end: with a value, with a panic, or by running out of the fuel of the
    model. *)
Inductive loop_result (A : Type) :=
| Finished (a : A)
| Panicked
| OutOfFuel.
Arguments Finished {A} a.
Arguments Panicked {A}.
Arguments OutOfFuel {A}.

(** A fallible computation of that kind. *)
Definition eff (E A : Type) : Type := loop_result (result E A).
#[export] Instance eff_ret E : MRet (eff E) := λ A a, Finished (Ok a).
#[export] Instance eff_bind E : MBind (eff E) := λ A B f m,
  match m with
  | Finished (Ok a) => f a
  | Finished (Err e) => Finished (Err e)
  | Panicked => Panicked
  | OutOfFuel => OutOfFuel
  end.

(** A step that cannot panic. *)
Definition lift {E A} (m : result E A) : eff E A := Finished m.
(** [map_err] on such a computation. *)
Definition eff_map_err {E E' A} (f : E → E') (m : eff E A) : eff E' A :=
  match m with
  | Finished r => Finished (map_err f r)
  | Panicked => Panicked
  | OutOfFuel => OutOfFuel
  end.
(** [expect] on an option. *)
Definition expect {E A} (o : option A) : eff E A :=
  match o with Some a => Finished (Ok a) | None => Panicked end.

Lemma eff_bind_Ok {E A B} (m : eff E A) (f : A → eff E B) b :
  m ≫= f = Finished (Ok b) ↔ ∃ a, m = Finished (Ok a) ∧ f a = Finished (Ok b).
Proof. destruct m as [[a|e]| |]; simpl; naive_solver. Qed.

(** A loop that threads a value. *)
Fixpoint eff_fold {E A B} (f : B → A → eff E B) (l : list A) (b : B) : eff E B :=
  match l with
  | [] => mret b
  | a :: l => b' ← f b a; eff_fold f l b'
  end.

Lemma eff_fold_app {E A B} (f : B → A → eff E B) l1 l2 b :
  eff_fold f (l1 ++ l2) b = eff_fold f l1 b ≫= eff_fold f l2.
Proof.
  revert b. induction l1 as [|a l1 IH]; intros b; [done|]. simpl.
  destruct (f b a) as [[b'|e]| |]; simpl; [apply IH|done..].
Qed.

(** ** Ranges of blocks *)

Section items.
Context {A : Type}.
Open Scope Z_scope.

(** The items of a list whose block is in a range. *)
Definition items_in (f : A → Z) (from to : Z) (l : list A) : list A :=
  filter (λ x, from ≤ f x ≤ to) l.

Lemma items_in_empty (f : A → Z) from to l : to < from → items_in f from to l = [].
Proof.
  intros Hlt. unfold items_in. induction l as [|b l IH]; [done|].
  rewrite filter_cons, decide_False by lia. apply IH.
Qed.

Lemma items_in_nil (f : A → Z) from to l : (∀ b, b ∈ l → to < f b) → items_in f from to l = [].
Proof.
  intros Hl. unfold items_in. induction l as [|b l IH]; [done|].
  rewrite filter_cons, decide_False; [apply IH; set_solver|]. pose proof (Hl b ltac:(left)). lia.
Qed.

Lemma items_in_app (f : A → Z) from mid to l :
  StronglySorted (λ a b, f a ≤ f b) l → from - 1 ≤ mid → mid ≤ to →
  items_in f from mid l ++ items_in f (mid + 1) to l = items_in f from to l.
Proof.
  intros Hs Hfm Hmt. induction Hs as [|b l Hs IH Hall]; [done|].
  unfold items_in in *. rewrite !filter_cons.
  destruct (decide (from ≤ f b ≤ mid)), (decide (mid + 1 ≤ f b ≤ to)),
    (decide (from ≤ f b ≤ to)); try lia; simpl.
  - f_equal. apply IH.
  - assert (items_in f from mid l = []) as Hn.
    { apply items_in_nil. intros b' Hb'. rewrite Forall_forall in Hall.
      specialize (Hall _ Hb'). lia. }
    unfold items_in in Hn. rewrite <-IH, Hn. done.
  - apply IH.
Qed.
End items.
