(* ===== verification/Stable.v ===== *)
(** * Stable sorting and the latest value of a key

    [sort_by_key] of a slice is stable: equal elements keep their order.  Sorting
    updates by block and collecting them into an ordered map keeps, for each key, the
    last of the updates in its greatest block. *)

From S2P Require Import Prelude.
From Stdlib Require Import ZArith.
From stdpp Require Import base gmap list sorting relations.

Section sort.
Context {A K : Type} `{!KeyType K} (f : A → K).

Fixpoint insert_by_key (a : A) (l : list A) : list A :=
  match l with
  | [] => [a]
  | b :: l' => if decide (key_le (f a) (f b)) then a :: l else b :: insert_by_key a l'
  end.

(** [sort_by_key(f)]. *)
Definition sort_by_key (l : list A) : list A := foldr insert_by_key [] l.

Lemma insert_by_key_perm a l : insert_by_key a l ≡ₚ a :: l.
Proof.
  induction l as [|b l IH]; [done|]. cbn. case_decide; [done|]. rewrite IH. apply Permutation_swap.
Qed.

Lemma sort_by_key_perm l : sort_by_key l ≡ₚ l.
Proof. induction l as [|a l IH]; [done|]. cbn. by rewrite insert_by_key_perm, IH. Qed.

Lemma insert_by_key_sorted a l :
  StronglySorted (λ x y, key_le (f x) (f y)) l → StronglySorted (λ x y, key_le (f x) (f y)) (insert_by_key a l).
Proof.
  induction 1 as [|b l Hs IH Hall]; [by repeat constructor|]. cbn. case_decide as Hab.
  - constructor; [by constructor|]. constructor; [done|].
    eapply Forall_impl; [done|]. intros x Hx. by transitivity (f b).
  - constructor; [done|]. rewrite insert_by_key_perm. constructor; [|done].
    by destruct (key_le_total (f a) (f b)).
Qed.

Lemma sort_by_key_sorted l : StronglySorted (λ x y, key_le (f x) (f y)) (sort_by_key l).
Proof. induction l; [constructor|]. by apply insert_by_key_sorted. Qed.

(** Stability: sorting commutes with leaving elements out. *)
Lemma filter_insert_by_key (P : A → Prop) `{!∀ x, Decision (P x)} a l :
  StronglySorted (λ x y, key_le (f x) (f y)) l →
  filter P (insert_by_key a l) = if decide (P a) then insert_by_key a (filter P l) else filter P l.
Proof.
  induction 1 as [|b l Hs IH Hall]; cbn -[filter].
  { rewrite filter_cons, filter_nil. by case_decide. }
  destruct (decide (key_le (f a) (f b))) as [Hab|Hab].
  - rewrite !filter_cons. destruct (decide (P a)); [|done].
    destruct (decide (P b)); cbn [insert_by_key]; [by rewrite (decide_True _ _ Hab)|].
    destruct (filter P l) as [|c l'] eqn:El; [done|]. cbn. rewrite decide_True; [done|].
    transitivity (f b); [done|]. rewrite Forall_forall in Hall. apply Hall.
    eapply (list_elem_of_filter P). rewrite El. left.
  - rewrite !filter_cons, IH. destruct (decide (P a)), (decide (P b)); cbn [insert_by_key]; [by rewrite (decide_False _ _ Hab)|done..].
Qed.

Lemma filter_sort_by_key (P : A → Prop) `{!∀ x, Decision (P x)} l :
  filter P (sort_by_key l) = sort_by_key (filter P l).
Proof.
  induction l as [|a l IH]; [done|]. cbn [sort_by_key foldr]. fold (sort_by_key l).
  rewrite filter_insert_by_key by apply sort_by_key_sorted. rewrite IH, filter_cons. by case_decide.
Qed.

(** [x] is the last of the greatest elements. *)
Definition last_greatest (l : list A) (x : A) : Prop :=
  ∃ l1 l2, l = l1 ++ x :: l2 ∧ (∀ y, y ∈ l1 → key_le (f y) (f x)) ∧
    (∀ y, y ∈ l2 → key_le (f y) (f x) ∧ f y ≠ f x).

Lemma insert_by_key_greatest a l :
  (∀ c, c ∈ l → ¬ key_le (f a) (f c)) → insert_by_key a l = l ++ [a].
Proof.
  induction l as [|c l IH]; [done|]. intros Hl. cbn. rewrite decide_False by (apply Hl; left).
  f_equal. apply IH. intros. apply Hl. by right.
Qed.

Lemma last_insert_by_key a l b :
  last l = Some b → key_le (f a) (f b) → last (insert_by_key a l) = Some b.
Proof.
  intros El Hab. revert El. induction l as [|c l IH]; [done|]. intros El.
  cbn [insert_by_key]. destruct (decide (key_le (f a) (f c))) as [Hac|Hac].
  - by rewrite last_cons, El.
  - rewrite last_cons in El. destruct (last l) as [b'|].
    + rewrite last_cons, IH; congruence.
    + exfalso. apply Hac. congruence.
Qed.

Lemma last_sort_by_key l x : last (sort_by_key l) = Some x → last_greatest l x.
Proof.
  revert x. induction l as [|a l IH]; intros x; [done|]. cbn [sort_by_key foldr]. fold (sort_by_key l).
  pose proof (sort_by_key_perm l) as Hp. pose proof (sort_by_key_sorted l) as Hs.
  destruct (last (sort_by_key l)) as [b|] eqn:El.
  2: { apply last_None in El. rewrite El in *. apply Permutation_nil in Hp as ->.
       cbn. intros [= <-]. by exists [], []; split_and!; set_solver. }
  destruct (IH b eq_refl) as (l1 & l2 & -> & H1 & H2).
  destruct (decide (key_le (f a) (f b))) as [Hab|Hab].
  - rewrite (last_insert_by_key _ _ b) by done. intros [= <-]. exists (a :: l1), l2.
    split_and!; [done| |done]. intros y [->|?]%elem_of_cons; auto.
  - assert (∀ c, c ∈ l1 ++ b :: l2 → key_le (f c) (f b)) as Hle.
    { intros c. rewrite elem_of_app, elem_of_cons. intros [?|[->|?]]; [auto|done|by apply H2]. }
    rewrite insert_by_key_greatest.
    2: { intros c Hc Hac. rewrite Hp in Hc. apply Hab. transitivity (f c); [done|by apply Hle]. }
    rewrite last_snoc. intros [= <-]. exists [], (l1 ++ b :: l2). split_and!; [done|set_solver|].
    intros c Hc%Hle. destruct (key_le_total (f a) (f b)) as [|Hba]; [done|].
    split; [by transitivity (f b)|]. intros Heq. apply Hab. by rewrite <-Heq.
Qed.
End sort.

(** The last entry of a key wins in a map that is collected. *)
Lemma lookup_btree_collect_last {K V} `{!KeyType K} (l : list (K * V)) k :
  btree_collect l !! k = snd <$> last (filter (λ kv, kv.1 = k) l).
Proof.
  induction l as [|[k' v] l IH] using rev_ind; [done|].
  rewrite btree_collect_app, filter_app. cbn [fst snd]. rewrite lookup_insert.
  rewrite filter_cons, filter_nil. cbn [fst]. case_decide; [by rewrite last_snoc|]. by rewrite app_nil_r.
Qed.

Section latest.
Context {U B K V : Type} `{!KeyType B} `{!KeyType K} (block : U → B) (key : U → K) (value : U → V).

(** Updates collected in the order of their blocks. *)
Definition collect_latest (l : list U) : gmap K V :=
  btree_collect ((λ u, (key u, value u)) <$> sort_by_key block l).

Lemma lookup_collect_latest l k :
  collect_latest l !! k = value <$> last (sort_by_key block (filter (λ u, key u = k) l)).
Proof.
  unfold collect_latest. rewrite lookup_btree_collect_last, <-filter_sort_by_key.
  generalize (sort_by_key block l). intros l'. induction l' as [|u l' IH] using rev_ind; [done|].
  rewrite fmap_app, !filter_app, !filter_cons, !filter_nil. cbn [fmap list_fmap]. 
  rewrite filter_cons, filter_nil. cbn [fst]. case_decide; [by rewrite !last_snoc|].
  by rewrite !app_nil_r.
Qed.

(** The value of a key is that of the last update in its greatest block. *)
Lemma collect_latest_Some l k v :
  collect_latest l !! k = Some v →
  ∃ u, last_greatest block (filter (λ u, key u = k) l) u ∧ value u = v.
Proof.
  rewrite lookup_collect_latest, fmap_Some. intros (u & Hu & ->).
  exists u. split; [by apply last_sort_by_key|done].
Qed.

Lemma collect_latest_None l k : collect_latest l !! k = None ↔ ∀ u, u ∈ l → key u ≠ k.
Proof.
  rewrite lookup_collect_latest, fmap_None, last_None. split.
  - intros Hn u Hu <-. eapply (not_elem_of_nil u). rewrite <-Hn, sort_by_key_perm.
    by apply list_elem_of_filter.
  - intros Hn. destruct (filter _ l) as [|u l'] eqn:El; [done|]. destruct (Hn u).
    + apply (list_elem_of_filter (λ u, key u = k)). rewrite El. left.
    + apply (list_elem_of_filter (λ u, key u = k) l). rewrite El. left.
Qed.
End latest.
