(* ===== verification/Protocol.v ===== *)
(** * The protocol crates the client is built on

    The client crate takes its identifiers, notes, block headers, accounts and
    Merkle structures from [miden-protocol], [miden-standards] and [miden-tx],
    which are not part of the repository.  They are the parameters of the
    model: the class [Protocol] lists the types and functions the client uses,
    the enums the client matches on are the inductive types of this file, and
    [ProtocolLaws] states the documented behaviour that some theorems rely on. *)

From S2P Require Import Prelude.
From Stdlib Require Import ZArith.
From stdpp Require Import base gmap list strings.

(** [BlockNumber] wraps a [u32]; [u16], [u32], [u64] and [usize] values are
    integers whose range is stated where it matters. *)
Abbreviation BlockNumber := Z (only parsing).
Abbreviation u8 := Z (only parsing).
Abbreviation u16 := Z (only parsing).
Abbreviation u32 := Z (only parsing).
Abbreviation u64 := Z (only parsing).

Class Protocol := {
  (* Identifiers: all of them are used as keys of ordered maps. *)
  Word : Type;
  Word_key :: KeyType Word;
  NoteId : Type;
  NoteId_key :: KeyType NoteId;
  NoteId_display : NoteId → string;
  Nullifier : Type;
  Nullifier_key :: KeyType Nullifier;
  TransactionId : Type;
  TransactionId_key :: KeyType TransactionId;
  AccountId : Type;
  AccountId_key :: KeyType AccountId;
  NoteTag : Type;
  NoteTag_key :: KeyType NoteTag;
  Nullifier_as_word : Nullifier → Word;
  Nullifier_prefix : Nullifier → u16;
  AccountId_is_private : AccountId → bool;
  (* Assets. *)
  FungibleAsset : Type;
  FungibleAsset_faucet_id : FungibleAsset → AccountId;
  FungibleAsset_amount : FungibleAsset → u64;
  NonFungibleAsset : Type;
  NonFungibleAsset_eq_dec :: EqDecision NonFungibleAsset;
  NonFungibleAsset_faucet_id : NonFungibleAsset → AccountId;
  (* The parts of a note. *)
  NoteAssets : Type;
  NoteAssets_eq_dec :: EqDecision NoteAssets;
  NoteAssets_commitment : NoteAssets → Word;
  NoteAssets_items : NoteAssets → list (FungibleAsset + NonFungibleAsset);
  NoteRecipient : Type;
  NoteRecipient_eq_dec :: EqDecision NoteRecipient;
  NoteRecipient_digest : NoteRecipient → Word;
  NoteRecipient_script_root : NoteRecipient → Word;
  NoteRecipient_storage_commitment : NoteRecipient → Word;
  NoteRecipient_serial_num : NoteRecipient → Word;
  NoteType : Type;
  NoteType_eq_dec :: EqDecision NoteType;
  NoteType_Private : NoteType;
  NoteMetadata : Type;
  NoteMetadata_eq_dec :: EqDecision NoteMetadata;
  NoteMetadata_tag : NoteMetadata → NoteTag;
  NoteMetadata_note_type : NoteMetadata → NoteType;
  NoteMetadata_sender : NoteMetadata → AccountId;
  NoteAttachmentKind : Type;
  NoteId_new : Word → Word → NoteId;
  Nullifier_new : Word → Word → Word → Word → Nullifier;
  compute_note_commitment : NoteId → NoteMetadata → Word;
  NoteHeader_to_commitment : NoteId → NoteMetadata → Word;
  (* Notes. *)
  NoteDetails : Type;
  NoteDetails_eq_dec :: EqDecision NoteDetails;
  NoteDetails_new : NoteAssets → NoteRecipient → NoteDetails;
  NoteDetails_assets : NoteDetails → NoteAssets;
  NoteDetails_recipient : NoteDetails → NoteRecipient;
  NoteDetails_id : NoteDetails → NoteId;
  NoteDetails_nullifier : NoteDetails → Nullifier;
  Note : Type;
  Note_new : NoteAssets → NoteMetadata → NoteRecipient → Note;
  Note_assets : Note → NoteAssets;
  Note_metadata : Note → NoteMetadata;
  Note_recipient : Note → NoteRecipient;
  Note_id : Note → NoteId;
  Note_nullifier : Note → Nullifier;
  Note_into_details : Note → NoteDetails;
  PartialNote : Type;
  PartialNote_of_note : Note → PartialNote;
  PartialNote_id : PartialNote → NoteId;
  PartialNote_assets : PartialNote → NoteAssets;
  PartialNote_metadata : PartialNote → NoteMetadata;
  PartialNote_recipient_digest : PartialNote → Word;
  NoteScript : Type;
  (* Inclusion proofs and block headers. *)
  NotePath : Type;
  NotePath_verify : NotePath → u64 → Word → Word → bool;
  NoteInclusionProof : Type;
  NoteInclusionProof_eq_dec :: EqDecision NoteInclusionProof;
  proof_block_num : NoteInclusionProof → BlockNumber;
  proof_block_note_tree_index : NoteInclusionProof → u64;
  proof_note_path : NoteInclusionProof → NotePath;
  BlockHeader : Type;
  BlockHeader_block_num : BlockHeader → BlockNumber;
  BlockHeader_note_root : BlockHeader → Word;
  BlockHeader_commitment : BlockHeader → Word;
  BlockHeader_timestamp : BlockHeader → u32;
  (* Transactions. *)
  TransactionScript : Type;
  RawOutputNotes : Type;
  TransactionHeader : Type;
  TransactionHeader_id : TransactionHeader → TransactionId;
  TransactionHeader_account_id : TransactionHeader → AccountId;
  TransactionHeader_initial_state_commitment : TransactionHeader → Word;
  TransactionHeader_final_state_commitment : TransactionHeader → Word;
  TransactionHeader_input_notes : TransactionHeader → list Nullifier;
  (* Accounts. *)
  AccountHeader : Type;
  AccountHeader_id : AccountHeader → AccountId;
  AccountHeader_to_commitment : AccountHeader → Word;
  AccountHeader_nonce : AccountHeader → u64;
  Account : Type;
  Account_id : Account → AccountId;
  Account_nonce : Account → u64;
  Account_get_balance : Account → AccountId → option u64;
  (* [has_non_fungible_asset]: [None] is its error. *)
  Account_has_non_fungible_asset : Account → NonFungibleAsset → option bool
}.

Section enums.
Context `{Protocol}.

(** [transaction::RawOutputNote]. *)
Inductive RawOutputNote :=
| RawOutputNote_Full (note : Note)
| RawOutputNote_Partial (partial_note : PartialNote).

(** [transaction::InputNote]. *)
Inductive InputNote :=
| InputNote_Authenticated (note : Note) (proof : NoteInclusionProof)
| InputNote_Unauthenticated (note : Note).

Definition InputNote_note (n : InputNote) : Note :=
  match n with
  | InputNote_Authenticated note _ => note
  | InputNote_Unauthenticated note => note
  end.

(** [note::NoteFile]. *)
Inductive NoteFile :=
| NoteFile_NoteId (id : NoteId)
| NoteFile_NoteDetails (details : NoteDetails) (after_block_num : BlockNumber) (tag : option NoteTag)
| NoteFile_NoteWithProof (note : Note) (proof : NoteInclusionProof).

(** [asset::Asset]. *)
Inductive Asset :=
| Asset_Fungible (a : FungibleAsset)
| Asset_NonFungible (a : NonFungibleAsset).

(** [NoteAssets::iter]. *)
Definition NoteAssets_iter (a : NoteAssets) : list Asset :=
  (λ x, match x with inl f => Asset_Fungible f | inr n => Asset_NonFungible n end)
    <$> NoteAssets_items a.
End enums.

(** Documented behaviour of the protocol types: accessors of constructed values,
    and the derivation of note identifiers and nullifiers from the recipient and
    the assets. *)
Class ProtocolLaws `{Protocol} : Prop := {
  Note_new_assets a m r : Note_assets (Note_new a m r) = a;
  Note_new_metadata a m r : Note_metadata (Note_new a m r) = m;
  Note_new_recipient a m r : Note_recipient (Note_new a m r) = r;
  Note_eta n : Note_new (Note_assets n) (Note_metadata n) (Note_recipient n) = n;
  Note_details_assets n : NoteDetails_assets (Note_into_details n) = Note_assets n;
  Note_details_recipient n : NoteDetails_recipient (Note_into_details n) = Note_recipient n;
  NoteDetails_new_assets a r : NoteDetails_assets (NoteDetails_new a r) = a;
  NoteDetails_new_recipient a r : NoteDetails_recipient (NoteDetails_new a r) = r;
  NoteDetails_eta d : NoteDetails_new (NoteDetails_assets d) (NoteDetails_recipient d) = d;
  NoteDetails_id_spec d :
    NoteDetails_id d = NoteId_new (NoteRecipient_digest (NoteDetails_recipient d))
                                  (NoteAssets_commitment (NoteDetails_assets d));
  NoteDetails_nullifier_spec d :
    NoteDetails_nullifier d =
      Nullifier_new (NoteRecipient_script_root (NoteDetails_recipient d))
        (NoteRecipient_storage_commitment (NoteDetails_recipient d))
        (NoteAssets_commitment (NoteDetails_assets d))
        (NoteRecipient_serial_num (NoteDetails_recipient d));
  Note_id_spec n : Note_id n = NoteDetails_id (Note_into_details n);
  Note_nullifier_spec n : Note_nullifier n = NoteDetails_nullifier (Note_into_details n);
  PartialNote_of_note_spec n :
    PartialNote_assets (PartialNote_of_note n) = Note_assets n ∧
    PartialNote_metadata (PartialNote_of_note n) = Note_metadata n ∧
    PartialNote_recipient_digest (PartialNote_of_note n) = NoteRecipient_digest (Note_recipient n);
  (* The note identifier is a collision-resistant hash of the recipient digest and
     the asset commitment, and the recipient digest one of the serial number, the
     script root and the storage commitment. *)
  NoteId_new_inj a b a' b' : NoteId_new a b = NoteId_new a' b' → a = a' ∧ b = b';
  NoteRecipient_digest_inj r r' :
    NoteRecipient_digest r = NoteRecipient_digest r' →
    NoteRecipient_script_root r = NoteRecipient_script_root r' ∧
    NoteRecipient_storage_commitment r = NoteRecipient_storage_commitment r' ∧
    NoteRecipient_serial_num r = NoteRecipient_serial_num r';
  NoteRecipient_digest_ext r r' :
    NoteRecipient_script_root r = NoteRecipient_script_root r' →
    NoteRecipient_storage_commitment r = NoteRecipient_storage_commitment r' →
    NoteRecipient_serial_num r = NoteRecipient_serial_num r' →
    NoteRecipient_digest r = NoteRecipient_digest r';
  (* The nullifier is a collision-resistant hash of its four arguments. *)
  Nullifier_new_inj a b c d a' b' c' d' :
    Nullifier_new a b c d = Nullifier_new a' b' c' d' → a = a' ∧ b = b' ∧ c = c' ∧ d = d'
}.

Section law_lemmas.
Context `{ProtocolLaws}.

(** Two details with the same identifier have the same nullifier. *)
Lemma details_id_nullifier d d' :
  NoteDetails_id d = NoteDetails_id d' → NoteDetails_nullifier d = NoteDetails_nullifier d'.
Proof.
  rewrite !NoteDetails_id_spec, !NoteDetails_nullifier_spec.
  intros [Hr Ha]%NoteId_new_inj. apply NoteRecipient_digest_inj in Hr as (-> & -> & ->).
  by rewrite Ha.
Qed.

(** Two details with the same nullifier have the same identifier. *)
Lemma details_nullifier_id d d' :
  NoteDetails_nullifier d = NoteDetails_nullifier d' → NoteDetails_id d = NoteDetails_id d'.
Proof.
  rewrite !NoteDetails_id_spec, !NoteDetails_nullifier_spec.
  intros (H1 & H2 & H3 & H4)%Nullifier_new_inj. by rewrite H3, (NoteRecipient_digest_ext _ _ H1 H2 H4).
Qed.

Lemma note_rebuild n :
  Note_new (NoteDetails_assets (Note_into_details n)) (Note_metadata n)
    (NoteDetails_recipient (Note_into_details n)) = n.
Proof. rewrite Note_details_assets, Note_details_recipient. apply Note_eta. Qed.
End law_lemmas.
