(* ===== verification/Serde.v ===== *)
(** * Binary serialization

    The client's [Serializable]/[Deserializable] implementations write the
    fields of a value one after the other and read them back in order.  A
    [codec] is such a pair for one type; the codecs of the primitive and of the
    protocol types come from [miden_tx::utils::serde] and are parameters
    ([SerdeLib]), whose documented round trip is [SerdeLaws].  [CodecOk]
    propagates the round trip to the client's own types by instance search. *)

From S2P Require Import Prelude Protocol.
From Stdlib Require Import ZArith Lia.
From stdpp Require Import base gmap list strings.

Inductive DeserializationError :=
| InvalidValue (msg : string)
| UnexpectedEOF
| UnknownError (msg : string).

Abbreviation bytes := (list Z) (only parsing).

(** A [Deserializable::read_from] on the bytes that are left in the source. *)
Definition reader (A : Type) : Type := bytes → result DeserializationError (A * bytes).

Definition rret {A} (a : A) : reader A := λ src, Ok (a, src).
Definition rerr {A} (e : DeserializationError) : reader A := λ _, Err e.
(** [let x = m?; k]. *)
Definition rbind {A B} (m : reader A) (k : A → reader B) : reader B :=
  λ src, match m src with Ok (a, rest) => k a rest | Err e => Err e end.

Declare Scope serde_scope.
Delimit Scope serde_scope with serde.
Notation "x <~ m ;; k" := (rbind m (λ x, k))
  (at level 100, m at next level, right associativity) : serde_scope.
Open Scope serde_scope.

(** [ByteReader::read_u8] and [ByteWriter::write_u8]. *)
Definition read_u8 : reader u8 := λ src,
  match src with b :: rest => Ok (b, rest) | [] => Err UnexpectedEOF end.
Definition write_u8 (b : u8) : bytes := [b].

Record codec (A : Type) := Codec {
  write_into : A → bytes;
  read_from : reader A
}.
Arguments Codec {A} _ _.
Arguments write_into {A} _ _.
Arguments read_from {A} _ _.

(** [wf] is the range of the integers inside the value; the whole value is read
    back, and nothing after it is consumed. *)
Class CodecOk {A} (c : codec A) (wf : A → Prop) : Prop :=
  codec_ok : ∀ a rest, wf a → read_from c (write_into c a ++ rest) = Ok (a, rest).

(** The serialization library's codecs. *)
Class SerdeLib `{Protocol} := {
  u16_codec : codec u16;
  u32_codec : codec u32;
  u64_codec : codec u64;
  option_codec {A} : codec A → codec (option A);
  vec_codec {A} : codec A → codec (list A);
  pair_codec {A B} : codec A → codec B → codec (A * B);
  BlockNumber_codec : codec BlockNumber;
  Word_codec : codec Word;
  NoteId_codec : codec NoteId;
  AccountId_codec : codec AccountId;
  TransactionId_codec : codec TransactionId;
  NoteTag_codec : codec NoteTag;
  NoteMetadata_codec : codec NoteMetadata;
  NoteInclusionProof_codec : codec NoteInclusionProof;
  NoteRecipient_codec : codec NoteRecipient;
  NoteDetails_codec : codec NoteDetails;
  RawOutputNotes_codec : codec RawOutputNotes
}.

Definition opt_wf {A} (wf : A → Prop) (o : option A) : Prop :=
  match o with Some a => wf a | None => True end.

(** A [Vec] of valid elements; its length is a [usize]. *)
Definition vec_wf {A} (wf : A → Prop) (l : list A) : Prop :=
  Forall wf l ∧ (Z.of_nat (length l) ≤ U64_MAX)%Z.

Definition any {A} (_ : A) : Prop := True.

Class SerdeLaws `{SerdeLib} : Prop := {
  u16_codec_ok :: CodecOk u16_codec (in_range U16_MAX);
  u32_codec_ok :: CodecOk u32_codec (in_range U32_MAX);
  u64_codec_ok :: CodecOk u64_codec (in_range U64_MAX);
  option_codec_ok A (c : codec A) wf :: CodecOk c wf → CodecOk (option_codec c) (opt_wf wf);
  vec_codec_ok A (c : codec A) wf :: CodecOk c wf → CodecOk (vec_codec c) (vec_wf wf);
  pair_codec_ok A B (c : codec A) (d : codec B) wf wf' ::
    CodecOk c wf → CodecOk d wf' → CodecOk (pair_codec c d) (λ p, wf p.1 ∧ wf' p.2);
  BlockNumber_codec_ok :: CodecOk BlockNumber_codec (in_range U32_MAX);
  Word_codec_ok :: CodecOk Word_codec any;
  NoteId_codec_ok :: CodecOk NoteId_codec any;
  AccountId_codec_ok :: CodecOk AccountId_codec any;
  TransactionId_codec_ok :: CodecOk TransactionId_codec any;
  NoteTag_codec_ok :: CodecOk NoteTag_codec any;
  NoteMetadata_codec_ok :: CodecOk NoteMetadata_codec any;
  NoteInclusionProof_codec_ok :: CodecOk NoteInclusionProof_codec any;
  NoteRecipient_codec_ok :: CodecOk NoteRecipient_codec any;
  NoteDetails_codec_ok :: CodecOk NoteDetails_codec any;
  RawOutputNotes_codec_ok :: CodecOk RawOutputNotes_codec any
}.

(** One step of a round trip: the first field is read back and the rest of the
    reader continues on the remaining bytes. *)
Lemma rbind_codec {A B} (c : codec A) wf `{!CodecOk c wf} a rest (k : A → reader B) :
  wf a → rbind (read_from c) k (write_into c a ++ rest) = k a rest.
Proof. intros Ha. unfold rbind. by rewrite (codec_ok _ _ Ha). Qed.

Lemma rbind_u8 {B} b rest (k : u8 → reader B) :
  rbind read_u8 k (b :: rest) = k b rest.
Proof. done. Qed.

Lemma any_intro {A} (a : A) : any a.
Proof. exact I. Qed.

Lemma opt_any {A} (o : option A) : opt_wf any o.
Proof. by destruct o. Qed.

Lemma vec_any {A} (l : list A) : (Z.of_nat (length l) ≤ U64_MAX)%Z → vec_wf any l.
Proof. intros Hl. split; [by apply Forall_true|done]. Qed.

#[export] Hint Resolve any_intro opt_any vec_any : miden.

(** Reads the fields back one by one; the range conditions are in the context,
    possibly behind conjunctions. *)
Ltac roundtrip_step :=
  match goal with
  | |- rbind read_u8 _ _ = _ => rewrite rbind_u8; simpl
  | |- rbind (read_from ?c) ?k (write_into ?c ?a ++ ?rest) = _ =>
      rewrite (rbind_codec c _ a rest k)
        by (first [eassumption | solve [eauto 3 with miden] | (simpl in *; tauto)])
  end.

Ltac roundtrip :=
  repeat rewrite <-app_assoc; simpl;
  repeat roundtrip_step; try reflexivity.

(** ** Little-endian integers

    The format the library documents for fixed-width integers, used to show
    that the laws above are satisfiable. *)

Fixpoint le_write (n : nat) (z : Z) : bytes :=
  match n with
  | O => []
  | S n => (z `mod` 256)%Z :: le_write n (z `div` 256)%Z
  end.

Fixpoint le_read (n : nat) : reader Z :=
  match n with
  | O => rret 0%Z
  | S n => b <~ read_u8 ;; z <~ le_read n ;; rret (b + 256 * z)%Z
  end.

Definition le_codec (n : nat) : codec Z := Codec (le_write n) (le_read n).

Lemma le_read_write n : ∀ z rest,
  (0 ≤ z < 256 ^ Z.of_nat n)%Z → le_read n (le_write n z ++ rest) = Ok (z, rest).
Proof.
  induction n as [|n IH]; intros z rest Hz.
  - simpl in *. unfold rret. repeat f_equal. lia.
  - simpl. unfold rbind at 1, read_u8. unfold rbind. rewrite IH.
    + unfold rret. repeat f_equal. pose proof (Z.div_mod z 256). lia.
    + rewrite Nat2Z.inj_succ, Z.pow_succ_r in Hz by lia. split.
      * apply Z.div_pos; lia.
      * apply Z.div_lt_upper_bound; lia.
Qed.

Definition le_option_codec {A} (c : codec A) : codec (option A) :=
  Codec (λ o, match o with Some a => write_u8 1 ++ write_into c a | None => write_u8 0 end)
    (t <~ read_u8 ;;
     if (t =? 0)%Z then rret None
     else if (t =? 1)%Z then a <~ read_from c ;; rret (Some a)
     else rerr (InvalidValue "option")).

Lemma le_option_codec_ok {A} (c : codec A) wf :
  CodecOk c wf → CodecOk (le_option_codec c) (opt_wf wf).
Proof.
  intros Hc [a|] rest Ha; simpl in *; [|done].
  unfold rbind at 1. simpl. by rewrite (rbind_codec c wf) by done.
Qed.

Fixpoint read_many {A} (c : codec A) (n : nat) : reader (list A) :=
  match n with
  | O => rret []
  | S n => a <~ read_from c ;; l <~ read_many c n ;; rret (a :: l)
  end.

Definition le_vec_codec {A} (c : codec A) : codec (list A) :=
  Codec (λ l, le_write 8 (Z.of_nat (length l)) ++ concat (write_into c <$> l))
    (n <~ le_read 8 ;; read_many c (Z.to_nat n)).

Lemma read_many_ok {A} (c : codec A) wf `{!CodecOk c wf} l rest :
  Forall wf l → read_many c (length l) (concat (write_into c <$> l) ++ rest) = Ok (l, rest).
Proof.
  induction 1 as [|a l Ha Hl IH]; [done|]. simpl. rewrite <-app_assoc.
  rewrite (rbind_codec c wf) by done. unfold rbind. by setoid_rewrite IH.
Qed.

Lemma le_vec_codec_ok {A} (c : codec A) wf :
  CodecOk c wf → CodecOk (le_vec_codec c) (vec_wf wf).
Proof.
  intros Hc l rest [Hl Hlen]. unfold le_vec_codec, read_from, write_into at 1.
  rewrite <-app_assoc. unfold rbind. rewrite le_read_write.
  - rewrite Nat2Z.id. by apply (read_many_ok c wf).
  - unfold U64_MAX in Hlen. split; [lia|]. change (256 ^ Z.of_nat 8)%Z with 18446744073709551616%Z. lia.
Qed.

Definition le_pair_codec {A B} (c : codec A) (d : codec B) : codec (A * B) :=
  Codec (λ p, write_into c p.1 ++ write_into d p.2)
    (a <~ read_from c ;; b <~ read_from d ;; rret (a, b)).

Lemma le_pair_codec_ok {A B} (c : codec A) (d : codec B) wf wf' :
  CodecOk c wf → CodecOk d wf' → CodecOk (le_pair_codec c d) (λ p, wf p.1 ∧ wf' p.2).
Proof.
  intros Hc Hd [a b] rest [Ha Hb]. simpl in *. rewrite <-app_assoc.
  by rewrite (rbind_codec c wf), (rbind_codec d wf').
Qed.
