(* ===== verification/Model.v ===== *)
(** * A concrete protocol

    Small executable instances of the parameters [Protocol] and [SerdeLib], with
    their laws proved: integers for hashes, pairs for structured values and a
    Merkle path that verifies by addition.  They show that the laws can hold
    together, and the theorems' witnesses evaluate the client on them. *)

From S2P Require Import Prelude Protocol Serde.
From Stdlib Require Import ZArith Lia.
From stdpp Require Import base gmap list strings.

Open Scope Z_scope.

(** Asset lists carry their commitment next to their items. *)
Definition toy_assets : Type := Z * list ((Z * Z) + (Z * Z)).
(** Tag, privacy and sender. *)
Definition toy_metadata : Type := Z * bool * Z.
(** Block number, index in the note tree and path. *)
Definition toy_proof : Type := Z * Z * Z.

Definition toy_commitment (id : Z * Z) (m : toy_metadata) : Z :=
  id.1 + 10 * id.2 + 100 * m.1.1.

#[export] Instance toy_protocol : Protocol := {|
  Word := Z;
  NoteId := Z * Z;
  NoteId_display := λ _, EmptyString;
  Nullifier := (Z * Z) * (Z * Z);
  TransactionId := Z;
  AccountId := Z;
  NoteTag := Z;
  Nullifier_as_word := λ n, n.2.2;
  Nullifier_prefix := λ n, n.2.2 `mod` 65536;
  AccountId_is_private := λ a, a <? 0;
  FungibleAsset := Z * Z;
  FungibleAsset_faucet_id := fst;
  FungibleAsset_amount := snd;
  NonFungibleAsset := Z * Z;
  NonFungibleAsset_faucet_id := fst;
  NoteAssets := toy_assets;
  NoteAssets_commitment := fst;
  NoteAssets_items := snd;
  NoteRecipient := Z;
  NoteRecipient_digest := λ r, r;
  NoteRecipient_script_root := λ r, r;
  NoteRecipient_storage_commitment := λ r, r;
  NoteRecipient_serial_num := λ r, r;
  NoteType := bool;
  NoteType_Private := true;
  NoteMetadata := toy_metadata;
  NoteMetadata_tag := λ m, m.1.1;
  NoteMetadata_note_type := λ m, m.1.2;
  NoteMetadata_sender := λ m, m.2;
  NoteAttachmentKind := Z;
  NoteId_new := λ r a, (r, a);
  Nullifier_new := λ s t a n, ((s, t), (a, n));
  compute_note_commitment := toy_commitment;
  NoteHeader_to_commitment := toy_commitment;
  NoteDetails := toy_assets * Z;
  NoteDetails_new := pair;
  NoteDetails_assets := fst;
  NoteDetails_recipient := snd;
  NoteDetails_id := λ d, (d.2, d.1.1);
  NoteDetails_nullifier := λ d, ((d.2, d.2), (d.1.1, d.2));
  Note := toy_assets * toy_metadata * Z;
  Note_new := λ a m r, (a, m, r);
  Note_assets := λ n, n.1.1;
  Note_metadata := λ n, n.1.2;
  Note_recipient := λ n, n.2;
  Note_id := λ n, (n.2, n.1.1.1);
  Note_nullifier := λ n, ((n.2, n.2), (n.1.1.1, n.2));
  Note_into_details := λ n, (n.1.1, n.2);
  PartialNote := toy_assets * toy_metadata * Z;
  PartialNote_of_note := λ n, n;
  PartialNote_id := λ n, (n.2, n.1.1.1);
  PartialNote_assets := λ n, n.1.1;
  PartialNote_metadata := λ n, n.1.2;
  PartialNote_recipient_digest := λ n, n.2;
  NoteScript := Z;
  NotePath := Z;
  NotePath_verify := λ path index commitment root, path + index + commitment =? root;
  NoteInclusionProof := toy_proof;
  proof_block_num := λ p, p.1.1;
  proof_block_note_tree_index := λ p, p.1.2;
  proof_note_path := λ p, p.2;
  BlockHeader := Z * Z;
  BlockHeader_block_num := fst;
  BlockHeader_note_root := snd;
  BlockHeader_commitment := λ h, 1000 * h.1 + h.2;
  BlockHeader_timestamp := λ h, 5 * h.1;
  TransactionScript := Z;
  RawOutputNotes := list Z;
  TransactionHeader := Z * Z * (Z * Z) * list ((Z * Z) * (Z * Z));
  TransactionHeader_id := λ t, t.1.1.1;
  TransactionHeader_account_id := λ t, t.1.1.2;
  TransactionHeader_initial_state_commitment := λ t, t.1.2.1;
  TransactionHeader_final_state_commitment := λ t, t.1.2.2;
  TransactionHeader_input_notes := λ t, t.2;
  AccountHeader := Z * Z * Z;
  AccountHeader_id := λ a, a.1.1;
  AccountHeader_to_commitment := λ a, a.1.2;
  AccountHeader_nonce := λ a, a.2;
  Account := Z * Z * list (Z * Z);
  Account_id := λ a, a.1.1;
  Account_nonce := λ a, a.1.2;
  Account_get_balance := λ a f, (λ x, x.2.2) <$> list_find (λ x, x.1 = f) a.2;
  Account_has_non_fungible_asset := λ a x, Some (bool_decide (x ∈ a.2))
|}.

#[export] Instance toy_laws : ProtocolLaws.
Proof.
  split; simpl; try done; try (by intros [[]]); try (by intros []); intros; by simplify_eq.
Qed.

(** One cell per value: enough for a format without size limits. *)
Definition cell_codec : codec Z := Codec write_u8 read_u8.

Lemma cell_codec_ok : CodecOk cell_codec any.
Proof. by intros a rest _. Qed.

Lemma CodecOk_weaken {A} (c : codec A) (wf wf' : A → Prop) :
  (∀ a, wf' a → wf a) → CodecOk c wf → CodecOk c wf'.
Proof. intros Hwf Hc a rest Ha. apply Hc, Hwf, Ha. Qed.

(** A codec transported along a map with a left inverse. *)
Definition iso_codec {A B} (c : codec A) (f : A → B) (g : B → A) : codec B :=
  Codec (λ b, write_into c (g b)) (a <~ read_from c ;; rret (f a)).

Lemma iso_codec_ok {A B} (c : codec A) (f : A → B) (g : B → A) wf wf' :
  (∀ b, f (g b) = b) → (∀ b, wf' b → wf (g b)) → CodecOk c wf → CodecOk (iso_codec c f g) wf'.
Proof.
  intros Hfg Hwf Hc b rest Hb. simpl. rewrite (rbind_codec c wf) by auto.
  unfold rret. by rewrite Hfg.
Qed.

(** Lists, with their length in the first cell. *)
Definition list_codec {A} (c : codec A) : codec (list A) :=
  Codec (λ l, write_u8 (Z.of_nat (length l)) ++ concat (write_into c <$> l))
    (n <~ read_u8 ;; read_many c (Z.to_nat n)).

Lemma list_codec_ok {A} (c : codec A) : CodecOk c any → CodecOk (list_codec c) any.
Proof.
  intros Hc l rest _. simpl. unfold rbind. simpl. rewrite Nat2Z.id.
  apply (read_many_ok c any). by apply Forall_true.
Qed.

Lemma pair_any_ok {A B} (c : codec A) (d : codec B) :
  CodecOk c any → CodecOk d any → CodecOk (le_pair_codec c d) any.
Proof.
  intros. eapply CodecOk_weaken; [|by apply le_pair_codec_ok]. intros [] _; simpl; split; apply any_intro.
Qed.

Definition bool_codec : codec bool := iso_codec cell_codec (λ z, z =? 1) (λ b, if b then 1 else 0).

Lemma bool_codec_ok : CodecOk bool_codec any.
Proof. eapply (iso_codec_ok _ _ _ any); [by intros []|intros; apply any_intro|apply cell_codec_ok]. Qed.

Definition asset_codec : codec ((Z * Z) + (Z * Z)) :=
  iso_codec (le_pair_codec bool_codec (le_pair_codec cell_codec cell_codec))
    (λ p, if p.1 then inl p.2 else inr p.2)
    (λ a, match a with inl x => (true, x) | inr x => (false, x) end).

Definition toy_assets_codec : codec toy_assets := le_pair_codec cell_codec (list_codec asset_codec).

Create HintDb codecs.
#[local] Hint Resolve cell_codec_ok bool_codec_ok list_codec_ok pair_any_ok le_pair_codec_ok
  le_vec_codec_ok le_option_codec_ok : codecs.

Lemma asset_codec_ok : CodecOk asset_codec any.
Proof. eapply (iso_codec_ok _ _ _ any); [by intros []|intros; apply any_intro|eauto with codecs]. Qed.

#[export] Instance toy_serde : SerdeLib := {|
  u16_codec := le_codec 2;
  u32_codec := le_codec 4;
  u64_codec := le_codec 8;
  option_codec := @le_option_codec;
  vec_codec := @le_vec_codec;
  pair_codec := @le_pair_codec;
  BlockNumber_codec := le_codec 4;
  Word_codec := cell_codec;
  NoteId_codec := le_pair_codec cell_codec cell_codec;
  AccountId_codec := cell_codec;
  TransactionId_codec := cell_codec;
  NoteTag_codec := cell_codec;
  NoteMetadata_codec := le_pair_codec (le_pair_codec cell_codec bool_codec) cell_codec;
  NoteInclusionProof_codec := le_pair_codec (le_pair_codec cell_codec cell_codec) cell_codec;
  NoteRecipient_codec := cell_codec;
  NoteDetails_codec := le_pair_codec toy_assets_codec cell_codec;
  RawOutputNotes_codec := list_codec cell_codec
|}.

Lemma le_codec_ok n max :
  max < 256 ^ Z.of_nat n → CodecOk (le_codec n) (in_range max).
Proof. intros Hmax z rest Hz. apply le_read_write. unfold in_range in Hz. lia. Qed.

#[local] Hint Resolve asset_codec_ok : codecs.

Lemma toy_assets_codec_ok : CodecOk toy_assets_codec any.
Proof. unfold toy_assets_codec. eauto with codecs. Qed.
#[local] Hint Resolve toy_assets_codec_ok : codecs.

#[export] Instance toy_serde_laws : SerdeLaws.
Proof.
  split; simpl; intros;
    first [by apply le_codec_ok | solve [eauto 6 with codecs]].
Qed.

(** ** Sample values *)

(** A note with identifier [(3, 5)]; its commitment is [153]. *)
Definition toy_note : Note := ((5, []), (1, true, 7), 3).
(** A path that leads from that commitment to the root [200] of block [10]. *)
Definition toy_inclusion : NoteInclusionProof := (10, 2, 45).
Definition toy_header : BlockHeader := (10, 200).

Definition toy_word (z : Z) : Word := z.
Definition toy_txid (z : Z) : TransactionId := z.
Definition toy_account (z : Z) : AccountId := z.
Definition toy_noteid (a b : Z) : NoteId := (a, b).
(** The nullifier of the notes with identifier [(r, a)]. *)
Definition toy_nullifier (r a : Z) : Nullifier := ((r, r), (a, r)).
