(* ===== verification/NoteStates.v ===== *)
(** * The states of an input note

    [store/note_record/input_note_record/states]: the nine states of a tracked
    input note, the trait [NoteStateHandler] as a class with one instance per
    state, the enum [InputNoteState] that dispatches to them, and the binary
    format of the states. *)

From S2P Require Import Prelude Protocol Serde.
From Stdlib Require Import ZArith Lia.
From stdpp Require Import base gmap list strings pretty.

Open Scope Z_scope.

(** [NoteRecordError]; the payload of [NoteError] is the protocol crate's. *)
Inductive NoteRecordError :=
| ConversionError (msg : string)
| NoteError (msg : string)
| NoteNotConsumable (msg : string)
| InvalidStateTransition (msg : string)
| StateTransitionError (msg : string).

Section states.
Context `{Protocol}.

Record NoteSubmissionData := {
  submitted_at : option u64;
  consumer_account : AccountId;
  consumer_transaction : TransactionId
}.

Record ExpectedNoteState := {
  Expected_metadata : option NoteMetadata;
  Expected_after_block_num : BlockNumber;
  Expected_tag : option NoteTag
}.

Record UnverifiedNoteState := {
  Unverified_metadata : NoteMetadata;
  Unverified_inclusion_proof : NoteInclusionProof
}.

Record CommittedNoteState := {
  Committed_metadata : NoteMetadata;
  Committed_inclusion_proof : NoteInclusionProof;
  Committed_block_note_root : Word
}.

Record InvalidNoteState := {
  Invalid_metadata : NoteMetadata;
  Invalid_invalid_inclusion_proof : NoteInclusionProof;
  Invalid_block_note_root : Word
}.

Record ProcessingAuthenticatedNoteState := {
  ProcessingAuthenticated_metadata : NoteMetadata;
  ProcessingAuthenticated_inclusion_proof : NoteInclusionProof;
  ProcessingAuthenticated_block_note_root : Word;
  ProcessingAuthenticated_submission_data : NoteSubmissionData
}.

Record ProcessingUnauthenticatedNoteState := {
  ProcessingUnauthenticated_metadata : NoteMetadata;
  ProcessingUnauthenticated_after_block_num : BlockNumber;
  ProcessingUnauthenticated_submission_data : NoteSubmissionData
}.

Record ConsumedAuthenticatedLocalNoteState := {
  ConsumedAuthenticatedLocal_metadata : NoteMetadata;
  ConsumedAuthenticatedLocal_inclusion_proof : NoteInclusionProof;
  ConsumedAuthenticatedLocal_block_note_root : Word;
  ConsumedAuthenticatedLocal_nullifier_block_height : BlockNumber;
  ConsumedAuthenticatedLocal_submission_data : NoteSubmissionData;
  ConsumedAuthenticatedLocal_consumed_tx_order : option u32
}.

Record ConsumedUnauthenticatedLocalNoteState := {
  ConsumedUnauthenticatedLocal_metadata : NoteMetadata;
  ConsumedUnauthenticatedLocal_nullifier_block_height : BlockNumber;
  ConsumedUnauthenticatedLocal_submission_data : NoteSubmissionData;
  ConsumedUnauthenticatedLocal_consumed_tx_order : option u32
}.

Record ConsumedExternalNoteState := {
  ConsumedExternal_nullifier_block_height : BlockNumber;
  ConsumedExternal_consumed_tx_order : option u32
}.

Inductive InputNoteState :=
| Expected (s : ExpectedNoteState)
| Unverified (s : UnverifiedNoteState)
| Committed (s : CommittedNoteState)
| Invalid (s : InvalidNoteState)
| ProcessingAuthenticated (s : ProcessingAuthenticatedNoteState)
| ProcessingUnauthenticated (s : ProcessingUnauthenticatedNoteState)
| ConsumedAuthenticatedLocal (s : ConsumedAuthenticatedLocalNoteState)
| ConsumedUnauthenticatedLocal (s : ConsumedUnauthenticatedLocalNoteState)
| ConsumedExternal (s : ConsumedExternalNoteState).

(** The outcome of a transition: [Ok None] leaves the state as it is. *)
Definition transition : Type := result NoteRecordError (option InputNoteState).

Class NoteStateHandler (S : Type) := {
  h_metadata : S → option NoteMetadata;
  h_inclusion_proof : S → option NoteInclusionProof;
  h_consumer_transaction_id : S → option TransactionId;
  h_inclusion_proof_received : S → NoteInclusionProof → NoteMetadata → transition;
  h_consumed_externally : S → BlockNumber → transition;
  h_block_header_received : S → NoteId → BlockHeader → transition;
  h_consumed_locally : S → AccountId → TransactionId → option u64 → transition;
  h_transaction_committed : S → TransactionId → BlockNumber → transition
}.

(** The transition to [ConsumedExternal] that several states share. *)
Definition externally_consumed (nullifier_block_height : BlockNumber) : transition :=
  Ok (Some (ConsumedExternal {|
    ConsumedExternal_nullifier_block_height := nullifier_block_height;
    ConsumedExternal_consumed_tx_order := None |})).

Definition not_processing : transition :=
  Err (InvalidStateTransition "Only processing notes can be committed in a local transaction").

(** [inclusion_proof.note_path().verify(index, commitment, root).is_ok()]. *)
Definition proof_verifies (proof : NoteInclusionProof) (metadata : NoteMetadata)
    (note_id : NoteId) (note_root : Word) : bool :=
  NotePath_verify (proof_note_path proof) (proof_block_note_tree_index proof)
    (compute_note_commitment note_id metadata) note_root.

#[export] Instance ExpectedNoteState_handler : NoteStateHandler ExpectedNoteState := {|
  h_inclusion_proof_received self inclusion_proof metadata :=
    Ok (Some (Unverified {| Unverified_metadata := metadata;
                            Unverified_inclusion_proof := inclusion_proof |}));
  h_consumed_externally self nullifier_block_height :=
    externally_consumed nullifier_block_height;
  h_block_header_received self _ _ := Err (StateTransitionError "Can't verify an expected note");
  h_consumed_locally self consumer_account consumer_transaction current_timestamp :=
    match Expected_metadata self with
    | None => Err (NoteNotConsumable "Can't consume note without metadata")
    | Some metadata =>
        let submission_data := {|
          submitted_at := current_timestamp;
          consumer_account := consumer_account;
          consumer_transaction := consumer_transaction |} in
        Ok (Some (ProcessingUnauthenticated {|
          ProcessingUnauthenticated_metadata := metadata;
          ProcessingUnauthenticated_after_block_num := Expected_after_block_num self;
          ProcessingUnauthenticated_submission_data := submission_data |}))
    end;
  h_transaction_committed self _ _ := not_processing;
  h_metadata self := Expected_metadata self;
  h_inclusion_proof self := None;
  h_consumer_transaction_id self := None
|}.

#[export] Instance UnverifiedNoteState_handler : NoteStateHandler UnverifiedNoteState := {|
  h_inclusion_proof_received self inclusion_proof metadata :=
    Ok (Some (Unverified {| Unverified_metadata := metadata;
                            Unverified_inclusion_proof := inclusion_proof |}));
  h_consumed_externally self nullifier_block_height :=
    externally_consumed nullifier_block_height;
  h_block_header_received self note_id block_header :=
    if proof_verifies (Unverified_inclusion_proof self) (Unverified_metadata self) note_id
         (BlockHeader_note_root block_header)
    then Ok (Some (Committed {|
      Committed_inclusion_proof := Unverified_inclusion_proof self;
      Committed_metadata := Unverified_metadata self;
      Committed_block_note_root := BlockHeader_note_root block_header |}))
    else Ok (Some (Invalid {|
      Invalid_metadata := Unverified_metadata self;
      Invalid_invalid_inclusion_proof := Unverified_inclusion_proof self;
      Invalid_block_note_root := BlockHeader_note_root block_header |}));
  h_consumed_locally self consumer_account consumer_transaction _ :=
    let submission_data := {|
      submitted_at := None;
      consumer_account := consumer_account;
      consumer_transaction := consumer_transaction |} in
    let after_block_num := saturating_sub (proof_block_num (Unverified_inclusion_proof self)) 1 in
    Ok (Some (ProcessingUnauthenticated {|
      ProcessingUnauthenticated_metadata := Unverified_metadata self;
      ProcessingUnauthenticated_after_block_num := after_block_num;
      ProcessingUnauthenticated_submission_data := submission_data |}));
  h_transaction_committed self _ _ := not_processing;
  h_metadata self := Some (Unverified_metadata self);
  h_inclusion_proof self := Some (Unverified_inclusion_proof self);
  h_consumer_transaction_id self := None
|}.

(** The guard of [inclusion_proof_received] in the states whose proof is verified. *)
Definition same_proof (proof proof' : NoteInclusionProof) (metadata metadata' : NoteMetadata) :
    transition :=
  if bool_decide (proof ≠ proof') || bool_decide (metadata ≠ metadata')
  then Err (StateTransitionError "Inclusion proof or metadata do not match the expected values")
  else Ok None.

#[export] Instance CommittedNoteState_handler : NoteStateHandler CommittedNoteState := {|
  h_inclusion_proof_received self inclusion_proof metadata :=
    same_proof (Committed_inclusion_proof self) inclusion_proof
      (Committed_metadata self) metadata;
  h_consumed_externally self nullifier_block_height :=
    externally_consumed nullifier_block_height;
  h_block_header_received self _ block_header :=
    if bool_decide (BlockHeader_note_root block_header ≠ Committed_block_note_root self)
    then Err (StateTransitionError "Block header does not match the expected note root")
    else Ok None;
  h_consumed_locally self consumer_account consumer_transaction current_timestamp :=
    let submission_data := {|
      submitted_at := current_timestamp;
      consumer_account := consumer_account;
      consumer_transaction := consumer_transaction |} in
    Ok (Some (ProcessingAuthenticated {|
      ProcessingAuthenticated_metadata := Committed_metadata self;
      ProcessingAuthenticated_inclusion_proof := Committed_inclusion_proof self;
      ProcessingAuthenticated_block_note_root := Committed_block_note_root self;
      ProcessingAuthenticated_submission_data := submission_data |}));
  h_transaction_committed self _ _ := not_processing;
  h_metadata self := Some (Committed_metadata self);
  h_inclusion_proof self := Some (Committed_inclusion_proof self);
  h_consumer_transaction_id self := None
|}.

#[export] Instance InvalidNoteState_handler : NoteStateHandler InvalidNoteState := {|
  h_inclusion_proof_received self inclusion_proof metadata :=
    Ok (Some (Unverified {| Unverified_metadata := metadata;
                            Unverified_inclusion_proof := inclusion_proof |}));
  h_consumed_externally self nullifier_block_height :=
    externally_consumed nullifier_block_height;
  h_block_header_received self note_id block_header :=
    if proof_verifies (Invalid_invalid_inclusion_proof self) (Invalid_metadata self) note_id
         (BlockHeader_note_root block_header)
    then Ok (Some (Committed {|
      Committed_inclusion_proof := Invalid_invalid_inclusion_proof self;
      Committed_metadata := Invalid_metadata self;
      Committed_block_note_root := BlockHeader_note_root block_header |}))
    else Ok None;
  h_consumed_locally self _ _ _ := Err (NoteNotConsumable "Can't consume invalid note");
  h_transaction_committed self _ _ := not_processing;
  h_metadata self := Some (Invalid_metadata self);
  h_inclusion_proof self := Some (Invalid_invalid_inclusion_proof self);
  h_consumer_transaction_id self := None
|}.

(** The guard of [transaction_committed] in the processing states. *)
Definition if_consumer (transaction_id expected : TransactionId) (next : InputNoteState) :
    transition :=
  if bool_decide (transaction_id ≠ expected)
  then Err (StateTransitionError "Transaction ID does not match the expected value")
  else Ok (Some next).

#[export] Instance ProcessingAuthenticatedNoteState_handler :
    NoteStateHandler ProcessingAuthenticatedNoteState := {|
  h_inclusion_proof_received self inclusion_proof metadata :=
    same_proof (ProcessingAuthenticated_inclusion_proof self) inclusion_proof
      (ProcessingAuthenticated_metadata self) metadata;
  h_consumed_externally self nullifier_block_height :=
    externally_consumed nullifier_block_height;
  h_block_header_received self _ _ := Ok None;
  h_consumed_locally self _ _ _ := Err (NoteNotConsumable "Note being consumed");
  h_transaction_committed self transaction_id block_height :=
    if_consumer transaction_id
      (consumer_transaction (ProcessingAuthenticated_submission_data self))
      (ConsumedAuthenticatedLocal {|
        ConsumedAuthenticatedLocal_metadata := ProcessingAuthenticated_metadata self;
        ConsumedAuthenticatedLocal_inclusion_proof :=
          ProcessingAuthenticated_inclusion_proof self;
        ConsumedAuthenticatedLocal_block_note_root :=
          ProcessingAuthenticated_block_note_root self;
        ConsumedAuthenticatedLocal_nullifier_block_height := block_height;
        ConsumedAuthenticatedLocal_submission_data :=
          ProcessingAuthenticated_submission_data self;
        ConsumedAuthenticatedLocal_consumed_tx_order := None |});
  h_metadata self := Some (ProcessingAuthenticated_metadata self);
  h_inclusion_proof self := Some (ProcessingAuthenticated_inclusion_proof self);
  h_consumer_transaction_id self :=
    Some (consumer_transaction (ProcessingAuthenticated_submission_data self))
|}.

#[export] Instance ProcessingUnauthenticatedNoteState_handler :
    NoteStateHandler ProcessingUnauthenticatedNoteState := {|
  h_inclusion_proof_received self _ _ := Ok None;
  h_consumed_externally self nullifier_block_height :=
    externally_consumed nullifier_block_height;
  h_block_header_received self _ _ := Ok None;
  h_consumed_locally self _ _ _ := Err (NoteNotConsumable "Note being consumed");
  h_transaction_committed self transaction_id block_height :=
    if_consumer transaction_id
      (consumer_transaction (ProcessingUnauthenticated_submission_data self))
      (ConsumedUnauthenticatedLocal {|
        ConsumedUnauthenticatedLocal_metadata := ProcessingUnauthenticated_metadata self;
        ConsumedUnauthenticatedLocal_nullifier_block_height := block_height;
        ConsumedUnauthenticatedLocal_submission_data :=
          ProcessingUnauthenticated_submission_data self;
        ConsumedUnauthenticatedLocal_consumed_tx_order := None |});
  h_metadata self := Some (ProcessingUnauthenticated_metadata self);
  h_inclusion_proof self := None;
  h_consumer_transaction_id self :=
    Some (consumer_transaction (ProcessingUnauthenticated_submission_data self))
|}.

#[export] Instance ConsumedAuthenticatedLocalNoteState_handler :
    NoteStateHandler ConsumedAuthenticatedLocalNoteState := {|
  h_inclusion_proof_received self _ _ := Ok None;
  h_consumed_externally self _ := Ok None;
  h_block_header_received self _ _ := Ok None;
  h_consumed_locally self _ _ _ := Err (NoteNotConsumable "Note already consumed");
  h_transaction_committed self _ _ := not_processing;
  h_metadata self := Some (ConsumedAuthenticatedLocal_metadata self);
  h_inclusion_proof self := Some (ConsumedAuthenticatedLocal_inclusion_proof self);
  h_consumer_transaction_id self :=
    Some (consumer_transaction (ConsumedAuthenticatedLocal_submission_data self))
|}.

#[export] Instance ConsumedUnauthenticatedLocalNoteState_handler :
    NoteStateHandler ConsumedUnauthenticatedLocalNoteState := {|
  h_inclusion_proof_received self _ _ := Ok None;
  h_consumed_externally self _ := Ok None;
  h_block_header_received self _ _ := Ok None;
  h_consumed_locally self _ _ _ := Err (NoteNotConsumable "Note already consumed");
  h_transaction_committed self _ _ := not_processing;
  h_metadata self := Some (ConsumedUnauthenticatedLocal_metadata self);
  h_inclusion_proof self := None;
  h_consumer_transaction_id self :=
    Some (consumer_transaction (ConsumedUnauthenticatedLocal_submission_data self))
|}.

#[export] Instance ConsumedExternalNoteState_handler :
    NoteStateHandler ConsumedExternalNoteState := {|
  h_inclusion_proof_received self _ _ := Ok None;
  h_consumed_externally self _ := Ok None;
  h_block_header_received self _ _ := Ok None;
  h_consumed_locally self _ _ _ := Err (NoteNotConsumable "Note already consumed");
  h_transaction_committed self _ _ := not_processing;
  h_metadata self := None;
  h_inclusion_proof self := None;
  h_consumer_transaction_id self := None
|}.

(** ** [InputNoteState] *)

Definition STATE_EXPECTED : u8 := 0.
Definition STATE_UNVERIFIED : u8 := 1.
Definition STATE_COMMITTED : u8 := 2.
Definition STATE_INVALID : u8 := 3.
Definition STATE_PROCESSING_AUTHENTICATED : u8 := 4.
Definition STATE_PROCESSING_UNAUTHENTICATED : u8 := 5.
Definition STATE_CONSUMED_AUTHENTICATED_LOCAL : u8 := 6.
Definition STATE_CONSUMED_UNAUTHENTICATED_LOCAL : u8 := 7.
Definition STATE_CONSUMED_EXTERNAL : u8 := 8.

(** [InputNoteState::inner] returns a trait object: a state with its handler. *)
Definition inner {A} (self : InputNoteState)
    (k : ∀ S, NoteStateHandler S → S → A) : A :=
  match self with
  | Expected inner => k _ _ inner
  | Unverified inner => k _ _ inner
  | Committed inner => k _ _ inner
  | Invalid inner => k _ _ inner
  | ProcessingAuthenticated inner => k _ _ inner
  | ProcessingUnauthenticated inner => k _ _ inner
  | ConsumedAuthenticatedLocal inner => k _ _ inner
  | ConsumedUnauthenticatedLocal inner => k _ _ inner
  | ConsumedExternal inner => k _ _ inner
  end.

Definition InputNoteState_discriminant (self : InputNoteState) : u8 :=
  match self with
  | Expected _ => STATE_EXPECTED
  | Unverified _ => STATE_UNVERIFIED
  | Committed _ => STATE_COMMITTED
  | Invalid _ => STATE_INVALID
  | ProcessingAuthenticated _ => STATE_PROCESSING_AUTHENTICATED
  | ProcessingUnauthenticated _ => STATE_PROCESSING_UNAUTHENTICATED
  | ConsumedAuthenticatedLocal _ => STATE_CONSUMED_AUTHENTICATED_LOCAL
  | ConsumedUnauthenticatedLocal _ => STATE_CONSUMED_UNAUTHENTICATED_LOCAL
  | ConsumedExternal _ => STATE_CONSUMED_EXTERNAL
  end.

Definition state_metadata (self : InputNoteState) : option NoteMetadata :=
  inner self (λ _ _ s, h_metadata s).
Definition state_inclusion_proof (self : InputNoteState) : option NoteInclusionProof :=
  inner self (λ _ _ s, h_inclusion_proof s).
Definition state_consumer_transaction_id (self : InputNoteState) : option TransactionId :=
  inner self (λ _ _ s, h_consumer_transaction_id s).

Definition consumed_block_height (self : InputNoteState) : option BlockNumber :=
  match self with
  | ConsumedAuthenticatedLocal s => Some (ConsumedAuthenticatedLocal_nullifier_block_height s)
  | ConsumedUnauthenticatedLocal s => Some (ConsumedUnauthenticatedLocal_nullifier_block_height s)
  | ConsumedExternal s => Some (ConsumedExternal_nullifier_block_height s)
  | _ => None
  end.

Definition consumed_tx_order (self : InputNoteState) : option u32 :=
  match self with
  | ConsumedAuthenticatedLocal s => ConsumedAuthenticatedLocal_consumed_tx_order s
  | ConsumedUnauthenticatedLocal s => ConsumedUnauthenticatedLocal_consumed_tx_order s
  | ConsumedExternal s => ConsumedExternal_consumed_tx_order s
  | _ => None
  end.

Definition state_set_consumed_tx_order (self : InputNoteState) (order : option u32) :
    InputNoteState :=
  match self with
  | ConsumedAuthenticatedLocal s => ConsumedAuthenticatedLocal {|
      ConsumedAuthenticatedLocal_metadata := ConsumedAuthenticatedLocal_metadata s;
      ConsumedAuthenticatedLocal_inclusion_proof := ConsumedAuthenticatedLocal_inclusion_proof s;
      ConsumedAuthenticatedLocal_block_note_root := ConsumedAuthenticatedLocal_block_note_root s;
      ConsumedAuthenticatedLocal_nullifier_block_height :=
        ConsumedAuthenticatedLocal_nullifier_block_height s;
      ConsumedAuthenticatedLocal_submission_data := ConsumedAuthenticatedLocal_submission_data s;
      ConsumedAuthenticatedLocal_consumed_tx_order := order |}
  | ConsumedUnauthenticatedLocal s => ConsumedUnauthenticatedLocal {|
      ConsumedUnauthenticatedLocal_metadata := ConsumedUnauthenticatedLocal_metadata s;
      ConsumedUnauthenticatedLocal_nullifier_block_height :=
        ConsumedUnauthenticatedLocal_nullifier_block_height s;
      ConsumedUnauthenticatedLocal_submission_data :=
        ConsumedUnauthenticatedLocal_submission_data s;
      ConsumedUnauthenticatedLocal_consumed_tx_order := order |}
  | ConsumedExternal s => ConsumedExternal {|
      ConsumedExternal_nullifier_block_height := ConsumedExternal_nullifier_block_height s;
      ConsumedExternal_consumed_tx_order := order |}
  | _ => self
  end.

Definition state_inclusion_proof_received (self : InputNoteState)
    (inclusion_proof : NoteInclusionProof) (metadata : NoteMetadata) : transition :=
  inner self (λ _ _ s, h_inclusion_proof_received s inclusion_proof metadata).
Definition state_consumed_externally (self : InputNoteState)
    (nullifier_block_height : BlockNumber) : transition :=
  inner self (λ _ _ s, h_consumed_externally s nullifier_block_height).
Definition state_block_header_received (self : InputNoteState) (note_id : NoteId)
    (block_header : BlockHeader) : transition :=
  inner self (λ _ _ s, h_block_header_received s note_id block_header).
Definition state_consumed_locally (self : InputNoteState) (consumer_account : AccountId)
    (consumer_transaction : TransactionId) (current_timestamp : option u64) : transition :=
  inner self (λ _ _ s,
    h_consumed_locally s consumer_account consumer_transaction current_timestamp).
Definition state_transaction_committed (self : InputNoteState)
    (transaction_id : TransactionId) (block_height : BlockNumber) : transition :=
  inner self (λ _ _ s, h_transaction_committed s transaction_id block_height).
End states.

(** ** Binary format *)

Section serde.
Context `{SerdeLib}.

Definition NoteSubmissionData_codec : codec NoteSubmissionData := Codec
  (λ self,
    write_into (option_codec u64_codec) (submitted_at self) ++
    write_into AccountId_codec (consumer_account self) ++
    write_into TransactionId_codec (consumer_transaction self))
  (submitted_at <~ read_from (option_codec u64_codec) ;;
   consumer_account <~ read_from AccountId_codec ;;
   consumer_transaction <~ read_from TransactionId_codec ;;
   rret {| submitted_at := submitted_at; consumer_account := consumer_account;
           consumer_transaction := consumer_transaction |}).

Definition ExpectedNoteState_codec : codec ExpectedNoteState := Codec
  (λ self,
    write_into (option_codec NoteMetadata_codec) (Expected_metadata self) ++
    write_into BlockNumber_codec (Expected_after_block_num self) ++
    write_into (option_codec NoteTag_codec) (Expected_tag self))
  (metadata <~ read_from (option_codec NoteMetadata_codec) ;;
   after_block_num <~ read_from BlockNumber_codec ;;
   tag <~ read_from (option_codec NoteTag_codec) ;;
   rret {| Expected_metadata := metadata; Expected_after_block_num := after_block_num;
           Expected_tag := tag |}).

Definition UnverifiedNoteState_codec : codec UnverifiedNoteState := Codec
  (λ self,
    write_into NoteMetadata_codec (Unverified_metadata self) ++
    write_into NoteInclusionProof_codec (Unverified_inclusion_proof self))
  (metadata <~ read_from NoteMetadata_codec ;;
   inclusion_proof <~ read_from NoteInclusionProof_codec ;;
   rret {| Unverified_metadata := metadata; Unverified_inclusion_proof := inclusion_proof |}).

Definition CommittedNoteState_codec : codec CommittedNoteState := Codec
  (λ self,
    write_into NoteMetadata_codec (Committed_metadata self) ++
    write_into NoteInclusionProof_codec (Committed_inclusion_proof self) ++
    write_into Word_codec (Committed_block_note_root self))
  (metadata <~ read_from NoteMetadata_codec ;;
   inclusion_proof <~ read_from NoteInclusionProof_codec ;;
   block_note_root <~ read_from Word_codec ;;
   rret {| Committed_metadata := metadata; Committed_inclusion_proof := inclusion_proof;
           Committed_block_note_root := block_note_root |}).

Definition InvalidNoteState_codec : codec InvalidNoteState := Codec
  (λ self,
    write_into NoteMetadata_codec (Invalid_metadata self) ++
    write_into NoteInclusionProof_codec (Invalid_invalid_inclusion_proof self) ++
    write_into Word_codec (Invalid_block_note_root self))
  (metadata <~ read_from NoteMetadata_codec ;;
   invalid_inclusion_proof <~ read_from NoteInclusionProof_codec ;;
   block_note_root <~ read_from Word_codec ;;
   rret {| Invalid_metadata := metadata;
           Invalid_invalid_inclusion_proof := invalid_inclusion_proof;
           Invalid_block_note_root := block_note_root |}).

Definition ProcessingAuthenticatedNoteState_codec : codec ProcessingAuthenticatedNoteState := Codec
  (λ self,
    write_into NoteMetadata_codec (ProcessingAuthenticated_metadata self) ++
    write_into NoteInclusionProof_codec (ProcessingAuthenticated_inclusion_proof self) ++
    write_into Word_codec (ProcessingAuthenticated_block_note_root self) ++
    write_into NoteSubmissionData_codec (ProcessingAuthenticated_submission_data self))
  (metadata <~ read_from NoteMetadata_codec ;;
   inclusion_proof <~ read_from NoteInclusionProof_codec ;;
   block_note_root <~ read_from Word_codec ;;
   submission_data <~ read_from NoteSubmissionData_codec ;;
   rret {| ProcessingAuthenticated_metadata := metadata;
           ProcessingAuthenticated_inclusion_proof := inclusion_proof;
           ProcessingAuthenticated_block_note_root := block_note_root;
           ProcessingAuthenticated_submission_data := submission_data |}).

Definition ProcessingUnauthenticatedNoteState_codec :
    codec ProcessingUnauthenticatedNoteState := Codec
  (λ self,
    write_into NoteMetadata_codec (ProcessingUnauthenticated_metadata self) ++
    write_into BlockNumber_codec (ProcessingUnauthenticated_after_block_num self) ++
    write_into NoteSubmissionData_codec (ProcessingUnauthenticated_submission_data self))
  (metadata <~ read_from NoteMetadata_codec ;;
   after_block_num <~ read_from BlockNumber_codec ;;
   submission_data <~ read_from NoteSubmissionData_codec ;;
   rret {| ProcessingUnauthenticated_metadata := metadata;
           ProcessingUnauthenticated_after_block_num := after_block_num;
           ProcessingUnauthenticated_submission_data := submission_data |}).

Definition ConsumedAuthenticatedLocalNoteState_codec :
    codec ConsumedAuthenticatedLocalNoteState := Codec
  (λ self,
    write_into NoteMetadata_codec (ConsumedAuthenticatedLocal_metadata self) ++
    write_into NoteInclusionProof_codec (ConsumedAuthenticatedLocal_inclusion_proof self) ++
    write_into Word_codec (ConsumedAuthenticatedLocal_block_note_root self) ++
    write_into BlockNumber_codec (ConsumedAuthenticatedLocal_nullifier_block_height self) ++
    write_into NoteSubmissionData_codec (ConsumedAuthenticatedLocal_submission_data self) ++
    write_into (option_codec u32_codec) (ConsumedAuthenticatedLocal_consumed_tx_order self))
  (metadata <~ read_from NoteMetadata_codec ;;
   inclusion_proof <~ read_from NoteInclusionProof_codec ;;
   block_note_root <~ read_from Word_codec ;;
   nullifier_block_height <~ read_from BlockNumber_codec ;;
   submission_data <~ read_from NoteSubmissionData_codec ;;
   consumed_tx_order <~ read_from (option_codec u32_codec) ;;
   rret {| ConsumedAuthenticatedLocal_metadata := metadata;
           ConsumedAuthenticatedLocal_inclusion_proof := inclusion_proof;
           ConsumedAuthenticatedLocal_block_note_root := block_note_root;
           ConsumedAuthenticatedLocal_nullifier_block_height := nullifier_block_height;
           ConsumedAuthenticatedLocal_submission_data := submission_data;
           ConsumedAuthenticatedLocal_consumed_tx_order := consumed_tx_order |}).

Definition ConsumedUnauthenticatedLocalNoteState_codec :
    codec ConsumedUnauthenticatedLocalNoteState := Codec
  (λ self,
    write_into NoteMetadata_codec (ConsumedUnauthenticatedLocal_metadata self) ++
    write_into BlockNumber_codec (ConsumedUnauthenticatedLocal_nullifier_block_height self) ++
    write_into NoteSubmissionData_codec (ConsumedUnauthenticatedLocal_submission_data self) ++
    write_into (option_codec u32_codec) (ConsumedUnauthenticatedLocal_consumed_tx_order self))
  (metadata <~ read_from NoteMetadata_codec ;;
   nullifier_block_height <~ read_from BlockNumber_codec ;;
   submission_data <~ read_from NoteSubmissionData_codec ;;
   consumed_tx_order <~ read_from (option_codec u32_codec) ;;
   rret {| ConsumedUnauthenticatedLocal_metadata := metadata;
           ConsumedUnauthenticatedLocal_nullifier_block_height := nullifier_block_height;
           ConsumedUnauthenticatedLocal_submission_data := submission_data;
           ConsumedUnauthenticatedLocal_consumed_tx_order := consumed_tx_order |}).

Definition ConsumedExternalNoteState_codec : codec ConsumedExternalNoteState := Codec
  (λ self,
    write_into BlockNumber_codec (ConsumedExternal_nullifier_block_height self) ++
    write_into (option_codec u32_codec) (ConsumedExternal_consumed_tx_order self))
  (nullifier_block_height <~ read_from BlockNumber_codec ;;
   consumed_tx_order <~ read_from (option_codec u32_codec) ;;
   rret {| ConsumedExternal_nullifier_block_height := nullifier_block_height;
           ConsumedExternal_consumed_tx_order := consumed_tx_order |}).

(** [Serializable for InputNoteState]. *)
Definition InputNoteState_write_into (self : InputNoteState) : bytes :=
  write_u8 (InputNoteState_discriminant self) ++
  match self with
  | Expected inner => write_into ExpectedNoteState_codec inner
  | Unverified inner => write_into UnverifiedNoteState_codec inner
  | Committed inner => write_into CommittedNoteState_codec inner
  | Invalid inner => write_into InvalidNoteState_codec inner
  | ProcessingAuthenticated inner => write_into ProcessingAuthenticatedNoteState_codec inner
  | ProcessingUnauthenticated inner => write_into ProcessingUnauthenticatedNoteState_codec inner
  | ConsumedAuthenticatedLocal inner =>
      write_into ConsumedAuthenticatedLocalNoteState_codec inner
  | ConsumedUnauthenticatedLocal inner =>
      write_into ConsumedUnauthenticatedLocalNoteState_codec inner
  | ConsumedExternal inner => write_into ConsumedExternalNoteState_codec inner
  end.

(** [Deserializable for InputNoteState]. *)
Definition InputNoteState_read_from : reader InputNoteState :=
  discriminant <~ read_u8 ;;
  if discriminant =? STATE_EXPECTED then
    s <~ read_from ExpectedNoteState_codec ;; rret (Expected s)
  else if discriminant =? STATE_UNVERIFIED then
    s <~ read_from UnverifiedNoteState_codec ;; rret (Unverified s)
  else if discriminant =? STATE_COMMITTED then
    s <~ read_from CommittedNoteState_codec ;; rret (Committed s)
  else if discriminant =? STATE_INVALID then
    s <~ read_from InvalidNoteState_codec ;; rret (Invalid s)
  else if discriminant =? STATE_PROCESSING_AUTHENTICATED then
    s <~ read_from ProcessingAuthenticatedNoteState_codec ;; rret (ProcessingAuthenticated s)
  else if discriminant =? STATE_PROCESSING_UNAUTHENTICATED then
    s <~ read_from ProcessingUnauthenticatedNoteState_codec ;; rret (ProcessingUnauthenticated s)
  else if discriminant =? STATE_CONSUMED_AUTHENTICATED_LOCAL then
    s <~ read_from ConsumedAuthenticatedLocalNoteState_codec ;; rret (ConsumedAuthenticatedLocal s)
  else if discriminant =? STATE_CONSUMED_UNAUTHENTICATED_LOCAL then
    s <~ read_from ConsumedUnauthenticatedLocalNoteState_codec ;;
    rret (ConsumedUnauthenticatedLocal s)
  else if discriminant =? STATE_CONSUMED_EXTERNAL then
    s <~ read_from ConsumedExternalNoteState_codec ;; rret (ConsumedExternal s)
  else rerr (InvalidValue ("Invalid NoteState discriminant: " +:+ pretty discriminant)).

Definition InputNoteState_codec : codec InputNoteState :=
  Codec InputNoteState_write_into InputNoteState_read_from.

(** *** Value ranges

    The Rust types bound every integer of a state; these predicates state it. *)

Definition submission_wf (d : NoteSubmissionData) : Prop :=
  opt_wf (in_range U64_MAX) (submitted_at d).

Definition InputNoteState_wf (s : InputNoteState) : Prop :=
  match s with
  | Expected s => in_range U32_MAX (Expected_after_block_num s)
  | Unverified _ | Committed _ | Invalid _ => True
  | ProcessingAuthenticated s => submission_wf (ProcessingAuthenticated_submission_data s)
  | ProcessingUnauthenticated s =>
      in_range U32_MAX (ProcessingUnauthenticated_after_block_num s) ∧
      submission_wf (ProcessingUnauthenticated_submission_data s)
  | ConsumedAuthenticatedLocal s =>
      in_range U32_MAX (ConsumedAuthenticatedLocal_nullifier_block_height s) ∧
      submission_wf (ConsumedAuthenticatedLocal_submission_data s) ∧
      opt_wf (in_range U32_MAX) (ConsumedAuthenticatedLocal_consumed_tx_order s)
  | ConsumedUnauthenticatedLocal s =>
      in_range U32_MAX (ConsumedUnauthenticatedLocal_nullifier_block_height s) ∧
      submission_wf (ConsumedUnauthenticatedLocal_submission_data s) ∧
      opt_wf (in_range U32_MAX) (ConsumedUnauthenticatedLocal_consumed_tx_order s)
  | ConsumedExternal s =>
      in_range U32_MAX (ConsumedExternal_nullifier_block_height s) ∧
      opt_wf (in_range U32_MAX) (ConsumedExternal_consumed_tx_order s)
  end.

Context `{!SerdeLaws}.

(** Every field is read back in turn. *)
Ltac codec_by_fields :=
  let a := fresh in let rest := fresh in let Hwf := fresh in
  intros a rest Hwf; destruct a; simpl in *; roundtrip.

#[export] Instance NoteSubmissionData_codec_ok :
  CodecOk NoteSubmissionData_codec submission_wf.
Proof. unfold submission_wf. codec_by_fields. Qed.
#[local] Opaque NoteSubmissionData_codec.

#[local] Instance ExpectedNoteState_codec_ok :
  CodecOk ExpectedNoteState_codec (λ s, InputNoteState_wf (Expected s)).
Proof. codec_by_fields. Qed.

#[local] Instance UnverifiedNoteState_codec_ok :
  CodecOk UnverifiedNoteState_codec (λ s, InputNoteState_wf (Unverified s)).
Proof. codec_by_fields. Qed.

#[local] Instance CommittedNoteState_codec_ok :
  CodecOk CommittedNoteState_codec (λ s, InputNoteState_wf (Committed s)).
Proof. codec_by_fields. Qed.

#[local] Instance InvalidNoteState_codec_ok :
  CodecOk InvalidNoteState_codec (λ s, InputNoteState_wf (Invalid s)).
Proof. codec_by_fields. Qed.

#[local] Instance ProcessingAuthenticatedNoteState_codec_ok :
  CodecOk ProcessingAuthenticatedNoteState_codec (λ s, InputNoteState_wf (ProcessingAuthenticated s)).
Proof. codec_by_fields. Qed.

#[local] Instance ProcessingUnauthenticatedNoteState_codec_ok :
  CodecOk ProcessingUnauthenticatedNoteState_codec (λ s, InputNoteState_wf (ProcessingUnauthenticated s)).
Proof. codec_by_fields. Qed.

#[local] Instance ConsumedAuthenticatedLocalNoteState_codec_ok :
  CodecOk ConsumedAuthenticatedLocalNoteState_codec (λ s, InputNoteState_wf (ConsumedAuthenticatedLocal s)).
Proof. codec_by_fields. Qed.

#[local] Instance ConsumedUnauthenticatedLocalNoteState_codec_ok :
  CodecOk ConsumedUnauthenticatedLocalNoteState_codec (λ s, InputNoteState_wf (ConsumedUnauthenticatedLocal s)).
Proof. codec_by_fields. Qed.

#[local] Instance ConsumedExternalNoteState_codec_ok :
  CodecOk ConsumedExternalNoteState_codec (λ s, InputNoteState_wf (ConsumedExternal s)).
Proof. codec_by_fields. Qed.

#[local] Opaque ExpectedNoteState_codec
  UnverifiedNoteState_codec
  CommittedNoteState_codec
  InvalidNoteState_codec
  ProcessingAuthenticatedNoteState_codec
  ProcessingUnauthenticatedNoteState_codec
  ConsumedAuthenticatedLocalNoteState_codec
  ConsumedUnauthenticatedLocalNoteState_codec
  ConsumedExternalNoteState_codec.
#[export] Instance InputNoteState_codec_ok : CodecOk InputNoteState_codec InputNoteState_wf.
Proof.
  intros [] rest Hwf; unfold InputNoteState_codec, InputNoteState_write_into,
    InputNoteState_read_from, read_from at 1, write_into at 1; roundtrip.
Qed.
End serde.
