(* ===== verification/InputNote.v ===== *)
(** * Input note records

    [store/note_record/input_note_record/mod.rs]: the record the client keeps
    for a note it may consume, its transitions, its binary format and its
    conversions, with the life cycle as a labelled transition system. *)

From S2P Require Import Prelude Protocol Serde Model NoteStates.
From Stdlib Require Import ZArith Lia.
From stdpp Require Import base gmap list strings relations.

Open Scope Z_scope.

Section record.
Context `{Protocol}.

Record InputNoteRecord := {
  in_details : NoteDetails;
  in_created_at : option u64;
  in_state : InputNoteState
}.

(** *** Accessors *)

Definition InputNoteRecord_id (self : InputNoteRecord) : NoteId :=
  NoteDetails_id (in_details self).
Definition InputNoteRecord_recipient (self : InputNoteRecord) : Word :=
  NoteRecipient_digest (NoteDetails_recipient (in_details self)).
Definition InputNoteRecord_metadata (self : InputNoteRecord) : option NoteMetadata :=
  state_metadata (in_state self).
Definition InputNoteRecord_commitment (self : InputNoteRecord) : option Word :=
  (λ m, NoteHeader_to_commitment (InputNoteRecord_id self) m) <$> InputNoteRecord_metadata self.
Definition InputNoteRecord_assets (self : InputNoteRecord) : NoteAssets :=
  NoteDetails_assets (in_details self).
Definition InputNoteRecord_nullifier (self : InputNoteRecord) : Nullifier :=
  NoteDetails_nullifier (in_details self).
Definition InputNoteRecord_inclusion_proof (self : InputNoteRecord) : option NoteInclusionProof :=
  state_inclusion_proof (in_state self).
Definition InputNoteRecord_consumer_transaction_id (self : InputNoteRecord) :
    option TransactionId :=
  state_consumer_transaction_id (in_state self).

Definition InputNoteRecord_consumer_account (self : InputNoteRecord) : option AccountId :=
  match in_state self with
  | ProcessingAuthenticated s =>
      Some (consumer_account (ProcessingAuthenticated_submission_data s))
  | ProcessingUnauthenticated s =>
      Some (consumer_account (ProcessingUnauthenticated_submission_data s))
  | ConsumedAuthenticatedLocal s =>
      Some (consumer_account (ConsumedAuthenticatedLocal_submission_data s))
  | ConsumedUnauthenticatedLocal s =>
      Some (consumer_account (ConsumedUnauthenticatedLocal_submission_data s))
  | _ => None
  end.

Definition InputNoteRecord_is_authenticated (self : InputNoteRecord) : bool :=
  match in_state self with
  | Committed _ | ProcessingAuthenticated _ | ConsumedAuthenticatedLocal _ => true
  | _ => false
  end.
Definition InputNoteRecord_is_consumed (self : InputNoteRecord) : bool :=
  match in_state self with
  | ConsumedExternal _ | ConsumedAuthenticatedLocal _ | ConsumedUnauthenticatedLocal _ => true
  | _ => false
  end.
Definition InputNoteRecord_is_processing (self : InputNoteRecord) : bool :=
  match in_state self with
  | ProcessingAuthenticated _ | ProcessingUnauthenticated _ => true
  | _ => false
  end.
Definition InputNoteRecord_is_committed (self : InputNoteRecord) : bool :=
  match in_state self with Committed _ => true | _ => false end.

(** *** Transitions

    A method [(&mut self, ...) -> Result<bool, NoteRecordError>] that fails
    before it assigns returns the error alone; otherwise it returns whether the
    state changed, with the record after the call. *)

Definition with_state (self : InputNoteRecord) (s : InputNoteState) : InputNoteRecord :=
  {| in_details := in_details self; in_created_at := in_created_at self; in_state := s |}.

(** [if let Some(new_state) = new_state { self.state = new_state; Ok(true) } else { Ok(false) }] *)
Definition update_state (self : InputNoteRecord) (new_state : transition) :
    result NoteRecordError (bool * InputNoteRecord) :=
  new_state ← new_state;
  match new_state with
  | Some new_state => Ok (true, with_state self new_state)
  | None => Ok (false, self)
  end.

Definition InputNoteRecord_set_consumed_tx_order (self : InputNoteRecord) (order : option u32) :
    InputNoteRecord :=
  with_state self (state_set_consumed_tx_order (in_state self) order).

Definition InputNoteRecord_inclusion_proof_received (self : InputNoteRecord)
    (inclusion_proof : NoteInclusionProof) (metadata : NoteMetadata) :
    result NoteRecordError (bool * InputNoteRecord) :=
  update_state self (state_inclusion_proof_received (in_state self) inclusion_proof metadata).

Definition InputNoteRecord_block_header_received (self : InputNoteRecord)
    (block_header : BlockHeader) : result NoteRecordError (bool * InputNoteRecord) :=
  update_state self
    (state_block_header_received (in_state self) (InputNoteRecord_id self) block_header).

Definition InputNoteRecord_consumed_externally (self : InputNoteRecord)
    (nullifier : Nullifier) (nullifier_block_height : BlockNumber) :
    result NoteRecordError (bool * InputNoteRecord) :=
  if bool_decide (InputNoteRecord_nullifier self ≠ nullifier)
  then Err (StateTransitionError "Nullifier does not match the expected value")
  else update_state self (state_consumed_externally (in_state self) nullifier_block_height).

Definition InputNoteRecord_consumed_locally (self : InputNoteRecord)
    (consumer_account : AccountId) (consumer_transaction : TransactionId)
    (current_timestamp : option u64) : result NoteRecordError (bool * InputNoteRecord) :=
  update_state self (state_consumed_locally (in_state self) consumer_account
    consumer_transaction current_timestamp).

Definition InputNoteRecord_transaction_committed (self : InputNoteRecord)
    (transaction_id : TransactionId) (block_height : BlockNumber) :
    result NoteRecordError (bool * InputNoteRecord) :=
  update_state self (state_transaction_committed (in_state self) transaction_id block_height).

(** *** Conversions *)

(** [From<Note> for InputNoteRecord]. *)
Definition InputNoteRecord_from_note (value : Note) : InputNoteRecord :=
  let metadata := Note_metadata value in
  {| in_details := Note_into_details value;
     in_created_at := None;
     in_state := Expected {|
       Expected_metadata := Some metadata;
       Expected_after_block_num := 0;
       Expected_tag := Some (NoteMetadata_tag metadata) |} |}.

(** [From<InputNote> for InputNoteRecord]. *)
Definition InputNoteRecord_from_input_note (value : InputNote) : InputNoteRecord :=
  match value with
  | InputNote_Authenticated note proof =>
      {| in_details := Note_into_details note;
         in_created_at := None;
         in_state := Unverified {|
           Unverified_metadata := Note_metadata note;
           Unverified_inclusion_proof := proof |} |}
  | InputNote_Unauthenticated note => InputNoteRecord_from_note note
  end.

(** [TryInto<InputNote> for InputNoteRecord]. *)
Definition InputNoteRecord_try_into_input_note (self : InputNoteRecord) :
    result NoteRecordError InputNote :=
  match InputNoteRecord_metadata self, InputNoteRecord_inclusion_proof self with
  | Some metadata, Some inclusion_proof => Ok (InputNote_Authenticated
      (Note_new (NoteDetails_assets (in_details self)) metadata
        (NoteDetails_recipient (in_details self))) inclusion_proof)
  | Some metadata, None => Ok (InputNote_Unauthenticated
      (Note_new (NoteDetails_assets (in_details self)) metadata
        (NoteDetails_recipient (in_details self))))
  | _, _ => Err (ConversionError "Input Note Record does not contain metadata")
  end.

(** [TryInto<Note> for InputNoteRecord] (and for [&InputNoteRecord]). *)
Definition InputNoteRecord_try_into_note (self : InputNoteRecord) : result NoteRecordError Note :=
  match InputNoteRecord_metadata self with
  | Some metadata => Ok (Note_new (NoteDetails_assets (in_details self)) metadata
      (NoteDetails_recipient (in_details self)))
  | None => Err (ConversionError "Input Note Record does not contain metadata")
  end.

Definition InputNoteRecord_codec `{!SerdeLib} : codec InputNoteRecord := Codec
  (λ self,
    write_into NoteDetails_codec (in_details self) ++
    write_into (option_codec u64_codec) (in_created_at self) ++
    write_into InputNoteState_codec (in_state self))
  (details <~ read_from NoteDetails_codec ;;
   created_at <~ read_from (option_codec u64_codec) ;;
   state <~ read_from InputNoteState_codec ;;
   rret {| in_details := details; in_created_at := created_at; in_state := state |}).

(** ** The life cycle as a transition system *)

(** The calls that may change a record. *)
Inductive note_event :=
| EvInclusionProof (inclusion_proof : NoteInclusionProof) (metadata : NoteMetadata)
| EvBlockHeader (block_header : BlockHeader)
| EvConsumedExternally (nullifier : Nullifier) (nullifier_block_height : BlockNumber)
| EvConsumedLocally (account : AccountId) (transaction : TransactionId) (timestamp : option u64)
| EvTransactionCommitted (transaction_id : TransactionId) (block_height : BlockNumber)
| EvSetConsumedTxOrder (order : option u32).

(** The call itself; [set_consumed_tx_order] returns nothing and never changes
    which state the record is in. *)
Definition apply_event (self : InputNoteRecord) (e : note_event) :
    result NoteRecordError (bool * InputNoteRecord) :=
  match e with
  | EvInclusionProof p m => InputNoteRecord_inclusion_proof_received self p m
  | EvBlockHeader h => InputNoteRecord_block_header_received self h
  | EvConsumedExternally n h => InputNoteRecord_consumed_externally self n h
  | EvConsumedLocally a t ts => InputNoteRecord_consumed_locally self a t ts
  | EvTransactionCommitted t h => InputNoteRecord_transaction_committed self t h
  | EvSetConsumedTxOrder o => Ok (false, InputNoteRecord_set_consumed_tx_order self o)
  end.

Definition note_step (r r' : InputNoteRecord) : Prop :=
  ∃ e b, apply_event r e = Ok (b, r').

(** The client constructs records in the [Expected] and [Unverified] states
    (from notes, from fetched public notes, from imported details and for
    future notes); a store only gives back what was put in. *)
Definition initial_record (r : InputNoteRecord) : Prop :=
  match in_state r with Expected _ | Unverified _ => True | _ => False end.

Definition reachable_record (r : InputNoteRecord) : Prop :=
  ∃ r0, initial_record r0 ∧ rtc note_step r0 r.

(** The root an authenticated state was verified against. *)
Definition authenticated_root (s : InputNoteState) : option Word :=
  match s with
  | Committed s => Some (Committed_block_note_root s)
  | ProcessingAuthenticated s => Some (ProcessingAuthenticated_block_note_root s)
  | ConsumedAuthenticatedLocal s => Some (ConsumedAuthenticatedLocal_block_note_root s)
  | _ => None
  end.

(** The record's proof shows that the note is in the tree of [root]. *)
Definition proof_shows (r : InputNoteRecord) (root : Word) : Prop :=
  ∃ proof metadata,
    InputNoteRecord_inclusion_proof r = Some proof ∧
    InputNoteRecord_metadata r = Some metadata ∧
    proof_verifies proof metadata (InputNoteRecord_id r) root = true.

Definition auth_inv (r : InputNoteRecord) : Prop :=
  ∀ root, authenticated_root (in_state r) = Some root → proof_shows r root.

Definition record_kind (r : InputNoteRecord) : u8 := InputNoteState_discriminant (in_state r).
End record.

(** The changes of state the life cycle allows, on discriminants. *)
Inductive lifecycle : u8 → u8 → Prop :=
| lc_proof k :
    k ∈ [STATE_EXPECTED; STATE_UNVERIFIED; STATE_INVALID] → lifecycle k STATE_UNVERIFIED
| lc_verified k :
    k ∈ [STATE_UNVERIFIED; STATE_INVALID] → lifecycle k STATE_COMMITTED
| lc_refuted : lifecycle STATE_UNVERIFIED STATE_INVALID
| lc_submit_authenticated : lifecycle STATE_COMMITTED STATE_PROCESSING_AUTHENTICATED
| lc_submit_unauthenticated k :
    k ∈ [STATE_EXPECTED; STATE_UNVERIFIED] → lifecycle k STATE_PROCESSING_UNAUTHENTICATED
| lc_commit_authenticated :
    lifecycle STATE_PROCESSING_AUTHENTICATED STATE_CONSUMED_AUTHENTICATED_LOCAL
| lc_commit_unauthenticated :
    lifecycle STATE_PROCESSING_UNAUTHENTICATED STATE_CONSUMED_UNAUTHENTICATED_LOCAL
| lc_external k :
    k ∈ [STATE_EXPECTED; STATE_UNVERIFIED; STATE_COMMITTED; STATE_INVALID;
         STATE_PROCESSING_AUTHENTICATED; STATE_PROCESSING_UNAUTHENTICATED] →
    lifecycle k STATE_CONSUMED_EXTERNAL.

(** ** Lemmas *)

(** Every outcome of every handler, as cases on the state. *)
Ltac unfold_event :=
  unfold apply_event, InputNoteRecord_inclusion_proof_received,
    InputNoteRecord_block_header_received, InputNoteRecord_consumed_externally,
    InputNoteRecord_consumed_locally, InputNoteRecord_transaction_committed,
    InputNoteRecord_set_consumed_tx_order, update_state,
    state_inclusion_proof_received, state_block_header_received, state_consumed_externally,
    state_consumed_locally, state_transaction_committed, state_set_consumed_tx_order,
    externally_consumed, not_processing, same_proof, if_consumer in *.

Ltac event_cases r e :=
  destruct r as [details created [[]|[]|[]|[]|[]|[]|[]|[]|[]]]; destruct e; unfold_event; simpl in *; unfold_event; simpl in *;
  repeat (case_match; simpl in * ); simplify_eq/=.

Section lemmas.
Context `{Protocol}.
Implicit Types r : InputNoteRecord.

Lemma step_details r r' : note_step r r' → in_details r' = in_details r.
Proof.
  intros (e & b & Hs). destruct e; unfold_event; repeat (case_match; simpl in * );
    inv_ok; try done; by case_match; simplify_eq/=.
Qed.

Lemma steps_details r r' : rtc note_step r r' → in_details r' = in_details r.
Proof. induction 1 as [|r r1 r2 H1 _ IH]; [done|]. by rewrite IH, (step_details _ _ H1). Qed.

Lemma auth_inv_step r r' : auth_inv r → note_step r r' → auth_inv r'.
Proof.
  intros Hinv (e & b & Hs). unfold auth_inv, proof_shows in *.
  event_cases r e; try done; intros root Hroot; simplify_eq/=; try (by apply Hinv);
    eauto 6.
Qed.

Lemma auth_inv_reachable r : reachable_record r → auth_inv r.
Proof.
  intros (r0 & H0 & Hr). assert (auth_inv r0) as Hi.
  { unfold initial_record in H0. intros root. by destruct (in_state r0). }
  clear H0. induction Hr as [|r0 r1 r2 H1 _ IH]; [done|]. eauto using auth_inv_step.
Qed.

Lemma auth_inv_authenticated r :
  auth_inv r → InputNoteRecord_is_authenticated r = true →
  ∃ root, authenticated_root (in_state r) = Some root ∧ proof_shows r root.
Proof.
  unfold auth_inv, InputNoteRecord_is_authenticated.
  destruct (in_state r); try done; simpl; eauto.
Qed.

Lemma lifecycle_sound r e r' :
  apply_event r e = Ok (true, r') → lifecycle (record_kind r) (record_kind r').
Proof.
  intros Hs. event_cases r e; try done; constructor; repeat constructor.
Qed.

Lemma consumed_step r r' :
  InputNoteRecord_is_consumed r = true → note_step r r' →
  InputNoteRecord_is_consumed r' = true ∧ record_kind r' = record_kind r ∧
  consumed_block_height (in_state r') = consumed_block_height (in_state r) ∧
  InputNoteRecord_consumer_transaction_id r' = InputNoteRecord_consumer_transaction_id r.
Proof. intros Hc (e & b & Hs). event_cases r e; done. Qed.
(** The note was submitted by the given transaction and account, unless it was
    consumed by somebody else. *)
Definition submitted_by (tx : option TransactionId) (account : option AccountId) r : Prop :=
  record_kind r = STATE_CONSUMED_EXTERNAL ∨
  (InputNoteRecord_is_processing r = true ∨ InputNoteRecord_is_consumed r = true) ∧
  InputNoteRecord_consumer_transaction_id r = tx ∧ InputNoteRecord_consumer_account r = account.

Lemma submitted_step tx account r r' :
  submitted_by tx account r → note_step r r' → submitted_by tx account r'.
Proof.
  intros Hsub (e & b & Hs). unfold submitted_by in *.
  event_cases r e; try done; try (by left); destruct Hsub as [?|[[?|?] [??]]]; try done;
    right; split_and!; auto.
Qed.

Lemma submitted_steps r r' :
  rtc note_step r r' →
  ∀ tx account, submitted_by tx account r → submitted_by tx account r'.
Proof. induction 1; eauto using submitted_step. Qed.
End lemmas.

(** *** Sample records *)

Definition toy_submission : NoteSubmissionData :=
  {| submitted_at := Some 5; consumer_account := 7; consumer_transaction := 70 |}.

(** A record in the state with the given discriminant. *)
Definition toy_state (k : u8) : InputNoteState :=
  let m := Note_metadata toy_note in
  if k =? STATE_EXPECTED then Expected (Build_ExpectedNoteState (Some m) 0 None)
  else if k =? STATE_UNVERIFIED then Unverified (Build_UnverifiedNoteState m toy_inclusion)
  else if k =? STATE_COMMITTED then Committed (Build_CommittedNoteState m toy_inclusion 200)
  else if k =? STATE_INVALID then Invalid (Build_InvalidNoteState m toy_inclusion 201)
  else if k =? STATE_PROCESSING_AUTHENTICATED then
    ProcessingAuthenticated
      (Build_ProcessingAuthenticatedNoteState m toy_inclusion 200 toy_submission)
  else
    ProcessingUnauthenticated (Build_ProcessingUnauthenticatedNoteState m 9 toy_submission).

Definition toy_record (k : u8) : InputNoteRecord :=
  {| in_details := Note_into_details toy_note; in_created_at := None; in_state := toy_state k |}.

(** A call that leads to the state with the given discriminant. *)
Definition toy_event (k : u8) : note_event :=
  if k =? STATE_UNVERIFIED then EvInclusionProof toy_inclusion (Note_metadata toy_note)
  else if k =? STATE_COMMITTED then EvBlockHeader toy_header
  else if k =? STATE_INVALID then EvBlockHeader ((10, 201) : BlockHeader)
  else if k =? STATE_CONSUMED_AUTHENTICATED_LOCAL then EvTransactionCommitted (70 : TransactionId) 11
  else if k =? STATE_CONSUMED_UNAUTHENTICATED_LOCAL then
    EvTransactionCommitted (70 : TransactionId) 11
  else if k =? STATE_CONSUMED_EXTERNAL then EvConsumedExternally (Note_nullifier toy_note) 12
  else EvConsumedLocally (7 : AccountId) (70 : TransactionId) (Some 5).

(** ** Correctness *)

(** C1: in every record the client can build and evolve, an authenticated note
    ([is_authenticated]: committed, or being consumed or consumed locally as an
    authenticated note) carries metadata and an inclusion proof that verifies
    its own commitment against the note root stored in its state. *)
Theorem authenticated_note_has_valid_proof `{Protocol} (r : InputNoteRecord) :
  reachable_record r → InputNoteRecord_is_authenticated r = true →
  ∃ root, authenticated_root (in_state r) = Some root ∧ proof_shows r root.
Proof. intros Hr%auth_inv_reachable. by apply auth_inv_authenticated. Qed.

(** Consumption is final.  Whatever calls follow, a consumed note stays in
    the same consumed state, with the same nullifier block height and consuming
    transaction. *)
Theorem consumed_note_is_final `{Protocol} (r r' : InputNoteRecord) :
  rtc note_step r r' → InputNoteRecord_is_consumed r = true →
  InputNoteRecord_is_consumed r' = true ∧ record_kind r' = record_kind r ∧
  consumed_block_height (in_state r') = consumed_block_height (in_state r) ∧
  InputNoteRecord_consumer_transaction_id r' = InputNoteRecord_consumer_transaction_id r.
Proof.
  induction 1 as [|r r1 r2 H1 _ IH]; [done|]. intros Hc.
  destruct (consumed_step _ _ Hc H1) as (Hc1 & <- & <- & <-). by apply IH.
Qed.

(** C38: a call changes the state of a note exactly along the edges of the life
    cycle: every change follows an edge, and every edge is taken by some call on
    some record. *)
Theorem lifecycle_exact (k k' : u8) :
  lifecycle k k' ↔
  ∃ (P : Protocol) (r r' : InputNoteRecord) e,
    apply_event r e = Ok (true, r') ∧ record_kind r = k ∧ record_kind r' = k'.
Proof.
  split; [|intros (P & r & r' & e & He & <- & <-); by eapply lifecycle_sound].
  intros Hl. exists toy_protocol. destruct Hl; decompose_list_elem_of; subst;
    lazymatch goal with |- ∃ r _ _, _ ∧ record_kind r = ?k ∧ record_kind _ = ?k' =>
      eexists (toy_record k), _, (toy_event k') end; by split_and!.
Qed.

(** [consumed_locally] starts the processing of a note exactly when it is
    expected, unverified or committed and its metadata is known; the note is
    then processing for the given account and transaction, with its details,
    metadata and authentication kept.  Otherwise the note is reported as not
    consumable. *)
Theorem consumed_locally_spec `{Protocol} (r : InputNoteRecord) account tx timestamp :
  let consumable := record_kind r ∈ [STATE_EXPECTED; STATE_UNVERIFIED; STATE_COMMITTED] ∧
                    is_Some (InputNoteRecord_metadata r) in
  match InputNoteRecord_consumed_locally r account tx timestamp with
  | Ok (changed, r') =>
      consumable ∧ changed = true ∧ InputNoteRecord_is_processing r' = true ∧
      InputNoteRecord_consumer_account r' = Some account ∧
      InputNoteRecord_consumer_transaction_id r' = Some tx ∧
      in_details r' = in_details r ∧
      InputNoteRecord_metadata r' = InputNoteRecord_metadata r ∧
      InputNoteRecord_is_authenticated r' = InputNoteRecord_is_authenticated r
  | Err e => ¬ consumable ∧ ∃ msg, e = NoteNotConsumable msg
  end.
Proof.
  destruct r as [details created [[[]]|[]|[]|[]|[]|[]|[]|[]|[]]]; simpl;
    (split_and!; try done; try set_solver; eauto; intros [? [? ?]]; set_solver).
Qed.

(** [transaction_committed] marks a note as consumed locally exactly when it
    is being processed by that transaction; the block height is recorded, and
    the details, metadata, proof and submission are kept. *)
Theorem transaction_committed_spec `{Protocol} (r : InputNoteRecord) tx height :
  let confirmed := InputNoteRecord_is_processing r = true ∧
                   InputNoteRecord_consumer_transaction_id r = Some tx in
  match InputNoteRecord_transaction_committed r tx height with
  | Ok (changed, r') =>
      confirmed ∧ changed = true ∧ InputNoteRecord_is_consumed r' = true ∧
      consumed_block_height (in_state r') = Some height ∧
      consumed_tx_order (in_state r') = None ∧
      in_details r' = in_details r ∧
      InputNoteRecord_metadata r' = InputNoteRecord_metadata r ∧
      InputNoteRecord_inclusion_proof r' = InputNoteRecord_inclusion_proof r ∧
      InputNoteRecord_consumer_account r' = InputNoteRecord_consumer_account r ∧
      InputNoteRecord_consumer_transaction_id r' = Some tx ∧
      InputNoteRecord_is_authenticated r' = InputNoteRecord_is_authenticated r
  | Err _ => ¬ confirmed
  end.
Proof.
  destruct r as [details created [[]|[]|[]|[]|[]|[]|[]|[]|[]]]; simpl;
    unfold InputNoteRecord_transaction_committed; simpl; unfold if_consumer;
    try case_bool_decide; simpl;
    unfold InputNoteRecord_consumer_transaction_id, InputNoteRecord_is_processing; simpl;
    try (intros [? ?]; congruence); split_and!; try done; congruence.
Qed.

(** The two calls a sync makes for a note found in a block: the proof is
    received, then the header of its block. *)
Definition proof_then_header `{Protocol} (r : InputNoteRecord) proof metadata header :
    result NoteRecordError (bool * InputNoteRecord) :=
  '(_, r) ← InputNoteRecord_inclusion_proof_received r proof metadata;
  InputNoteRecord_block_header_received r header.

(** A note that is expected, unverified or invalid, and for which a proof
    and its block header are received, never fails: it becomes committed, with
    that proof and root, when the proof verifies, and invalid otherwise. *)
Lemma proof_then_header_decides `{Protocol} (r : InputNoteRecord) proof metadata header :
  record_kind r ∈ [STATE_EXPECTED; STATE_UNVERIFIED; STATE_INVALID] →
  let root := BlockHeader_note_root header in
  ∃ r', proof_then_header r proof metadata header = Ok (true, r') ∧
    InputNoteRecord_inclusion_proof r' = Some proof ∧
    InputNoteRecord_metadata r' = Some metadata ∧
    (proof_verifies proof metadata (InputNoteRecord_id r) root = true →
      InputNoteRecord_is_committed r' = true ∧ authenticated_root (in_state r') = Some root) ∧
    (proof_verifies proof metadata (InputNoteRecord_id r) root = false →
      record_kind r' = STATE_INVALID).
Proof.
  destruct r as [details created [[]|[]|[]|[]|[]|[]|[]|[]|[]]]; unfold record_kind; simpl;
    intros Hk; decompose_list_elem_of; try done;
    unfold proof_then_header, InputNoteRecord_id; simpl;
    unfold InputNoteRecord_block_header_received, InputNoteRecord_id; simpl;
    case_match eqn:E; simpl; eexists; split_and!; try done.
Qed.

(** A note that is being processed can only be consumed: after any calls it
    is processing by the same transaction and account, consumed by that
    transaction, or consumed externally. *)
Theorem processing_note_is_kept_or_consumed `{Protocol} (r r' : InputNoteRecord) :
  rtc note_step r r' → InputNoteRecord_is_processing r = true →
  record_kind r' = STATE_CONSUMED_EXTERNAL ∨
  (InputNoteRecord_is_processing r' = true ∨ InputNoteRecord_is_consumed r' = true) ∧
  InputNoteRecord_consumer_transaction_id r' = InputNoteRecord_consumer_transaction_id r ∧
  InputNoteRecord_consumer_account r' = InputNoteRecord_consumer_account r.
Proof. intros Hr Hp. apply (submitted_steps _ _ Hr). right. auto. Qed.

#[local] Opaque InputNoteState_codec.

(** A record written to bytes is read back unchanged, and the bytes after it
    are left. *)
Theorem InputNoteRecord_roundtrip `{SerdeLaws} (r : InputNoteRecord) rest :
  opt_wf (in_range U64_MAX) (in_created_at r) → InputNoteState_wf (in_state r) →
  read_from InputNoteRecord_codec (write_into InputNoteRecord_codec r ++ rest) = Ok (r, rest).
Proof. destruct r as [d c s]. intros Hc Hs. simpl in *. roundtrip. Qed.

(** An input note converted into a record and back is unchanged, and the
    record has its identifier and nullifier; every record that still holds
    metadata converts into a note with the record's details. *)
Theorem input_note_conversions `{ProtocolLaws} (n : InputNote) (r : InputNoteRecord) :
  InputNoteRecord_try_into_input_note (InputNoteRecord_from_input_note n) = Ok n ∧
  InputNoteRecord_id (InputNoteRecord_from_input_note n) = Note_id (InputNote_note n) ∧
  InputNoteRecord_nullifier (InputNoteRecord_from_input_note n) =
    Note_nullifier (InputNote_note n) ∧
  match InputNoteRecord_try_into_note r with
  | Ok note => Note_into_details note = in_details r ∧
      InputNoteRecord_metadata r = Some (Note_metadata note)
  | Err _ => InputNoteRecord_metadata r = None
  end.
Proof.
  split_and!.
  - destruct n as [note proof|note]; unfold InputNoteRecord_try_into_input_note; simpl;
      by rewrite note_rebuild.
  - destruct n; symmetry; apply Note_id_spec.
  - destruct n; symmetry; apply Note_nullifier_spec.
  - unfold InputNoteRecord_try_into_note. destruct (InputNoteRecord_metadata r); [|done].
    rewrite Note_new_metadata. split; [|done].
    rewrite <-(NoteDetails_eta (Note_into_details _)), Note_details_assets, Note_details_recipient.
    by rewrite Note_new_assets, Note_new_recipient, NoteDetails_eta.
Qed.

(** ** Witnesses *)

Lemma authenticated_note_has_valid_proof_witness :
  reachable_record (toy_record STATE_PROCESSING_AUTHENTICATED) ∧
  ∃ root, authenticated_root (toy_state STATE_PROCESSING_AUTHENTICATED) = Some root ∧
    proof_shows (toy_record STATE_PROCESSING_AUTHENTICATED) root.
Proof.
  assert (reachable_record (toy_record STATE_PROCESSING_AUTHENTICATED)) as Hr.
  { exists (toy_record STATE_UNVERIFIED). split; [exact I|].
    eapply rtc_l; [exists (toy_event STATE_COMMITTED), true; reflexivity|].
    eapply rtc_l; [|apply rtc_refl].
    exists (toy_event STATE_PROCESSING_AUTHENTICATED), true. reflexivity. }
  split; [exact Hr|].
  exact (authenticated_note_has_valid_proof (toy_record STATE_PROCESSING_AUTHENTICATED) Hr eq_refl).
Defined.

Lemma consumed_note_is_final_witness :
  let r := with_state (toy_record 0) (ConsumedExternal (Build_ConsumedExternalNoteState 12 None)) in
  let r' := InputNoteRecord_set_consumed_tx_order r (Some 3) in
  rtc note_step r r' ∧ InputNoteRecord_is_consumed r = true ∧
  consumed_block_height (in_state r') = Some 12.
Proof.
  intros r r'.
  assert (rtc note_step r r') as Hr
    by (eapply rtc_l; [exists (EvSetConsumedTxOrder (Some 3)), false; reflexivity|apply rtc_refl]).
  split_and!; [exact Hr|reflexivity|].
  exact (proj1 (proj2 (proj2 (consumed_note_is_final r r' Hr eq_refl)))).
Defined.

Lemma processing_note_is_kept_or_consumed_witness :
  let r := toy_record STATE_PROCESSING_UNAUTHENTICATED in
  let r' := with_state r (ConsumedUnauthenticatedLocal
    (Build_ConsumedUnauthenticatedLocalNoteState (Note_metadata toy_note) 11 toy_submission None)) in
  rtc note_step r r' ∧ submitted_by (Some (consumer_transaction toy_submission))
    (Some (consumer_account toy_submission)) r'.
Proof.
  intros r r'.
  assert (rtc note_step r r') as Hr.
  { eapply rtc_l; [|apply rtc_refl].
    exists (toy_event STATE_CONSUMED_UNAUTHENTICATED_LOCAL), true. reflexivity. }
  split; [exact Hr|]. exact (processing_note_is_kept_or_consumed r r' Hr eq_refl).
Defined.

Lemma InputNoteRecord_roundtrip_witness :
  read_from InputNoteRecord_codec
    (write_into InputNoteRecord_codec (toy_record STATE_PROCESSING_UNAUTHENTICATED) ++ [1; 2]) =
  Ok (toy_record STATE_PROCESSING_UNAUTHENTICATED, [1; 2]).
Proof.
  apply (InputNoteRecord_roundtrip (toy_record STATE_PROCESSING_UNAUTHENTICATED) [1; 2]).
  - exact I.
  - split; split; discriminate.
Defined.

Lemma input_note_conversions_witness :
  InputNoteRecord_try_into_input_note
    (InputNoteRecord_from_input_note (InputNote_Authenticated toy_note toy_inclusion)) =
  Ok (InputNote_Authenticated toy_note toy_inclusion).
Proof.
  exact (proj1 (input_note_conversions (InputNote_Authenticated toy_note toy_inclusion)
    (toy_record STATE_EXPECTED))).
Defined.
