(* ===== verification/OutputNote.v ===== *)
(** * Output note records

    [store/note_record/output_note_record/mod.rs]: the record of a note created
    by a transaction of the client, whose recipient may be unknown (partial), its
    states and transitions, conversions, export and binary format. *)

From S2P Require Import Prelude Protocol Serde Model NoteStates InputNote.
From Stdlib Require Import ZArith Lia.
From stdpp Require Import base gmap list strings pretty relations.

Open Scope Z_scope.

Section record.
Context `{Protocol}.

Inductive OutputNoteState :=
| ExpectedPartial
| ExpectedFull (recipient : NoteRecipient)
| CommittedPartial (inclusion_proof : NoteInclusionProof)
| CommittedFull (recipient : NoteRecipient) (inclusion_proof : NoteInclusionProof)
| Consumed (block_height : BlockNumber) (recipient : NoteRecipient).

Definition STATE_EXPECTED_PARTIAL : u8 := 0.
Definition STATE_EXPECTED_FULL : u8 := 1.
Definition STATE_COMMITTED_PARTIAL : u8 := 2.
Definition STATE_COMMITTED_FULL : u8 := 3.
Definition STATE_CONSUMED : u8 := 4.

Definition OutputNoteState_discriminant (self : OutputNoteState) : u8 :=
  match self with
  | ExpectedPartial => STATE_EXPECTED_PARTIAL
  | ExpectedFull _ => STATE_EXPECTED_FULL
  | CommittedPartial _ => STATE_COMMITTED_PARTIAL
  | CommittedFull _ _ => STATE_COMMITTED_FULL
  | Consumed _ _ => STATE_CONSUMED
  end.

Definition OutputNoteState_recipient (self : OutputNoteState) : option NoteRecipient :=
  match self with
  | ExpectedFull recipient | CommittedFull recipient _ | Consumed _ recipient => Some recipient
  | _ => None
  end.

Definition OutputNoteState_inclusion_proof (self : OutputNoteState) :
    option NoteInclusionProof :=
  match self with
  | CommittedPartial inclusion_proof | CommittedFull _ inclusion_proof => Some inclusion_proof
  | _ => None
  end.

Definition OutputNoteState_inclusion_proof_received (self : OutputNoteState)
    (inclusion_proof : NoteInclusionProof) : result NoteRecordError (option OutputNoteState) :=
  match self with
  | ExpectedPartial => Ok (Some (CommittedPartial inclusion_proof))
  | ExpectedFull recipient => Ok (Some (CommittedFull recipient inclusion_proof))
  | CommittedPartial prev_inclusion_proof | CommittedFull _ prev_inclusion_proof =>
      if bool_decide (prev_inclusion_proof = inclusion_proof) then Ok None
      else Err (StateTransitionError
        "Cannot receive different inclusion proof for committed note")
  | Consumed _ _ => Ok None
  end.

Definition OutputNoteState_nullifier_received (self : OutputNoteState)
    (block_height : BlockNumber) : result NoteRecordError (option OutputNoteState) :=
  match self with
  | Consumed _ _ => Ok None
  | ExpectedFull recipient | CommittedFull recipient _ =>
      Ok (Some (Consumed block_height recipient))
  | ExpectedPartial | CommittedPartial _ =>
      Err (InvalidStateTransition "Cannot nullify note without recipient")
  end.

(** [Display for OutputNoteState]. *)
Definition OutputNoteState_display (self : OutputNoteState) : string :=
  match self with
  | ExpectedPartial => "Expected Partial"
  | ExpectedFull _ => "Expected Full"
  | CommittedPartial inclusion_proof =>
      "Committed Partial (at block height " +:+ pretty (proof_block_num inclusion_proof) +:+ ")"
  | CommittedFull _ inclusion_proof =>
      "Committed Full (at block height " +:+ pretty (proof_block_num inclusion_proof) +:+ ")"
  | Consumed block_height _ => "Consumed (at block height " +:+ pretty block_height +:+ ")"
  end.

Record OutputNoteRecord := {
  out_assets : NoteAssets;
  out_metadata : NoteMetadata;
  out_recipient_digest : Word;
  out_state : OutputNoteState;
  out_expected_height : BlockNumber
}.

Definition OutputNoteRecord_id (self : OutputNoteRecord) : NoteId :=
  NoteId_new (out_recipient_digest self) (NoteAssets_commitment (out_assets self)).
Definition OutputNoteRecord_inclusion_proof (self : OutputNoteRecord) :
    option NoteInclusionProof :=
  OutputNoteState_inclusion_proof (out_state self).
Definition OutputNoteRecord_recipient (self : OutputNoteRecord) : option NoteRecipient :=
  OutputNoteState_recipient (out_state self).

Definition OutputNoteRecord_nullifier (self : OutputNoteRecord) : option Nullifier :=
  recipient ← OutputNoteRecord_recipient self;
  Some (Nullifier_new (NoteRecipient_script_root recipient)
    (NoteRecipient_storage_commitment recipient) (NoteAssets_commitment (out_assets self))
    (NoteRecipient_serial_num recipient)).

Definition OutputNoteRecord_is_consumed (self : OutputNoteRecord) : bool :=
  match out_state self with Consumed _ _ => true | _ => false end.
Definition OutputNoteRecord_is_committed (self : OutputNoteRecord) : bool :=
  match out_state self with CommittedFull _ _ | CommittedPartial _ => true | _ => false end.

Definition out_with_state (self : OutputNoteRecord) (s : OutputNoteState) : OutputNoteRecord :=
  {| out_assets := out_assets self; out_metadata := out_metadata self;
     out_recipient_digest := out_recipient_digest self; out_state := s;
     out_expected_height := out_expected_height self |}.

Definition OutputNoteRecord_inclusion_proof_received (self : OutputNoteRecord)
    (inclusion_proof : NoteInclusionProof) : result NoteRecordError (bool * OutputNoteRecord) :=
  new_state ← OutputNoteState_inclusion_proof_received (out_state self) inclusion_proof;
  match new_state with
  | Some new_state => Ok (true, out_with_state self new_state)
  | None => Ok (false, self)
  end.

Definition OutputNoteRecord_nullifier_received (self : OutputNoteRecord)
    (nullifier : Nullifier) (block_height : BlockNumber) :
    result NoteRecordError (bool * OutputNoteRecord) :=
  let mismatch :=
    match OutputNoteRecord_nullifier self with
    | Some note_nullifier => bool_decide (note_nullifier ≠ nullifier)
    | None => false
    end in
  if mismatch then Err (StateTransitionError "Nullifier does not match the expected value")
  else
    new_state ← OutputNoteState_nullifier_received (out_state self) block_height;
    match new_state with
    | Some new_state => Ok (true, out_with_state self new_state)
    | None => Ok (false, self)
    end.

(** *** Conversions *)

Definition OutputNoteRecord_from_full_note (note : Note) (expected_height : BlockNumber) :
    OutputNoteRecord :=
  let details := Note_into_details note in
  let assets := NoteDetails_assets details in
  let recipient := NoteDetails_recipient details in
  {| out_recipient_digest := NoteRecipient_digest recipient;
     out_assets := assets;
     out_metadata := Note_metadata note;
     out_state := ExpectedFull recipient;
     out_expected_height := expected_height |}.

Definition OutputNoteRecord_from_partial_note (partial_note : PartialNote)
    (expected_height : BlockNumber) : OutputNoteRecord :=
  {| out_recipient_digest := PartialNote_recipient_digest partial_note;
     out_assets := PartialNote_assets partial_note;
     out_metadata := PartialNote_metadata partial_note;
     out_state := ExpectedPartial;
     out_expected_height := expected_height |}.

Definition OutputNoteRecord_try_from_output_note (output_note : RawOutputNote)
    (expected_height : BlockNumber) : result NoteRecordError OutputNoteRecord :=
  match output_note with
  | RawOutputNote_Full note => Ok (OutputNoteRecord_from_full_note note expected_height)
  | RawOutputNote_Partial partial_note =>
      Ok (OutputNoteRecord_from_partial_note partial_note expected_height)
  end.

(** [TryFrom<OutputNoteRecord> for NoteDetails]. *)
Definition OutputNoteRecord_try_into_details (value : OutputNoteRecord) :
    result NoteRecordError NoteDetails :=
  match OutputNoteRecord_recipient value with
  | Some recipient => Ok (NoteDetails_new (out_assets value) recipient)
  | None => Err (ConversionError "Output Note Record does not contain details")
  end.

(** [TryFrom<OutputNoteRecord> for Note]. *)
Definition OutputNoteRecord_try_into_note (value : OutputNoteRecord) :
    result NoteRecordError Note :=
  match OutputNoteRecord_recipient value with
  | Some recipient => Ok (Note_new (out_assets value) (out_metadata value) recipient)
  | None => Err (ConversionError "Output Note Record does not contain details")
  end.

Inductive NoteExportType :=
| Export_NoteId
| Export_NoteDetails
| Export_NoteWithProof.

Definition OutputNoteRecord_into_note_file (self : OutputNoteRecord)
    (export_type : NoteExportType) : result NoteRecordError NoteFile :=
  match export_type with
  | Export_NoteId => Ok (NoteFile_NoteId (OutputNoteRecord_id self))
  | Export_NoteDetails =>
      let after_block_num := out_expected_height self in
      let tag := Some (NoteMetadata_tag (out_metadata self)) in
      details ← OutputNoteRecord_try_into_details self;
      Ok (NoteFile_NoteDetails details after_block_num tag)
  | Export_NoteWithProof =>
      proof ← ok_or (OutputNoteRecord_inclusion_proof self)
        (ConversionError "Note record does not contain an inclusion proof");
      note ← OutputNoteRecord_try_into_note self;
      Ok (NoteFile_NoteWithProof note proof)
  end.

(** *** Binary format *)

Definition OutputNoteState_codec `{!SerdeLib} : codec OutputNoteState := Codec
  (λ self,
    write_u8 (OutputNoteState_discriminant self) ++
    match self with
    | ExpectedPartial => []
    | ExpectedFull recipient => write_into NoteRecipient_codec recipient
    | CommittedPartial inclusion_proof => write_into NoteInclusionProof_codec inclusion_proof
    | CommittedFull recipient inclusion_proof =>
        write_into NoteRecipient_codec recipient ++
        write_into NoteInclusionProof_codec inclusion_proof
    | Consumed block_height recipient =>
        write_into BlockNumber_codec block_height ++
        write_into NoteRecipient_codec recipient
    end)
  (state <~ read_u8 ;;
   if state =? STATE_EXPECTED_PARTIAL then rret ExpectedPartial
   else if state =? STATE_EXPECTED_FULL then
     recipient <~ read_from NoteRecipient_codec ;;
     rret (ExpectedFull recipient)
   else if state =? STATE_COMMITTED_PARTIAL then
     inclusion_proof <~ read_from NoteInclusionProof_codec ;;
     rret (CommittedPartial inclusion_proof)
   else if state =? STATE_COMMITTED_FULL then
     recipient <~ read_from NoteRecipient_codec ;;
     inclusion_proof <~ read_from NoteInclusionProof_codec ;;
     rret (CommittedFull recipient inclusion_proof)
   else if state =? STATE_CONSUMED then
     block_height <~ read_from BlockNumber_codec ;;
     recipient <~ read_from NoteRecipient_codec ;;
     rret (Consumed block_height recipient)
   else rerr (InvalidValue "OutputNoteState")).

Definition OutputNoteState_wf (s : OutputNoteState) : Prop :=
  match s with Consumed h _ => in_range U32_MAX h | _ => True end.

(** ** The life cycle *)

Inductive output_step : OutputNoteRecord → OutputNoteRecord → Prop :=
| output_proof r proof b r' :
    OutputNoteRecord_inclusion_proof_received r proof = Ok (b, r') → output_step r r'
| output_nullifier r nullifier height b r' :
    OutputNoteRecord_nullifier_received r nullifier height = Ok (b, r') → output_step r r'.

(** What never changes in the life of an output note. *)
Definition output_identity (r : OutputNoteRecord) :=
  (out_assets r, out_metadata r, out_recipient_digest r, OutputNoteRecord_recipient r,
   out_expected_height r).

Lemma output_step_cases r r' :
  output_step r r' →
  r' = r ∨
  OutputNoteRecord_is_consumed r = false ∧ output_identity r' = output_identity r ∧
  (OutputNoteRecord_is_consumed r' = true ∧ is_Some (OutputNoteRecord_recipient r) ∨
   OutputNoteRecord_is_committed r = false ∧ OutputNoteRecord_is_committed r' = true).
Proof.
  unfold OutputNoteRecord_is_consumed, OutputNoteRecord_is_committed, output_identity,
    OutputNoteRecord_recipient.
  intros [[a m d [] h] proof b r2 Hs|[a m d [] h] nul height b r2 Hs];
    unfold OutputNoteRecord_inclusion_proof_received, OutputNoteRecord_nullifier_received in Hs;
    simpl in *; repeat case_match; simplify_eq/=; auto; right; split_and!; auto; left; eauto.
Qed.
End record.

Section lemmas.
Context `{Protocol}.
Implicit Types r : OutputNoteRecord.

Lemma output_steps_identity r r' :
  rtc output_step r r' → output_identity r' = output_identity r.
Proof.
  induction 1 as [|r r1 r2 H1 _ IH]; [done|]. rewrite IH.
  destruct (output_step_cases _ _ H1) as [->|(_ & ? & _)]; done.
Qed.

Lemma output_consumed_steps r r' :
  rtc output_step r r' → OutputNoteRecord_is_consumed r = true → r' = r.
Proof.
  induction 1 as [|r r1 r2 H1 _ IH]; [done|]. intros Hc.
  destruct (output_step_cases _ _ H1) as [->|(? & _)]; [auto|congruence].
Qed.

Lemma output_committed_steps r r' :
  rtc output_step r r' → OutputNoteRecord_is_committed r = true →
  r' = r ∨ OutputNoteRecord_is_consumed r' = true.
Proof.
  induction 1 as [|r r1 r2 H1 H2 IH]; [auto|]. intros Hc.
  destruct (output_step_cases _ _ H1) as [->|(_ & _ & [[Hc1 _]|[? _]])]; [auto| |congruence].
  right. by rewrite (output_consumed_steps _ _ H2 Hc1).
Qed.
End lemmas.

Lemma nullifier_received_ok `{Protocol} (r : OutputNoteRecord) nullifier height :
  OutputNoteRecord_nullifier r = Some nullifier →
  ∃ b r', OutputNoteRecord_nullifier_received r nullifier height = Ok (b, r').
Proof.
  intros Hn. unfold OutputNoteRecord_nullifier_received. rewrite Hn.
  rewrite bool_decide_eq_false_2 by (by intros []).
  unfold OutputNoteRecord_nullifier, OutputNoteRecord_recipient in Hn.
  destruct (out_state r); simpl in *; try done; by eexists _, _.
Qed.

Lemma inclusion_received_ok `{Protocol} (r : OutputNoteRecord) proof :
  OutputNoteRecord_is_committed r = false →
  ∃ b r', OutputNoteRecord_inclusion_proof_received r proof = Ok (b, r').
Proof.
  unfold OutputNoteRecord_is_committed, OutputNoteRecord_inclusion_proof_received.
  destruct (out_state r); try done; simpl; by eexists _, _.
Qed.

(** ** Correctness *)

(** The life of an output note.  Its assets, metadata, recipient (known or
    not) and expected height never change, and with them its identifier and
    nullifier; a committed note keeps its record until it is consumed; a
    consumed record never changes; a note without a known recipient is never
    marked as consumed. *)
Theorem output_note_life `{Protocol} (r r' : OutputNoteRecord) :
  rtc output_step r r' →
  OutputNoteRecord_id r' = OutputNoteRecord_id r ∧
  OutputNoteRecord_nullifier r' = OutputNoteRecord_nullifier r ∧
  out_metadata r' = out_metadata r ∧
  (OutputNoteRecord_is_committed r = true →
    r' = r ∨ OutputNoteRecord_is_consumed r' = true) ∧
  (OutputNoteRecord_is_consumed r = true → r' = r) ∧
  (OutputNoteRecord_recipient r = None → OutputNoteRecord_is_consumed r' = false).
Proof.
  intros Hs. pose proof (output_steps_identity _ _ Hs) as Hid. unfold output_identity in Hid.
  injection Hid as Ha Hm Hd Hr Hh.
  unfold OutputNoteRecord_id, OutputNoteRecord_nullifier. rewrite Ha, Hm, Hd, Hr.
  split_and!; try done; eauto using output_committed_steps, output_consumed_steps.
  intros Hn. rewrite Hn in Hr. unfold OutputNoteRecord_recipient, OutputNoteRecord_is_consumed in *.
  by destruct (out_state r').
Qed.

(** [nullifier_received] consumes a note exactly when the nullifier is its
    own and it is not consumed yet; it fails for a partial note (whose nullifier
    is unknown) and for a nullifier of another note. *)
Theorem nullifier_received_spec `{Protocol} (r : OutputNoteRecord) nullifier height :
  match OutputNoteRecord_nullifier_received r nullifier height with
  | Ok (changed, r') =>
      OutputNoteRecord_nullifier r = Some nullifier ∧
      OutputNoteRecord_is_consumed r' = true ∧
      changed = negb (OutputNoteRecord_is_consumed r) ∧
      (changed = true → ∃ recipient, OutputNoteRecord_recipient r = Some recipient ∧
        out_state r' = Consumed height recipient) ∧
      (changed = false → r' = r)
  | Err _ => OutputNoteRecord_nullifier r ≠ Some nullifier
  end.
Proof.
  unfold OutputNoteRecord_nullifier_received, OutputNoteRecord_nullifier,
    OutputNoteRecord_recipient, OutputNoteRecord_is_consumed.
  destruct r as [a m d [] h]; simpl; try case_bool_decide; simpl; try split_and!;
    try done; try congruence; eauto.
Qed.

(** The input record and the output record of one note have the same
    identifier and nullifier, and exporting the output record with its proof
    gives back the note. *)
Theorem output_record_of_note `{ProtocolLaws} (n : Note) height proof :
  let r := OutputNoteRecord_from_full_note n height in
  OutputNoteRecord_id r = InputNoteRecord_id (InputNoteRecord_from_note n) ∧
  OutputNoteRecord_nullifier r = Some (InputNoteRecord_nullifier (InputNoteRecord_from_note n)) ∧
  OutputNoteRecord_id (OutputNoteRecord_from_partial_note (PartialNote_of_note n) height) =
    OutputNoteRecord_id r ∧
  OutputNoteRecord_into_note_file r Export_NoteDetails =
    Ok (NoteFile_NoteDetails (Note_into_details n) height
         (Some (NoteMetadata_tag (Note_metadata n)))) ∧
  (r' ← OutputNoteRecord_inclusion_proof_received r proof;
   OutputNoteRecord_into_note_file r'.2 Export_NoteWithProof) =
    Ok (NoteFile_NoteWithProof n proof).
Proof.
  destruct (PartialNote_of_note_spec n) as (Hpa & _ & Hpd).
  unfold OutputNoteRecord_id, InputNoteRecord_id, OutputNoteRecord_nullifier,
    InputNoteRecord_nullifier, OutputNoteRecord_into_note_file,
    OutputNoteRecord_try_into_details, OutputNoteRecord_try_into_note; simpl.
  rewrite Hpa, Hpd, NoteDetails_id_spec, NoteDetails_nullifier_spec, NoteDetails_eta, note_rebuild.
  by rewrite Note_details_assets, Note_details_recipient.
Qed.

(** An output note's state written to bytes is read back unchanged, and a
    first byte that is no state's discriminant is refused. *)
Theorem OutputNoteState_roundtrip `{SerdeLaws} (s : OutputNoteState) (d : u8) rest :
  OutputNoteState_wf s →
  read_from OutputNoteState_codec (write_into OutputNoteState_codec s ++ rest) = Ok (s, rest) ∧
  (4 < d → read_from OutputNoteState_codec (d :: rest) = Err (InvalidValue "OutputNoteState")).
Proof.
  intros Hwf. split.
  - destruct s; simpl in *; roundtrip.
  - intros Hd. unfold OutputNoteState_codec, read_from. rewrite rbind_u8.
    unfold STATE_EXPECTED_PARTIAL, STATE_EXPECTED_FULL, STATE_COMMITTED_PARTIAL,
      STATE_COMMITTED_FULL, STATE_CONSUMED.
    by rewrite !(proj2 (Z.eqb_neq _ _)) by lia.
Qed.

(** ** Witnesses *)

Definition toy_output : OutputNoteRecord := OutputNoteRecord_from_full_note toy_note 9.

Lemma output_note_life_witness :
  let r' := out_with_state toy_output (Consumed 12 (3 : @NoteRecipient toy_protocol)) in
  rtc output_step toy_output r' ∧ OutputNoteRecord_id r' = OutputNoteRecord_id toy_output.
Proof.
  intros r'.
  assert (rtc output_step toy_output r') as Hr.
  { eapply rtc_l; [|apply rtc_refl].
    apply (output_nullifier toy_output (Note_nullifier toy_note) 12 true). reflexivity. }
  split; [exact Hr|]. exact (proj1 (output_note_life toy_output r' Hr)).
Defined.

Lemma output_record_of_note_witness :
  OutputNoteRecord_nullifier toy_output = Some (Note_nullifier toy_note).
Proof. exact (proj1 (proj2 (output_record_of_note toy_note 9 toy_inclusion))). Defined.

Lemma OutputNoteState_roundtrip_witness :
  read_from OutputNoteState_codec
    (write_into OutputNoteState_codec (Consumed 12 (3 : @NoteRecipient toy_protocol)) ++ [9]) =
  Ok (Consumed 12 (3 : @NoteRecipient toy_protocol), [9]).
Proof.
  apply (OutputNoteState_roundtrip (Consumed 12 (3 : @NoteRecipient toy_protocol)) 5 [9]).
  split; discriminate.
Defined.
