(* ===== verification/TxRecord.v ===== *)
(** * Transaction records

    [transaction/record.rs]: the transactions the client submitted, their status
    and the binary formats of both. *)

From S2P Require Import Prelude Protocol Serde Model.
From Stdlib Require Import ZArith Lia.
From stdpp Require Import base gmap list strings pretty.

Open Scope Z_scope.

Inductive DiscardCause :=
| Expired
| InputConsumed
| DiscardedInitialState
| Stale.

#[export] Instance DiscardCause_eq_dec : EqDecision DiscardCause.
Proof. solve_decision. Defined.

Definition DiscardCause_from_string (cause : string) : result DeserializationError DiscardCause :=
  if bool_decide (cause = "Expired"%string) then Ok Expired
  else if bool_decide (cause = "InputConsumed"%string) then Ok InputConsumed
  else if bool_decide (cause = "DiscardedInitialState"%string) then Ok DiscardedInitialState
  else if bool_decide (cause = "Stale"%string) then Ok Stale
  else Err (InvalidValue ("Invalid discard cause: " +:+ cause)).

(** [Display for DiscardCause]. *)
Definition DiscardCause_display (self : DiscardCause) : string :=
  match self with
  | Expired => "Expired"
  | InputConsumed => "InputConsumed"
  | DiscardedInitialState => "DiscardedInitialState"
  | Stale => "Stale"
  end.

Definition DiscardCause_codec : codec DiscardCause := Codec
  (λ self,
    match self with
    | Expired => write_u8 0
    | InputConsumed => write_u8 1
    | DiscardedInitialState => write_u8 2
    | Stale => write_u8 3
    end)
  (tag <~ read_u8 ;;
   if tag =? 0 then rret Expired
   else if tag =? 1 then rret InputConsumed
   else if tag =? 2 then rret DiscardedInitialState
   else if tag =? 3 then rret Stale
   else rerr (InvalidValue "Invalid discard cause")).

Inductive TransactionStatus :=
| Pending
| CommittedTx (block_number : BlockNumber) (commit_timestamp : u64)
| Discarded (cause : DiscardCause).

(** [TransactionStatus::variant() as u8]. *)
Definition TransactionStatus_variant (self : TransactionStatus) : u8 :=
  match self with
  | Pending => 0
  | CommittedTx _ _ => 1
  | Discarded _ => 2
  end.

(** [Display for TransactionStatus]. *)
Definition TransactionStatus_display (self : TransactionStatus) : string :=
  match self with
  | Pending => "Pending"
  | CommittedTx block_number _ => "Committed (Block: " +:+ pretty block_number +:+ ")"
  | Discarded cause => "Discarded (" +:+ DiscardCause_display cause +:+ ")"
  end.

Definition is_pending (s : TransactionStatus) : bool :=
  match s with Pending => true | _ => false end.

Section record.
Context `{Protocol}.

Record TransactionDetails := {
  tx_account_id : AccountId;
  tx_init_account_state : Word;
  tx_final_account_state : Word;
  tx_input_note_nullifiers : list Word;
  tx_output_notes : RawOutputNotes;
  tx_block_num : BlockNumber;
  tx_submission_height : BlockNumber;
  tx_expiration_block_num : BlockNumber;
  tx_creation_timestamp : u64
}.

Record TransactionRecord := {
  tx_id : TransactionId;
  tx_details : TransactionDetails;
  tx_script : option TransactionScript;
  tx_status : TransactionStatus
}.

Definition tx_with_status (self : TransactionRecord) (s : TransactionStatus) : TransactionRecord :=
  {| tx_id := tx_id self; tx_details := tx_details self; tx_script := tx_script self;
     tx_status := s |}.

Definition commit_transaction (self : TransactionRecord) (commit_height : BlockNumber)
    (commit_timestamp : u64) : bool * TransactionRecord :=
  match tx_status self with
  | Pending => (true, tx_with_status self (CommittedTx commit_height commit_timestamp))
  | Discarded _ | CommittedTx _ _ => (false, self)
  end.

Definition discard_transaction (self : TransactionRecord) (cause : DiscardCause) :
    bool * TransactionRecord :=
  match tx_status self with
  | Pending => (true, tx_with_status self (Discarded cause))
  | Discarded _ | CommittedTx _ _ => (false, self)
  end.

(** *** Binary formats *)

Definition TransactionStatus_codec `{!SerdeLib} : codec TransactionStatus := Codec
  (λ self,
    match self with
    | Pending => write_u8 (TransactionStatus_variant self)
    | CommittedTx block_number commit_timestamp =>
        write_u8 (TransactionStatus_variant self) ++
        write_into BlockNumber_codec block_number ++
        write_into u64_codec commit_timestamp
    | Discarded cause =>
        write_u8 (TransactionStatus_variant self) ++ write_into DiscardCause_codec cause
    end)
  (variant <~ read_u8 ;;
   if variant =? 0 then rret Pending
   else if variant =? 1 then
     block_number <~ read_from BlockNumber_codec ;;
     commit_timestamp <~ read_from u64_codec ;;
     rret (CommittedTx block_number commit_timestamp)
   else if variant =? 2 then
     cause <~ read_from DiscardCause_codec ;;
     rret (Discarded cause)
   else rerr (InvalidValue "Invalid transaction status")).

Definition TransactionDetails_codec `{!SerdeLib} : codec TransactionDetails := Codec
  (λ self,
    write_into AccountId_codec (tx_account_id self) ++
    write_into Word_codec (tx_init_account_state self) ++
    write_into Word_codec (tx_final_account_state self) ++
    write_into (vec_codec Word_codec) (tx_input_note_nullifiers self) ++
    write_into RawOutputNotes_codec (tx_output_notes self) ++
    write_into BlockNumber_codec (tx_block_num self) ++
    write_into BlockNumber_codec (tx_submission_height self) ++
    write_into BlockNumber_codec (tx_expiration_block_num self) ++
    write_into u64_codec (tx_creation_timestamp self))
  (account_id <~ read_from AccountId_codec ;;
   init_account_state <~ read_from Word_codec ;;
   final_account_state <~ read_from Word_codec ;;
   input_note_nullifiers <~ read_from (vec_codec Word_codec) ;;
   output_notes <~ read_from RawOutputNotes_codec ;;
   block_num <~ read_from BlockNumber_codec ;;
   submission_height <~ read_from BlockNumber_codec ;;
   expiration_block_num <~ read_from BlockNumber_codec ;;
   creation_timestamp <~ read_from u64_codec ;;
   rret {| tx_account_id := account_id; tx_init_account_state := init_account_state;
           tx_final_account_state := final_account_state;
           tx_input_note_nullifiers := input_note_nullifiers;
           tx_output_notes := output_notes; tx_block_num := block_num;
           tx_submission_height := submission_height;
           tx_expiration_block_num := expiration_block_num;
           tx_creation_timestamp := creation_timestamp |}).

Definition TransactionStatus_wf (s : TransactionStatus) : Prop :=
  match s with
  | CommittedTx b t => in_range U32_MAX b ∧ in_range U64_MAX t
  | _ => True
  end.

Definition TransactionDetails_wf (d : TransactionDetails) : Prop :=
  Z.of_nat (length (tx_input_note_nullifiers d)) ≤ U64_MAX ∧
  in_range U32_MAX (tx_block_num d) ∧ in_range U32_MAX (tx_submission_height d) ∧
  in_range U32_MAX (tx_expiration_block_num d) ∧ in_range U64_MAX (tx_creation_timestamp d).
End record.

#[export] Instance DiscardCause_codec_ok : CodecOk DiscardCause_codec any.
Proof. by intros [] rest _. Qed.

(** ** Correctness *)

(** The cause of a discarded transaction survives both of its encodings, the
    text the stores keep and the binary one; every other text is refused. *)
Theorem DiscardCause_roundtrip (c : DiscardCause) (s : string) rest :
  DiscardCause_from_string (DiscardCause_display c) = Ok c ∧
  read_from DiscardCause_codec (write_into DiscardCause_codec c ++ rest) = Ok (c, rest) ∧
  (DiscardCause_from_string s = Ok c ↔ s = DiscardCause_display c).
Proof.
  split_and!; [by destruct c|by destruct c|].
  unfold DiscardCause_from_string. repeat case_bool_decide; subst; destruct c; naive_solver.
Qed.

#[local] Opaque DiscardCause_codec.

#[export] Instance TransactionStatus_codec_ok `{SerdeLaws} : CodecOk TransactionStatus_codec TransactionStatus_wf.
Proof. intros [] rest' ?; simpl in *; roundtrip. Qed.

#[export] Instance TransactionDetails_codec_ok `{SerdeLaws} :
  CodecOk TransactionDetails_codec TransactionDetails_wf.
Proof. intros [] rest' (? & ? & ? & ? & ?); simpl in *. roundtrip. Qed.

(** The details and the status of a transaction written one after the other
    are read back unchanged. *)
Theorem transaction_record_roundtrip `{SerdeLaws} (d : TransactionDetails)
    (s : TransactionStatus) rest :
  TransactionDetails_wf d → TransactionStatus_wf s →
  (d' <~ read_from TransactionDetails_codec ;;
   s' <~ read_from TransactionStatus_codec ;;
   rret (d', s'))
    (write_into TransactionDetails_codec d ++ write_into TransactionStatus_codec s ++ rest) =
  Ok ((d, s), rest).
Proof.
  intros Hd Hs.
  rewrite (rbind_codec TransactionDetails_codec TransactionDetails_wf) by done.
  by rewrite (rbind_codec TransactionStatus_codec TransactionStatus_wf).
Qed.

Definition toy_details : TransactionDetails := {|
  tx_account_id := toy_account 7;
  tx_init_account_state := toy_word 100;
  tx_final_account_state := toy_word 101;
  tx_input_note_nullifiers := [toy_word 3];
  tx_output_notes := [] : @RawOutputNotes toy_protocol;
  tx_block_num := 9; tx_submission_height := 10; tx_expiration_block_num := 20;
  tx_creation_timestamp := 5 |}.

Lemma transaction_record_roundtrip_witness :
  (d' <~ read_from TransactionDetails_codec ;;
   s' <~ read_from TransactionStatus_codec ;;
   rret (d', s'))
    (write_into TransactionDetails_codec toy_details ++
     write_into TransactionStatus_codec (CommittedTx 11 6) ++ [1]) =
  Ok ((toy_details, CommittedTx 11 6), [1]).
Proof.
  apply (transaction_record_roundtrip toy_details (CommittedTx 11 6) [1]);
    repeat split; discriminate.
Defined.
