(* ===== verification/TxTracker.v ===== *)
(** * The transaction update tracker

    [TransactionUpdateTracker] of [sync/state_sync_update.rs]: the uncommitted
    transactions of the client during a sync, which are committed when the node
    reports them and discarded when they cannot be included any more.  Discarding
    a transaction invalidates the account state it produced, so every pending
    transaction that starts from that state is discarded too; the recursion is
    run with fuel and proved to end. *)

From S2P Require Import Prelude Protocol Model TxRecord.
From Stdlib Require Import ZArith Lia.
From stdpp Require Import base gmap list relations.

Open Scope Z_scope.

(** The struct has the one field [transactions]. *)
Abbreviation TransactionUpdateTracker := (gmap TransactionId TransactionRecord) (only parsing).

Section tracker.
Context `{Protocol}.

(** [rpc::domain::transaction::TransactionInclusion]. *)
Record TransactionInclusion := {
  incl_transaction_id : TransactionId;
  incl_block_num : BlockNumber;
  incl_account_id : AccountId;
  incl_initial_state_commitment : Word
}.

Definition TransactionUpdateTracker_new (transactions : list TransactionRecord) :
    TransactionUpdateTracker :=
  btree_collect ((λ tx, (tx_id tx, tx)) <$> transactions).

Definition committed_transactions (self : TransactionUpdateTracker) : list TransactionRecord :=
  filter (λ tx, (match tx_status tx with CommittedTx _ _ => true | _ => false end) = true)
    (btree_values self).

Definition discarded_transactions (self : TransactionUpdateTracker) : list TransactionRecord :=
  filter (λ tx, (match tx_status tx with Discarded _ => true | _ => false end) = true)
    (btree_values self).

Definition updated_transaction_ids (self : TransactionUpdateTracker) : list TransactionId :=
  tx_id <$> (committed_transactions self ++ discarded_transactions self).

Definition apply_transaction_inclusion (self : TransactionUpdateTracker)
    (transaction_inclusion : TransactionInclusion) (timestamp : u64) : TransactionUpdateTracker :=
  match self !! incl_transaction_id transaction_inclusion with
  | Some transaction =>
      <[incl_transaction_id transaction_inclusion :=
          (commit_transaction transaction (incl_block_num transaction_inclusion) timestamp).2]> self
  | None =>
      match btree_find (λ tx,
          bool_decide (tx_account_id (tx_details tx) = incl_account_id transaction_inclusion) &&
          bool_decide (tx_init_account_state (tx_details tx) =
                       incl_initial_state_commitment transaction_inclusion)) self with
      | Some (id, transaction) =>
          <[id := (commit_transaction transaction (incl_block_num transaction_inclusion)
                     timestamp).2]> self
      | None => self
      end
  end.

(** The body of the loop over the pending transactions: it discards the
    transaction and pushes its final state. *)
Definition discard_body (predicate : TransactionRecord → bool) (discard_cause : DiscardCause)
    (transaction : TransactionRecord) (new_invalid_account_states : list Word) :
    TransactionRecord * list Word :=
  if is_pending (tx_status transaction) then
    if predicate transaction then
      let '(discarded, transaction') := discard_transaction transaction discard_cause in
      if discarded then
        (transaction', new_invalid_account_states ++ [tx_final_account_state (tx_details transaction')])
      else (transaction', new_invalid_account_states)
    else (transaction, new_invalid_account_states)
  else (transaction, new_invalid_account_states).

Definition has_initial_state (state : Word) (transaction : TransactionRecord) : bool :=
  bool_decide (tx_init_account_state (tx_details transaction) = state).

(** [discard_transaction_with_predicate] and [apply_invalid_initial_account_state]
    call each other; [None] is running out of fuel. *)
Fixpoint discard_fuel (fuel : nat) (self : TransactionUpdateTracker)
    (predicate : TransactionRecord → bool) (discard_cause : DiscardCause) :
    option TransactionUpdateTracker :=
  match fuel with
  | O => None
  | S fuel =>
      let '(self, new_invalid_account_states) :=
        btree_iter_mut (discard_body predicate discard_cause) self [] in
      foldl (λ acc state,
          self ← acc; discard_fuel fuel self (has_initial_state state) DiscardedInitialState)
        (Some self) new_invalid_account_states
  end.

(** The number of pending transactions bounds the depth of the recursion. *)
Definition pending_count (self : TransactionUpdateTracker) : nat :=
  size (filter (λ kv : TransactionId * TransactionRecord,
    is_pending (tx_status kv.2) = true) self).

Definition discard_transaction_with_predicate (self : TransactionUpdateTracker)
    (predicate : TransactionRecord → bool) (discard_cause : DiscardCause) :
    TransactionUpdateTracker :=
  default self (discard_fuel (S (pending_count self)) self predicate discard_cause).

Definition apply_invalid_initial_account_state (self : TransactionUpdateTracker)
    (invalid_account_state : Word) : TransactionUpdateTracker :=
  discard_transaction_with_predicate self (has_initial_state invalid_account_state)
    DiscardedInitialState.

Definition apply_sync_height_update (self : TransactionUpdateTracker)
    (new_sync_height : BlockNumber) (tx_discard_delta : option u32) : TransactionUpdateTracker :=
  let self :=
    match tx_discard_delta with
    | Some tx_discard_delta =>
        discard_transaction_with_predicate self
          (λ transaction, tx_submission_height (tx_details transaction) <?
             default 0 (checked_sub new_sync_height tx_discard_delta)) Stale
    | None => self
    end in
  discard_transaction_with_predicate self
    (λ transaction, tx_expiration_block_num (tx_details transaction) <=? new_sync_height) Expired.

Definition apply_input_note_nullified (self : TransactionUpdateTracker)
    (input_note_nullifier : Nullifier) : TransactionUpdateTracker :=
  discard_transaction_with_predicate self
    (λ transaction, bool_decide
       (Nullifier_as_word input_note_nullifier ∈ tx_input_note_nullifiers (tx_details transaction)))
    InputConsumed.

(** ** What a discard does *)

(** The transactions a discard reaches: the pending ones that satisfy the
    predicate, and the pending ones that start from the final state of a
    transaction that is reached. *)
Inductive doomed (m : TransactionUpdateTracker) (p : TransactionRecord → bool) :
    TransactionId → TransactionRecord → Prop :=
| doomed_predicate k tx :
    m !! k = Some tx → is_pending (tx_status tx) = true → p tx = true → doomed m p k tx
| doomed_chain k' tx' k tx :
    doomed m p k' tx' → m !! k = Some tx → is_pending (tx_status tx) = true →
    tx_init_account_state (tx_details tx) = tx_final_account_state (tx_details tx') →
    doomed m p k tx.

(** Statuses only move from pending to discarded. *)
Definition discard_rel (m m' : TransactionUpdateTracker) : Prop :=
  ∀ k, m' !! k = m !! k ∨
    ∃ tx c, m !! k = Some tx ∧ is_pending (tx_status tx) = true ∧
            m' !! k = Some (tx_with_status tx (Discarded c)).

Implicit Types (m : TransactionUpdateTracker) (k : TransactionId) (tx : TransactionRecord).

Lemma elem_of_committed_transactions m tx :
  tx ∈ committed_transactions m ↔
  (∃ k, m !! k = Some tx) ∧ TransactionStatus_variant (tx_status tx) = 1.
Proof.
  unfold committed_transactions. rewrite list_elem_of_filter, elem_of_btree_values.
  destruct (tx_status tx); naive_solver.
Qed.

(** *** One pass over the pending transactions *)

Definition hit (p : TransactionRecord → bool) (tx : TransactionRecord) : bool :=
  is_pending (tx_status tx) && p tx.

Definition discard_hit p c tx : TransactionRecord :=
  if hit p tx then tx_with_status tx (Discarded c) else tx.

(** The final states of the transactions a pass discards. *)
Definition hit_states p (m : TransactionUpdateTracker) : list Word :=
  (λ tx, tx_final_account_state (tx_details tx)) <$> filter (λ tx, hit p tx = true) (btree_values m).

Lemma discard_body_hit p c tx acc :
  discard_body p c tx acc =
    (discard_hit p c tx,
     acc ++ if hit p tx then [tx_final_account_state (tx_details tx)] else []).
Proof.
  unfold discard_body, discard_hit, hit, discard_transaction.
  destruct (tx_status tx); simpl; [destruct (p tx)|..]; simpl; by rewrite ?app_nil_r.
Qed.

Lemma hit_states_fold p (l : list TransactionRecord) (acc : list Word) :
  foldl (λ acc tx, acc ++ if hit p tx then [tx_final_account_state (tx_details tx)] else []) acc l =
  acc ++ ((λ tx, tx_final_account_state (tx_details tx)) <$> filter (λ tx, hit p tx = true) l).
Proof.
  revert acc. induction l as [|tx l IH]; intros acc; simpl; [by rewrite app_nil_r|].
  rewrite IH, filter_cons. destruct (hit p tx); simpl; [by rewrite <-app_assoc|].
  by rewrite app_nil_r.
Qed.

Lemma discard_pass p c m :
  btree_iter_mut (discard_body p c) m [] = (discard_hit p c <$> m, hit_states p m).
Proof.
  rewrite (btree_iter_mut_ext _ (λ tx acc, (discard_hit p c tx,
     acc ++ if hit p tx then [tx_final_account_state (tx_details tx)] else [])))
    by apply discard_body_hit.
  rewrite (btree_iter_mut_spec (discard_hit p c) (λ tx acc,
     acc ++ if hit p tx then [tx_final_account_state (tx_details tx)] else [])).
  f_equal. apply (hit_states_fold p (btree_values m) []).
Qed.

Lemma elem_of_hit_states p m s :
  s ∈ hit_states p m ↔
  ∃ k tx, m !! k = Some tx ∧ hit p tx = true ∧ s = tx_final_account_state (tx_details tx).
Proof.
  unfold hit_states. rewrite list_elem_of_fmap. split.
  - intros (tx & -> & [Hh Hin]%list_elem_of_filter). apply elem_of_btree_values in Hin as [k Hk].
    eauto.
  - intros (k & tx & Hk & Hh & ->). exists tx. split; [done|]. apply list_elem_of_filter.
    split; [done|]. apply elem_of_btree_values. eauto.
Qed.

Lemma hit_true p tx : hit p tx = true ↔ is_pending (tx_status tx) = true ∧ p tx = true.
Proof. apply andb_true_iff. Qed.

(** *** Trackers related by discards *)

Lemma discard_rel_refl m : discard_rel m m.
Proof. intros k. by left. Qed.

Lemma discard_rel_trans m1 m2 m3 : discard_rel m1 m2 → discard_rel m2 m3 → discard_rel m1 m3.
Proof.
  intros H12 H23 k. destruct (H23 k) as [E|(tx & c & Hk & Hp & E)], (H12 k) as [E'|(tx' & c' & Hk' & Hp' & E')].
  - left. congruence.
  - right. exists tx', c'. split_and!; congruence.
  - right. exists tx, c. split_and!; congruence.
  - rewrite E' in Hk. by simplify_eq/=.
Qed.

(** A transaction that is still pending has not been touched. *)
Lemma discard_rel_pending m m' k tx :
  discard_rel m m' → m' !! k = Some tx → is_pending (tx_status tx) = true → m !! k = Some tx.
Proof.
  intros Hr Hk Hp. destruct (Hr k) as [E|(tx' & c & _ & _ & E)]; [congruence|].
  rewrite E in Hk. by simplify_eq/=.
Qed.

Lemma doomed_mono m m' p k tx : discard_rel m m' → doomed m' p k tx → doomed m p k tx.
Proof.
  induction 2 as [k tx Hk Hp Hq|k' tx' k tx Hd IH Hk Hp Hq].
  - apply doomed_predicate; eauto using discard_rel_pending.
  - eapply doomed_chain; eauto using discard_rel_pending.
Qed.

Lemma doomed_lookup m p k tx :
  doomed m p k tx → m !! k = Some tx ∧ is_pending (tx_status tx) = true.
Proof. by induction 1. Qed.

Lemma discard_hit_rel p c m : discard_rel m (discard_hit p c <$> m).
Proof.
  intros k. rewrite lookup_fmap. destruct (m !! k) as [tx|] eqn:E; [|by left]. simpl.
  unfold discard_hit. destruct (hit p tx) eqn:Hh; [|by left].
  right. apply hit_true in Hh as [? _]. eauto.
Qed.

Lemma pending_count_mono m m' : discard_rel m m' → (pending_count m' ≤ pending_count m)%nat.
Proof.
  intros Hr. apply map_subseteq_size, map_subseteq_spec. intros k tx.
  rewrite !map_lookup_filter_Some. intros [Hk Hp]. eauto using discard_rel_pending.
Qed.

(** A pass that discards a transaction lowers the count. *)
Lemma pending_count_hit p c m s :
  s ∈ hit_states p m → (pending_count (discard_hit p c <$> m) < pending_count m)%nat.
Proof.
  intros (k & tx & Hk & [Hp Hq]%hit_true & _)%elem_of_hit_states.
  pose proof (discard_hit_rel p c m) as Hr. apply map_subset_size, map_subset_alt. split.
  - apply map_subseteq_spec. intros k' tx'.
    rewrite !map_lookup_filter_Some. intros [? ?]. eauto using discard_rel_pending.
  - exists k. split.
    + apply map_lookup_filter_None. right. intros tx'. rewrite lookup_fmap, Hk. simpl.
      unfold discard_hit. rewrite (proj2 (hit_true p tx)) by done. by intros [= <-].
    + exists tx. by apply map_lookup_filter_Some.
Qed.

(** *** The closure computed by the recursion *)

Definition final_cause (p : TransactionRecord → bool) (c : DiscardCause) tx : DiscardCause :=
  if p tx then c else DiscardedInitialState.

(** [m'] is [m] with exactly the doomed transactions discarded. *)
Record discard_spec (m : TransactionUpdateTracker) p c (m' : TransactionUpdateTracker) : Prop := {
  spec_only k : m' !! k = m !! k ∨ ∃ tx, doomed m p k tx ∧
    m' !! k = Some (tx_with_status tx (Discarded (final_cause p c tx)));
  spec_all k tx : doomed m p k tx →
    m' !! k = Some (tx_with_status tx (Discarded (final_cause p c tx)))
}.

Lemma discard_spec_rel m p c m' : discard_spec m p c m' → discard_rel m m'.
Proof.
  intros Hs k. destruct (spec_only _ _ _ _ Hs k) as [?|(tx & Hd & ?)]; [by left|right].
  apply doomed_lookup in Hd as [??]. eauto.
Qed.

Lemma discard_spec_unique m p c m1 m2 :
  discard_spec m p c m1 → discard_spec m p c m2 → m1 = m2.
Proof.
  intros H1 H2. apply map_eq. intros k.
  destruct (spec_only _ _ _ _ H1 k) as [E1|(tx & Hd & ->)];
    [|by rewrite (spec_all _ _ _ _ H2 k tx)].
  destruct (spec_only _ _ _ _ H2 k) as [E2|(tx & Hd & ->)];
    [congruence|by rewrite (spec_all _ _ _ _ H1 k tx)].
Qed.

(** What the calls for a list of invalid states do together. *)
Record chain_spec (m : TransactionUpdateTracker) (l : list Word)
    (m' : TransactionUpdateTracker) : Prop := {
  chain_only k : m' !! k = m !! k ∨ ∃ s tx, s ∈ l ∧ doomed m (has_initial_state s) k tx ∧
    m' !! k = Some (tx_with_status tx (Discarded DiscardedInitialState));
  chain_all s k tx : s ∈ l → doomed m (has_initial_state s) k tx →
    m' !! k = Some (tx_with_status tx (Discarded DiscardedInitialState))
}.

Lemma final_cause_initial p tx : final_cause p DiscardedInitialState tx = DiscardedInitialState.
Proof. unfold final_cause. by destruct (p tx). Qed.

(** After the transactions reached from [p] are discarded, what is reached from
    [q] is still reached from [q], or already discarded. *)
Lemma doomed_after m p c m' q k tx :
  discard_spec m p c m' → doomed m q k tx →
  doomed m' q k tx ∨ m' !! k = Some (tx_with_status tx (Discarded (final_cause p c tx))).
Proof.
  intros Hs. induction 1 as [k tx Hk Hp Hq|k' tx' k tx Hd IH Hk Hp Hq].
  - destruct (spec_only _ _ _ _ Hs k) as [E|(tx' & Hd & E)].
    + left. apply doomed_predicate; congruence.
    + right. apply doomed_lookup in Hd as [? _]. by simplify_eq.
  - destruct (spec_only _ _ _ _ Hs k) as [E|(tx2 & Hd2 & E)];
      [|right; apply doomed_lookup in Hd2 as [? _]; by simplify_eq].
    destruct (spec_only _ _ _ _ Hs k') as [E'|(tx3 & Hd3 & E')].
    + destruct IH as [IH|IH]; [left; eapply doomed_chain; eauto; congruence|].
      apply doomed_lookup in Hd as [Hk' Hp']. rewrite E', Hk' in IH.
      injection IH as IH. rewrite IH in Hp'. done.
    + right. apply (spec_all _ _ _ _ Hs). eapply doomed_chain; [exact Hd3|done..|].
      apply doomed_lookup in Hd3 as [Hk3 _], Hd as [Hk' _]. congruence.
Qed.

Lemma chain_spec_nil m : chain_spec m [] m.
Proof. split; [by left|]. intros s k tx Hs. by apply not_elem_of_nil in Hs. Qed.

Lemma chain_spec_discarded m l m' k tx c :
  chain_spec m l m' → m !! k = Some (tx_with_status tx (Discarded c)) →
  m' !! k = Some (tx_with_status tx (Discarded c)).
Proof.
  intros Hs Hk. destruct (chain_only _ _ _ Hs k) as [->|(s & tx' & _ & Hd & _)]; [done|].
  apply doomed_lookup in Hd as [Hk' Hp]. rewrite Hk in Hk'. by simplify_eq/=.
Qed.

Lemma chain_spec_cons m s l m1 m' :
  discard_spec m (has_initial_state s) DiscardedInitialState m1 → chain_spec m1 l m' →
  chain_spec m (s :: l) m'.
Proof.
  intros H1 Hl. pose proof (discard_spec_rel _ _ _ _ H1) as Hr. split.
  - intros k. destruct (chain_only _ _ _ Hl k) as [->|(s' & tx & Hin & Hd & E)].
    + destruct (spec_only _ _ _ _ H1 k) as [?|(tx & Hd & E)]; [by left|right].
      exists s, tx. rewrite final_cause_initial in E. split_and!; [left|done|done].
    + right. exists s', tx. split_and!; [by right|by eapply doomed_mono|done].
  - intros s' k tx [->|Hin]%elem_of_cons Hd.
    + eapply chain_spec_discarded; [done|].
      rewrite (spec_all _ _ _ _ H1 _ _ Hd). by rewrite final_cause_initial.
    + destruct (doomed_after _ _ _ _ _ _ _ H1 Hd) as [Hd1|E].
      * by apply (chain_all _ _ _ Hl s').
      * rewrite final_cause_initial in E. by eapply chain_spec_discarded.
Qed.

Lemma pass_lookup (m : TransactionUpdateTracker) p c k tx :
  m !! k = Some tx → is_pending (tx_status tx) = true →
  (discard_hit p c <$> m) !! k = Some (if p tx then tx_with_status tx (Discarded c) else tx).
Proof.
  intros Hk Hp. rewrite lookup_fmap, Hk. simpl. unfold discard_hit, hit.
  rewrite Hp. by destruct (p tx).
Qed.

(** What is still pending after a pass did not satisfy the predicate. *)
Lemma pass_pending (m : TransactionUpdateTracker) p c k tx :
  (discard_hit p c <$> m) !! k = Some tx → is_pending (tx_status tx) = true → p tx = false.
Proof.
  intros Hk Hp.
  pose proof (discard_rel_pending _ _ _ _ (discard_hit_rel p c m) Hk Hp) as Hk'.
  rewrite (pass_lookup _ _ _ _ _ Hk' Hp) in Hk. destruct (p tx); [|done].
  injection Hk as Hk. rewrite <-Hk in Hp. done.
Qed.

Lemma pass_down m p c s k tx :
  s ∈ hit_states p m → doomed (discard_hit p c <$> m) (has_initial_state s) k tx → doomed m p k tx.
Proof.
  pose proof (discard_hit_rel p c m) as Hr.
  intros Hs. induction 1 as [k tx Hk Hp Hq|k' tx' k tx Hd IH Hk Hp Hq].
  - apply elem_of_hit_states in Hs as (k0 & tx0 & Hk0 & [Hp0 Hq0]%hit_true & ->).
    apply bool_decide_eq_true in Hq.
    eapply doomed_chain; [by apply (doomed_predicate _ _ k0 tx0)|..];
      eauto using discard_rel_pending.
  - eapply doomed_chain; eauto using discard_rel_pending.
Qed.

Lemma pass_up m p c k tx :
  doomed m p k tx → p tx = true ∨
  ∃ s, s ∈ hit_states p m ∧ doomed (discard_hit p c <$> m) (has_initial_state s) k tx.
Proof.
  induction 1 as [k tx Hk Hp Hq|k' tx' k tx Hd IH Hk Hp Hq]; [by left|].
  destruct (p tx) eqn:Hptx; [by left|right].
  pose proof (pass_lookup _ p c _ _ Hk Hp) as Hk1. rewrite Hptx in Hk1.
  destruct IH as [Hp'|(s & Hs & Hds)].
  - exists (tx_final_account_state (tx_details tx')). split.
    + apply doomed_lookup in Hd as [Hk' Hpk']. apply elem_of_hit_states.
      exists k', tx'. by rewrite hit_true.
    + apply doomed_predicate; [done..|]. by apply bool_decide_eq_true.
  - exists s. split; [done|]. by eapply doomed_chain.
Qed.

(** One pass, followed by the calls for the states it invalidated. *)
Lemma discard_spec_pass m p c m' :
  chain_spec (discard_hit p c <$> m) (hit_states p m) m' → discard_spec m p c m'.
Proof.
  intros Hch. split.
  - intros k. destruct (chain_only _ _ _ Hch k) as [->|(s & tx & Hs & Hd & E)].
    + destruct (discard_hit_rel p c m k) as [?|(tx & c' & Hk & Hp & E)]; [by left|right].
      rewrite (pass_lookup _ _ _ _ _ Hk Hp) in E |- *. exists tx.
      unfold final_cause. destruct (p tx) eqn:Hq; [split; [by apply doomed_predicate|done]|].
      injection E as E. rewrite E in Hp. done.
    + right. exists tx. split; [by eapply pass_down|]. apply doomed_lookup in Hd as [Hk Hp].
      rewrite E. unfold final_cause. by rewrite (pass_pending _ _ _ _ _ Hk Hp).
  - intros k tx Hd. pose proof (doomed_lookup _ _ _ _ Hd) as [Hk Hp].
    unfold final_cause. destruct (pass_up _ _ c _ _ Hd) as [Hq|(s & Hs & Hds)].
    + rewrite Hq. eapply chain_spec_discarded; [done|].
      rewrite (pass_lookup _ _ _ _ _ Hk Hp). by rewrite Hq.
    + pose proof (doomed_lookup _ _ _ _ Hds) as [Hk1 Hp1]. rewrite (pass_pending _ _ _ _ _ Hk1 Hp1).
      by apply (chain_all _ _ _ Hch s).
Qed.

(** *** The fuelled recursion *)

Lemma chain_fold_spec n :
  (∀ m p c m', discard_fuel n m p c = Some m' → discard_spec m p c m') →
  ∀ l m m', foldl (λ acc state,
      self ← acc; discard_fuel n self (has_initial_state state) DiscardedInitialState)
    (Some m) l = Some m' → chain_spec m l m'.
Proof.
  intros Hn l. induction l as [|s l IH]; intros m m'; simpl; intros Hf.
  - injection Hf as <-. apply chain_spec_nil.
  - destruct (discard_fuel n m _ _) as [m1|] eqn:E.
    + eapply chain_spec_cons; [by apply Hn|by apply IH].
    + exfalso. clear -Hf. by induction l.
Qed.

Lemma discard_fuel_spec n : ∀ m p c m',
  discard_fuel n m p c = Some m' → discard_spec m p c m'.
Proof.
  induction n as [|n IH]; intros m p c m'; [done|]. simpl. rewrite discard_pass. intros Hf.
  apply discard_spec_pass. by apply (chain_fold_spec n).
Qed.

Lemma discard_fuel_enough n : ∀ m p c,
  (pending_count m < n)%nat → is_Some (discard_fuel n m p c).
Proof.
  induction n as [|n IH]; intros m p c Hn; [lia|]. simpl. rewrite discard_pass.
  destruct (hit_states p m) as [|s0 l0] eqn:El; [by eexists|].
  assert (pending_count (discard_hit p c <$> m) < n)%nat as Hn1.
  { assert (s0 ∈ hit_states p m) as Hs0 by (rewrite El; left).
    pose proof (pending_count_hit p c m s0 Hs0). lia. }
  rewrite <-El. clear El. generalize (hit_states p m). intros l.
  revert Hn1. generalize (discard_hit p c <$> m). induction l as [|s l IHl]; intros m1 Hn1; simpl.
  - by eexists.
  - destruct (IH m1 (has_initial_state s) DiscardedInitialState Hn1) as [m2 E]. rewrite E. simpl.
    apply IHl. pose proof (pending_count_mono _ _ (discard_spec_rel _ _ _ _ (discard_fuel_spec _ _ _ _ _ E))).
    lia.
Qed.

Lemma discard_fuel_eq n m p c :
  (pending_count m < n)%nat →
  discard_fuel n m p c = Some (discard_transaction_with_predicate m p c).
Proof.
  intros Hn. unfold discard_transaction_with_predicate.
  destruct (discard_fuel_enough n m p c Hn) as [m1 E1].
  destruct (discard_fuel_enough (S (pending_count m)) m p c) as [m2 E2]; [lia|].
  rewrite E1, E2. simpl. f_equal. eapply discard_spec_unique; by eapply discard_fuel_spec.
Qed.

Lemma discard_with_predicate_spec m p c :
  discard_spec m p c (discard_transaction_with_predicate m p c).
Proof. eapply discard_fuel_spec, discard_fuel_eq. apply Nat.lt_succ_diag_r. Qed.

(** ** All operations *)

Inductive tracker_step : TransactionUpdateTracker → TransactionUpdateTracker → Prop :=
| step_inclusion m i ts : tracker_step m (apply_transaction_inclusion m i ts)
| step_sync_height m h d : tracker_step m (apply_sync_height_update m h d)
| step_nullified m n : tracker_step m (apply_input_note_nullified m n)
| step_invalid_state m s : tracker_step m (apply_invalid_initial_account_state m s).

(** Only pending transactions change, and only their status. *)
Definition status_rel m (m' : TransactionUpdateTracker) : Prop :=
  ∀ k, match m !! k with
       | Some tx => ∃ s, m' !! k = Some (tx_with_status tx s) ∧
           (is_pending (tx_status tx) = false → s = tx_status tx)
       | None => m' !! k = None
       end.

Lemma tx_status_eta tx : tx_with_status tx (tx_status tx) = tx.
Proof. by destruct tx. Qed.

Lemma status_rel_refl m : status_rel m m.
Proof.
  intros k. destruct (m !! k) as [tx|] eqn:E; [|done]. exists (tx_status tx).
  by rewrite tx_status_eta.
Qed.

Lemma status_rel_trans m1 m2 m3 : status_rel m1 m2 → status_rel m2 m3 → status_rel m1 m3.
Proof.
  intros H12 H23 k. specialize (H12 k). specialize (H23 k).
  destruct (m1 !! k) as [tx|] eqn:E; [|by rewrite H12 in H23].
  destruct H12 as (s & E2 & Hs). rewrite E2 in H23. destruct H23 as (s' & -> & Hs').
  exists s'. split; [done|]. intros Hp. specialize (Hs Hp). subst s. by apply Hs'.
Qed.

Lemma discard_status_rel m m' : discard_rel m m' → status_rel m m'.
Proof.
  intros Hr k. destruct (Hr k) as [->|(tx & c & -> & Hp & ->)]; [apply status_rel_refl|].
  exists (Discarded c). split; [done|]. by rewrite Hp.
Qed.

Lemma insert_commit_rel m k tx h ts :
  m !! k = Some tx → status_rel m (<[k := (commit_transaction tx h ts).2]> m).
Proof.
  intros Hk k'. destruct (decide (k' = k)) as [->|Hne].
  - rewrite Hk, lookup_insert_eq. unfold commit_transaction.
    destruct (tx_status tx) eqn:E; simpl; [by exists (CommittedTx h ts)|..];
      exists (tx_status tx); by rewrite tx_status_eta.
  - rewrite lookup_insert_ne by done. apply status_rel_refl.
Qed.

Lemma inclusion_status_rel m i ts : status_rel m (apply_transaction_inclusion m i ts).
Proof.
  unfold apply_transaction_inclusion. destruct (m !! _) as [tx|] eqn:E.
  - by apply insert_commit_rel.
  - destruct (btree_find _ m) as [[k tx]|] eqn:Ef; [|apply status_rel_refl].
    apply btree_find_Some in Ef as (Hk & _ & _). by apply insert_commit_rel.
Qed.

Lemma discard_with_predicate_rel m p c :
  discard_rel m (discard_transaction_with_predicate m p c).
Proof. eapply discard_spec_rel, discard_with_predicate_spec. Qed.

Lemma sync_height_rel m h d : discard_rel m (apply_sync_height_update m h d).
Proof.
  unfold apply_sync_height_update. destruct d as [d|].
  - eapply discard_rel_trans; apply discard_with_predicate_rel.
  - apply discard_with_predicate_rel.
Qed.

Lemma tracker_step_rel m m' : tracker_step m m' → status_rel m m'.
Proof.
  intros [].
  - apply inclusion_status_rel.
  - apply discard_status_rel, sync_height_rel.
  - apply discard_status_rel, discard_with_predicate_rel.
  - apply discard_status_rel, discard_with_predicate_rel.
Qed.

(** After a discard, a transaction that is still pending does not satisfy the
    predicate and starts from no discarded state. *)
Lemma discard_leaves m p c k tx :
  discard_transaction_with_predicate m p c !! k = Some tx → is_pending (tx_status tx) = true →
  m !! k = Some tx ∧ ∀ tx', ¬ doomed m p k tx'.
Proof.
  intros Hk Hp. pose proof (discard_with_predicate_spec m p c) as Hs.
  split; [eauto using discard_rel_pending, discard_spec_rel|].
  intros tx' Hd. rewrite (spec_all _ _ _ _ Hs _ _ Hd) in Hk. by simplify_eq/=.
Qed.

Lemma discard_leaves_predicate m p c k tx :
  discard_transaction_with_predicate m p c !! k = Some tx → is_pending (tx_status tx) = true →
  p tx = false.
Proof.
  intros Hk Hp. destruct (discard_leaves _ _ _ _ _ Hk Hp) as [Hm Hd].
  destruct (p tx) eqn:E; [|done]. destruct (Hd tx). by apply doomed_predicate.
Qed.
End tracker.

(** ** Correctness *)

(** C30: discarding reaches exactly the closure of the predicate.  A pending
    transaction is discarded when it satisfies the predicate (with the given
    cause) or when it starts from the final account state of a discarded one
    (with [DiscardedInitialState]); no other record changes. *)
Theorem discard_cascade_exact `{Protocol} (m : TransactionUpdateTracker) p c :
  let m' := discard_transaction_with_predicate m p c in
  (∀ k tx, doomed m p k tx →
    m' !! k = Some (tx_with_status tx
      (Discarded (if p tx then c else DiscardedInitialState)))) ∧
  (∀ k, (∀ tx, ¬ doomed m p k tx) → m' !! k = m !! k).
Proof.
  pose proof (discard_with_predicate_spec m p c) as Hs. split.
  - apply (spec_all _ _ _ _ Hs).
  - intros k Hd. destruct (spec_only _ _ _ _ Hs k) as [?|(tx & Hk & _)]; [done|].
    by destruct (Hd tx).
Qed.

(** The mutual recursion of [discard_transaction_with_predicate] and
    [apply_invalid_initial_account_state] ends, also on cyclic account states:
    its depth is at most the number of pending transactions plus one, and any
    larger bound gives the same result. *)
Theorem discard_terminates `{Protocol} (m : TransactionUpdateTracker) p c (fuel : nat) :
  (pending_count m < fuel)%nat →
  discard_fuel fuel m p c = Some (discard_transaction_with_predicate m p c).
Proof. apply discard_fuel_eq. Qed.

(** A transaction that is committed or discarded never changes again, and no
    operation adds, removes or alters anything but the status of a record. *)
Theorem settled_transactions_are_final `{Protocol} (m m' : TransactionUpdateTracker) :
  rtc tracker_step m m' →
  ∀ k, match m !! k with
       | Some tx => ∃ s, m' !! k = Some (tx_with_status tx s) ∧
           (is_pending (tx_status tx) = false → m' !! k = Some tx)
       | None => m' !! k = None
       end.
Proof.
  intros Hs. assert (status_rel m m') as Hr.
  { induction Hs; eauto using status_rel_refl, status_rel_trans, tracker_step_rel. }
  intros k. specialize (Hr k). destruct (m !! k) as [tx|]; [|done].
  destruct Hr as (s & -> & Hs'). exists s. split; [done|]. intros Hp.
  by rewrite (Hs' Hp), tx_status_eta.
Qed.

(** After a sync to height [h], a transaction that is still pending expires
    after [h], and, with a discard delta [d], was submitted at block [h - d] or
    later; it is the record it was before. *)
Lemma sync_height_leaves_live_transactions `{Protocol}
    (m : TransactionUpdateTracker) h delta k tx :
  apply_sync_height_update m h delta !! k = Some tx → is_pending (tx_status tx) = true →
  m !! k = Some tx ∧ h < tx_expiration_block_num (tx_details tx) ∧
  ∀ d, delta = Some d → Z.max 0 (h - d) ≤ tx_submission_height (tx_details tx).
Proof.
  unfold apply_sync_height_update. intros Hk Hp.
  pose proof (discard_leaves_predicate _ _ _ _ _ Hk Hp) as He. simpl in He.
  destruct (discard_leaves _ _ _ _ _ Hk Hp) as [Hk1 _].
  split_and!; [|lia|].
  - destruct delta as [d|]; [|done]. by apply discard_leaves in Hk1 as [??].
  - intros d ->. pose proof (discard_leaves_predicate _ _ _ _ _ Hk1 Hp) as Hd. simpl in Hd.
    unfold checked_sub in Hd. case_match; simpl in Hd; lia.
Qed.

(** The transaction an inclusion confirms: the one with its identifier, or, when
    the identifier is not tracked, the first one of the same account that starts
    from the same state. *)
Definition incl_matches `{Protocol} (i : TransactionInclusion) (tx : TransactionRecord) : bool :=
  bool_decide (tx_account_id (tx_details tx) = incl_account_id i) &&
  bool_decide (tx_init_account_state (tx_details tx) = incl_initial_state_commitment i).

Definition inclusion_target `{Protocol} (m : TransactionUpdateTracker)
    (i : TransactionInclusion) (k : TransactionId) (tx : TransactionRecord) : Prop :=
  k = incl_transaction_id i ∨
  m !! incl_transaction_id i = None ∧ incl_matches i tx = true ∧
  ∀ k' tx', m !! k' = Some tx' → incl_matches i tx' = true → key_le k k'.

(** An inclusion commits exactly its target, at the block and time of the
    inclusion; every other pending transaction is unchanged. *)
Theorem inclusion_commits_its_target `{Protocol} (m : TransactionUpdateTracker) i ts k tx :
  m !! k = Some tx → is_pending (tx_status tx) = true →
  let m' := apply_transaction_inclusion m i ts in
  (inclusion_target m i k tx →
    m' !! k = Some (tx_with_status tx (CommittedTx (incl_block_num i) ts))) ∧
  (¬ inclusion_target m i k tx → m' !! k = Some tx).
Proof.
  intros Hk Hp. unfold apply_transaction_inclusion, inclusion_target.
  assert (Hc : (commit_transaction tx (incl_block_num i) ts).2 =
    tx_with_status tx (CommittedTx (incl_block_num i) ts))
    by (unfold commit_transaction; by destruct (tx_status tx)).
  destruct (m !! incl_transaction_id i) as [tx0|] eqn:E.
  - split.
    + intros [->|[? _]]; [|done]. rewrite lookup_insert_eq. congruence.
    + intros Hn. rewrite lookup_insert_ne; [done|]. intros <-. apply Hn. by left.
  - fold (incl_matches i). destruct (btree_find (incl_matches i) m) as [[k0 tx0]|] eqn:Ef.
    + apply btree_find_Some in Ef as (Hk0 & Hm0 & Hleast). split.
      * intros [->|(_ & Hm & Hmin)]; [congruence|].
        assert (k = k0) as -> by (apply (anti_symm key_le); eauto).
        rewrite lookup_insert_eq. congruence.
      * intros Hn. rewrite lookup_insert_ne; [done|]. intros ->. apply Hn. right.
        split_and!; [done|congruence|done].
    + rewrite btree_find_None in Ef. split; [|done].
      intros [->|(_ & Hm & _)]; [congruence|]. apply Ef in Hk. congruence.
Qed.

(** ** Witnesses *)

(** Two transactions of one account: the second starts where the first ends. *)
Definition toy_tx (id init final expiration : Z) : TransactionRecord := {|
  tx_id := toy_txid id;
  tx_details := {|
    tx_account_id := toy_account 7;
    tx_init_account_state := toy_word init;
    tx_final_account_state := toy_word final;
    tx_input_note_nullifiers := [];
    tx_output_notes := [] : @RawOutputNotes toy_protocol;
    tx_block_num := 9; tx_submission_height := 10; tx_expiration_block_num := expiration;
    tx_creation_timestamp := 5 |};
  tx_script := None;
  tx_status := Pending |}.

Definition toy_tracker : TransactionUpdateTracker :=
  TransactionUpdateTracker_new [toy_tx 70 100 101 20; toy_tx 71 101 102 40; toy_tx 72 200 201 50].

Lemma discard_terminates_witness :
  discard_fuel 4 toy_tracker (has_initial_state (toy_word 100)) Stale =
    Some (discard_transaction_with_predicate toy_tracker (has_initial_state (toy_word 100)) Stale) ∧
  tx_status <$> (discard_transaction_with_predicate toy_tracker (has_initial_state (toy_word 100)) Stale
    !! (toy_txid 71)) = Some (Discarded DiscardedInitialState).
Proof.
  split; [|vm_compute; reflexivity].
  apply (discard_terminates toy_tracker (has_initial_state (toy_word 100)) Stale 4).
  vm_compute. apply le_n.
Defined.

Lemma settled_transactions_are_final_witness :
  let m := apply_sync_height_update toy_tracker 20 (Some 15) in
  let m' := apply_input_note_nullified m (toy_nullifier 3 5) in
  tx_status <$> (m !! (toy_txid 70)) = Some (Discarded Expired) ∧
  m' !! (toy_txid 70) = m !! (toy_txid 70).
Proof.
  intros m m'.
  assert (tx_status <$> (m !! (toy_txid 70)) = Some (Discarded Expired)) as Hst
    by (vm_compute; reflexivity).
  split; [exact Hst|].
  pose proof (settled_transactions_are_final m m'
    (rtc_l _ _ _ _ (step_nullified m (toy_nullifier 3 5)) (rtc_refl _ _)) (toy_txid 70)) as Hf.
  destruct (m !! (toy_txid 70)) as [tx|] eqn:E; [|exact Hf].
  destruct Hf as (s & _ & Hf). apply Hf. simpl in Hst.
  injection Hst as Hst. rewrite Hst. reflexivity.
Defined.

Lemma inclusion_commits_its_target_witness :
  let i := {| incl_transaction_id := toy_txid 99; incl_block_num := 15;
              incl_account_id := toy_account 7;
              incl_initial_state_commitment := toy_word 100 |} in
  apply_transaction_inclusion toy_tracker i 6 !! (toy_txid 70) =
    Some (tx_with_status (toy_tx 70 100 101 20) (CommittedTx 15 6)).
Proof.
  intros i. assert (toy_tracker !! (toy_txid 70) = Some (toy_tx 70 100 101 20))
    as Hk by (reflexivity).
  apply (inclusion_commits_its_target toy_tracker i 6 (toy_txid 70)
    (toy_tx 70 100 101 20) Hk eq_refl).
  right. split_and!; [reflexivity..|].
  change (map_Forall (λ k' tx', incl_matches i tx' = true → key_le (toy_txid 70) k') toy_tracker).
  apply (bool_decide_unpack _). exact I.
Defined.
