(* ===== verification/NodeErrors.v ===== *)
(** * Errors of the node

    [rpc/errors/node/]: the error codes that the node puts in the details of a gRPC
    status, one table per endpoint; the part of [rpc/errors/mod.rs] that recognises a
    rejected accept header; [RpcEndpoint] of [rpc/mod.rs]. *)

From S2P Require Import Prelude Protocol.
From Stdlib Require Import ZArith Lia String Ascii.
From stdpp Require Import base list strings.

Open Scope Z_scope.

(** ** Endpoints *)

Inductive RpcEndpoint :=
| Status_ | CheckNullifiers | SyncNullifiers | GetAccount | GetBlockByNumber
| GetBlockHeaderByNumber | GetNotesById | SyncChainMmr | SubmitProvenTx | SyncNotes
| GetNoteScriptByRoot | SyncStorageMaps | SyncAccountVault | SyncTransactions | GetLimits.

Definition proto_name (self : RpcEndpoint) : string :=
  match self with
  | Status_ => "Status"
  | CheckNullifiers => "CheckNullifiers"
  | SyncNullifiers => "SyncNullifiers"
  | GetAccount => "GetAccount"
  | GetBlockByNumber => "GetBlockByNumber"
  | GetBlockHeaderByNumber => "GetBlockHeaderByNumber"
  | GetNotesById => "GetNotesById"
  | SyncChainMmr => "SyncChainMmr"
  | SubmitProvenTx => "SubmitProvenTransaction"
  | SyncNotes => "SyncNotes"
  | GetNoteScriptByRoot => "GetNoteScriptByRoot"
  | SyncStorageMaps => "SyncStorageMaps"
  | SyncAccountVault => "SyncAccountVault"
  | SyncTransactions => "SyncTransactions"
  | GetLimits => "GetLimits"
  end.

Definition RpcEndpoint_fmt (self : RpcEndpoint) : string :=
  match self with
  | Status_ => "status"
  | CheckNullifiers => "check_nullifiers"
  | SyncNullifiers => "sync_nullifiers"
  | GetAccount => "get_account_proof"
  | GetBlockByNumber => "get_block_by_number"
  | GetBlockHeaderByNumber => "get_block_header_by_number"
  | GetNotesById => "get_notes_by_id"
  | SyncChainMmr => "sync_chain_mmr"
  | SubmitProvenTx => "submit_proven_transaction"
  | SyncNotes => "sync_notes"
  | GetNoteScriptByRoot => "get_note_script_by_root"
  | SyncStorageMaps => "sync_storage_maps"
  | SyncAccountVault => "sync_account_vault"
  | SyncTransactions => "sync_transactions"
  | GetLimits => "get_limits"
  end.

(** ** Error codes *)

Inductive AddTransactionError :=
| AddTransaction_Internal | AddTransaction_InputNotesAlreadyConsumed
| AddTransaction_UnauthenticatedNotesNotFound | AddTransaction_OutputNotesAlreadyExist
| AddTransaction_IncorrectAccountInitialCommitment | AddTransaction_InvalidTransactionProof
| AddTransaction_TransactionDeserializationFailed | AddTransaction_Expired
| AddTransaction_CapacityExceeded
| AddTransaction_Unknown (code : u8) (message : string).

Definition AddTransactionError_from_code (code : u8) (message : string) : AddTransactionError :=
  match code with
  | 0 => AddTransaction_Internal
  | 1 => AddTransaction_InputNotesAlreadyConsumed
  | 2 => AddTransaction_UnauthenticatedNotesNotFound
  | 3 => AddTransaction_OutputNotesAlreadyExist
  | 4 => AddTransaction_IncorrectAccountInitialCommitment
  | 5 => AddTransaction_InvalidTransactionProof
  | 6 => AddTransaction_TransactionDeserializationFailed
  | 7 => AddTransaction_Expired
  | 8 => AddTransaction_CapacityExceeded
  | _ => AddTransaction_Unknown code message
  end.

Inductive GetBlockHeaderError :=
| GetBlockHeader_Internal
| GetBlockHeader_Unknown (code : u8) (message : string).

Definition GetBlockHeaderError_from_code (code : u8) (message : string) : GetBlockHeaderError :=
  match code with
  | 0 => GetBlockHeader_Internal
  | _ => GetBlockHeader_Unknown code message
  end.

Inductive GetBlockByNumberError :=
| GetBlockByNumber_Internal | GetBlockByNumber_DeserializationFailed
| GetBlockByNumber_Unknown (code : u8) (message : string).

Definition GetBlockByNumberError_from_code (code : u8) (message : string) : GetBlockByNumberError :=
  match code with
  | 0 => GetBlockByNumber_Internal
  | 1 => GetBlockByNumber_DeserializationFailed
  | _ => GetBlockByNumber_Unknown code message
  end.

Inductive NoteSyncError :=
| NoteSync_Internal | NoteSync_InvalidBlockRange | NoteSync_DeserializationFailed
| NoteSync_Unknown (code : u8) (message : string).

Definition NoteSyncError_from_code (code : u8) (message : string) : NoteSyncError :=
  match code with
  | 0 => NoteSync_Internal
  | 1 => NoteSync_InvalidBlockRange
  | 2 => NoteSync_DeserializationFailed
  | _ => NoteSync_Unknown code message
  end.

Inductive SyncNullifiersError :=
| SyncNullifiers_Internal | SyncNullifiers_InvalidBlockRange
| SyncNullifiers_InvalidPrefixLength | SyncNullifiers_DeserializationFailed
| SyncNullifiers_Unknown (code : u8) (message : string).

Definition SyncNullifiersError_from_code (code : u8) (message : string) : SyncNullifiersError :=
  match code with
  | 0 => SyncNullifiers_Internal
  | 1 => SyncNullifiers_InvalidBlockRange
  | 2 => SyncNullifiers_InvalidPrefixLength
  | 3 => SyncNullifiers_DeserializationFailed
  | _ => SyncNullifiers_Unknown code message
  end.

Inductive SyncAccountVaultError :=
| SyncAccountVault_Internal | SyncAccountVault_InvalidBlockRange
| SyncAccountVault_DeserializationFailed | SyncAccountVault_AccountNotPublic
| SyncAccountVault_Unknown (code : u8) (message : string).

Definition SyncAccountVaultError_from_code (code : u8) (message : string) : SyncAccountVaultError :=
  match code with
  | 0 => SyncAccountVault_Internal
  | 1 => SyncAccountVault_InvalidBlockRange
  | 2 => SyncAccountVault_DeserializationFailed
  | 3 => SyncAccountVault_AccountNotPublic
  | _ => SyncAccountVault_Unknown code message
  end.

Inductive SyncAccountStorageMapsError :=
| SyncAccountStorageMaps_Internal | SyncAccountStorageMaps_InvalidBlockRange
| SyncAccountStorageMaps_DeserializationFailed | SyncAccountStorageMaps_AccountNotFound
| SyncAccountStorageMaps_AccountNotPublic
| SyncAccountStorageMaps_Unknown (code : u8) (message : string).

Definition SyncAccountStorageMapsError_from_code (code : u8) (message : string) : SyncAccountStorageMapsError :=
  match code with
  | 0 => SyncAccountStorageMaps_Internal
  | 1 => SyncAccountStorageMaps_InvalidBlockRange
  | 2 => SyncAccountStorageMaps_DeserializationFailed
  | 3 => SyncAccountStorageMaps_AccountNotFound
  | 4 => SyncAccountStorageMaps_AccountNotPublic
  | _ => SyncAccountStorageMaps_Unknown code message
  end.

Inductive SyncTransactionsError :=
| SyncTransactions_Internal | SyncTransactions_InvalidBlockRange
| SyncTransactions_DeserializationFailed | SyncTransactions_AccountNotFound
| SyncTransactions_WitnessError
| SyncTransactions_Unknown (code : u8) (message : string).

Definition SyncTransactionsError_from_code (code : u8) (message : string) : SyncTransactionsError :=
  match code with
  | 0 => SyncTransactions_Internal
  | 1 => SyncTransactions_InvalidBlockRange
  | 2 => SyncTransactions_DeserializationFailed
  | 3 => SyncTransactions_AccountNotFound
  | 4 => SyncTransactions_WitnessError
  | _ => SyncTransactions_Unknown code message
  end.

Inductive GetNotesByIdError :=
| GetNotesById_Internal | GetNotesById_DeserializationFailed | GetNotesById_NoteNotFound
| GetNotesById_NoteNotPublic
| GetNotesById_Unknown (code : u8) (message : string).

Definition GetNotesByIdError_from_code (code : u8) (message : string) : GetNotesByIdError :=
  match code with
  | 0 => GetNotesById_Internal
  | 1 => GetNotesById_DeserializationFailed
  | 2 => GetNotesById_NoteNotFound
  | 3 => GetNotesById_NoteNotPublic
  | _ => GetNotesById_Unknown code message
  end.

Inductive GetNoteScriptByRootError :=
| GetNoteScriptByRoot_Internal | GetNoteScriptByRoot_DeserializationFailed
| GetNoteScriptByRoot_ScriptNotFound
| GetNoteScriptByRoot_Unknown (code : u8) (message : string).

Definition GetNoteScriptByRootError_from_code (code : u8) (message : string) : GetNoteScriptByRootError :=
  match code with
  | 0 => GetNoteScriptByRoot_Internal
  | 1 => GetNoteScriptByRoot_DeserializationFailed
  | 2 => GetNoteScriptByRoot_ScriptNotFound
  | _ => GetNoteScriptByRoot_Unknown code message
  end.

Inductive CheckNullifiersError :=
| CheckNullifiers_Internal | CheckNullifiers_DeserializationFailed
| CheckNullifiers_Unknown (code : u8) (message : string).

Definition CheckNullifiersError_from_code (code : u8) (message : string) : CheckNullifiersError :=
  match code with
  | 0 => CheckNullifiers_Internal
  | 1 => CheckNullifiers_DeserializationFailed
  | _ => CheckNullifiers_Unknown code message
  end.

Inductive GetAccountError :=
| GetAccount_Internal | GetAccount_DeserializationFailed | GetAccount_AccountNotFound
| GetAccount_AccountNotPublic | GetAccount_UnknownBlock | GetAccount_BlockPruned
| GetAccount_Unknown (code : u8) (message : string).

Definition GetAccountError_from_code (code : u8) (message : string) : GetAccountError :=
  match code with
  | 0 => GetAccount_Internal
  | 1 => GetAccount_DeserializationFailed
  | 2 => GetAccount_AccountNotFound
  | 3 => GetAccount_AccountNotPublic
  | 4 => GetAccount_UnknownBlock
  | 5 => GetAccount_BlockPruned
  | _ => GetAccount_Unknown code message
  end.

Inductive EndpointError :=
| EndpointError_AddTransaction (e : AddTransactionError)
| EndpointError_GetBlockHeader (e : GetBlockHeaderError)
| EndpointError_GetBlockByNumber (e : GetBlockByNumberError)
| EndpointError_NoteSync (e : NoteSyncError)
| EndpointError_SyncNullifiers (e : SyncNullifiersError)
| EndpointError_SyncAccountVault (e : SyncAccountVaultError)
| EndpointError_SyncStorageMaps (e : SyncAccountStorageMapsError)
| EndpointError_SyncTransactions (e : SyncTransactionsError)
| EndpointError_GetNotesById (e : GetNotesByIdError)
| EndpointError_GetNoteScriptByRoot (e : GetNoteScriptByRootError)
| EndpointError_CheckNullifiers (e : CheckNullifiersError)
| EndpointError_GetAccount (e : GetAccountError).

Definition parse_node_error (endpoint : RpcEndpoint) (details : list u8) (message : string) :
    option EndpointError :=
  code ← head details;
  match endpoint with
  | SubmitProvenTx => Some (EndpointError_AddTransaction (AddTransactionError_from_code code message))
  | GetBlockHeaderByNumber => Some (EndpointError_GetBlockHeader (GetBlockHeaderError_from_code code message))
  | GetBlockByNumber => Some (EndpointError_GetBlockByNumber (GetBlockByNumberError_from_code code message))
  | SyncNotes => Some (EndpointError_NoteSync (NoteSyncError_from_code code message))
  | SyncNullifiers => Some (EndpointError_SyncNullifiers (SyncNullifiersError_from_code code message))
  | SyncAccountVault => Some (EndpointError_SyncAccountVault (SyncAccountVaultError_from_code code message))
  | SyncStorageMaps => Some (EndpointError_SyncStorageMaps (SyncAccountStorageMapsError_from_code code message))
  | SyncTransactions => Some (EndpointError_SyncTransactions (SyncTransactionsError_from_code code message))
  | GetNotesById => Some (EndpointError_GetNotesById (GetNotesByIdError_from_code code message))
  | GetNoteScriptByRoot => Some (EndpointError_GetNoteScriptByRoot (GetNoteScriptByRootError_from_code code message))
  | CheckNullifiers => Some (EndpointError_CheckNullifiers (CheckNullifiersError_from_code code message))
  | GetAccount => Some (EndpointError_GetAccount (GetAccountError_from_code code message))
  | SyncChainMmr | Status_ | GetLimits => None
  end.

(** ** Rejected accept headers *)

Record AcceptHeaderContext := {
  client_version : string;
  ahc_genesis_commitment : string
}.

Definition AcceptHeaderContext_unknown : AcceptHeaderContext :=
  {| client_version := "unknown"; ahc_genesis_commitment := "unknown" |}.

Definition AcceptHeaderContext_fmt (self : AcceptHeaderContext) : string :=
  "client version: " +:+ client_version self +:+ ", genesis commitment: " +:+
  ahc_genesis_commitment self.

Inductive AcceptHeaderError :=
| NoSupportedMediaRange (context : AcceptHeaderContext)
| AcceptHeader_ParsingError (message : string).

(** [str::contains]. *)
Definition contains (pattern message : string) : bool :=
  match String.index 0 pattern message with Some _ => true | None => false end.

Definition try_from_message_with_context (message : string) (context : AcceptHeaderContext) :
    option AcceptHeaderError :=
  if contains "server does not support any of the specified application/vnd.miden content types"
       message
  then Some (NoSupportedMediaRange context)
  else if contains "genesis value failed to parse" message
       || contains "version value failed to parse" message
  then Some (AcceptHeader_ParsingError message)
  else None.

(** ** What the codes say *)

(** The code that an error stands for, and the endpoint that answered with it. *)
Definition endpoint_error_code (e : EndpointError) : u8 :=
  match e with
  | EndpointError_AddTransaction e =>
      match e with
      | AddTransaction_Internal => 0
      | AddTransaction_InputNotesAlreadyConsumed => 1
      | AddTransaction_UnauthenticatedNotesNotFound => 2
      | AddTransaction_OutputNotesAlreadyExist => 3
      | AddTransaction_IncorrectAccountInitialCommitment => 4
      | AddTransaction_InvalidTransactionProof => 5
      | AddTransaction_TransactionDeserializationFailed => 6
      | AddTransaction_Expired => 7
      | AddTransaction_CapacityExceeded => 8
      | AddTransaction_Unknown code _ => code
      end
  | EndpointError_GetBlockHeader e =>
      match e with
      | GetBlockHeader_Internal => 0
      | GetBlockHeader_Unknown code _ => code
      end
  | EndpointError_GetBlockByNumber e =>
      match e with
      | GetBlockByNumber_Internal => 0
      | GetBlockByNumber_DeserializationFailed => 1
      | GetBlockByNumber_Unknown code _ => code
      end
  | EndpointError_NoteSync e =>
      match e with
      | NoteSync_Internal => 0
      | NoteSync_InvalidBlockRange => 1
      | NoteSync_DeserializationFailed => 2
      | NoteSync_Unknown code _ => code
      end
  | EndpointError_SyncNullifiers e =>
      match e with
      | SyncNullifiers_Internal => 0
      | SyncNullifiers_InvalidBlockRange => 1
      | SyncNullifiers_InvalidPrefixLength => 2
      | SyncNullifiers_DeserializationFailed => 3
      | SyncNullifiers_Unknown code _ => code
      end
  | EndpointError_SyncAccountVault e =>
      match e with
      | SyncAccountVault_Internal => 0
      | SyncAccountVault_InvalidBlockRange => 1
      | SyncAccountVault_DeserializationFailed => 2
      | SyncAccountVault_AccountNotPublic => 3
      | SyncAccountVault_Unknown code _ => code
      end
  | EndpointError_SyncStorageMaps e =>
      match e with
      | SyncAccountStorageMaps_Internal => 0
      | SyncAccountStorageMaps_InvalidBlockRange => 1
      | SyncAccountStorageMaps_DeserializationFailed => 2
      | SyncAccountStorageMaps_AccountNotFound => 3
      | SyncAccountStorageMaps_AccountNotPublic => 4
      | SyncAccountStorageMaps_Unknown code _ => code
      end
  | EndpointError_SyncTransactions e =>
      match e with
      | SyncTransactions_Internal => 0
      | SyncTransactions_InvalidBlockRange => 1
      | SyncTransactions_DeserializationFailed => 2
      | SyncTransactions_AccountNotFound => 3
      | SyncTransactions_WitnessError => 4
      | SyncTransactions_Unknown code _ => code
      end
  | EndpointError_GetNotesById e =>
      match e with
      | GetNotesById_Internal => 0
      | GetNotesById_DeserializationFailed => 1
      | GetNotesById_NoteNotFound => 2
      | GetNotesById_NoteNotPublic => 3
      | GetNotesById_Unknown code _ => code
      end
  | EndpointError_GetNoteScriptByRoot e =>
      match e with
      | GetNoteScriptByRoot_Internal => 0
      | GetNoteScriptByRoot_DeserializationFailed => 1
      | GetNoteScriptByRoot_ScriptNotFound => 2
      | GetNoteScriptByRoot_Unknown code _ => code
      end
  | EndpointError_CheckNullifiers e =>
      match e with
      | CheckNullifiers_Internal => 0
      | CheckNullifiers_DeserializationFailed => 1
      | CheckNullifiers_Unknown code _ => code
      end
  | EndpointError_GetAccount e =>
      match e with
      | GetAccount_Internal => 0
      | GetAccount_DeserializationFailed => 1
      | GetAccount_AccountNotFound => 2
      | GetAccount_AccountNotPublic => 3
      | GetAccount_UnknownBlock => 4
      | GetAccount_BlockPruned => 5
      | GetAccount_Unknown code _ => code
      end
  end.

Definition error_endpoint (e : EndpointError) : RpcEndpoint :=
  match e with
  | EndpointError_AddTransaction _ => SubmitProvenTx
  | EndpointError_GetBlockHeader _ => GetBlockHeaderByNumber
  | EndpointError_GetBlockByNumber _ => GetBlockByNumber
  | EndpointError_NoteSync _ => SyncNotes
  | EndpointError_SyncNullifiers _ => SyncNullifiers
  | EndpointError_SyncAccountVault _ => SyncAccountVault
  | EndpointError_SyncStorageMaps _ => SyncStorageMaps
  | EndpointError_SyncTransactions _ => SyncTransactions
  | EndpointError_GetNotesById _ => GetNotesById
  | EndpointError_GetNoteScriptByRoot _ => GetNoteScriptByRoot
  | EndpointError_CheckNullifiers _ => CheckNullifiers
  | EndpointError_GetAccount _ => GetAccount
  end.

(** Endpoints without errors of their own. *)
Definition untyped_endpoint (endpoint : RpcEndpoint) : bool :=
  match endpoint with SyncChainMmr | Status_ | GetLimits => true | _ => false end.

(** A match on the numerals of a table of codes. *)
Ltac code_cases code :=
  destruct code as [|p|p]; try reflexivity;
  do 4 (try (destruct p as [p|p|]; try reflexivity)).

Lemma parsed_code endpoint code details message e :
  parse_node_error endpoint (code :: details) message = Some e →
  endpoint_error_code e = code ∧ error_endpoint e = endpoint.
Proof.
  destruct endpoint; intros [= <-]; (split; [|reflexivity]); cbn -[Z.of_nat]; code_cases code.
Qed.

(** No error code is lost.  For each endpoint that has errors of its own, the first
    byte of the details of a status is parsed into an error of that endpoint from which
    the byte can be read back, known to this version of the client or not; without
    details, and for the other endpoints, there is no such error. *)
Theorem node_error_roundtrip endpoint details message :
  match parse_node_error endpoint details message with
  | Some e => head details = Some (endpoint_error_code e) ∧ error_endpoint e = endpoint
  | None => details = [] ∨ untyped_endpoint endpoint = true
  end.
Proof.
  destruct details as [|code details]; [by left|].
  destruct (parse_node_error _ _ _) as [e|] eqn:E.
  - apply parsed_code in E as [<- <-]. done.
  - right. by destruct endpoint.
Qed.
