(* ===== verification/Errors.v ===== *)
(** * Error types

    [errors.rs], [rpc/errors/mod.rs] and [transaction/request/mod.rs]: the error
    enums the modelled operations return.  A variant that wraps an error of
    another crate carries that error's message. *)

From S2P Require Import Prelude Protocol NoteStates NodeErrors.
From Stdlib Require Import ZArith.
From stdpp Require Import base gmap list strings pretty.

(** The message of an error of another crate. *)
Abbreviation foreign := string (only parsing).

Inductive GrpcError :=
| Grpc_NotFound
| Grpc_InvalidArgument
| Grpc_PermissionDenied
| Grpc_AlreadyExists
| Grpc_ResourceExhausted
| Grpc_FailedPrecondition
| Grpc_Cancelled
| Grpc_DeadlineExceeded
| Grpc_Unavailable
| Grpc_Internal
| Grpc_Unimplemented
| Grpc_Unauthenticated
| Grpc_Aborted
| Grpc_OutOfRange
| Grpc_DataLoss
| Grpc_Unknown (msg : string).

(** [GrpcError::from_code]. *)
Definition GrpcError_from_code (code : Z) (message : option string) : GrpcError :=
  match code with
  | 1 => Grpc_Cancelled
  | 2 => Grpc_Unknown (default EmptyString message)
  | 3 => Grpc_InvalidArgument
  | 4 => Grpc_DeadlineExceeded
  | 5 => Grpc_NotFound
  | 6 => Grpc_AlreadyExists
  | 7 => Grpc_PermissionDenied
  | 8 => Grpc_ResourceExhausted
  | 9 => Grpc_FailedPrecondition
  | 10 => Grpc_Aborted
  | 11 => Grpc_OutOfRange
  | 12 => Grpc_Unimplemented
  | 13 => Grpc_Internal
  | 14 => Grpc_Unavailable
  | 15 => Grpc_DataLoss
  | 16 => Grpc_Unauthenticated
  | _ => Grpc_Unknown
      (match message with
       | Some m => m
       | None => "Unknown gRPC status code: " +:+ pretty code
       end)
  end%Z.

Section errors.
Context `{Protocol}.

Inductive RpcError :=
| Rpc_AcceptHeaderError (e : AcceptHeaderError)
| Rpc_AccountUpdateForPrivateAccountReceived (id : AccountId)
| Rpc_ConnectionError (e : foreign)
| Rpc_DeserializationError (msg : string)
| Rpc_ExpectedDataMissing (msg : string)
| Rpc_PaginationError (msg : string)
| Rpc_InvalidResponse (msg : string)
| Rpc_RequestError (endpoint : RpcEndpoint) (error_kind : GrpcError)
    (endpoint_error : option EndpointError)
| Rpc_NoteNotFound (id : NoteId)
| Rpc_InvalidNodeEndpoint (msg : string).

(** The method [endpoint_error]. *)
Definition RpcError_endpoint_error (self : RpcError) : option EndpointError :=
  match self with
  | Rpc_RequestError _ _ endpoint_error => endpoint_error
  | _ => None
  end.

(** The variants of the protocol's [AssetError] that the client constructs. *)
Inductive AssetError :=
| FungibleAssetAmountNotSufficient (minuend subtrahend : u64)
| NonFungibleFaucetIdTypeMismatch (faucet_id : AccountId)
| OtherAssetError (e : foreign).

Inductive TransactionRequestError :=
| Req_AccountInterfaceError (e : foreign)
| Req_AccountError (e : foreign)
| Req_DuplicateInputNote (id : NoteId)
| Req_ForeignAccountDataMissing
| Req_InvalidForeignAccountId (id : AccountId)
| Req_InputNoteNotAuthenticated (id : NoteId)
| Req_InputNoteAlreadyConsumed (id : NoteId)
| Req_InvalidSenderAccount (id : AccountId)
| Req_InvalidTransactionScript (e : foreign)
| Req_MerkleError (e : foreign)
| Req_NoInputNotesNorAccountChange
| Req_NoteNotFound (msg : string)
| Req_NoteCreationError (e : foreign)
| Req_P2IDNoteWithoutAsset
| Req_CodeBuilderError (e : foreign)
| Req_ScriptTemplateError (msg : string)
| Req_StorageSlotNotFound (slot : u8) (id : AccountId)
| Req_TransactionInputError (e : foreign)
| Req_StorageMapError (e : foreign)
| Req_AssetVaultError (e : foreign)
| Req_UnsupportedAuthSchemeId (scheme : u8).

Inductive ClientError :=
| Client_AddressAlreadyTracked (address : string)
| Client_AccountAlreadyTracked (id : AccountId)
| Client_NoteTagDerivedAddressAlreadyTracked (address : string) (tag : NoteTag)
| Client_AccountError (e : foreign)
| Client_AccountLocked (id : AccountId)
| Client_AccountCommitmentMismatch (commitment : Word)
| Client_AccountIsPrivate (id : AccountId)
| Client_AccountNotFoundOnChain (id : AccountId)
| Client_AccountNonceTooLow
| Client_AssetError (e : AssetError)
| Client_AccountDataNotFound (id : AccountId)
| Client_PartialBlockchainError (e : foreign)
| Client_DataDeserializationError (e : foreign)
| Client_NoteNotFoundOnChain (id : NoteId)
| Client_HexParseError (e : foreign)
| Client_InvalidPartialMmrForest
| Client_AddNewAccountWithoutSeed
| Client_MerkleError (e : foreign)
| Client_MissingOutputRecipients (digests : list Word)
| Client_NoteError (e : foreign)
| Client_NoteCheckerError (e : foreign)
| Client_NoteImportError (msg : string)
| Client_NoteRecordConversionError (e : NoteRecordError)
| Client_NoteTransportError (e : foreign)
| Client_NoConsumableNoteForAccount (id : AccountId)
| Client_RpcError (e : RpcError)
| Client_RecencyConditionError (msg : string)
| Client_NoteScreenerError (e : foreign)
| Client_StoreError (e : foreign)
| Client_TransactionExecutorError (e : foreign)
| Client_TransactionInputError (e : foreign)
| Client_TransactionProvingError (e : foreign)
| Client_TransactionRequestError (e : TransactionRequestError)
| Client_AccountInterfaceError (e : foreign)
| Client_TransactionScriptError (e : foreign)
| Client_ClientInitializationError (msg : string)
| Client_NoteTagsLimitExceeded (limit : u32)
| Client_AccountsLimitExceeded (limit : u32)
| Client_AccountRecordNotFull (id : AccountId)
| Client_AccountRecordNotPartial (id : AccountId)
| Client_NtxScriptRegistrationFailed (script_root : Word) (source : RpcError).

(** The [?] on a result with a note record error in code that returns a client error. *)
Definition note_error {A} (m : result NoteRecordError A) : result ClientError A :=
  map_err Client_NoteRecordConversionError m.
End errors.
