(* ===== verification/NoteTracker.v ===== *)
(** * The note update tracker

    [note/note_update_tracker.rs]: the notes a sync or a transaction touches,
    indexed by identifier and by nullifier, with the kind of store update each of
    them needs; and the committed notes and nullifier updates of
    [rpc/domain/note.rs] and [rpc/domain/nullifier.rs] that drive it.  When an
    operation fails the caller drops the tracker, so an error carries none. *)

From S2P Require Import Prelude Protocol Model NoteStates InputNote OutputNote TxRecord Errors.
From Stdlib Require Import ZArith Lia.
From stdpp Require Import base gmap list strings relations.

Open Scope Z_scope.

Inductive NoteUpdateType :=
| UpdateNone
| UpdateInsert
| UpdateUpdate.

(** The update type after a call of [inner_mut]. *)
Definition mutated (t : NoteUpdateType) : NoteUpdateType :=
  match t with
  | UpdateNone | UpdateUpdate => UpdateUpdate
  | UpdateInsert => UpdateInsert
  end.

(** [matches!(update_type, Insert | Update)]. *)
Definition is_updated (t : NoteUpdateType) : bool :=
  match t with UpdateInsert | UpdateUpdate => true | UpdateNone => false end.

Section tracker.
Context `{Protocol}.

(** *** Data received from the node *)

Inductive CommittedNoteMetadata :=
| MetadataFull (metadata : NoteMetadata)
| MetadataHeader (sender : AccountId) (note_type : NoteType) (tag : NoteTag)
    (attachment_kind : NoteAttachmentKind).

Definition CommittedNoteMetadata_metadata (self : CommittedNoteMetadata) : option NoteMetadata :=
  match self with MetadataFull m => Some m | MetadataHeader _ _ _ _ => None end.

Record CommittedNote := {
  cn_note_id : NoteId;
  cn_metadata : CommittedNoteMetadata;
  cn_inclusion_proof : NoteInclusionProof
}.

Definition CommittedNote_note_type (self : CommittedNote) : NoteType :=
  match cn_metadata self with
  | MetadataFull m => NoteMetadata_note_type m
  | MetadataHeader _ note_type _ _ => note_type
  end.
Definition CommittedNote_tag (self : CommittedNote) : NoteTag :=
  match cn_metadata self with
  | MetadataFull m => NoteMetadata_tag m
  | MetadataHeader _ _ tag _ => tag
  end.
Definition CommittedNote_sender (self : CommittedNote) : AccountId :=
  match cn_metadata self with
  | MetadataFull m => NoteMetadata_sender m
  | MetadataHeader sender _ _ _ => sender
  end.
Definition CommittedNote_metadata (self : CommittedNote) : option NoteMetadata :=
  CommittedNoteMetadata_metadata (cn_metadata self).
Definition CommittedNote_set_metadata (self : CommittedNote) (metadata : NoteMetadata) :
    CommittedNote :=
  {| cn_note_id := cn_note_id self; cn_metadata := MetadataFull metadata;
     cn_inclusion_proof := cn_inclusion_proof self |}.

Record NullifierUpdate := {
  nu_nullifier : Nullifier;
  nu_block_num : BlockNumber
}.

(** *** Note updates *)

Record InputNoteUpdate := {
  iu_note : InputNoteRecord;
  iu_update_type : NoteUpdateType
}.

(** [inner_mut]: the update whose note the caller then replaces by [note]. *)
Definition InputNoteUpdate_inner_mut (self : InputNoteUpdate) (note : InputNoteRecord) :
    InputNoteUpdate :=
  {| iu_note := note; iu_update_type := mutated (iu_update_type self) |}.
Definition InputNoteUpdate_id (self : InputNoteUpdate) : NoteId :=
  InputNoteRecord_id (iu_note self).
Definition InputNoteUpdate_consumed_tx_order (self : InputNoteUpdate) : option u32 :=
  consumed_tx_order (in_state (iu_note self)).

Record OutputNoteUpdate := {
  ou_note : OutputNoteRecord;
  ou_update_type : NoteUpdateType
}.

Definition OutputNoteUpdate_inner_mut (self : OutputNoteUpdate) (note : OutputNoteRecord) :
    OutputNoteUpdate :=
  {| ou_note := note; ou_update_type := mutated (ou_update_type self) |}.
Definition OutputNoteUpdate_id (self : OutputNoteUpdate) : NoteId :=
  OutputNoteRecord_id (ou_note self).

Record NoteUpdateTracker := {
  input_notes : gmap NoteId InputNoteUpdate;
  output_notes : gmap NoteId OutputNoteUpdate;
  input_notes_by_nullifier : gmap Nullifier NoteId;
  output_notes_by_nullifier : gmap Nullifier NoteId;
  nullifier_order : gmap Nullifier u32
}.

Definition NoteUpdateTracker_default : NoteUpdateTracker :=
  {| input_notes := ∅; output_notes := ∅; input_notes_by_nullifier := ∅;
     output_notes_by_nullifier := ∅; nullifier_order := ∅ |}.

Definition set_input_notes (self : NoteUpdateTracker) (m : gmap NoteId InputNoteUpdate) :
    NoteUpdateTracker :=
  {| input_notes := m; output_notes := output_notes self;
     input_notes_by_nullifier := input_notes_by_nullifier self;
     output_notes_by_nullifier := output_notes_by_nullifier self;
     nullifier_order := nullifier_order self |}.
Definition set_output_notes (self : NoteUpdateTracker) (m : gmap NoteId OutputNoteUpdate) :
    NoteUpdateTracker :=
  {| input_notes := input_notes self; output_notes := m;
     input_notes_by_nullifier := input_notes_by_nullifier self;
     output_notes_by_nullifier := output_notes_by_nullifier self;
     nullifier_order := nullifier_order self |}.
Definition set_nullifier_order (self : NoteUpdateTracker) (m : gmap Nullifier u32) :
    NoteUpdateTracker :=
  {| input_notes := input_notes self; output_notes := output_notes self;
     input_notes_by_nullifier := input_notes_by_nullifier self;
     output_notes_by_nullifier := output_notes_by_nullifier self;
     nullifier_order := m |}.

(** *** Construction *)

Definition insert_input_note (self : NoteUpdateTracker) (note : InputNoteRecord)
    (update_type : NoteUpdateType) : NoteUpdateTracker :=
  let note_id := InputNoteRecord_id note in
  let nullifier := InputNoteRecord_nullifier note in
  {| input_notes :=
       <[note_id := {| iu_note := note; iu_update_type := update_type |}]> (input_notes self);
     output_notes := output_notes self;
     input_notes_by_nullifier := <[nullifier := note_id]> (input_notes_by_nullifier self);
     output_notes_by_nullifier := output_notes_by_nullifier self;
     nullifier_order := nullifier_order self |}.

Definition insert_output_note (self : NoteUpdateTracker) (note : OutputNoteRecord)
    (update_type : NoteUpdateType) : NoteUpdateTracker :=
  let note_id := OutputNoteRecord_id note in
  {| input_notes := input_notes self;
     output_notes :=
       <[note_id := {| ou_note := note; ou_update_type := update_type |}]> (output_notes self);
     input_notes_by_nullifier := input_notes_by_nullifier self;
     output_notes_by_nullifier :=
       match OutputNoteRecord_nullifier note with
       | Some nullifier => <[nullifier := note_id]> (output_notes_by_nullifier self)
       | None => output_notes_by_nullifier self
       end;
     nullifier_order := nullifier_order self |}.

Definition NoteUpdateTracker_new (input_notes : list InputNoteRecord)
    (output_notes : list OutputNoteRecord) : NoteUpdateTracker :=
  let tracker := NoteUpdateTracker_default in
  let tracker := foldl (λ t note, insert_input_note t note UpdateNone) tracker input_notes in
  foldl (λ t note, insert_output_note t note UpdateNone) tracker output_notes.

Definition NoteUpdateTracker_for_transaction_updates
    (new_input_notes updated_input_notes : list InputNoteRecord)
    (new_output_notes : list OutputNoteRecord) : NoteUpdateTracker :=
  let tracker := NoteUpdateTracker_default in
  let tracker := foldl (λ t note, insert_input_note t note UpdateInsert) tracker new_input_notes in
  let tracker :=
    foldl (λ t note, insert_input_note t note UpdateUpdate) tracker updated_input_notes in
  foldl (λ t note, insert_output_note t note UpdateInsert) tracker new_output_notes.

(** *** Getters *)

Definition updated_input_notes (self : NoteUpdateTracker) : list InputNoteUpdate :=
  filter (λ u, is_updated (iu_update_type u) = true) (btree_values (input_notes self)).
Definition updated_output_notes (self : NoteUpdateTracker) : list OutputNoteUpdate :=
  filter (λ u, is_updated (ou_update_type u) = true) (btree_values (output_notes self)).

Definition NoteUpdateTracker_is_empty (self : NoteUpdateTracker) : bool :=
  bool_decide (input_notes self = ∅) && bool_decide (output_notes self = ∅).

Definition unspent_nullifiers (self : NoteUpdateTracker) : list Nullifier :=
  let input_note_unspent_nullifiers :=
    (λ u, InputNoteRecord_nullifier (iu_note u)) <$>
      filter (λ u, InputNoteRecord_is_consumed (iu_note u) = false)
        (btree_values (input_notes self)) in
  let output_note_unspent_nullifiers :=
    omap (λ u, OutputNoteRecord_nullifier (ou_note u))
      (filter (λ u, OutputNoteRecord_is_consumed (ou_note u) = false)
        (btree_values (output_notes self))) in
  input_note_unspent_nullifiers ++ output_note_unspent_nullifiers.

(** [expect] on the conversion of the length: [None] is the panic. *)
Fixpoint extend_nullifiers (self : NoteUpdateTracker) (nullifiers : list Nullifier) :
    option NoteUpdateTracker :=
  match nullifiers with
  | [] => Some self
  | nullifier :: nullifiers =>
      next_pos ← try_from U32_MAX (Z.of_nat (size (nullifier_order self)));
      extend_nullifiers
        (set_nullifier_order self
          (btree_or_insert nullifier next_pos (nullifier_order self))) nullifiers
  end.

(** *** Updates *)

Definition apply_new_public_note (self : NoteUpdateTracker) (public_note_data : InputNoteRecord)
    (block_header : BlockHeader) : result ClientError NoteUpdateTracker :=
  '(_, public_note_data) ←
    note_error (InputNoteRecord_block_header_received public_note_data block_header);
  Ok (insert_input_note self public_note_data UpdateInsert).

Definition apply_committed_note_state_transitions (self : NoteUpdateTracker)
    (committed_note : CommittedNote) (block_header : BlockHeader) :
    result ClientError (bool * NoteUpdateTracker) :=
  let inclusion_proof := cn_inclusion_proof committed_note in
  let note_id := cn_note_id committed_note in
  '(is_tracked_as_input_note, self) ←
    match input_notes self !! note_id with
    | Some update =>
        metadata ← ok_or (CommittedNote_metadata committed_note)
          (Client_RpcError (Rpc_ExpectedDataMissing
            ("full metadata for committed note " +:+ NoteId_display note_id)));
        '(_, note) ← note_error
          (InputNoteRecord_inclusion_proof_received (iu_note update) inclusion_proof metadata);
        '(_, note) ← note_error (InputNoteRecord_block_header_received note block_header);
        Ok (true, set_input_notes self
          (<[note_id := InputNoteUpdate_inner_mut update note]> (input_notes self)))
    | None => Ok (false, self)
    end;
  self ←
    match output_notes self !! note_id with
    | Some update =>
        '(_, note) ← note_error
          (OutputNoteRecord_inclusion_proof_received (ou_note update) inclusion_proof);
        Ok (set_output_notes self
          (<[note_id := OutputNoteUpdate_inner_mut update note]> (output_notes self)))
    | None => Ok self
    end;
  Ok (is_tracked_as_input_note, self).

Definition get_nullifier_order (self : NoteUpdateTracker) (nullifier : Nullifier) : option u32 :=
  nullifier_order self !! nullifier.

(** The entry with its identifier, under which a mutation is stored back. *)
Definition get_input_note_update_by_nullifier (self : NoteUpdateTracker)
    (nullifier : Nullifier) : option (NoteId * InputNoteUpdate) :=
  note_id ← input_notes_by_nullifier self !! nullifier;
  update ← input_notes self !! note_id;
  Some (note_id, update).

Definition get_output_note_by_nullifier (self : NoteUpdateTracker)
    (nullifier : Nullifier) : option (NoteId * OutputNoteUpdate) :=
  note_id ← output_notes_by_nullifier self !! nullifier;
  update ← output_notes self !! note_id;
  Some (note_id, update).

(** The first committed transaction that is consuming the note. *)
Definition find_consumer (note : InputNoteRecord) (committed_transactions : list TransactionRecord) :
    option TransactionRecord :=
  head (filter (λ t, InputNoteRecord_consumer_transaction_id note = Some (tx_id t))
    committed_transactions).

(** The transition of the input note of a nullifier update. *)
Definition nullify_input_note (update : InputNoteUpdate) (nullifier_update : NullifierUpdate)
    (committed_transactions : list TransactionRecord) (order : option u32) :
    result ClientError InputNoteUpdate :=
  update ←
    match find_consumer (iu_note update) committed_transactions with
    | Some consumer_transaction =>
        match tx_status consumer_transaction with
        | CommittedTx block_number _ =>
            '(_, note) ← note_error (InputNoteRecord_transaction_committed (iu_note update)
              (tx_id consumer_transaction) block_number);
            Ok (InputNoteUpdate_inner_mut update note)
        | _ => Ok update
        end
    | None =>
        '(_, note) ← note_error (InputNoteRecord_consumed_externally (iu_note update)
          (nu_nullifier nullifier_update) (nu_block_num nullifier_update));
        Ok (InputNoteUpdate_inner_mut update note)
    end;
  Ok (InputNoteUpdate_inner_mut update
    (InputNoteRecord_set_consumed_tx_order (iu_note update) order)).

Definition apply_nullifiers_state_transitions (self : NoteUpdateTracker)
    (nullifier_update : NullifierUpdate) (committed_transactions : list TransactionRecord) :
    result ClientError NoteUpdateTracker :=
  let order := get_nullifier_order self (nu_nullifier nullifier_update) in
  self ←
    match get_input_note_update_by_nullifier self (nu_nullifier nullifier_update) with
    | Some (note_id, update) =>
        update ← nullify_input_note update nullifier_update committed_transactions order;
        Ok (set_input_notes self (<[note_id := update]> (input_notes self)))
    | None => Ok self
    end;
  match get_output_note_by_nullifier self (nu_nullifier nullifier_update) with
  | Some (note_id, update) =>
      '(_, note) ← note_error (OutputNoteRecord_nullifier_received (ou_note update)
        (nu_nullifier nullifier_update) (nu_block_num nullifier_update));
      Ok (set_output_notes self
        (<[note_id := OutputNoteUpdate_inner_mut update note]> (output_notes self)))
  | None => Ok self
  end.
End tracker.

Lemma is_updated_true ty : is_updated ty = true ↔ ty ≠ UpdateNone.
Proof. destruct ty; naive_solver. Qed.

Lemma elem_of_updated_input `{Protocol} (t : NoteUpdateTracker) u :
  u ∈ updated_input_notes t ↔ (∃ k, input_notes t !! k = Some u) ∧ iu_update_type u ≠ UpdateNone.
Proof.
  unfold updated_input_notes. rewrite list_elem_of_filter, elem_of_btree_values, is_updated_true.
  tauto.
Qed.

Lemma elem_of_updated_output `{Protocol} (t : NoteUpdateTracker) u :
  u ∈ updated_output_notes t ↔ (∃ k, output_notes t !! k = Some u) ∧ ou_update_type u ≠ UpdateNone.
Proof.
  unfold updated_output_notes. rewrite list_elem_of_filter, elem_of_btree_values, is_updated_true.
  tauto.
Qed.

(** ** The indices *)

Section wf.
Context `{ProtocolLaws}.
Implicit Types (t : NoteUpdateTracker) (r : InputNoteRecord) (o : OutputNoteRecord).

(** The digest of a record whose recipient is known is the recipient's. *)
Definition output_wf o : Prop :=
  ∀ recipient, OutputNoteRecord_recipient o = Some recipient →
    out_recipient_digest o = NoteRecipient_digest recipient.

Record tracker_wf t : Prop := {
  wf_in_id id u : input_notes t !! id = Some u → InputNoteUpdate_id u = id;
  wf_in_index n id : input_notes_by_nullifier t !! n = Some id ↔
    ∃ u, input_notes t !! id = Some u ∧ InputNoteRecord_nullifier (iu_note u) = n;
  wf_out_id id u : output_notes t !! id = Some u →
    OutputNoteUpdate_id u = id ∧ output_wf (ou_note u);
  wf_out_index id u n : output_notes t !! id = Some u →
    OutputNoteRecord_nullifier (ou_note u) = Some n → output_notes_by_nullifier t !! n = Some id
}.

Lemma record_id_nullifier r r' :
  InputNoteRecord_id r = InputNoteRecord_id r' ↔
  InputNoteRecord_nullifier r = InputNoteRecord_nullifier r'.
Proof. split; [apply details_id_nullifier|apply details_nullifier_id]. Qed.

Lemma output_nullifier_id o o' n :
  output_wf o → output_wf o' → OutputNoteRecord_nullifier o = Some n →
  OutputNoteRecord_nullifier o' = Some n → OutputNoteRecord_id o = OutputNoteRecord_id o'.
Proof.
  unfold output_wf, OutputNoteRecord_nullifier, OutputNoteRecord_id. intros Hw Hw'.
  destruct (OutputNoteRecord_recipient o) as [rc|]; [|done].
  destruct (OutputNoteRecord_recipient o') as [rc'|]; [|done]. simpl. intros [= <-] [= Hn].
  apply Nullifier_new_inj in Hn as (H1 & H2 & H3 & H4).
  rewrite (Hw rc), (Hw' rc') by done. f_equal; [|done]. by apply NoteRecipient_digest_ext.
Qed.

Lemma default_wf : tracker_wf NoteUpdateTracker_default.
Proof.
  split; simpl.
  - intros id u. by rewrite lookup_empty.
  - intros n id. rewrite lookup_empty. split; [done|]. intros (u & Hu & _). by rewrite lookup_empty in Hu.
  - intros id u. by rewrite lookup_empty.
  - intros id u n. by rewrite lookup_empty.
Qed.

Lemma insert_input_note_wf t r ty : tracker_wf t → tracker_wf (insert_input_note t r ty).
Proof.
  intros [Hid Hix Hoid Hoix]. split; simpl; [| |done|done].
  - intros id u. rewrite lookup_insert. case_decide; [|apply Hid]. by intros [= <-].
  - intros n id. rewrite !lookup_insert.
    destruct (decide (InputNoteRecord_nullifier r = n)) as [Hn|Hn],
      (decide (InputNoteRecord_id r = id)) as [Hi|Hi].
    + split; [eauto|]. by intros _; f_equal.
    + split; [congruence|]. intros (u & Hu & Hun). apply Hid in Hu.
      destruct Hi. rewrite <-Hu. apply record_id_nullifier. congruence.
    + split.
      * rewrite Hix. intros (u & Hu & Hun). apply Hid in Hu. destruct Hn.
        rewrite <-Hun. apply record_id_nullifier. unfold InputNoteUpdate_id in Hu. congruence.
      * intros (u & [= <-] & Hun). done.
    + apply Hix.
Qed.

Lemma insert_output_note_wf t o ty :
  output_wf o → tracker_wf t → tracker_wf (insert_output_note t o ty).
Proof.
  intros Ho [Hid Hix Hoid Hoix]. split; simpl; [done|done| |].
  - intros id u. rewrite lookup_insert. case_decide; [|apply Hoid]. by intros [= <-].
  - intros id u n. rewrite lookup_insert. case_decide as Hi.
    + intros [= <-] Hn. simpl in Hn. rewrite Hn. by rewrite lookup_insert_eq, Hi.
    + intros Hu Hn. pose proof (Hoix _ _ _ Hu Hn) as Hx.
      destruct (OutputNoteRecord_nullifier o) as [n'|] eqn:En; [|done].
      rewrite lookup_insert_ne; [done|]. intros ->. destruct Hi.
      destruct (Hoid _ _ Hu) as [<- Hw]. by eapply output_nullifier_id.
Qed.

(** Replacing a note by one with the same details keeps the indices. *)
Lemma update_input_wf t id u r ty :
  tracker_wf t → input_notes t !! id = Some u → in_details r = in_details (iu_note u) →
  tracker_wf (set_input_notes t (<[id := {| iu_note := r; iu_update_type := ty |}]> (input_notes t))).
Proof.
  intros [Hid Hix Hoid Hoix] Hu Hd. split; simpl; [| |done|done].
  - intros id' u'. rewrite lookup_insert. case_decide as Hi; [|apply Hid].
    intros [= <-]. rewrite <-Hi, <-(Hid _ _ Hu). unfold InputNoteUpdate_id, InputNoteRecord_id. simpl.
    by rewrite Hd.
  - intros n id'. rewrite Hix, lookup_insert. case_decide as Hi; [|done]. subst id'.
    unfold InputNoteRecord_nullifier. split.
    + intros (u' & Hu' & <-). eexists. split; [done|]. simpl. rewrite Hd. by simplify_eq.
    + intros (u' & [= <-] & <-). exists u. split; [done|]. simpl. by rewrite Hd.
Qed.

Lemma update_output_wf t id u o ty :
  tracker_wf t → output_notes t !! id = Some u → output_identity o = output_identity (ou_note u) →
  tracker_wf (set_output_notes t (<[id := {| ou_note := o; ou_update_type := ty |}]> (output_notes t))).
Proof.
  intros [Hid Hix Hoid Hoix] Hu Hd. unfold output_identity in Hd. injection Hd as Ha Hm Hdg Hr Hh.
  split; simpl; [done|done| |].
  - intros id' u'. rewrite lookup_insert. case_decide as Hi; [|apply Hoid].
    intros [= <-]. subst id'. destruct (Hoid _ _ Hu) as [<- Hw].
    unfold OutputNoteUpdate_id, OutputNoteRecord_id, output_wf in *. simpl.
    rewrite Ha, Hdg, Hr. auto.
  - intros id' u' n. rewrite lookup_insert. case_decide as Hi; [|apply Hoix].
    intros [= <-]. subst id'. simpl. unfold OutputNoteRecord_nullifier. rewrite Ha, Hr.
    by apply Hoix.
Qed.
End wf.

(** ** Operations on a tracker *)

Section steps.
Context `{Protocol}.
Implicit Types (t : NoteUpdateTracker).

Inductive note_tracker_step : NoteUpdateTracker → NoteUpdateTracker → Prop :=
| nts_public t note header t' :
    apply_new_public_note t note header = Ok t' → note_tracker_step t t'
| nts_committed t note header b t' :
    apply_committed_note_state_transitions t note header = Ok (b, t') → note_tracker_step t t'
| nts_nullifier t update txs t' :
    apply_nullifiers_state_transitions t update txs = Ok t' → note_tracker_step t t'
| nts_extend t nullifiers t' :
    extend_nullifiers t nullifiers = Some t' → note_tracker_step t t'.

Lemma header_step r h b r' :
  InputNoteRecord_block_header_received r h = Ok (b, r') → note_step r r'.
Proof. intros Hr. by exists (EvBlockHeader h), b. Qed.

Lemma proof_step r p md b r' :
  InputNoteRecord_inclusion_proof_received r p md = Ok (b, r') → note_step r r'.
Proof. intros Hr. by exists (EvInclusionProof p md), b. Qed.

Lemma external_step r n h b r' :
  InputNoteRecord_consumed_externally r n h = Ok (b, r') → note_step r r'.
Proof. intros Hr. by exists (EvConsumedExternally n h), b. Qed.

Lemma committed_step r tx h b r' :
  InputNoteRecord_transaction_committed r tx h = Ok (b, r') → note_step r r'.
Proof. intros Hr. by exists (EvTransactionCommitted tx h), b. Qed.

Lemma order_step r o : note_step r (InputNoteRecord_set_consumed_tx_order r o).
Proof. by exists (EvSetConsumedTxOrder o), false. Qed.

Lemma mutated_mutated ty : mutated (mutated ty) = mutated ty.
Proof. by destruct ty. Qed.

Lemma nullify_steps u update txs order u' :
  nullify_input_note u update txs order = Ok u' →
  rtc note_step (iu_note u) (iu_note u') ∧ iu_update_type u' = mutated (iu_update_type u).
Proof.
  unfold nullify_input_note, note_error. intros Hn. apply bind_Ok in Hn as (u1 & Hu1 & Hn).
  injection Hn as <-. simpl.
  assert (rtc note_step (iu_note u) (iu_note u1) ∧
    mutated (iu_update_type u1) = mutated (iu_update_type u)) as [Hs Hty].
  { destruct (find_consumer _ _) as [tx|]; [destruct (tx_status tx)|]; inv_ok;
      simpl; rewrite ?mutated_mutated; split; try done; apply rtc_once;
      eauto using committed_step, external_step. }
  split; [|done]. eapply rtc_r; [done|apply order_step].
Qed.
End steps.

Section wf_steps.
Context `{ProtocolLaws}.
Implicit Types (t : NoteUpdateTracker).

Lemma inclusion_output_step o p b o' :
  OutputNoteRecord_inclusion_proof_received o p = Ok (b, o') → output_identity o' = output_identity o.
Proof.
  intros Ho. apply output_steps_identity, rtc_once. by eapply output_proof.
Qed.

Lemma nullifier_output_step o n h b o' :
  OutputNoteRecord_nullifier_received o n h = Ok (b, o') → output_identity o' = output_identity o.
Proof.
  intros Ho. apply output_steps_identity, rtc_once. by eapply output_nullifier.
Qed.

Lemma committed_wf t note header b t' :
  apply_committed_note_state_transitions t note header = Ok (b, t') → tracker_wf t → tracker_wf t'.
Proof.
  unfold apply_committed_note_state_transitions, note_error. intros Hs Hwf.
  apply bind_Ok in Hs as ([b1 t1] & H1 & Hs). apply bind_Ok in Hs as (t2 & H2 & Hs).
  injection Hs as <- <-.
  assert (tracker_wf t1) as Hwf1.
  { destruct (input_notes t !! _) as [u|] eqn:Eu; inv_ok; [|done].
    eapply update_input_wf; [done..|].
    erewrite (step_details _ _ (header_step _ _ _ _ ltac:(eassumption))).
    by erewrite (step_details _ _ (proof_step _ _ _ _ _ ltac:(eassumption))). }
  destruct (output_notes t1 !! _) as [u|] eqn:Eu; inv_ok; [|done].
  eapply update_output_wf; [done..|]. by eapply inclusion_output_step.
Qed.

Lemma nullifiers_wf t update txs t' :
  apply_nullifiers_state_transitions t update txs = Ok t' → tracker_wf t → tracker_wf t'.
Proof.
  unfold apply_nullifiers_state_transitions, note_error. intros Hs Hwf.
  apply bind_Ok in Hs as (t1 & H1 & Hs).
  assert (tracker_wf t1) as Hwf1.
  { unfold get_input_note_update_by_nullifier in H1.
    destruct (input_notes_by_nullifier t !! _) as [id|]; simpl in H1; [|by inv_ok].
    destruct (input_notes t !! id) as [u|] eqn:Eu; simpl in H1; [|by inv_ok].
    apply bind_Ok in H1 as ([note ty] & Hn & H1). injection H1 as <-.
    eapply update_input_wf; [done..|]. apply nullify_steps in Hn as [Hn _].
    apply (steps_details _ _ Hn). }
  unfold get_output_note_by_nullifier in Hs.
  destruct (output_notes_by_nullifier t1 !! _) as [id|]; simpl in Hs; [|by inv_ok].
  destruct (output_notes t1 !! id) as [u|] eqn:Eu; simpl in Hs; inv_ok; [|done].
  eapply update_output_wf; [done..|]. by eapply nullifier_output_step.
Qed.

Lemma order_wf t m : tracker_wf t → tracker_wf (set_nullifier_order t m).
Proof. by intros []. Qed.

Lemma extend_wf l : ∀ t t', extend_nullifiers t l = Some t' → tracker_wf t → tracker_wf t'.
Proof.
  induction l as [|n l IH]; intros t t'; simpl; [by intros [= <-]|].
  intros (pos & _ & Hl)%bind_Some Hwf. eapply IH; [done|]. by apply order_wf.
Qed.

Lemma note_tracker_step_wf t t' : note_tracker_step t t' → tracker_wf t → tracker_wf t'.
Proof.
  intros []; eauto using committed_wf, nullifiers_wf, extend_wf.
  unfold apply_new_public_note, note_error in *. inv_ok. by apply insert_input_note_wf.
Qed.

Lemma fold_inputs_wf ty l t :
  tracker_wf t → tracker_wf (foldl (λ t note, insert_input_note t note ty) t l).
Proof. revert t. induction l; simpl; eauto using insert_input_note_wf. Qed.

Lemma fold_outputs_wf ty l t :
  Forall output_wf l → tracker_wf t →
  tracker_wf (foldl (λ t note, insert_output_note t note ty) t l).
Proof. intros Hl. revert t. induction Hl; simpl; eauto using insert_output_note_wf. Qed.
End wf_steps.

(** The trackers a sync or a transaction works on. *)
Definition initial_tracker `{Protocol} (t : NoteUpdateTracker) : Prop :=
  (∃ ins outs, Forall output_wf outs ∧ t = NoteUpdateTracker_new ins outs) ∨
  (∃ news upds outs, Forall output_wf outs ∧
    t = NoteUpdateTracker_for_transaction_updates news upds outs).

(** The lookup by nullifier is exact.  In every tracker built from records
    and evolved by the operations, a nullifier leads to the input note that has
    it, every tracked input note is found by its nullifier, and every tracked
    output note with a known recipient is found by its own. *)
Theorem nullifier_index_exact `{ProtocolLaws} (t0 t : NoteUpdateTracker) :
  initial_tracker t0 → rtc note_tracker_step t0 t →
  (∀ n id u, get_input_note_update_by_nullifier t n = Some (id, u) ↔
    input_notes t !! id = Some u ∧ InputNoteRecord_nullifier (iu_note u) = n) ∧
  (∀ n id u, output_notes t !! id = Some u → OutputNoteRecord_nullifier (ou_note u) = Some n →
    get_output_note_by_nullifier t n = Some (id, u)).
Proof.
  intros Hi Hs. assert (tracker_wf t) as Hwf.
  { assert (tracker_wf t0) as Hwf0.
    { destruct Hi as [(ins & outs & Ho & ->)|(news & upds & outs & Ho & ->)];
        apply fold_outputs_wf; auto using fold_inputs_wf, default_wf. }
    clear Hi. induction Hs; eauto using note_tracker_step_wf. }
  unfold get_input_note_update_by_nullifier, get_output_note_by_nullifier. split.
  - intros n id u. rewrite bind_Some. setoid_rewrite bind_Some. split.
    + intros (id' & (u2 & Hu2 & Hn)%(wf_in_index _ Hwf) & u' & Hu' & [= <- <-]).
      by simplify_eq.
    + intros [Hu Hn]. exists id. split; [apply (wf_in_index _ Hwf); eauto|eauto].
  - intros n id u Hu Hn. rewrite (wf_out_index _ Hwf id u n) by done. simpl. by rewrite Hu.
Qed.

Section nullify.
Context `{Protocol}.

Lemma find_consumer_Some r txs tx :
  find_consumer r txs = Some tx →
  tx ∈ txs ∧ InputNoteRecord_consumer_transaction_id r = Some (tx_id tx).
Proof.
  unfold find_consumer. intros Hf.
  assert (tx ∈ filter (λ t, InputNoteRecord_consumer_transaction_id r = Some (tx_id t)) txs) as Hin.
  { destruct (filter _ _); [done|]. simpl in Hf. simplify_eq. left. }
  apply list_elem_of_filter in Hin as [? ?]. auto.
Qed.

(** The two ways a note is consumed, on a record that is not consumed yet. *)
Lemma committed_by_consumer r tx h :
  InputNoteRecord_is_consumed r = false →
  InputNoteRecord_consumer_transaction_id r = Some tx →
  ∃ r', InputNoteRecord_transaction_committed r tx h = Ok (true, r') ∧
    InputNoteRecord_is_consumed r' = true ∧ consumed_block_height (in_state r') = Some h ∧
    InputNoteRecord_consumer_transaction_id r' = Some tx.
Proof.
  unfold InputNoteRecord_transaction_committed, InputNoteRecord_consumer_transaction_id,
    InputNoteRecord_is_consumed.
  destruct r as [d c [[]|[]|[]|[]|[]|[]|[]|[]|[]]]; simpl; intros Hc Htx; try done;
    unfold state_transaction_committed; simpl; unfold if_consumer; simplify_eq;
    rewrite bool_decide_eq_false_2 by (by intros []); simpl; by eexists.
Qed.

Lemma consumed_by_other r h :
  InputNoteRecord_is_consumed r = false →
  ∃ r', InputNoteRecord_consumed_externally r (InputNoteRecord_nullifier r) h = Ok (true, r') ∧
    record_kind r' = STATE_CONSUMED_EXTERNAL ∧ InputNoteRecord_is_consumed r' = true ∧
    consumed_block_height (in_state r') = Some h.
Proof.
  unfold InputNoteRecord_consumed_externally, InputNoteRecord_is_consumed, record_kind.
  rewrite bool_decide_eq_false_2 by (by intros []).
  destruct r as [d c [[]|[]|[]|[]|[]|[]|[]|[]|[]]]; simpl; intros Hc; try done; by eexists.
Qed.

Lemma set_order_facts r o :
  InputNoteRecord_is_consumed r = true →
  let r' := InputNoteRecord_set_consumed_tx_order r o in
  InputNoteRecord_is_consumed r' = true ∧ consumed_tx_order (in_state r') = o ∧
  record_kind r' = record_kind r ∧
  consumed_block_height (in_state r') = consumed_block_height (in_state r) ∧
  InputNoteRecord_consumer_transaction_id r' = InputNoteRecord_consumer_transaction_id r.
Proof.
  unfold InputNoteRecord_is_consumed.
  destruct r as [d c [[]|[]|[]|[]|[]|[]|[]|[]|[]]]; simpl; intros Hc; try done.
Qed.

(** Who consumed the note: the committed transaction that was processing it, or
    somebody else at the block of the nullifier. *)
Definition consumed_by (r : InputNoteRecord) (consumer : option TransactionRecord)
    (nullifier_block : BlockNumber) : Prop :=
  match consumer with
  | Some tx => ∃ h ts, tx_status tx = CommittedTx h ts ∧
      consumed_block_height (in_state r) = Some h ∧
      InputNoteRecord_consumer_transaction_id r = Some (tx_id tx)
  | None => record_kind r = STATE_CONSUMED_EXTERNAL ∧
      consumed_block_height (in_state r) = Some nullifier_block
  end.

Definition all_committed (txs : list TransactionRecord) : Prop :=
  Forall (λ tx, TransactionStatus_variant (tx_status tx) = 1) txs.

Lemma nullify_outcome u update txs order :
  InputNoteRecord_is_consumed (iu_note u) = false →
  InputNoteRecord_nullifier (iu_note u) = nu_nullifier update → all_committed txs →
  ∃ u', nullify_input_note u update txs order = Ok u' ∧
    InputNoteRecord_is_consumed (iu_note u') = true ∧
    consumed_tx_order (in_state (iu_note u')) = order ∧
    consumed_by (iu_note u') (find_consumer (iu_note u) txs) (nu_block_num update).
Proof.
  intros Hc Hn Htxs. unfold nullify_input_note, note_error.
  destruct (find_consumer (iu_note u) txs) as [tx|] eqn:Ef.
  - apply find_consumer_Some in Ef as [Hin Hid].
    unfold all_committed in Htxs. rewrite Forall_forall in Htxs. specialize (Htxs _ Hin).
    destruct (tx_status tx) as [|h ts|] eqn:Est; try done.
    destruct (committed_by_consumer _ _ h Hc Hid) as (r' & -> & Hc' & Hh & Hid').
    destruct (set_order_facts r' order Hc') as (Hc2 & Ho & Hk & Hh2 & Hid2).
    eexists. split; [done|]. cbn [iu_note InputNoteUpdate_inner_mut].
    split_and!; [done|done|]. exists h, ts. split_and!; congruence.
  - rewrite <-Hn. destruct (consumed_by_other _ (nu_block_num update) Hc) as (r' & -> & Hk & Hc' & Hh).
    destruct (set_order_facts r' order Hc') as (Hc2 & Ho & Hk2 & Hh2 & _).
    eexists. split; [done|]. cbn [iu_note InputNoteUpdate_inner_mut].
    split_and!; [done|done|]. split; congruence.
Qed.
End nullify.

(** A nullifier reported by the node consumes its note.  For a tracked input
    note that is not consumed, the update succeeds; the note becomes consumed, by
    the committed local transaction that was processing it (at the block where
    that transaction was committed) or else externally (at the block of the
    nullifier), with its position in the transaction order, and is marked for
    update; all other input notes are as before. *)
Theorem nullifier_consumes_its_note `{Protocol} (t : NoteUpdateTracker) update txs id u :
  get_input_note_update_by_nullifier t (nu_nullifier update) = Some (id, u) →
  InputNoteRecord_nullifier (iu_note u) = nu_nullifier update →
  InputNoteRecord_is_consumed (iu_note u) = false → all_committed txs →
  (∀ oid o, get_output_note_by_nullifier t (nu_nullifier update) = Some (oid, o) →
    OutputNoteRecord_nullifier (ou_note o) = Some (nu_nullifier update)) →
  ∃ t' u', apply_nullifiers_state_transitions t update txs = Ok t' ∧
    input_notes t' = <[id := u']> (input_notes t) ∧
    in_details (iu_note u') = in_details (iu_note u) ∧
    is_updated (iu_update_type u') = true ∧
    InputNoteRecord_is_consumed (iu_note u') = true ∧
    consumed_tx_order (in_state (iu_note u')) = nullifier_order t !! nu_nullifier update ∧
    consumed_by (iu_note u') (find_consumer (iu_note u) txs) (nu_block_num update).
Proof.
  intros Hg Hn Hc Htxs Hout. unfold apply_nullifiers_state_transitions. rewrite Hg.
  destruct (nullify_outcome u update txs (get_nullifier_order t (nu_nullifier update)) Hc Hn Htxs)
    as (u' & Hu' & Hc' & Ho & Hby).
  rewrite Hu'. simpl. destruct (nullify_steps _ _ _ _ _ Hu') as [Hs Hty].
  change (get_output_note_by_nullifier (set_input_notes _ _) ?n)
    with (get_output_note_by_nullifier t n).
  assert (is_updated (iu_update_type u') = true) as Hup by (rewrite Hty; by destruct (iu_update_type u)).
  destruct (get_output_note_by_nullifier t _) as [[oid o]|] eqn:Eo.
  - specialize (Hout _ _ eq_refl).
    destruct (nullifier_received_ok (ou_note o) _ (nu_block_num update) Hout) as (b & o' & ->).
    eexists _, u'. split; [done|]. split_and!; try done. apply (steps_details _ _ Hs).
  - eexists _, u'. split; [done|]. split_and!; try done. apply (steps_details _ _ Hs).
Qed.

(** A committed note reported by the node is verified before it is accepted.
    For a tracked input note that is expected, unverified or invalid, reported
    with its full metadata, the input note becomes committed exactly when the
    proof shows its commitment in the note root of the block header, and is
    invalid otherwise; it keeps its details, is marked for update, and no other
    input note changes. *)
Theorem committed_note_is_verified `{Protocol} (t : NoteUpdateTracker) note header u metadata :
  input_notes t !! cn_note_id note = Some u →
  record_kind (iu_note u) ∈ [STATE_EXPECTED; STATE_UNVERIFIED; STATE_INVALID] →
  CommittedNote_metadata note = Some metadata →
  (∀ o, output_notes t !! cn_note_id note = Some o →
    OutputNoteRecord_is_committed (ou_note o) = false) →
  ∃ t' u', apply_committed_note_state_transitions t note header = Ok (true, t') ∧
    input_notes t' = <[cn_note_id note := u']> (input_notes t) ∧
    in_details (iu_note u') = in_details (iu_note u) ∧
    is_updated (iu_update_type u') = true ∧
    (if proof_verifies (cn_inclusion_proof note) metadata (InputNoteRecord_id (iu_note u))
          (BlockHeader_note_root header)
     then InputNoteRecord_is_committed (iu_note u') = true
     else record_kind (iu_note u') = STATE_INVALID).
Proof.
  intros Hu Hk Hm Hout. unfold apply_committed_note_state_transitions, note_error. rewrite Hu, Hm. simpl.
  destruct (proof_then_header_decides (iu_note u) (cn_inclusion_proof note) metadata header Hk)
    as (r' & Hr & _ & _ & Hyes & Hno).
  unfold proof_then_header in Hr. apply bind_Ok in Hr as ([b r1] & Hr1 & Hr2). rewrite Hr1. simpl.
  rewrite Hr2. simpl.
  assert (in_details r' = in_details (iu_note u)) as Hd.
  { rewrite (step_details _ _ (header_step _ _ _ _ Hr2)).
    apply (step_details _ _ (proof_step _ _ _ _ _ Hr1)). }
  assert (is_updated (mutated (iu_update_type u)) = true) as Hup by (by destruct (iu_update_type u)).
  assert (if proof_verifies (cn_inclusion_proof note) metadata (InputNoteRecord_id (iu_note u))
            (BlockHeader_note_root header)
     then InputNoteRecord_is_committed r' = true else record_kind r' = STATE_INVALID) as Hv
    by (destruct (proof_verifies _ _ _ _); [by apply Hyes|by apply Hno]).
  destruct (output_notes t !! cn_note_id note) as [o|] eqn:Eo.
  - destruct (inclusion_received_ok (ou_note o) (cn_inclusion_proof note) (Hout _ eq_refl))
      as (b' & o' & Ho'). rewrite Ho'. by eexists _, (InputNoteUpdate_inner_mut u r').
  - by eexists _, (InputNoteUpdate_inner_mut u r').
Qed.

(** ** The order of the nullifiers *)

Section order.
Context `{Protocol}.

(** The positions are exactly [0 .. n - 1], one per nullifier. *)
Definition order_wf_map (m : gmap Nullifier u32) : Prop :=
  (∀ n p, m !! n = Some p → 0 ≤ p < Z.of_nat (size m)) ∧
  (∀ n n' p, m !! n = Some p → m !! n' = Some p → n = n').

Lemma order_wf_insert m n :
  order_wf_map m → order_wf_map (btree_or_insert n (Z.of_nat (size m)) m).
Proof.
  intros [Hr Hi]. unfold btree_or_insert. destruct (m !! n) eqn:E; [done|]. split.
  - intros n' p. rewrite map_size_insert_None by done. rewrite lookup_insert. case_decide.
    + intros [= <-]. lia.
    + intros Hp%Hr. lia.
  - intros n1 n2 p. rewrite !lookup_insert. repeat case_decide; intros; simplify_eq; eauto.
    + match goal with Hx : m !! _ = Some _ |- _ => apply Hr in Hx end. lia.
    + match goal with Hx : m !! _ = Some _ |- _ => apply Hr in Hx end. lia.
Qed.

(** Nullifiers are given positions in the order of the list, and a nullifier that
    has one keeps it. *)
Lemma extend_nullifiers_spec l : ∀ t,
  order_wf_map (nullifier_order t) →
  Z.of_nat (size (nullifier_order t)) + Z.of_nat (length l) ≤ U32_MAX →
  ∃ t', extend_nullifiers t l = Some t' ∧ order_wf_map (nullifier_order t') ∧
    (∀ n p, nullifier_order t !! n = Some p → nullifier_order t' !! n = Some p) ∧
    (∀ n, n ∈ l → is_Some (nullifier_order t' !! n)) ∧
    (∀ n p, nullifier_order t' !! n = Some p → nullifier_order t !! n = Some p ∨
      n ∈ l ∧ Z.of_nat (size (nullifier_order t)) ≤ p).
Proof.
  induction l as [|n l IH]; intros t Hwf Hb; simpl.
  - exists t. split_and!; try done; [|auto]. intros n Hn. by apply not_elem_of_nil in Hn.
  - unfold try_from, in_rangeb. simpl length in Hb.
    rewrite (proj2 (Z.leb_le 0 _)), (proj2 (Z.leb_le _ U32_MAX)) by lia. simpl.
    set (m1 := btree_or_insert n (Z.of_nat (size (nullifier_order t))) (nullifier_order t)).
    destruct (IH (set_nullifier_order t m1)) as (t' & -> & Hwf' & Hkeep & Hall & Honly); simpl.
    + by apply order_wf_insert.
    + unfold m1, btree_or_insert. destruct (nullifier_order t !! n) eqn:E; [lia|].
      rewrite map_size_insert_None by done. lia.
    + exists t'. simpl in *. split; [done|]. split; [done|].
      assert (∀ k p, nullifier_order t !! k = Some p → m1 !! k = Some p) as Hm1.
      { intros k p Hk. unfold m1, btree_or_insert. destruct (nullifier_order t !! n) eqn:E; [done|].
        rewrite lookup_insert_ne; [done|congruence]. }
      split_and!; [eauto| |].
      * intros k [->|Hk]%elem_of_cons; [|auto]. unfold m1, btree_or_insert in Hkeep.
        destruct (nullifier_order t !! n) as [p|] eqn:E.
        -- exists p. by apply Hkeep.
        -- eexists. apply Hkeep, lookup_insert_eq.
      * intros k p Hk. destruct (Honly _ _ Hk) as [Hk1|[Hin Hle]].
        -- unfold m1, btree_or_insert in Hk1. destruct (nullifier_order t !! n) eqn:E; [auto|].
           rewrite lookup_insert in Hk1. case_decide; [|auto]. simplify_eq.
           right. split; [left|lia].
        -- right. split; [by right|]. unfold m1, btree_or_insert in Hle.
           destruct (nullifier_order t !! n) eqn:E; [done|].
           rewrite map_size_insert_None in Hle by done. lia.
Qed.
End order.

Lemma extend_nullifiers_index `{Protocol} l : ∀ t t',
  extend_nullifiers t l = Some t' → order_wf_map (nullifier_order t) →
  Z.of_nat (size (nullifier_order t)) + Z.of_nat (length l) ≤ U32_MAX →
  NoDup l → (∀ n, n ∈ l → nullifier_order t !! n = None) →
  ∀ i n, l !! i = Some n →
    nullifier_order t' !! n = Some (Z.of_nat (size (nullifier_order t)) + Z.of_nat i).
Proof.
  induction l as [|n0 l IH]; intros t t' He Hwf Hb Hnd Hnew i n Hi; [done|].
  simpl in He. apply bind_Some in He as (pos & Hpos & He).
  assert (pos = Z.of_nat (size (nullifier_order t))) as ->
    by (unfold try_from in Hpos; case_match; congruence).
  assert (nullifier_order t !! n0 = None) as Hn0 by (apply Hnew; left).
  simpl length in Hb. apply NoDup_cons in Hnd as [Hni Hnd].
  pose proof (order_wf_insert _ n0 Hwf) as Hwf1. unfold btree_or_insert in He, Hwf1.
  rewrite Hn0 in He, Hwf1.
  destruct i as [|i]; simpl in Hi.
  - injection Hi as <-.
    destruct (extend_nullifiers_spec l (set_nullifier_order t
      (<[n0:=Z.of_nat (size (nullifier_order t))]> (nullifier_order t))) Hwf1)
      as (t2 & E2 & _ & Hkeep & _).
    { simpl. rewrite map_size_insert_None by done. lia. }
    rewrite He in E2. injection E2 as <-. rewrite Z.add_0_r. apply Hkeep. simpl. apply lookup_insert_eq.
  - rewrite (IH _ _ He) with (i := i) (n := n); simpl; [|done| |done| |done].
    + rewrite map_size_insert_None by done. f_equal. lia.
    + rewrite map_size_insert_None by done. lia.
    + intros k Hk. rewrite lookup_insert_ne; [apply Hnew; by right|]. by intros ->.
Qed.

(** The positions of the consuming transactions.  As long as their number
    fits a [u32], adding nullifiers does not panic; the positions stay a
    bijection with [0 .. n - 1], a nullifier keeps the position it has, and new
    nullifiers get the following positions in the order of the list. *)
Theorem nullifier_positions `{Protocol} (t : NoteUpdateTracker) (l : list Nullifier) :
  order_wf_map (nullifier_order t) →
  Z.of_nat (size (nullifier_order t)) + Z.of_nat (length l) ≤ U32_MAX →
  ∃ t', extend_nullifiers t l = Some t' ∧ order_wf_map (nullifier_order t') ∧
    (∀ n p, nullifier_order t !! n = Some p → nullifier_order t' !! n = Some p) ∧
    (∀ n, n ∈ l → is_Some (nullifier_order t' !! n)) ∧
    (NoDup l → (∀ n, n ∈ l → nullifier_order t !! n = None) → ∀ i n, l !! i = Some n →
      nullifier_order t' !! n = Some (Z.of_nat (size (nullifier_order t)) + Z.of_nat i)).
Proof.
  intros Hwf Hb. destruct (extend_nullifiers_spec l t Hwf Hb) as (t' & He & Hwf' & Hk & Ha & _).
  exists t'. split_and!; try done. intros. by eapply extend_nullifiers_index.
Qed.

(** ** Witnesses *)

Definition toy_note_tracker : NoteUpdateTracker :=
  NoteUpdateTracker_new [toy_record STATE_EXPECTED] [toy_output].

Definition toy_committed_note : CommittedNote :=
  {| cn_note_id := toy_noteid 3 5; cn_metadata := MetadataFull (Note_metadata toy_note);
     cn_inclusion_proof := toy_inclusion |}.

Lemma toy_output_wf : output_wf toy_output.
Proof. by intros recipient [= <-]. Qed.

Lemma nullifier_index_exact_witness :
  get_output_note_by_nullifier toy_note_tracker (Note_nullifier toy_note) =
    Some (toy_noteid 3 5, {| ou_note := toy_output; ou_update_type := UpdateNone |}).
Proof.
  apply (nullifier_index_exact toy_note_tracker toy_note_tracker).
  - left. exists [toy_record STATE_EXPECTED], [toy_output].
    split; [apply Forall_singleton, toy_output_wf|reflexivity].
  - apply rtc_refl.
  - reflexivity.
  - reflexivity.
Defined.

Lemma nullifier_consumes_its_note_witness :
  ∃ t' u', apply_nullifiers_state_transitions toy_note_tracker
      {| nu_nullifier := Note_nullifier toy_note; nu_block_num := 12 |} [] = Ok t' ∧
    input_notes t' = <[toy_noteid 3 5 := u']> (input_notes toy_note_tracker) ∧
    InputNoteRecord_is_consumed (iu_note u') = true.
Proof.
  destruct (nullifier_consumes_its_note toy_note_tracker
    {| nu_nullifier := Note_nullifier toy_note; nu_block_num := 12 |} [] (toy_noteid 3 5)
    {| iu_note := toy_record STATE_EXPECTED; iu_update_type := UpdateNone |})
    as (t' & u' & Ht' & Hu' & _ & _ & Hc & _).
  - reflexivity.
  - reflexivity.
  - reflexivity.
  - apply Forall_nil_2.
  - intros oid o. change (get_output_note_by_nullifier toy_note_tracker (Note_nullifier toy_note))
      with (Some (toy_noteid 3 5, {| ou_note := toy_output; ou_update_type := UpdateNone |})).
    intros Ho. injection Ho as _ <-. reflexivity.
  - exists t', u'. split; [exact Ht'|]. split; [exact Hu'|exact Hc].
Defined.

Lemma committed_note_is_verified_witness :
  ∃ t' u', apply_committed_note_state_transitions toy_note_tracker toy_committed_note toy_header =
      Ok (true, t') ∧
    input_notes t' = <[toy_noteid 3 5 := u']> (input_notes toy_note_tracker) ∧
    InputNoteRecord_is_committed (iu_note u') = true.
Proof.
  destruct (committed_note_is_verified toy_note_tracker toy_committed_note toy_header
    {| iu_note := toy_record STATE_EXPECTED; iu_update_type := UpdateNone |}
    (Note_metadata toy_note)) as (t' & u' & Ht' & Hu' & _ & _ & Hc).
  - reflexivity.
  - left.
  - reflexivity.
  - change (output_notes toy_note_tracker !! cn_note_id toy_committed_note)
      with (Some {| ou_note := toy_output; ou_update_type := UpdateNone |}).
    intros o Ho. injection Ho as <-. reflexivity.
  - exists t', u'. split; [exact Ht'|]. split; [exact Hu'|exact Hc].
Defined.

Lemma toy_order n : nullifier_order toy_note_tracker !! n = None.
Proof. change (nullifier_order toy_note_tracker) with (∅ : gmap Nullifier u32). apply lookup_empty. Qed.

Lemma nullifier_positions_witness :
  ∃ t', extend_nullifiers toy_note_tracker [toy_nullifier 3 5; toy_nullifier 1 2] = Some t' ∧
    nullifier_order t' !! toy_nullifier 1 2 = Some 1.
Proof.
  destruct (nullifier_positions toy_note_tracker [toy_nullifier 3 5; toy_nullifier 1 2])
    as (t' & Ht' & _ & _ & _ & Hpos).
  - split; intros n; [intros p|intros n' p]; intros Hn; by rewrite toy_order in Hn.
  - discriminate.
  - exists t'. split; [exact Ht'|].
    refine (Hpos _ _ 1%nat (toy_nullifier 1 2) eq_refl).
    + apply (bool_decide_unpack _). exact I.
    + intros n _. apply toy_order.
Defined.
