(* ===== verification/TxOrdering.v ===== *)
(** * Transactions reported by the node

    The helpers of [sync/state_sync.rs] that turn the transaction records of a
    sync response into account commitments ([derive_account_commitment_updates])
    and into the order in which notes were consumed
    ([compute_ordered_nullifiers]). *)

From S2P Require Import Prelude Protocol Model.
From Stdlib Require Import ZArith Lia.
From stdpp Require Import base gmap list sorting.

Open Scope Z_scope.

Section ordering.
Context `{Protocol}.

(** [rpc::domain::transaction::TransactionRecord]. *)
Record RpcTransactionRecord := {
  rtx_block_num : BlockNumber;
  rtx_header : TransactionHeader
}.

Definition rtx_account (r : RpcTransactionRecord) : AccountId :=
  TransactionHeader_account_id (rtx_header r).
Definition rtx_initial (r : RpcTransactionRecord) : Word :=
  TransactionHeader_initial_state_commitment (rtx_header r).
Definition rtx_final (r : RpcTransactionRecord) : Word :=
  TransactionHeader_final_state_commitment (rtx_header r).

(** *** Account commitments *)

Definition latest_by_account (transaction_records : list RpcTransactionRecord) :
    gmap AccountId RpcTransactionRecord :=
  foldl (λ latest record,
      btree_modify_or_insert (rtx_account record)
        (λ existing, if rtx_block_num existing <? rtx_block_num record then record else existing)
        record latest)
    ∅ transaction_records.

Definition derive_account_commitment_updates (transaction_records : list RpcTransactionRecord) :
    list (AccountId * Word) :=
  (λ kv, (kv.1, rtx_final kv.2)) <$> btree_to_list (latest_by_account transaction_records).

(** *** Order of consumption *)

(** Groups by account and block, in the order of arrival inside a group. *)
Definition group_transactions (transaction_records : list RpcTransactionRecord) :
    gmap (AccountId * BlockNumber) (list RpcTransactionRecord) :=
  foldl (λ groups record,
      btree_modify_or_insert (rtx_account record, rtx_block_num record)
        (λ txs, txs ++ [record]) [record] groups)
    ∅ transaction_records.

(** The [while let] loop: every turn removes an entry from the map, so one turn
    more than its size is enough; [None] is running out of fuel. *)
Fixpoint walk_chain (fuel : nat) (init_to_tx : gmap Word RpcTransactionRecord)
    (current : option RpcTransactionRecord) (res : list Nullifier) : option (list Nullifier) :=
  match fuel with
  | O => None
  | S fuel =>
      match current with
      | None => Some res
      | Some tx =>
          walk_chain fuel (delete (rtx_final tx) init_to_tx) (init_to_tx !! rtx_final tx)
            (res ++ TransactionHeader_input_notes (rtx_header tx))
      end
  end.

(** The body of the loop over the groups. *)
Definition group_nullifiers (txs : list RpcTransactionRecord) : list Nullifier :=
  let init_to_tx := btree_collect ((λ tx, (rtx_initial tx, tx)) <$> txs) in
  let final_states : gset Word := list_to_set (rtx_final <$> txs) in
  match head (filter (λ tx, rtx_initial tx ∉ final_states) txs) with
  | None => []
  | Some start_tx =>
      default [] (walk_chain (S (S (size init_to_tx)))
        (delete (rtx_initial start_tx) init_to_tx) (init_to_tx !! rtx_initial start_tx) [])
  end.

Definition compute_ordered_nullifiers (transaction_records : list RpcTransactionRecord) :
    list Nullifier :=
  concat (group_nullifiers <$> btree_values (group_transactions transaction_records)).

(** ** Account commitments *)

(** [r] is the first of the records of its account with the highest block. *)
Definition first_latest (a : AccountId) (l : list RpcTransactionRecord)
    (r : RpcTransactionRecord) : Prop :=
  ∃ l1 l2, l = l1 ++ r :: l2 ∧ rtx_account r = a ∧
    (∀ x, x ∈ l1 → rtx_account x = a → rtx_block_num x < rtx_block_num r) ∧
    (∀ x, x ∈ l2 → rtx_account x = a → rtx_block_num x ≤ rtx_block_num r).

Lemma first_latest_snoc a l r x :
  first_latest a l r → (rtx_account x = a → rtx_block_num x ≤ rtx_block_num r) →
  first_latest a (l ++ [x]) r.
Proof.
  intros (l1 & l2 & -> & Ha & H1 & H2) Hx. exists l1, (l2 ++ [x]).
  split_and!; [by rewrite <-app_assoc|done|done|].
  intros y [Hy|Hy%list_elem_of_singleton]%elem_of_app; [auto|]. subst. auto.
Qed.

Lemma latest_by_account_snoc l x :
  latest_by_account (l ++ [x]) =
    btree_modify_or_insert (rtx_account x)
      (λ existing, if rtx_block_num existing <? rtx_block_num x then x else existing)
      x (latest_by_account l).
Proof. unfold latest_by_account. by rewrite foldl_snoc. Qed.

Lemma lookup_btree_modify_or_insert {K V} `{!KeyType K} (k k' : K) (f : V → V) (v : V) m :
  btree_modify_or_insert k f v m !! k' =
    if decide (k = k') then Some (from_option f v (m !! k)) else m !! k'.
Proof.
  unfold btree_modify_or_insert. destruct (m !! k) eqn:E; rewrite lookup_insert; by case_decide.
Qed.

Lemma lookup_latest l a :
  match latest_by_account l !! a with
  | Some r => first_latest a l r
  | None => ∀ x, x ∈ l → rtx_account x ≠ a
  end.
Proof.
  induction l as [|x l IH] using rev_ind.
  - change (latest_by_account []) with (∅ : gmap AccountId RpcTransactionRecord).
    rewrite lookup_empty. intros x Hx. by apply not_elem_of_nil in Hx.
  - rewrite latest_by_account_snoc, lookup_btree_modify_or_insert.
    case_decide as Ha.
    + subst a. destruct (latest_by_account l !! rtx_account x) as [r|] eqn:E; simpl.
      * destruct (rtx_block_num r <? rtx_block_num x) eqn:Hlt.
        -- destruct IH as (l1 & l2 & -> & Har & H1 & H2). exists (l1 ++ r :: l2), [].
           split_and!; [done|done| |intros y Hy; by apply not_elem_of_nil in Hy].
           intros y [Hy|[->|Hy]%elem_of_cons]%elem_of_app Hya; [|lia|];
             [specialize (H1 _ Hy Hya)|specialize (H2 _ Hy Hya)]; lia.
        -- apply first_latest_snoc; [done|]. lia.
      * exists l, []. split_and!; [done|done| |intros y Hy; by apply not_elem_of_nil in Hy].
        intros y Hy Hya. by destruct (IH _ Hy).
    + destruct (latest_by_account l !! a) as [r|].
      * apply first_latest_snoc; [done|]. by intros <-.
      * intros y [Hy|Hy%list_elem_of_singleton]%elem_of_app; [auto|congruence].
Qed.

Lemma first_latest_unique a l r r' :
  first_latest a l r → first_latest a l r' → r = r'.
Proof.
  intros (l1 & l2 & -> & Ha & H1 & H2) (l3 & l4 & Heq & Ha' & H3 & H4).
  apply app_eq_inv in Heq as [(k & -> & Hk)|(k & -> & Hk)]; destruct k as [|y k];
    simpl in Hk; simplify_eq; try done; exfalso.
  - pose proof (H1 y ltac:(set_solver) ltac:(congruence)).
    pose proof (H4 r ltac:(set_solver) ltac:(congruence)). lia.
  - pose proof (H3 y ltac:(set_solver) ltac:(congruence)).
    pose proof (H2 r' ltac:(set_solver) ltac:(congruence)). lia.
Qed.

(** ** Order of consumption *)

Definition rtx_inputs (tx : RpcTransactionRecord) : list Nullifier :=
  TransactionHeader_input_notes (rtx_header tx).

(** [c] executes one after the other, from the state [s]. *)
Fixpoint chain_from (s : Word) (c : list RpcTransactionRecord) : Prop :=
  match c with
  | [] => True
  | tx :: c => rtx_initial tx = s ∧ chain_from (rtx_final tx) c
  end.

(** The states before, between and after are all different. *)
Definition execution_chain (s : Word) (c : list RpcTransactionRecord) : Prop :=
  chain_from s c ∧ NoDup (s :: (rtx_final <$> c)).

(** The map leads from each initial state to its transaction. *)
Definition covers (m : gmap Word RpcTransactionRecord) (c : list RpcTransactionRecord) : Prop :=
  ∀ w tx, m !! w = Some tx ↔ tx ∈ c ∧ rtx_initial tx = w.

Lemma chain_from_initial s c tx :
  chain_from s c → tx ∈ c → rtx_initial tx ∈ s :: (rtx_final <$> c).
Proof.
  revert s. induction c as [|t c IH]; intros s; simpl; [intros _ Hx; by apply not_elem_of_nil in Hx|].
  intros [Hs Hc] [->|Hx]%elem_of_cons; [rewrite Hs; left|right]. by apply IH.
Qed.

Lemma covers_lookup_start s t c m :
  chain_from s (t :: c) → covers m (t :: c) → m !! s = Some t.
Proof. intros [Hs _] Hm. apply Hm. split; [left|done]. Qed.

Lemma covers_delete s t c m :
  execution_chain s (t :: c) → covers m (t :: c) → covers (delete s m) c.
Proof.
  intros [[Hs Hc] [Hni Hnd]%NoDup_cons] Hm w tx.
  rewrite lookup_delete_Some, (Hm w tx), elem_of_cons. split.
  - intros (Hne & [->|Hin] & Hw); [congruence|done].
  - intros [Hin Hw]. split_and!; [|by right|done]. intros ->. apply Hni.
    rewrite <-Hw. by apply (chain_from_initial _ _ _ Hc).
Qed.

Lemma execution_chain_tail s t c :
  execution_chain s (t :: c) → execution_chain (rtx_final t) c.
Proof. intros [[_ Hc] [_ Hnd]%NoDup_cons]. by split. Qed.

Lemma walk_chain_spec c : ∀ s m res fuel,
  execution_chain s c → covers m c → (length c < fuel)%nat →
  walk_chain fuel (delete s m) (m !! s) res = Some (res ++ concat (rtx_inputs <$> c)).
Proof.
  induction c as [|t c IH]; intros s m res fuel Hc Hm Hf; (destruct fuel as [|fuel]; [lia|]).
  - destruct (m !! s) as [tx|] eqn:E.
    + apply Hm in E as [E _]. by apply not_elem_of_nil in E.
    + simpl. by rewrite app_nil_r.
  - rewrite (covers_lookup_start _ _ _ _ (proj1 Hc) Hm). simpl in *.
    rewrite IH; [by rewrite <-app_assoc|by eapply execution_chain_tail|by eapply covers_delete|lia].
Qed.

(** The loop ends whatever the transactions are. *)
Lemma walk_chain_total fuel : ∀ m cur res,
  (size m + 2 ≤ fuel)%nat → is_Some (walk_chain fuel m cur res).
Proof.
  induction fuel as [|fuel IH]; intros m cur res Hf; [lia|]. simpl.
  destruct cur as [tx|]; [|by eexists].
  destruct (m !! rtx_final tx) as [tx'|] eqn:E.
  - apply IH. rewrite map_size_delete_Some by done.
    assert (size m ≠ 0)%nat; [|lia]. apply map_size_ne_0_lookup_2 with (rtx_final tx). by eexists.
  - destruct fuel as [|fuel]; [lia|]. by eexists.
Qed.

Lemma execution_chain_inj s c x y :
  execution_chain s c → x ∈ c → y ∈ c → rtx_initial x = rtx_initial y → x = y.
Proof.
  revert s. induction c as [|t c IH]; intros s Hc; [intros Hx; by apply not_elem_of_nil in Hx|].
  pose proof (execution_chain_tail _ _ _ Hc) as Ht. destruct Hc as [[Hs Hc] [Hni Hnd]%NoDup_cons].
  assert (∀ z, z ∈ c → rtx_initial z ≠ s) as Hz.
  { intros z Hz Heq. apply Hni. rewrite <-Heq. by apply (chain_from_initial _ _ _ Hc). }
  intros [->|Hx]%elem_of_cons [->|Hy]%elem_of_cons Heq; [done| | |eauto].
  - destruct (Hz y Hy). congruence.
  - destruct (Hz x Hx). congruence.
Qed.

Lemma chain_initials_NoDup s c : execution_chain s c → NoDup (rtx_initial <$> c).
Proof.
  revert s. induction c as [|t c IH]; intros s Hc; simpl; [constructor|].
  apply NoDup_cons. split; [|eauto using execution_chain_tail].
  destruct Hc as [[Hs Hc] [Hni Hnd]%NoDup_cons]. intros (z & Heq & Hz)%list_elem_of_fmap.
  apply Hni. rewrite <-Hs, Heq. by apply (chain_from_initial _ _ _ Hc).
Qed.

Lemma covers_collect s c txs :
  execution_chain s c → txs ≡ₚ c → covers (btree_collect ((λ tx, (rtx_initial tx, tx)) <$> txs)) c.
Proof.
  intros Hc Hp w tx. rewrite lookup_btree_collect.
  - rewrite list_elem_of_fmap. setoid_rewrite Hp. naive_solver.
  - rewrite <-list_fmap_compose. change (NoDup (rtx_initial <$> txs)). rewrite Hp.
    by eapply chain_initials_NoDup.
Qed.

Lemma start_of_chain s t c txs :
  execution_chain s (t :: c) → txs ≡ₚ t :: c →
  head (filter (λ tx, rtx_initial tx ∉ (list_to_set (rtx_final <$> txs) : gset Word)) txs) = Some t.
Proof.
  intros Hc Hp. destruct (filter _ txs) as [|x l] eqn:E.
  - exfalso. assert (t ∈ filter (λ tx, rtx_initial tx ∉
      (list_to_set (rtx_final <$> txs) : gset Word)) txs) as Hin.
    { apply list_elem_of_filter. split; [|rewrite Hp; left]. rewrite elem_of_list_to_set, Hp.
      destruct Hc as [[-> _] [Hni _]%NoDup_cons]. done. }
    rewrite E in Hin. by apply not_elem_of_nil in Hin.
  - simpl. f_equal. assert (x ∈ x :: l) as Hin by left. rewrite <-E in Hin.
    apply list_elem_of_filter in Hin as [Hx Hin]. rewrite elem_of_list_to_set in Hx.
    rewrite Hp in Hin, Hx. apply (execution_chain_inj _ _ _ _ Hc Hin); [left|].
    pose proof (chain_from_initial _ _ _ (proj1 Hc) Hin) as Hi.
    apply elem_of_cons in Hi as [Hi|Hi]; [|done]. destruct Hc as [[Hs _] _]. congruence.
Qed.

Lemma group_nullifiers_chain s c txs :
  execution_chain s c → txs ≡ₚ c → group_nullifiers txs = concat (rtx_inputs <$> c).
Proof.
  intros Hc Hp. destruct c as [|t c].
  - apply Permutation_nil_r in Hp as ->. done.
  - unfold group_nullifiers. rewrite (start_of_chain s t c) by done.
    pose proof (covers_collect _ _ _ Hc Hp) as Hcov.
    assert (rtx_initial t = s) as -> by (by destruct Hc as [[? _] _]).
    rewrite (walk_chain_spec (t :: c)); [done|done|done|].
    rewrite <-(length_fmap rtx_initial (t :: c)).
    enough (length (rtx_initial <$> t :: c) =
      size (btree_collect ((λ tx, (rtx_initial tx, tx)) <$> txs))) by lia.
    rewrite <-size_dom, <-(size_list_to_set (C:=gset Word)) by (by eapply chain_initials_NoDup).
    f_equal. apply set_eq. intros w. rewrite elem_of_list_to_set, elem_of_dom.
    unfold is_Some. setoid_rewrite (Hcov w). rewrite list_elem_of_fmap. naive_solver.
Qed.

Definition rtx_key (r : RpcTransactionRecord) : AccountId * BlockNumber :=
  (rtx_account r, rtx_block_num r).

(** The transactions of one account in one block, in the order of arrival. *)
Definition same_group (k : AccountId * BlockNumber) (l : list RpcTransactionRecord) :
    list RpcTransactionRecord :=
  filter (λ r, rtx_key r = k) l.

Lemma lookup_groups l k :
  group_transactions l !! k =
    match same_group k l with [] => None | txs => Some txs end.
Proof.
  unfold same_group. induction l as [|x l IH] using rev_ind; [apply lookup_empty|].
  unfold group_transactions in *. rewrite foldl_snoc, lookup_btree_modify_or_insert.
  fold (rtx_key x). rewrite filter_app, filter_cons, filter_nil.
  destruct (decide (rtx_key x = k)) as [<-|Hne].
  - rewrite IH. by destruct (filter _ l).
  - rewrite app_nil_r. apply IH.
Qed.

Lemma groups_values l :
  btree_values (group_transactions l) =
    (λ k, same_group k l) <$> btree_keys (group_transactions l).
Proof.
  unfold btree_values, btree_keys. rewrite <-list_fmap_compose. apply list_fmap_ext.
  intros i [k txs] Hi. simpl. apply list_elem_of_lookup_2, elem_of_btree_to_list in Hi.
  rewrite lookup_groups in Hi. destruct (same_group k l); congruence.
Qed.
End ordering.

(** ** Correctness *)

(** C32: the nullifiers come out in execution order, whatever the order of the
    records in the response.  When the transactions of each account and block
    are a permutation of an execution chain, the result is the concatenation of
    the chains' input notes, by account and then by block. *)
Theorem nullifiers_in_execution_order `{Protocol} (records : list RpcTransactionRecord)
    (start : AccountId * BlockNumber → Word)
    (chain : AccountId * BlockNumber → list RpcTransactionRecord) :
  (∀ k, same_group k records ≡ₚ chain k) →
  (∀ k, execution_chain (start k) (chain k)) →
  compute_ordered_nullifiers records =
    concat ((λ k, concat (rtx_inputs <$> chain k)) <$> btree_keys (group_transactions records)) ∧
  StronglySorted key_le (btree_keys (group_transactions records)) ∧
  (∀ k, k ∈ btree_keys (group_transactions records) ↔ chain k ≠ []).
Proof.
  intros Hp Hc. split_and!.
  - unfold compute_ordered_nullifiers. rewrite groups_values, <-list_fmap_compose. f_equal.
    apply list_fmap_ext. intros i k _. simpl. by apply (group_nullifiers_chain (start k)).
  - apply btree_keys_sorted.
  - intros k. rewrite elem_of_btree_keys, lookup_groups. specialize (Hp k).
    destruct (same_group k records) as [|x l].
    + apply Permutation_nil_l in Hp as ->. split; [by intros []|done].
    + split; [|by eexists]. intros _ Hn. rewrite Hn in Hp. by apply Permutation_nil_r in Hp.
Qed.

(** The [while let] loop over a chain of transactions ends for every list of
    records, also one with cyclic states: the fuel of the model is enough. *)
Theorem chain_walk_ends `{Protocol} (txs : list RpcTransactionRecord) start_tx :
  let init_to_tx := btree_collect ((λ tx, (rtx_initial tx, tx)) <$> txs) in
  is_Some (walk_chain (S (S (size init_to_tx)))
    (delete (rtx_initial start_tx) init_to_tx) (init_to_tx !! rtx_initial start_tx) []).
Proof.
  intros m. apply walk_chain_total. rewrite map_size_delete.
  destruct (m !! _); simpl; lia.
Qed.

(** Each account with a transaction in the response gets one commitment
    update: the final state of the first record with the account's highest
    block number, in the order of the accounts. *)
Theorem account_commitments_of_highest_block `{Protocol} (records : list RpcTransactionRecord) :
  NoDup (derive_account_commitment_updates records).*1 ∧
  StronglySorted key_le (derive_account_commitment_updates records).*1 ∧
  ∀ a w, (a, w) ∈ derive_account_commitment_updates records ↔
    ∃ r, first_latest a records r ∧ w = rtx_final r.
Proof.
  assert ((derive_account_commitment_updates records).*1 =
    btree_keys (latest_by_account records)) as ->.
  { unfold derive_account_commitment_updates, btree_keys. by rewrite <-list_fmap_compose. }
  split_and!; [apply NoDup_btree_keys|apply btree_keys_sorted|].
  intros a w. unfold derive_account_commitment_updates. rewrite list_elem_of_fmap. split.
  - intros ([a' r] & [= -> ->] & Hin%elem_of_btree_to_list). exists r. split; [|done].
    pose proof (lookup_latest records a') as Hl. by rewrite Hin in Hl.
  - intros (r & Hr & ->). pose proof (lookup_latest records a) as Hl.
    destruct (latest_by_account records !! a) as [r'|] eqn:E.
    + rewrite (first_latest_unique _ _ _ _ Hr Hl). exists (a, r').
      split; [done|]. by apply elem_of_btree_to_list.
    + destruct Hr as (l1 & l2 & -> & Ha & _). destruct (Hl r); [set_solver|done].
Qed.

(** ** Witnesses and boundary cases *)

Definition toy_rtx (id block init final : Z) (inputs : list Nullifier) : RpcTransactionRecord :=
  {| rtx_block_num := block;
     rtx_header := (id, 7, (init, final), inputs) : @TransactionHeader toy_protocol |}.

(** Two transactions of account [7] in block [5], reported in reverse. *)
Definition toy_first := toy_rtx 70 5 100 101 [toy_nullifier 1 1].
Definition toy_second := toy_rtx 71 5 101 102 [toy_nullifier 2 2].

Lemma nullifiers_in_execution_order_witness :
  compute_ordered_nullifiers [toy_second; toy_first] = [toy_nullifier 1 1; toy_nullifier 2 2].
Proof.
  assert (∀ k, rtx_key toy_first = k ∨ rtx_key toy_first ≠ k) as Hdec
    by (intros k; destruct (decide (rtx_key toy_first = k)); auto).
  destruct (nullifiers_in_execution_order [toy_second; toy_first]
    (λ _, toy_word 100)
    (λ k, if decide (rtx_key toy_first = k) then [toy_first; toy_second] else []))
    as (Heq & _ & _).
  - intros k. unfold same_group. rewrite !filter_cons, filter_nil.
    change (rtx_key toy_second) with (rtx_key toy_first).
    destruct (decide (rtx_key toy_first = k)); [|constructor]. apply perm_swap.
  - intros k. destruct (decide (rtx_key toy_first = k)); split; try (repeat split; reflexivity).
    + apply (bool_decide_unpack _). exact I.
    + apply NoDup_singleton.
  - rewrite Heq. reflexivity.
Defined.

(** Among several transactions of an account in its highest block the update
    is the first one reported, not the last one executed: with two chained
    transactions in one block, reported in execution order, the derived
    commitment is the intermediate state. *)
Theorem same_block_commitment_is_not_the_latest :
  execution_chain (toy_word 100) [toy_first; toy_second] ∧
  derive_account_commitment_updates [toy_first; toy_second] = [(toy_account 7, toy_word 101)] ∧
  rtx_final toy_second = toy_word 102.
Proof.
  split_and!; [|reflexivity|reflexivity].
  split; [repeat split; reflexivity|]. apply (bool_decide_unpack _). exact I.
Qed.

(** A transaction that leaves the state of its account as it was is never the
    start of a chain, so the notes it consumed are not ordered. *)
Theorem unchanged_state_is_not_ordered `{Protocol} (tx : RpcTransactionRecord) :
  rtx_initial tx = rtx_final tx → compute_ordered_nullifiers [tx] = [].
Proof.
  intros Heq. unfold compute_ordered_nullifiers. rewrite groups_values.
  assert (∀ l, Forall (λ k, same_group k [tx] = [tx] ∨ same_group k [tx] = []) l →
    concat (group_nullifiers <$> ((λ k, same_group k [tx]) <$> l)) = []) as Hgo.
  { induction 1 as [|k l Hk _ IH]; [done|]. rewrite !fmap_cons. cbn [concat]. rewrite IH, app_nil_r.
    destruct Hk as [-> | ->]; [|done]. unfold group_nullifiers.
    rewrite filter_cons, decide_False; [done|]. rewrite elem_of_list_to_set, Heq.
    intros Hni. apply Hni. left. }
  apply Hgo, Forall_forall. intros k _. unfold same_group. rewrite filter_cons, filter_nil.
  destruct (decide _); auto.
Qed.

Lemma unchanged_state_is_not_ordered_witness :
  compute_ordered_nullifiers [toy_rtx 70 5 100 100 [toy_nullifier 1 1]] = [].
Proof. apply (unchanged_state_is_not_ordered (toy_rtx 70 5 100 100 [toy_nullifier 1 1])). reflexivity. Defined.
