(* ===== verification/Rpc.v ===== *)
(** * The node interface

    [rpc/mod.rs] and [rpc/domain]: the trait [NodeRpcClient] as a class whose
    primitive requests are parameters, and its default methods as definitions.
    The chain MMR of the crypto crate is the class [MmrLib]. *)

From S2P Require Import Prelude Protocol Model NoteStates InputNote OutputNote TxRecord Errors.
From S2P Require Import NoteTracker TxOrdering.
From Stdlib Require Import ZArith Lia.
From stdpp Require Import base gmap list strings sorting.

Open Scope Z_scope.

(** The partial MMR of the chain.  [mmr_apply], [mmr_add] and [mmr_track] change it
    in place: they return the new MMR, of a failing operation too. *)
Class MmrLib `{Protocol} := {
  MerklePath : Type;
  MmrProof : Type;
  MmrDelta : Type;
  MmrPeaks : Type;
  InOrderIndex : Type;
  InOrderIndex_key :: KeyType InOrderIndex;
  PartialMmr : Type;
  MmrDelta_empty : Z → MmrDelta;
  MmrDelta_forest : MmrDelta → Z;
  mmr_num_leaves : PartialMmr → Z;
  mmr_apply : PartialMmr → MmrDelta → PartialMmr * result string (list (InOrderIndex * Word));
  mmr_add : PartialMmr → Word → bool → PartialMmr * list (InOrderIndex * Word);
  mmr_peaks : PartialMmr → MmrPeaks;
  mmr_is_tracked : PartialMmr → Z → bool;
  mmr_track : PartialMmr → Z → Word → MerklePath → PartialMmr * result string unit;
  mmr_nodes : PartialMmr → list (InOrderIndex * Word)
}.

(** The number of leaves: a delta brings the MMR to its forest, adding a leaf grows
    it by one, tracking a leaf keeps it. *)
Class MmrLaws `{MmrLib} : Prop := {
  mmr_apply_leaves m d m' nodes :
    mmr_apply m d = (m', Ok nodes) → mmr_num_leaves m' = MmrDelta_forest d;
  mmr_add_leaves m w b : mmr_num_leaves (mmr_add m w b).1 = mmr_num_leaves m + 1;
  mmr_track_leaves m i w p : mmr_num_leaves (mmr_track m i w p).1 = mmr_num_leaves m
}.

Section domain.
Context `{Protocol}.

(** *** [rpc/domain/note.rs] *)

(** The header of a private note is its identifier and metadata. *)
Inductive FetchedNote :=
| FetchedNote_Private (id : NoteId) (metadata : NoteMetadata) (inclusion_proof : NoteInclusionProof)
| FetchedNote_Public (note : Note) (inclusion_proof : NoteInclusionProof).

Definition FetchedNote_inclusion_proof (self : FetchedNote) : NoteInclusionProof :=
  match self with
  | FetchedNote_Private _ _ inclusion_proof | FetchedNote_Public _ inclusion_proof =>
      inclusion_proof
  end.
Definition FetchedNote_metadata (self : FetchedNote) : NoteMetadata :=
  match self with
  | FetchedNote_Private _ metadata _ => metadata
  | FetchedNote_Public note _ => Note_metadata note
  end.
Definition FetchedNote_id (self : FetchedNote) : NoteId :=
  match self with
  | FetchedNote_Private id _ _ => id
  | FetchedNote_Public note _ => Note_id note
  end.

Record NoteSyncBlock `{!MmrLib} := {
  nsb_block_header : BlockHeader;
  nsb_mmr_path : MerklePath;
  nsb_notes : gmap NoteId CommittedNote
}.

Record NoteSyncInfo `{!MmrLib} := {
  nsi_chain_tip : BlockNumber;
  nsi_block_to : BlockNumber;
  nsi_blocks : list NoteSyncBlock
}.

Record SyncNotesResult `{!MmrLib} := {
  snr_blocks : list NoteSyncBlock;
  snr_public_notes : gmap NoteId Note
}.

(** *** [rpc/domain/account.rs], [rpc/domain/sync.rs] and [rpc/domain/transaction.rs] *)

Record AccountUpdateSummary := {
  aus_commitment : Word;
  aus_last_block_num : BlockNumber
}.

Inductive FetchedAccount :=
| FetchedAccount_Private (id : AccountId) (summary : AccountUpdateSummary)
| FetchedAccount_Public (account : Account) (summary : AccountUpdateSummary).

Definition FetchedAccount_account_id (self : FetchedAccount) : AccountId :=
  match self with
  | FetchedAccount_Private account_id _ => account_id
  | FetchedAccount_Public account _ => Account_id account
  end.
Definition FetchedAccount_commitment (self : FetchedAccount) : Word :=
  match self with
  | FetchedAccount_Private _ summary | FetchedAccount_Public _ summary => aus_commitment summary
  end.

Record ChainMmrInfo `{!MmrLib} := {
  cmi_block_from : BlockNumber;
  cmi_block_to : BlockNumber;
  cmi_mmr_delta : MmrDelta
}.

Record TransactionsInfo := {
  ti_chain_tip : BlockNumber;
  ti_block_num : BlockNumber;
  ti_transaction_records : list RpcTransactionRecord
}.
End domain.

(** The requests a sync sends.  The node moves on between two requests: the
    answer to the [t]-th page request may depend on [t]. *)
Class NodeRpcClient `{MmrLib} := {
  rpc_get_block_header_by_number :
    option BlockNumber → bool → result RpcError (BlockHeader * option MmrProof);
  rpc_get_notes_by_id : list NoteId → result RpcError (list FetchedNote);
  rpc_sync_chain_mmr : BlockNumber → option BlockNumber → result RpcError ChainMmrInfo;
  rpc_get_account_details : AccountId → result RpcError FetchedAccount;
  rpc_sync_notes :
    nat → BlockNumber → option BlockNumber → gset NoteTag → result RpcError NoteSyncInfo;
  rpc_sync_nullifiers :
    list u16 → BlockNumber → option BlockNumber → result RpcError (list NullifierUpdate);
  rpc_sync_transactions :
    BlockNumber → option BlockNumber → list AccountId → result RpcError TransactionsInfo
}.

Section client.
Context `{NodeRpcClient}.

(** *** [sync_notes_with_details] *)

(** The [loop] over the pages; [cursor + 1] overflows a [u32]. *)
Fixpoint sync_notes_pages (fuel t : nat) (cursor : BlockNumber) (block_to : option BlockNumber)
    (note_tags : gset NoteTag) (all_blocks : list NoteSyncBlock) :
    loop_result (result RpcError (list NoteSyncBlock)) :=
  match fuel with
  | O => OutOfFuel
  | S fuel =>
      match rpc_sync_notes t cursor block_to note_tags with
      | Err e => Finished (Err e)
      | Ok note_sync =>
          let chain_tip := nsi_chain_tip note_sync in
          match checked_add U32_MAX (nsi_block_to note_sync) 1 with
          | None => Panicked
          | Some cursor =>
              let done := bool_decide (nsi_blocks note_sync = []) || (chain_tip <=? cursor) in
              let all_blocks := all_blocks ++ nsi_blocks note_sync in
              if done then Finished (Ok all_blocks)
              else sync_notes_pages fuel (S t) cursor block_to note_tags all_blocks
          end
      end
  end.

(** The notes that are fetched: public, or with only a header. *)
Definition needs_fetch (n : CommittedNote) : bool :=
  bool_decide (CommittedNote_metadata n = None) ||
  bool_decide (CommittedNote_note_type n ≠ NoteType_Private).

Definition notes_to_fetch (all_blocks : list NoteSyncBlock) : list NoteId :=
  cn_note_id <$> filter (λ n, needs_fetch n = true)
    (concat ((λ b, btree_values (nsb_notes b)) <$> all_blocks)).

Definition fill_metadata (note_id : NoteId) (metadata : NoteMetadata) (block : NoteSyncBlock) :
    NoteSyncBlock :=
  match nsb_notes block !! note_id with
  | Some note =>
      if bool_decide (CommittedNote_metadata note = None) then
        {| nsb_block_header := nsb_block_header block; nsb_mmr_path := nsb_mmr_path block;
           nsb_notes := <[note_id := CommittedNote_set_metadata note metadata]> (nsb_notes block) |}
      else block
  | None => block
  end.

(** The loop over the fetched notes. *)
Definition resolve_fetched (all_blocks : list NoteSyncBlock) (fetched : list FetchedNote) :
    list NoteSyncBlock * gmap NoteId Note :=
  foldl (λ acc fetched_note,
      let '(all_blocks, public_notes) := acc in
      let note_id := FetchedNote_id fetched_note in
      let all_blocks := fill_metadata note_id (FetchedNote_metadata fetched_note) <$> all_blocks in
      match fetched_note with
      | FetchedNote_Public note _ => (all_blocks, <[Note_id note := note]> public_notes)
      | FetchedNote_Private _ _ _ => (all_blocks, public_notes)
      end)
    (all_blocks, ∅) fetched.

Definition sync_notes_with_details (fuel : nat) (block_from : BlockNumber)
    (block_to : option BlockNumber) (note_tags : gset NoteTag) :
    loop_result (result RpcError SyncNotesResult) :=
  match sync_notes_pages fuel 0 block_from block_to note_tags [] with
  | Panicked => Panicked
  | OutOfFuel => OutOfFuel
  | Finished (Err e) => Finished (Err e)
  | Finished (Ok all_blocks) => Finished (
      let note_ids := notes_to_fetch all_blocks in
      if bool_decide (note_ids = []) then
        Ok {| snr_blocks := all_blocks; snr_public_notes := ∅ |}
      else
        fetched ← rpc_get_notes_by_id note_ids;
        let '(all_blocks, public_notes) := resolve_fetched all_blocks fetched in
        Ok {| snr_blocks := all_blocks; snr_public_notes := public_notes |})
  end.

(** *** Other default methods *)

Definition get_nullifier_commit_heights (requested_nullifiers : gset Nullifier)
    (block_from : BlockNumber) : result RpcError (gmap Nullifier (option BlockNumber)) :=
  let prefixes := Nullifier_prefix <$> bset_elements requested_nullifiers in
  retrieved_nullifiers ← rpc_sync_nullifiers prefixes block_from None;
  Ok (foldl (λ nullifiers_height nullifier,
        <[nullifier :=
            match head (filter (λ update, nu_nullifier update = nullifier)
                          retrieved_nullifiers) with
            | Some update => Some (nu_block_num update)
            | None => None
            end]> nullifiers_height) ∅ (bset_elements requested_nullifiers)).

Definition get_public_note_records (note_ids : list NoteId) (current_timestamp : option u64) :
    result RpcError (list InputNoteRecord) :=
  if bool_decide (note_ids = []) then Ok []
  else
    note_details ← rpc_get_notes_by_id note_ids;
    Ok (omap (M:=list) (λ detail,
      match detail with
      | FetchedNote_Public note inclusion_proof => Some {|
          in_details := Note_into_details note;
          in_created_at := current_timestamp;
          in_state := Unverified {|
            Unverified_metadata := Note_metadata note;
            Unverified_inclusion_proof := inclusion_proof |} |}
      | FetchedNote_Private _ _ _ => None
      end) note_details).

Definition rpc_get_updated_public_accounts (local_accounts : list AccountHeader) :
    result RpcError (list Account) :=
  try_fold (λ public_accounts local_account,
      response ← rpc_get_account_details (AccountHeader_id local_account);
      match response with
      | FetchedAccount_Public account _ =>
          if AccountHeader_nonce local_account <? Account_nonce account
          then Ok (public_accounts ++ [account])
          else Ok public_accounts
      | FetchedAccount_Private _ _ => Ok public_accounts
      end) local_accounts [].

Definition get_block_header_with_proof (block_num : BlockNumber) :
    result RpcError (BlockHeader * MmrProof) :=
  '(header, proof) ← rpc_get_block_header_by_number (Some block_num) true;
  proof ← ok_or proof (Rpc_ExpectedDataMissing "MmrProof");
  Ok (header, proof).

Definition get_note_by_id (note_id : NoteId) : result RpcError FetchedNote :=
  notes ← rpc_get_notes_by_id [note_id];
  ok_or (head notes) (Rpc_NoteNotFound note_id).
End client.

(** ** Paging through the notes *)

Section paging.
Context `{NodeRpcClient}.

(** A page ends at or after the block it was requested from, below the last
    [u32]; the chain does not grow past [tip] during the sync. *)
Definition pages_progress (block_to : option BlockNumber) (tags : gset NoteTag)
    (tip : BlockNumber) : Prop :=
  ∀ t cursor info, rpc_sync_notes t cursor block_to tags = Ok info →
    cursor ≤ nsi_block_to info < U32_MAX ∧ nsi_chain_tip info ≤ tip.

Lemma next_cursor b : b < U32_MAX → checked_add U32_MAX b 1 = Some (b + 1).
Proof. intros Hb. unfold checked_add. by rewrite (proj2 (Z.leb_le _ _)) by lia. Qed.

Lemma sync_notes_pages_ends block_to tags tip : pages_progress block_to tags tip →
  ∀ fuel t cursor acc, (Z.to_nat (tip - cursor) < fuel)%nat →
  ∃ r, sync_notes_pages fuel t cursor block_to tags acc = Finished r.
Proof.
  intros Hp. induction fuel as [|fuel IH]; intros t cursor acc Hf; [lia|]. simpl.
  destruct (rpc_sync_notes t cursor block_to tags) as [info|e] eqn:E; [|by eexists].
  destruct (Hp _ _ _ E) as [Hc Ht]. rewrite next_cursor by lia.
  destruct (_ || _) eqn:Hd; [by eexists|]. apply orb_false_iff in Hd as [_ Hd].
  apply IH. lia.
Qed.

Definition block_of (b : NoteSyncBlock) : BlockNumber := BlockHeader_block_num (nsb_block_header b).

(** The node scans a prefix of the range it is asked for and reports every block
    with matching notes in it. *)
Definition honest_pages (block_to : option BlockNumber) (tags : gset NoteTag)
    (chain : list NoteSyncBlock) : Prop :=
  ∀ t cursor info, rpc_sync_notes t cursor block_to tags = Ok info →
    nsi_blocks info = items_in block_of cursor (nsi_block_to info) chain.

Lemma sync_notes_pages_blocks block_to tags tip chain :
  pages_progress block_to tags tip → honest_pages block_to tags chain →
  StronglySorted (λ a b, block_of a ≤ block_of b) chain →
  ∀ fuel t from cursor acc blocks,
  from ≤ cursor → acc = items_in block_of from (cursor - 1) chain →
  sync_notes_pages fuel t cursor block_to tags acc = Finished (Ok blocks) →
  ∃ last, blocks = items_in block_of from last chain ∧ cursor ≤ last.
Proof.
  intros Hp Hh Hs. induction fuel as [|fuel IH]; intros t from cursor acc blocks Hle Hacc; [done|].
  simpl. destruct (rpc_sync_notes t cursor block_to tags) as [info|e] eqn:E; [|done].
  destruct (Hp _ _ _ E) as [Hc Ht]. rewrite next_cursor by lia.
  assert (acc ++ nsi_blocks info = items_in block_of from (nsi_block_to info) chain) as Hacc'.
  { rewrite (Hh _ _ _ E), Hacc. rewrite <-(items_in_app _ from (cursor - 1) (nsi_block_to info)) by (done || lia).
    do 2 f_equal. lia. }
  rewrite Hacc'. destruct (_ || _).
  - intros [= <-]. exists (nsi_block_to info). split; [done|lia].
  - intros Hr. apply (IH _ from) in Hr as (last & -> & Hl); [|lia|f_equal; lia].
    exists last. split; [done|lia].
Qed.

Lemma sync_notes_pages_forall (P : NoteSyncBlock → Prop) block_to tags :
  (∀ t cursor info, rpc_sync_notes t cursor block_to tags = Ok info → Forall P (nsi_blocks info)) →
  ∀ fuel t cursor acc blocks, Forall P acc →
  sync_notes_pages fuel t cursor block_to tags acc = Finished (Ok blocks) → Forall P blocks.
Proof.
  intros Hp. induction fuel as [|fuel IH]; intros t cursor acc blocks Hacc; [done|]. simpl.
  destruct (rpc_sync_notes _ _ _ _) as [info|] eqn:E; [|done].
  destruct (checked_add _ _ _); [|done].
  assert (Forall P (acc ++ nsi_blocks info)) by (apply Forall_app; eauto).
  destruct (_ || _); [by intros [= <-]|]. by apply IH.
Qed.

(** *** Metadata of the synced notes *)

Definition fill_one (f : FetchedNote) (b : NoteSyncBlock) : NoteSyncBlock :=
  fill_metadata (FetchedNote_id f) (FetchedNote_metadata f) b.

Lemma resolve_blocks bs fs :
  (resolve_fetched bs fs).1 = (λ b, foldl (λ b f, fill_one f b) b fs) <$> bs.
Proof.
  unfold resolve_fetched. generalize (∅ : gmap NoteId Note). revert bs.
  induction fs as [|f fs IH]; intros bs m; simpl; [by rewrite list_fmap_id|].
  destruct f as [id md p|note p]; rewrite IH, <-list_fmap_compose; done.
Qed.

Definition has_metadata (b : NoteSyncBlock) (k : NoteId) : Prop :=
  ∀ n, nsb_notes b !! k = Some n → CommittedNote_metadata n ≠ None.

Lemma fill_one_lookup f b k :
  nsb_notes (fill_one f b) !! k = nsb_notes b !! k ∨
  k = FetchedNote_id f ∧ ∃ n, nsb_notes b !! k = Some n ∧
    nsb_notes (fill_one f b) !! k = Some (CommittedNote_set_metadata n (FetchedNote_metadata f)).
Proof.
  unfold fill_one, fill_metadata. destruct (nsb_notes b !! FetchedNote_id f) as [n|] eqn:E; [|by left].
  case_bool_decide; [|by left]. simpl. destruct (decide (k = FetchedNote_id f)) as [->|Hne].
  - right. rewrite lookup_insert_eq. eauto.
  - left. by rewrite lookup_insert_ne.
Qed.

Lemma fill_one_keeps f b k : has_metadata b k → has_metadata (fill_one f b) k.
Proof.
  intros Hm n Hn. destruct (fill_one_lookup f b k) as [E|(_ & n' & _ & E)]; rewrite E in Hn; [by apply Hm|].
  by injection Hn as <-.
Qed.

Lemma fill_one_fills f b : has_metadata (fill_one f b) (FetchedNote_id f).
Proof.
  intros n Hn. unfold fill_one, fill_metadata in Hn.
  destruct (nsb_notes b !! FetchedNote_id f) as [n'|] eqn:E; [|congruence].
  case_bool_decide as Hd; [|congruence]. simpl in Hn. rewrite lookup_insert_eq in Hn.
  by injection Hn as <-.
Qed.

Lemma fill_all_keeps fs : ∀ b k, has_metadata b k → has_metadata (foldl (λ b f, fill_one f b) b fs) k.
Proof. induction fs; simpl; eauto using fill_one_keeps. Qed.

Lemma fill_all fs : ∀ b f, f ∈ fs → has_metadata (foldl (λ b f, fill_one f b) b fs) (FetchedNote_id f).
Proof.
  induction fs as [|g fs IH]; intros b f Hf; [by apply not_elem_of_nil in Hf|]. simpl.
  apply elem_of_cons in Hf as [->|Hf]; [|eauto]. apply fill_all_keeps, fill_one_fills.
Qed.
End paging.

(** ** Correctness *)

Section headers.
Context `{NodeRpcClient}.

Lemma fill_one_header f b : nsb_block_header (fill_one f b) = nsb_block_header b.
Proof. unfold fill_one, fill_metadata. by repeat case_match. Qed.

Lemma fill_all_header fs : ∀ b,
  nsb_block_header (foldl (λ b f, fill_one f b) b fs) = nsb_block_header b.
Proof. induction fs as [|f fs IH]; intros b; simpl; [done|]. by rewrite IH, fill_one_header. Qed.

Lemma sync_notes_result fuel from to tags res :
  sync_notes_with_details fuel from to tags = Finished (Ok res) →
  ∃ blocks fetched, sync_notes_pages fuel 0 from to tags [] = Finished (Ok blocks) ∧
    snr_blocks res = (λ b, foldl (λ b f, fill_one f b) b fetched) <$> blocks ∧
    (notes_to_fetch blocks = [] ∨ rpc_get_notes_by_id (notes_to_fetch blocks) = Ok fetched).
Proof.
  unfold sync_notes_with_details.
  destruct (sync_notes_pages _ _ _ _ _ _) as [[blocks|]| |]; try done.
  intros [= Hr]. case_bool_decide as Hn.
  - injection Hr as <-. exists blocks, []. simpl. rewrite list_fmap_id. auto.
  - apply bind_Ok in Hr as (fetched & Hf & Hr). exists blocks, fetched.
    pose proof (resolve_blocks blocks fetched) as Hb.
    destruct (resolve_fetched blocks fetched). injection Hr as <-. simpl in *. auto.
Qed.
End headers.

(** The page loop ends.  When every page makes progress and the chain stays
    below [tip], at most [tip - block_from + 1] pages are requested and the call
    returns (notes or an error of the node), without overflowing the cursor. *)
Theorem sync_notes_terminates `{NodeRpcClient} block_from block_to tags tip fuel :
  pages_progress block_to tags tip → (Z.to_nat (tip - block_from) < fuel)%nat →
  ∃ r, sync_notes_with_details fuel block_from block_to tags = Finished r.
Proof.
  intros Hp Hf. unfold sync_notes_with_details.
  destruct (sync_notes_pages_ends _ _ _ Hp fuel 0 block_from [] Hf) as [[blocks|e] ->]; eauto.
Qed.

(** The pages leave no gap.  With a node that reports the matching blocks of
    the ranges it scanned, the blocks returned are all the matching blocks from
    [block_from] to some last scanned block, in order and without repetition. *)
Theorem sync_notes_gapless `{NodeRpcClient} fuel block_from block_to tags tip chain res :
  pages_progress block_to tags tip → honest_pages block_to tags chain →
  StronglySorted (λ a b, block_of a ≤ block_of b) chain →
  sync_notes_with_details fuel block_from block_to tags = Finished (Ok res) →
  ∃ last, block_from ≤ last ∧
    nsb_block_header <$> snr_blocks res =
      nsb_block_header <$> items_in block_of block_from last chain.
Proof.
  intros Hp Hh Hs (blocks & fetched & Hb & Hres & _)%sync_notes_result.
  apply (sync_notes_pages_blocks _ _ _ _ Hp Hh Hs fuel 0 block_from) in Hb as (last & -> & Hl);
    [|done|by rewrite items_in_empty by lia].
  exists last. split; [done|]. rewrite Hres, <-list_fmap_compose. apply list_fmap_ext.
  intros i b _. apply fill_all_header.
Qed.

(** Every note returned has its full metadata, provided that the node
    answers for the notes it is asked about: a note whose page held only a
    header is completed from the fetched note. *)
Theorem synced_notes_have_metadata `{NodeRpcClient} fuel block_from block_to tags res :
  (∀ ids fetched, rpc_get_notes_by_id ids = Ok fetched →
    ∀ id, id ∈ ids → id ∈ FetchedNote_id <$> fetched) →
  (∀ t cursor info, rpc_sync_notes t cursor block_to tags = Ok info →
    ∀ b k n, b ∈ nsi_blocks info → nsb_notes b !! k = Some n → cn_note_id n = k) →
  sync_notes_with_details fuel block_from block_to tags = Finished (Ok res) →
  ∀ b k n, b ∈ snr_blocks res → nsb_notes b !! k = Some n → is_Some (CommittedNote_metadata n).
Proof.
  intros Hfetch Hkeys (blocks & fetched & Hb & Hres & Hids)%sync_notes_result b k n Hin Hn.
  apply (sync_notes_pages_forall (λ b, ∀ k n, nsb_notes b !! k = Some n → cn_note_id n = k)) in Hb;
    [|intros t c info Hi; apply Forall_forall; eauto|by apply Forall_nil_2].
  rewrite Hres in Hin. apply list_elem_of_fmap in Hin as (b0 & -> & Hb0).
  rewrite Forall_forall in Hb. specialize (Hb _ Hb0).
  apply not_eq_None_Some. enough (has_metadata (foldl (λ b f, fill_one f b) b0 fetched) k) by eauto.
  destruct (nsb_notes b0 !! k) as [n0|] eqn:E0;
    [|apply fill_all_keeps; intros n1 Hn1; congruence].
  destruct (CommittedNote_metadata n0) as [m|] eqn:Em;
    [apply fill_all_keeps; intros n1 Hn1; congruence|].
  assert (k ∈ notes_to_fetch blocks) as Hk.
  { unfold notes_to_fetch. apply list_elem_of_fmap. exists n0. split; [by rewrite (Hb _ _ E0)|].
    apply list_elem_of_filter. split; [unfold needs_fetch; by rewrite Em|].
    apply elem_of_concat. exists (btree_values (nsb_notes b0)).
    split; [apply elem_of_btree_values; eauto|]. apply list_elem_of_fmap. eauto. }
  destruct Hids as [Hids|Hids]; [rewrite Hids in Hk; by apply not_elem_of_nil in Hk|].
  specialize (Hfetch _ _ Hids _ Hk). apply list_elem_of_fmap in Hfetch as (f & -> & Hf).
  by apply fill_all.
Qed.

(** [get_nullifier_commit_heights] answers for exactly the requested
    nullifiers: the block of the first retrieved update of a nullifier, or
    [None] when none was retrieved. *)
Theorem commit_heights_spec `{NodeRpcClient} requested block_from heights retrieved :
  rpc_sync_nullifiers (Nullifier_prefix <$> bset_elements requested) block_from None =
    Ok retrieved →
  get_nullifier_commit_heights requested block_from = Ok heights →
  ∀ n, heights !! n =
    if decide (n ∈ requested)
    then Some (nu_block_num <$> head (filter (λ u, nu_nullifier u = n) retrieved))
    else None.
Proof.
  unfold get_nullifier_commit_heights. intros -> Hh n. simpl in Hh. injection Hh as <-.
  assert (∀ (f : Nullifier → option BlockNumber) l (m : gmap Nullifier (option BlockNumber)),
    foldl (λ m k, <[k := f k]> m) m l !! n =
      if decide (n ∈ l) then Some (f n) else m !! n) as Hl.
  { intros f. induction l as [|k l IH]; intros m; [done|]. simpl. rewrite IH.
    destruct (decide (n ∈ l)) as [Hn|Hn]; [rewrite decide_True by (by right); done|].
    rewrite lookup_insert. destruct (decide (k = n)) as [->|Hne].
    - by rewrite decide_True by left.
    - rewrite decide_False; [done|]. intros [->|?]%elem_of_cons; done. }
  rewrite Hl, lookup_empty. apply decide_ext. unfold bset_elements.
  rewrite merge_sort_Permutation. apply elem_of_elements.
Qed.

(** ** A concrete chain *)

#[export] Instance toy_mmr : MmrLib := {|
  MerklePath := Z;
  MmrProof := Z;
  MmrDelta := Z * list (Z * Z);
  MmrPeaks := Z;
  InOrderIndex := Z;
  PartialMmr := Z * list (Z * Z);
  MmrDelta_empty := λ n, (n, []);
  MmrDelta_forest := fst;
  mmr_num_leaves := fst;
  mmr_apply := λ m d, ((d.1, m.2 ++ d.2), Ok d.2);
  mmr_add := λ m w b, ((m.1 + 1, m.2), []);
  mmr_peaks := fst;
  mmr_is_tracked := λ m i, bool_decide (i ∈ m.2.*1);
  mmr_track := λ m i w p, ((m.1, m.2 ++ [(i, w)]), Ok ());
  mmr_nodes := snd
|}.

#[export] Instance toy_mmr_laws : MmrLaws.
Proof. split; [|done..]. intros m d m' nodes Hm. by injection Hm as <- <-. Qed.

(** A node whose chain has the given note blocks; a page scans at most [size]
    blocks, and never past the tip. *)
Definition toy_node (tip size : Z) (chain : list NoteSyncBlock) : NodeRpcClient := {|
  rpc_get_block_header_by_number := λ _ _, Ok ((tip, 0) : @BlockHeader toy_protocol, None);
  rpc_get_notes_by_id := λ ids,
    Ok ((λ id, FetchedNote_Private id (Note_metadata toy_note) toy_inclusion) <$> ids);
  rpc_sync_chain_mmr := λ from to,
    Ok {| cmi_block_from := from; cmi_block_to := default tip to;
          cmi_mmr_delta := MmrDelta_empty (default tip to) |};
  rpc_get_account_details := λ id, Err (Rpc_InvalidResponse "no account");
  rpc_sync_notes := λ _ cursor _ _,
    let last := Z.min tip (cursor + size - 1) in
    if cursor <=? tip then
      Ok {| nsi_chain_tip := tip; nsi_block_to := last;
            nsi_blocks := filter (λ b, cursor ≤ block_of b ≤ last) chain |}
    else Err (Rpc_InvalidResponse "block_from is past the tip");
  rpc_sync_nullifiers := λ _ from to,
    Ok (filter (λ x, from ≤ nu_block_num x ≤ default tip to)
      [{| nu_nullifier := toy_nullifier 3 5; nu_block_num := 5 |}]);
  rpc_sync_transactions := λ from to _,
    Ok {| ti_chain_tip := tip; ti_block_num := tip; ti_transaction_records := [] |}
|}.

Definition toy_block (n : Z) : NoteSyncBlock :=
  {| nsb_block_header := (n, 200) : @BlockHeader toy_protocol; nsb_mmr_path := 0;
     nsb_notes := {[ toy_noteid 3 5 := toy_committed_note ]} |}.

(** The page loop stops one block too early.  It compares the next block to
    request with the chain tip, so when a page ends just below the tip, the tip
    itself is not requested: with pages of two blocks and matching notes in
    blocks [4] and [5], a sync from block [3] to the tip [5] returns block [4]
    only. *)
Theorem sync_notes_can_miss_the_tip :
  let node := toy_node 5 2 [toy_block 4; toy_block 5] in
  honest_pages (Some 5) ∅ [toy_block 4; toy_block 5] ∧
  match sync_notes_with_details 10 3 (Some 5) (∅ : gset NoteTag) with
  | Finished (Ok res) => block_of <$> snr_blocks res = [4]
  | _ => False
  end.
Proof.
  intros node. split; [|reflexivity].
  intros t cursor info. simpl. case_match; [|done]. intros Hi. injection Hi as <-. reflexivity.
Qed.

(** ** Witnesses *)

Definition toy_chain : list NoteSyncBlock := [toy_block 4; toy_block 6].

Lemma toy_node_progress : @pages_progress _ _ (toy_node 6 2 toy_chain) (Some 6) ∅ 6.
Proof.
  intros t cursor info. simpl. case_match eqn:E; [|done]. intros Hi. injection Hi as <-. simpl.
  unfold U32_MAX. lia.
Qed.

Lemma toy_node_honest : @honest_pages _ _ (toy_node 6 2 toy_chain) (Some 6) ∅ toy_chain.
Proof.
  intros t cursor info. simpl. case_match; [|done]. intros Hi. injection Hi as <-. reflexivity.
Qed.

Lemma sync_notes_terminates_witness :
  ∃ r, @sync_notes_with_details _ _ (toy_node 6 2 toy_chain) 4 3 (Some 6) ∅ = Finished r.
Proof.
  apply (@sync_notes_terminates _ _ (toy_node 6 2 toy_chain) 3 (Some 6) ∅ 6 4 toy_node_progress).
  simpl. lia.
Defined.

Lemma sync_notes_gapless_witness :
  ∃ res last,
    @sync_notes_with_details _ _ (toy_node 6 2 toy_chain) 4 3 (Some 6) ∅ = Finished (Ok res) ∧
    3 ≤ last ∧
    nsb_block_header <$> snr_blocks res = nsb_block_header <$> items_in block_of 3 last toy_chain.
Proof.
  destruct (@sync_notes_with_details _ _ (toy_node 6 2 toy_chain) 4 3 (Some 6) ∅)
    as [[res|]| |] eqn:E; [|discriminate E..].
  destruct (@sync_notes_gapless _ _ (toy_node 6 2 toy_chain) 4 3 (Some 6) ∅ 6 toy_chain res
    toy_node_progress toy_node_honest) as (last & Hl & Hb).
  - repeat constructor; unfold toy_chain; simpl; discriminate.
  - exact E.
  - exists res, last. auto.
Defined.

Lemma synced_notes_have_metadata_witness :
  ∃ res, @sync_notes_with_details _ _ (toy_node 6 2 toy_chain) 4 3 (Some 6) ∅ = Finished (Ok res) ∧
  ∀ b k n, b ∈ snr_blocks res → nsb_notes b !! k = Some n → is_Some (CommittedNote_metadata n).
Proof.
  destruct (@sync_notes_with_details _ _ (toy_node 6 2 toy_chain) 4 3 (Some 6) ∅)
    as [[res|]| |] eqn:E; [|discriminate E..].
  exists res. split; [reflexivity|].
  refine (@synced_notes_have_metadata _ _ (toy_node 6 2 toy_chain) 4 3 (Some 6) ∅ res _ _ E).
  - intros ids fetched Hf id Hid. simpl in Hf. injection Hf as <-.
    rewrite <-list_fmap_compose. change (id ∈ (λ i, i) <$> ids). by rewrite list_fmap_id.
  - intros t cursor info. simpl. case_match; [|done]. intros Hi. injection Hi as <-. simpl.
    intros b k n Hb. apply list_elem_of_filter in Hb as [_ Hb].
    unfold toy_chain in Hb. decompose_list_elem_of; subst b; simpl;
      intros [<- <-]%lookup_singleton_Some; reflexivity.
Defined.

Lemma commit_heights_spec_witness :
  ∃ heights, @get_nullifier_commit_heights _ _ (toy_node 6 2 toy_chain)
      {[ toy_nullifier 3 5 ]} 2 = Ok heights ∧
    heights !! toy_nullifier 3 5 = Some (Some 5) ∧ heights !! toy_nullifier 1 1 = None.
Proof.
  eexists. split; [reflexivity|].
  pose proof (@commit_heights_spec _ _ (toy_node 6 2 toy_chain) {[ toy_nullifier 3 5 ]} 2 _ _
    eq_refl eq_refl) as Hh.
  split; [rewrite (Hh (toy_nullifier 3 5))|rewrite (Hh (toy_nullifier 1 1))]; reflexivity.
Defined.
