(* ===== verification/Grpc.v ===== *)
(** * The gRPC client

    [rpc/tonic_client/mod.rs], [rpc/tonic_client/retry.rs] and
    [rpc/domain/limits.rs]: retries of failed calls, the two ways in which answers
    are paged, the splitting of requests that exceed the node's limits, and the
    limits themselves.  The transport is a parameter: the answers of the node to
    the successive calls. *)

From S2P Require Import Prelude Protocol Serde Model NoteStates InputNote OutputNote TxRecord.
From S2P Require Import NodeErrors Errors NoteTracker TxOrdering Rpc.
From Stdlib Require Import ZArith Lia.
From stdpp Require Import base gmap list strings sorting.

Open Scope Z_scope.

(** ** Retries *)

(** A gRPC status: its code, its message, its details and its [retry-after] metadata. *)
Record Status := {
  st_code : Z;
  st_message : string;
  st_details : list u8;
  st_retry_after : option string
}.

Definition is_retryable (status : Status) : bool :=
  match st_code status with
  | 8 | 14 => true
  | _ => false
  end.

(** In milliseconds; the header is in seconds. *)
Definition extract_retry_after (status : Status) : option Z :=
  v ← st_retry_after status;
  s ← parse_unsigned U64_MAX v;
  Some (s * 1000).

Definition retry_delay (status : Status) (fallback_ms : u64) : Z :=
  match extract_retry_after status with
  | Some delay => if delay =? 0 then fallback_ms else delay
  | None => fallback_ms
  end.

Record RetryState := {
  attempt : u32;
  max_retries : u32;
  retry_interval_ms : u64
}.

Definition RetryState_new (max_retries : u32) (retry_interval_ms : u64) : RetryState :=
  {| attempt := 0; max_retries := max_retries; retry_interval_ms := retry_interval_ms |}.

Definition DEFAULT_MAX_RETRIES : u32 := 4.
Definition DEFAULT_RETRY_INTERVAL_MS : u64 := 100.

(** [None] is [false]; [Some] is [true] after sleeping for the given time. *)
Definition should_retry (self : RetryState) (status : Status) : option (Z * RetryState) :=
  if (max_retries self <=? attempt self) || negb (is_retryable status) then None
  else Some (retry_delay status (retry_interval_ms self),
    {| attempt := attempt self + 1; max_retries := max_retries self;
       retry_interval_ms := retry_interval_ms self |}).

(** The error of a status; its source, the status itself, is left out. *)
Definition from_grpc_error_with_context `{Protocol} (endpoint : RpcEndpoint) (status : Status)
    (context : AcceptHeaderContext) : RpcError :=
  match try_from_message_with_context (st_message status) context with
  | Some accept_error => Rpc_AcceptHeaderError accept_error
  | None =>
      Rpc_RequestError endpoint (GrpcError_from_code (st_code status) (Some (st_message status)))
        (parse_node_error endpoint (st_details status) (st_message status))
  end.

(** The version of the client is set when it is built; [to_hex] prints a word. *)
Definition rpc_error_from_status `{Protocol} (version : string) (to_hex : Word → string)
    (genesis_commitment : option Word) (endpoint : RpcEndpoint) (status : Status) : RpcError :=
  let genesis_commitment :=
    match genesis_commitment with Some w => to_hex w | None => "none" end in
  from_grpc_error_with_context endpoint status
    {| client_version := version; ahc_genesis_commitment := genesis_commitment |}.

Section retry.
Context `{Protocol} {T : Type}.
(** The connection and the call at each attempt, and the error of a status. *)
Variables (connect : nat → result RpcError unit) (call : nat → result Status T)
  (error_of_status : Status → RpcError).

(** The loop of [call_with_retry], with the times it slept. *)
Fixpoint retry_loop (fuel : nat) (retry_state : RetryState) (t : nat) (slept : list Z) :
    loop_result (result RpcError T * list Z) :=
  match fuel with
  | O => OutOfFuel
  | S fuel =>
      match connect t with
      | Err e => Finished (Err e, slept)
      | Ok _ =>
          match call t with
          | Ok response => Finished (Ok response, slept)
          | Err status =>
              match should_retry retry_state status with
              | Some (delay, retry_state) => retry_loop fuel retry_state (S t) (slept ++ [delay])
              | None => Finished (Err (error_of_status status), slept)
              end
          end
      end
  end.

Definition call_with_retry (max_retries : u32) (retry_interval_ms : u64) :
    loop_result (result RpcError T * list Z) :=
  retry_loop (S (Z.to_nat max_retries)) (RetryState_new max_retries retry_interval_ms) 0 [].
End retry.

(** ** Paging by blocks *)

Record BlockPagination := {
  current_block_from : BlockNumber;
  bp_block_to : option BlockNumber;
  iterations : u32
}.

Inductive PaginationResult :=
| Continue
| Done (chain_tip block_num : BlockNumber).

Definition MAX_ITERATIONS : u32 := 1000.

Definition BlockPagination_new (block_from : BlockNumber) (block_to : option BlockNumber) :
    BlockPagination :=
  {| current_block_from := block_from; bp_block_to := block_to; iterations := 0 |}.

Definition target_block (block_to : option BlockNumber) (chain_tip : BlockNumber) : BlockNumber :=
  match block_to with Some to => Z.min to chain_tip | None => chain_tip end.

Definition too_many_iterations `{Protocol} : RpcError :=
  Rpc_PaginationError "too many pagination iterations, possible infinite loop".
Definition went_backwards `{Protocol} : RpcError :=
  Rpc_PaginationError "invalid pagination: block_num went backwards".

Definition advance `{Protocol} (self : BlockPagination) (block_num chain_tip : BlockNumber) :
    BlockPagination * result RpcError PaginationResult :=
  if MAX_ITERATIONS <=? iterations self then (self, Err too_many_iterations)
  else
    let self := {| current_block_from := current_block_from self;
                   bp_block_to := bp_block_to self; iterations := iterations self + 1 |} in
    if block_num <? current_block_from self then (self, Err went_backwards)
    else if target_block (bp_block_to self) chain_tip <=? block_num then
      (self, Ok (Done chain_tip block_num))
    else
      ({| current_block_from := saturating_add U32_MAX block_num 1;
          bp_block_to := bp_block_to self; iterations := iterations self |}, Ok Continue).

(** A page: where it stopped and the tip of the chain, and its converted items. *)
Record PageResponse (E A : Type) := {
  pr_page : option (BlockNumber * BlockNumber);
  pr_items : result E (list A)
}.
Arguments pr_page {E A} p.
Arguments pr_items {E A} p.

Section pages.
Context `{Protocol} {A : Type}.
(** The answer to the [t]-th request for the blocks from a given one. *)
Variable request :
  nat → BlockNumber → option BlockNumber → result RpcError (PageResponse RpcError A).

(** The loop shared by [sync_storage_maps] and [sync_account_vault]. *)
Fixpoint sync_block_pages (fuel t : nat) (pagination : BlockPagination) (updates : list A) :
    loop_result (result RpcError (BlockNumber * BlockNumber * list A)) :=
  match fuel with
  | O => OutOfFuel
  | S fuel =>
      match request t (current_block_from pagination) (bp_block_to pagination) with
      | Err e => Finished (Err e)
      | Ok response =>
          match pr_page response, pr_items response with
          | None, _ => Finished (Err (Rpc_ExpectedDataMissing "pagination_info"))
          | Some _, Err e => Finished (Err e)
          | Some (page_block_num, page_chain_tip), Ok batch =>
              match advance pagination page_block_num page_chain_tip with
              | (_, Err e) => Finished (Err e)
              | (pagination, Ok Continue) =>
                  sync_block_pages fuel (S t) pagination (updates ++ batch)
              | (_, Ok (Done chain_tip block_num)) =>
                  Finished (Ok (chain_tip, block_num, updates ++ batch))
              end
          end
      end
  end.
End pages.

Record StorageMapInfo (StorageMapUpdate : Type) := {
  smi_chain_tip : BlockNumber;
  smi_block_number : BlockNumber;
  smi_updates : list StorageMapUpdate
}.
Arguments smi_chain_tip {_} s.
Arguments smi_block_number {_} s.
Arguments smi_updates {_} s.

Record AccountVaultInfo (AccountVaultUpdate : Type) := {
  avi_chain_tip : BlockNumber;
  avi_block_number : BlockNumber;
  avi_updates : list AccountVaultUpdate
}.
Arguments avi_chain_tip {_} a.
Arguments avi_block_number {_} a.
Arguments avi_updates {_} a.

(** The fuel is [MAX_ITERATIONS] pages and the one that is refused. *)
Definition page_fuel : nat := S (Z.to_nat MAX_ITERATIONS).

Definition sync_storage_maps `{Protocol} {A}
    (request : nat → BlockNumber → option BlockNumber → result RpcError (PageResponse RpcError A))
    (block_from : BlockNumber) (block_to : option BlockNumber) :
    loop_result (result RpcError (StorageMapInfo A)) :=
  match sync_block_pages request page_fuel 0 (BlockPagination_new block_from block_to) [] with
  | Finished (Ok (chain_tip, block_number, updates)) =>
      Finished (Ok {| smi_chain_tip := chain_tip; smi_block_number := block_number;
                      smi_updates := updates |})
  | Finished (Err e) => Finished (Err e)
  | Panicked => Panicked
  | OutOfFuel => OutOfFuel
  end.

Definition sync_account_vault `{Protocol} {A}
    (request : nat → BlockNumber → option BlockNumber → result RpcError (PageResponse RpcError A))
    (block_from : BlockNumber) (block_to : option BlockNumber) :
    loop_result (result RpcError (AccountVaultInfo A)) :=
  match sync_block_pages request page_fuel 0 (BlockPagination_new block_from block_to) [] with
  | Finished (Ok (chain_tip, block_number, updates)) =>
      Finished (Ok {| avi_chain_tip := chain_tip; avi_block_number := block_number;
                      avi_updates := updates |})
  | Finished (Err e) => Finished (Err e)
  | Panicked => Panicked
  | OutOfFuel => OutOfFuel
  end.

(** ** Limits *)

Record RpcLimits := {
  note_ids_limit : u32;
  nullifiers_limit : u32;
  account_ids_limit : u32;
  note_tags_limit : u32
}.

Definition RpcLimits_default : RpcLimits :=
  {| note_ids_limit := 100; nullifiers_limit := 1000; account_ids_limit := 1000;
     note_tags_limit := 1000 |}.

Definition RpcLimits_codec `{SerdeLib} : codec RpcLimits := Codec
  (λ l, write_into u32_codec (note_ids_limit l) ++ write_into u32_codec (nullifiers_limit l) ++
        write_into u32_codec (account_ids_limit l) ++ write_into u32_codec (note_tags_limit l))
  (a <~ read_from u32_codec ;; b <~ read_from u32_codec ;;
   c <~ read_from u32_codec ;; d <~ read_from u32_codec ;;
   rret {| note_ids_limit := a; nullifiers_limit := b; account_ids_limit := c;
           note_tags_limit := d |}).

(** The node's message: parameter limits by endpoint name.  The error of a missing
    entry names the parameter. *)
Definition proto_limits : Type := gmap string (gmap string u32).

Definition get_param (proto : proto_limits) (endpoint : RpcEndpoint) (param : string) :
    result string u32 :=
  ep ← ok_or (proto !! proto_name endpoint) param;
  ok_or (ep !! param) param.

Definition RpcLimits_try_from (proto : proto_limits) : result string RpcLimits :=
  note_ids ← get_param proto GetNotesById "note_id";
  nullifiers ← match get_param proto CheckNullifiers "nullifier" with
               | Ok l => Ok l
               | Err _ => get_param proto SyncNullifiers "nullifier"
               end;
  account_ids ← get_param proto SyncTransactions "account_id";
  note_tags ← get_param proto SyncNotes "note_tag";
  Ok {| note_ids_limit := note_ids; nullifiers_limit := nullifiers;
        account_ids_limit := account_ids; note_tags_limit := note_tags |}.

(** [get_rpc_limits]: the cached limits, or those of the node, which are cached;
    [fetch] is the node's answer with a conversion error as an RPC error. *)
Definition get_rpc_limits `{Protocol} (cached : option RpcLimits)
    (fetch : result RpcError RpcLimits) : option RpcLimits * result RpcError RpcLimits :=
  match cached with
  | Some limits => (cached, Ok limits)
  | None =>
      match fetch with
      | Ok limits => (Some limits, Ok limits)
      | Err e => (None, Err e)
      end
  end.

(** ** Requests in chunks *)

Fixpoint chunk_list {A} (fuel size : nat) (l : list A) : list (list A) :=
  match fuel, l with
  | O, _ | _, [] => []
  | S fuel, _ => take size l :: chunk_list fuel size (drop size l)
  end.

(** [slice::chunks], which panics when the size is zero. *)
Definition chunks {A} (size : Z) (l : list A) : option (list (list A)) :=
  if size =? 0 then None else Some (chunk_list (length l) (Z.to_nat size) l).

(** The loop over the chunks of [get_notes_by_id] and [check_nullifiers]. *)
Definition chunked_requests `{Protocol} {A B} (limit : u32)
    (request : list A → result RpcError (list B)) (l : list A) :
    loop_result (result RpcError (list B)) :=
  match chunks limit l with
  | None => Panicked
  | Some cs => Finished (try_fold (λ acc chunk, batch ← request chunk; Ok (acc ++ batch)) cs [])
  end.

Definition grpc_get_notes_by_id `{Protocol} (limits : RpcLimits)
    (request : list NoteId → result RpcError (list FetchedNote)) (note_ids : list NoteId) :
    loop_result (result RpcError (list FetchedNote)) :=
  chunked_requests (note_ids_limit limits) request note_ids.

Definition grpc_check_nullifiers `{Protocol} {SmtProof} (limits : RpcLimits)
    (request : list Nullifier → result RpcError (list SmtProof)) (nullifiers : list Nullifier) :
    loop_result (result RpcError (list SmtProof)) :=
  chunked_requests (nullifiers_limit limits) request nullifiers.

Section nullifiers.
Context `{Protocol}.

(** A page of nullifiers; the items carry the message of a failed conversion. *)
Abbreviation NullifiersResponse := (PageResponse string NullifierUpdate).
(** The answer to the [t]-th request: prefixes, first and last block. *)
Variable request :
  nat → list u16 → BlockNumber → option BlockNumber → result RpcError NullifiersResponse.

(** [BTreeSet<NullifierUpdate>], ordered by nullifier and then by block. *)
Definition updates_set : Type := gset (Nullifier * BlockNumber).
Definition update_key (u : NullifierUpdate) : Nullifier * BlockNumber :=
  (nu_nullifier u, nu_block_num u).
Definition key_update (k : Nullifier * BlockNumber) : NullifierUpdate :=
  {| nu_nullifier := k.1; nu_block_num := k.2 |}.

(** The inner loop: at most [iters] pages for one chunk of prefixes. *)
Fixpoint nullifier_pages (iters t : nat) (chunk : list u16) (current_block_from : BlockNumber)
    (block_to : option BlockNumber) (all_nullifiers : updates_set) :
    loop_result (result RpcError (updates_set * nat)) :=
  match iters with
  | O => Finished (Err too_many_iterations)
  | S iters =>
      match request t chunk current_block_from block_to with
      | Err e => Finished (Err e)
      | Ok response =>
          match pr_items response with
          | Err err => Finished (Err (Rpc_InvalidResponse err))
          | Ok batch =>
              let all_nullifiers := all_nullifiers ∪ list_to_set (update_key <$> batch) in
              match pr_page response with
              | None => nullifier_pages iters (S t) chunk current_block_from block_to all_nullifiers
              | Some (page_block_num, page_chain_tip) =>
                  if page_block_num <? current_block_from then Finished (Err went_backwards)
                  else if target_block block_to page_chain_tip <=? page_block_num then
                    Finished (Ok (all_nullifiers, S t))
                  else
                    match checked_add U32_MAX page_block_num 1 with
                    | None => Panicked
                    | Some next =>
                        nullifier_pages iters (S t) chunk next block_to all_nullifiers
                    end
              end
          end
      end
  end.

(** The loop over the chunks: [continue 'chunk_nullifiers] goes to the next one. *)
Definition nullifier_chunks (cs : list (list u16)) (block_num : BlockNumber)
    (block_to : option BlockNumber) : loop_result (result RpcError (updates_set * nat)) :=
  foldl (λ acc chunk,
      match acc with
      | Finished (Ok (all_nullifiers, t)) =>
          nullifier_pages (Z.to_nat MAX_ITERATIONS) t chunk block_num block_to all_nullifiers
      | _ => acc
      end)
    (Finished (Ok (∅, 0%nat))) cs.

Definition sync_nullifiers (limits : RpcLimits) (prefixes : list u16) (block_num : BlockNumber)
    (block_to : option BlockNumber) : loop_result (result RpcError (list NullifierUpdate)) :=
  match chunks (nullifiers_limit limits) prefixes with
  | None => Panicked
  | Some cs =>
      match nullifier_chunks cs block_num block_to with
      | Finished (Ok (all_nullifiers, _)) => Finished (Ok (key_update <$> bset_elements all_nullifiers))
      | Finished (Err e) => Finished (Err e)
      | Panicked => Panicked
      | OutOfFuel => OutOfFuel
      end
  end.
End nullifiers.

(** ** Lemmas *)

Lemma chunk_list_concat {A} (size : nat) : ∀ fuel (l : list A),
  (0 < size)%nat → (length l ≤ fuel)%nat → concat (chunk_list fuel size l) = l.
Proof.
  induction fuel as [|fuel IH]; intros l Hs Hl; [by destruct l; simpl in *; [|lia]|].
  destruct l as [|x l]; [done|]. cbn [chunk_list concat]. rewrite IH.
  - apply take_drop.
  - done.
  - rewrite length_drop. simpl in *. lia.
Qed.

Lemma chunks_concat {A} size (l : list A) cs : 0 ≤ size → chunks size l = Some cs → concat cs = l.
Proof.
  unfold chunks. intros Hs. destruct (Z.eqb_spec size 0); [done|]. intros [= <-].
  apply chunk_list_concat; lia.
Qed.

(** Splitting a list of identifiers does not change the answer of a node that
    answers for each of them. *)
Lemma chunked_requests_transparent `{Protocol} {A B} limit (answer : A → list B) request l :
  0 < limit → (∀ l, request l = Ok (concat (answer <$> l))) →
  chunked_requests limit request l = Finished (request l).
Proof.
  intros Hl Hr. unfold chunked_requests.
  destruct (chunks limit l) as [cs|] eqn:Ec; [|unfold chunks in Ec; case_match; [lia|done]].
  apply chunks_concat in Ec as <-; [|lia]. f_equal. rewrite Hr.
  assert (∀ acc, try_fold (λ acc chunk, batch ← request chunk; Ok (acc ++ batch)) cs acc =
    Ok (acc ++ concat (answer <$> concat cs))) as Hf; [|apply Hf].
  induction cs as [|c cs IH]; intros acc; simpl; [by rewrite app_nil_r|].
  rewrite Hr. simpl. rewrite IH, fmap_app, concat_app. by rewrite app_assoc.
Qed.

Section retry_lemmas.
Context `{Protocol} {T : Type}.
Variables (connect : nat → result RpcError unit) (call : nat → result Status T)
  (err : Status → RpcError).

(** How a call with retries ends after [n] more attempts, the first at [t]. *)
Record retried (budget interval : Z) (t n : nat) (slept slept' : list Z)
    (r : result RpcError T) : Prop := {
  retried_budget : Z.of_nat n ≤ budget;
  retried_before : ∃ statuses, length statuses = n ∧
    slept' = slept ++ ((λ st, retry_delay st interval) <$> statuses) ∧
    ∀ i st, statuses !! i = Some st →
      connect (t + i) = Ok () ∧ call (t + i) = Err st ∧ is_retryable st = true;
  retried_last :
    match connect (t + n) with
    | Err e => r = Err e
    | Ok _ =>
        match call (t + n) with
        | Ok response => r = Ok response
        | Err st => r = Err (err st) ∧ (Z.of_nat n = budget ∨ is_retryable st = false)
        end
    end
}.

Lemma retried_now budget interval t slept r : 0 ≤ budget →
  match connect t with
  | Err e => r = Err e
  | Ok _ =>
      match call t with
      | Ok response => r = Ok response
      | Err st => r = Err (err st) ∧ (0 = budget ∨ is_retryable st = false)
      end
  end → retried budget interval t 0 slept slept r.
Proof.
  intros Hb Hr. split; [done| |by rewrite Nat.add_0_r].
  exists []. simpl. by rewrite app_nil_r.
Qed.

Lemma retried_later budget interval t n st slept slept' r :
  connect t = Ok () → call t = Err st → is_retryable st = true →
  retried (budget - 1) interval (S t) n (slept ++ [retry_delay st interval]) slept' r →
  retried budget interval t (S n) slept slept' r.
Proof.
  intros Hc Hcall Hr [Hb (sts & Hlen & Hsl & Hsts) Hlast]. split.
  - lia.
  - exists (st :: sts). split_and!; [simpl; lia|by rewrite Hsl, <-app_assoc|].
    intros [|i] st' Hi; [injection Hi as <-; by rewrite Nat.add_0_r|].
    replace (t + S i)%nat with (S t + i)%nat by lia. by apply Hsts.
  - replace (t + S n)%nat with (S t + n)%nat by lia.
    destruct (connect (S t + n)); [|done]. destruct (call (S t + n)); [done|].
    destruct Hlast as [-> Hl]. split; [done|]. destruct Hl; [left; lia|by right].
Qed.

Lemma retry_loop_spec fuel : ∀ rs t slept,
  0 ≤ attempt rs ≤ max_retries rs → (Z.to_nat (max_retries rs - attempt rs) < fuel)%nat →
  ∃ n r slept', retry_loop connect call err fuel rs t slept = Finished (r, slept') ∧
    retried (max_retries rs - attempt rs) (retry_interval_ms rs) t n slept slept' r.
Proof.
  induction fuel as [|fuel IH]; intros rs t slept Ha Hf; [lia|]. simpl.
  destruct (connect t) as [[]|e] eqn:Ec;
    [|eexists 0%nat, _, _; split; [done|]; apply retried_now; [lia|by rewrite Ec]].
  destruct (call t) as [x|st] eqn:Et;
    [eexists 0%nat, _, _; split; [done|]; apply retried_now; [lia|by rewrite Ec, Et]|].
  unfold should_retry. destruct (Z.leb_spec (max_retries rs) (attempt rs)) as [Hle|Hlt]; simpl.
  { eexists 0%nat, _, _; split; [done|]. apply retried_now; [lia|]. rewrite Ec, Et.
    split; [done|]. left. lia. }
  destruct (is_retryable st) eqn:Er; simpl.
  - destruct (IH {| attempt := attempt rs + 1; max_retries := max_retries rs;
      retry_interval_ms := retry_interval_ms rs |} (S t)
      (slept ++ [retry_delay st (retry_interval_ms rs)])) as (n & r & slept' & Heq & Hr);
      simpl; [lia..|].
    exists (S n), r, slept'. split; [done|]. eapply retried_later; [done..|]. simpl in Hr.
    by replace (max_retries rs - attempt rs - 1) with (max_retries rs - (attempt rs + 1)) by lia.
  - eexists 0%nat, _, _; split; [done|]. apply retried_now; [lia|]. rewrite Ec, Et. auto.
Qed.
End retry_lemmas.

(** ** Correctness *)

(** A call is retried at most [max_retries] times and then ends.  The result is
    that of attempt [n]: a response, a failed connection, or an error that is not
    transient or exhausts the budget; all attempts before it failed with a
    transient status, and after each of them the client slept for the time the
    node asked for, or for the configured interval. *)
Theorem call_with_retry_spec `{Protocol} {T} connect (call : nat → result Status T) err
    max_retries retry_interval_ms :
  0 ≤ max_retries →
  ∃ n r slept,
    call_with_retry connect call err max_retries retry_interval_ms = Finished (r, slept) ∧
    retried connect call err max_retries retry_interval_ms 0 n [] slept r.
Proof.
  intros Hm. unfold call_with_retry.
  destruct (retry_loop_spec connect call err (S (Z.to_nat max_retries))
    (RetryState_new max_retries retry_interval_ms) 0 []) as (n & r & slept & Heq & Hr);
    simpl; [lia..|].
  exists n, r, slept. split; [done|]. simpl in Hr. by rewrite Z.sub_0_r in Hr.
Qed.

Section page_lemmas.
Context `{Protocol} {A : Type}.
Variable request :
  nat → BlockNumber → option BlockNumber → result RpcError (PageResponse RpcError A).
#[local] Arguments MAX_ITERATIONS : simpl never.

Lemma advance_continue p bn tip p' :
  advance p bn tip = (p', Ok Continue) →
  iterations p < MAX_ITERATIONS ∧ iterations p' = iterations p + 1 ∧
  bp_block_to p' = bp_block_to p ∧ current_block_from p ≤ bn ∧
  bn < target_block (bp_block_to p) tip ∧ current_block_from p' = saturating_add U32_MAX bn 1.
Proof.
  unfold advance. repeat case_match; intros; simplify_eq/=. split_and!; [lia|done|done|lia|lia|done].
Qed.

Lemma advance_done p bn tip p' tip' bn' :
  advance p bn tip = (p', Ok (Done tip' bn')) →
  tip' = tip ∧ bn' = bn ∧ current_block_from p ≤ bn ∧ target_block (bp_block_to p) tip ≤ bn.
Proof. unfold advance. repeat case_match; intros; simplify_eq/=. split_and!; [done..|lia|lia]. Qed.

Lemma block_pages_end fuel : ∀ t p updates,
  iterations p ≤ MAX_ITERATIONS → (Z.to_nat (MAX_ITERATIONS - iterations p) < fuel)%nat →
  ∃ r, sync_block_pages request fuel t p updates = Finished r.
Proof.
  induction fuel as [|fuel IH]; intros t p updates Hi Hf; [lia|]. cbn [sync_block_pages].
  destruct (request _ _ _) as [resp|e]; [|eauto].
  destruct (pr_page resp) as [[bn tip]|]; [|eauto]. destruct (pr_items resp) as [batch|e]; [|eauto].
  destruct (advance p bn tip) as [p' [[|tip' bn']|e]] eqn:Ea; [|eauto..].
  apply advance_continue in Ea as (? & Hi' & _). apply IH; lia.
Qed.

(** A node that reports all the items of the blocks it scanned. *)
Definition honest_items (block : A → BlockNumber) (items : list A) : Prop :=
  ∀ t from to resp bn tip batch, request t from to = Ok resp →
    pr_page resp = Some (bn, tip) → pr_items resp = Ok batch →
    batch = items_in block from bn items ∧ tip ≤ U32_MAX.

Lemma block_pages_items block items :
  honest_items block items → StronglySorted (λ a b, block a ≤ block b) items →
  ∀ fuel t p from tip bn updates acc,
  from ≤ current_block_from p → acc = items_in block from (current_block_from p - 1) items →
  sync_block_pages request fuel t p acc = Finished (Ok (tip, bn, updates)) →
  updates = items_in block from bn items ∧ target_block (bp_block_to p) tip ≤ bn.
Proof.
  intros Hh Hs. induction fuel as [|fuel IH]; intros t p from tip bn updates acc Hle Hacc; [done|].
  cbn [sync_block_pages]. destruct (request _ _ _) as [resp|e] eqn:Er; [|done].
  destruct (pr_page resp) as [[bn1 tip1]|] eqn:Ep; [|done].
  destruct (pr_items resp) as [batch|e] eqn:Ei; [|done].
  destruct (Hh _ _ _ _ _ _ _ Er Ep Ei) as [-> Htip].
  assert (current_block_from p ≤ bn1 →
    acc ++ items_in block (current_block_from p) bn1 items = items_in block from bn1 items) as Hb.
  { intros Hbn. rewrite Hacc, <-(items_in_app block from (current_block_from p - 1) bn1) by (done || lia).
    do 2 f_equal. lia. }
  destruct (advance p bn1 tip1) as [p' [[|tip' bn']|e]] eqn:Ea; [| |done].
  - apply advance_continue in Ea as (_ & _ & Hto & Hbn & Hlt & Hc). rewrite Hb by done.
    assert (current_block_from p' = bn1 + 1) as Hc'.
    { rewrite Hc. unfold saturating_add, target_block in *. destruct (bp_block_to p); lia. }
    intros Hr. rewrite <-Hto. eapply IH; [| |exact Hr]; [lia|]. f_equal. lia.
  - apply advance_done in Ea as (-> & -> & Hbn & Htgt). rewrite Hb by done.
    intros Hr. injection Hr as <- <- <-. done.
Qed.
End page_lemmas.

Lemma block_pages_total `{Protocol} {A} request block_from block_to :
  ∃ r, sync_block_pages (A := A) request page_fuel 0 (BlockPagination_new block_from block_to) [] =
    Finished r.
Proof.
  apply block_pages_end; simpl; [unfold MAX_ITERATIONS; lia|]. unfold page_fuel. lia.
Qed.

Lemma block_pages_exact `{Protocol} {A} request (block : A → BlockNumber) items block_from block_to
    tip bn updates :
  honest_items request block items → StronglySorted (λ a b, block a ≤ block b) items →
  sync_block_pages request page_fuel 0 (BlockPagination_new block_from block_to) [] =
    Finished (Ok (tip, bn, updates)) →
  updates = items_in block block_from bn items ∧ target_block block_to tip ≤ bn.
Proof.
  intros Hh Hs E. eapply (block_pages_items _ _ _ Hh Hs _ _ (BlockPagination_new block_from block_to));
    [| |exact E]; simpl; [lia|]. by rewrite items_in_empty by lia.
Qed.

(** Paging over blocks always ends, whatever the node answers: after at most
    [MAX_ITERATIONS] pages that made progress the call returns or fails.  With a
    node that reports all the items of the blocks it scanned, the result holds
    exactly the items from [block_from] to the reported block, in order, and that
    block is not before the end of the requested range (or the chain tip). *)
Theorem block_pages_complete `{Protocol} {A} request (block : A → BlockNumber) items
    block_from block_to :
  (∃ r, sync_storage_maps request block_from block_to = Finished r) ∧
  (∃ r, sync_account_vault request block_from block_to = Finished r) ∧
  (honest_items request block items → StronglySorted (λ a b, block a ≤ block b) items →
    (∀ info, sync_storage_maps request block_from block_to = Finished (Ok info) →
      smi_updates info = items_in block block_from (smi_block_number info) items ∧
      target_block block_to (smi_chain_tip info) ≤ smi_block_number info) ∧
    (∀ info, sync_account_vault request block_from block_to = Finished (Ok info) →
      avi_updates info = items_in block block_from (avi_block_number info) items ∧
      target_block block_to (avi_chain_tip info) ≤ avi_block_number info)).
Proof.
  unfold sync_storage_maps, sync_account_vault.
  destruct (block_pages_total request block_from block_to) as [r E]. rewrite E.
  destruct r as [[[tip bn] ups]|e]; (split_and!; [by eexists..|]); intros Hh Hs; [|done].
  pose proof (block_pages_exact _ _ _ _ _ _ _ _ Hh Hs E) as Hr.
  split; intros info Hi; injection Hi as <-; exact Hr.
Qed.

Section nullifier_lemmas.
Context `{Protocol}.
Variable request : nat → list u16 → BlockNumber → option BlockNumber →
  result RpcError (PageResponse string NullifierUpdate).
(** The block in which a nullifier entered the chain. *)
Variable spent : Nullifier → option BlockNumber.

(** A node reports nullifiers of the chain, and all those of the requested prefixes
    in the blocks it scanned. *)
Definition honest_nullifier_pages : Prop :=
  ∀ t chunk from to resp batch, request t chunk from to = Ok resp → pr_items resp = Ok batch →
    (∀ u, u ∈ batch → spent (nu_nullifier u) = Some (nu_block_num u)) ∧
    ∀ bn tip, pr_page resp = Some (bn, tip) → tip ≤ U32_MAX ∧
      ∀ n b, spent n = Some b → b ≤ tip ∧
        (Nullifier_prefix n ∈ chunk → from ≤ b ≤ bn → (n, b) ∈ update_key <$> batch).

Definition all_spent (s : updates_set) : Prop := ∀ n b, (n, b) ∈ s → spent n = Some b.

Definition before (block_to : option BlockNumber) (b : BlockNumber) : Prop :=
  ∀ to, block_to = Some to → b ≤ to.

Lemma before_target block_to tip b : b ≤ tip → before block_to b → b ≤ target_block block_to tip.
Proof. unfold before, target_block. intros Ht Hb. destruct block_to as [to|]; [|done]. specialize (Hb to eq_refl). lia. Qed.

Lemma nullifier_pages_spec : honest_nullifier_pages →
  ∀ iters t chunk from block_to acc, all_spent acc →
  ∃ r, nullifier_pages request iters t chunk from block_to acc = Finished r ∧
  ∀ acc' t', r = Ok (acc', t') → acc ⊆ acc' ∧ all_spent acc' ∧
    ∀ n b, spent n = Some b → Nullifier_prefix n ∈ chunk → from ≤ b → before block_to b →
      (n, b) ∈ acc'.
Proof.
  intros Hh. induction iters as [|iters IH]; intros t chunk from block_to acc Hacc; simpl;
    [by eexists|].
  destruct (request t chunk from block_to) as [resp|e] eqn:Er; [|by eexists].
  destruct (pr_items resp) as [batch|e] eqn:Ei; [|by eexists].
  destruct (Hh _ _ _ _ _ _ Er Ei) as [Hsound Hpage].
  set (acc1 := acc ∪ list_to_set (update_key <$> batch)).
  assert (all_spent acc1) as Hacc1.
  { intros n b [Hn|Hn]%elem_of_union; [by apply Hacc|].
    apply elem_of_list_to_set, list_elem_of_fmap in Hn as (u & [= -> ->] & Hu). by apply Hsound. }
  assert (acc ⊆ acc1) as Hsub by set_solver.
  destruct (pr_page resp) as [[bn tip]|] eqn:Ep.
  2:{ destruct (IH (S t) chunk from block_to acc1 Hacc1) as (r & Hr & Hspec). exists r.
      split; [done|]. intros acc' t' Hok. destruct (Hspec _ _ Hok) as (? & ? & ?).
      split_and!; [set_solver|done|done]. }
  destruct (Hpage _ _ eq_refl) as [Htip Hall].
  destruct (Z.ltb_spec bn from); [by eexists|].
  assert (∀ n b, spent n = Some b → Nullifier_prefix n ∈ chunk → from ≤ b ≤ bn → (n, b) ∈ acc1)
    as Hin.
  { intros n b Hn Hp Hb. apply elem_of_union_r, elem_of_list_to_set. by apply (Hall n b Hn). }
  destruct (Z.leb_spec (target_block block_to tip) bn) as [Hle|Hlt].
  { eexists. split; [done|]. intros acc' t' Hr. injection Hr as <- <-. split_and!; [done..|].
    intros n b Hn Hp Hb Hto. apply Hin; [done..|]. destruct (Hall n b Hn) as [Hbt _].
    pose proof (before_target _ _ _ Hbt Hto). lia. }
  assert (bn < U32_MAX) as Hmax by (unfold target_block in Hlt; destruct block_to; lia).
  rewrite next_cursor by done.
  destruct (IH (S t) chunk (bn + 1) block_to acc1 Hacc1) as (r & Hr & Hspec).
  exists r. split; [done|]. intros acc' t' Hok. destruct (Hspec _ _ Hok) as (Hs1 & Hs2 & Hs3).
  split_and!; [set_solver|done|]. intros n b Hn Hp Hb Hto.
  destruct (decide (b ≤ bn)); [apply Hs1, Hin; done || lia|apply Hs3; done || lia].
Qed.

Lemma nullifier_chunks_spec cs block_num block_to : honest_nullifier_pages →
  ∃ r, nullifier_chunks request cs block_num block_to = Finished r ∧
  ∀ acc t, r = Ok (acc, t) → all_spent acc ∧
    ∀ n b, spent n = Some b → Nullifier_prefix n ∈ concat cs → block_num ≤ b →
      before block_to b → (n, b) ∈ acc.
Proof.
  intros Hh. induction cs as [|c cs IH] using rev_ind.
  { eexists. split; [done|]. intros acc t Hr. injection Hr as <- <-.
    split; [intros n b; set_solver|]. intros n b _ Hp. by apply not_elem_of_nil in Hp. }
  unfold nullifier_chunks in *. rewrite foldl_app. cbn [foldl].
  destruct IH as (r & -> & Hspec). destruct r as [[acc t]|e]; [|by eexists].
  destruct (Hspec _ _ eq_refl) as [Hacc Hin].
  destruct (nullifier_pages_spec Hh (Z.to_nat MAX_ITERATIONS) t c block_num block_to acc Hacc)
    as (r & Hr & Hp). exists r. split; [exact Hr|]. intros acc' t' Hok.
  destruct (Hp _ _ Hok) as (Hsub & Hsp & Hc). split; [done|].
  intros n b Hn Hpre Hb Hto. rewrite concat_app, elem_of_app in Hpre.
  destruct Hpre as [Hpre|Hpre]; [by apply Hsub, Hin|]. apply Hc; try done.
  simpl in Hpre. by rewrite app_nil_r in Hpre.
Qed.
End nullifier_lemmas.

Lemma nullifier_result_spec `{Protocol} request spent limits prefixes block_num block_to :
  honest_nullifier_pages request spent → 0 < nullifiers_limit limits →
  ∃ r, sync_nullifiers request limits prefixes block_num block_to = Finished r ∧
  ∀ l, r = Ok l →
    (∀ n b, spent n = Some b → Nullifier_prefix n ∈ prefixes → block_num ≤ b →
      (∀ to, block_to = Some to → b ≤ to) →
      {| nu_nullifier := n; nu_block_num := b |} ∈ l) ∧
    (∀ u, u ∈ l → spent (nu_nullifier u) = Some (nu_block_num u)) ∧
    NoDup (nu_nullifier <$> l).
Proof.
  intros Hh Hl. unfold sync_nullifiers.
  destruct (chunks (nullifiers_limit limits) prefixes) as [cs|] eqn:Ec;
    [|unfold chunks in Ec; case_match; [lia|done]].
  apply chunks_concat in Ec; [|lia].
  destruct (nullifier_chunks_spec request spent cs block_num block_to Hh) as (r & -> & Hspec).
  destruct r as [[acc t]|e]; [|by eexists]. eexists. split; [done|]. intros l Hr. injection Hr as <-.
  destruct (Hspec _ _ eq_refl) as [Hsp Hin]. rewrite Ec in Hin. split_and!.
  - intros n b Hn Hp Hb Hto. apply list_elem_of_fmap. exists (n, b). split; [done|].
    apply elem_of_bset_elements. by apply Hin.
  - intros u ([n b] & -> & Hu)%list_elem_of_fmap. apply elem_of_bset_elements in Hu. by apply Hsp.
  - rewrite <-list_fmap_compose. apply (NoDup_fmap_2_strong (nu_nullifier ∘ key_update));
      [|apply NoDup_bset_elements].
    intros [n1 b1] [n2 b2] Hk1%elem_of_bset_elements Hk2%elem_of_bset_elements Heq. simpl in Heq.
    subst n2. apply Hsp in Hk1, Hk2. congruence.
Qed.

(** C37: the nullifier request is complete and exact.  With a limit above zero, and
    whatever the number of prefixes and pages, the call returns; with a node that reports the nullifiers
    of the blocks it scanned, the result contains every nullifier with a requested
    prefix that entered the chain between the two blocks, only nullifiers of the
    chain, and each of them once. *)
Theorem sync_nullifiers_complete `{Protocol} request spent limits prefixes block_num block_to :
  honest_nullifier_pages request spent → 0 < nullifiers_limit limits →
  ∃ r, sync_nullifiers request limits prefixes block_num block_to = Finished r ∧
  ∀ l, r = Ok l →
    (∀ n b, spent n = Some b → Nullifier_prefix n ∈ prefixes → block_num ≤ b →
      (∀ to, block_to = Some to → b ≤ to) →
      {| nu_nullifier := n; nu_block_num := b |} ∈ l) ∧
    (∀ u, u ∈ l → spent (nu_nullifier u) = Some (nu_block_num u)) ∧
    NoDup (nu_nullifier <$> l).
Proof. apply nullifier_result_spec. Qed.

(** An answer without paging information is not the last one.  The request is
    repeated unchanged until the iteration limit, and the nullifiers found are
    lost in an error. *)
Theorem missing_page_info_fails `{Protocol} request limits prefixes block_num block_to :
  (∀ t chunk from to, ∃ batch, request t chunk from to =
    Ok {| pr_page := None; pr_items := Ok batch |}) →
  0 < nullifiers_limit limits → prefixes ≠ [] →
  sync_nullifiers request limits prefixes block_num block_to = Finished (Err too_many_iterations).
Proof.
  intros Hr Hl Hp. unfold sync_nullifiers, chunks. destruct (Z.eqb_spec (nullifiers_limit limits) 0); [lia|].
  destruct prefixes as [|p prefixes]; [done|]. cbn [length chunk_list]. unfold nullifier_chunks.
  assert (∀ iters t c f to acc, nullifier_pages request iters t c f to acc =
    Finished (Err too_many_iterations)) as Hpages.
  { induction iters as [|iters IH]; intros t c f to acc; [done|]. simpl.
    destruct (Hr t c f to) as [batch ->]. simpl. apply IH. }
  cbn [foldl]. rewrite Hpages.
  assert (∀ cs, foldl (λ acc chunk, match acc with
      | Finished (Ok (all_nullifiers, t)) =>
          nullifier_pages request (Z.to_nat MAX_ITERATIONS) t chunk block_num block_to all_nullifiers
      | _ => acc
      end) (Finished (Err too_many_iterations)) cs = Finished (Err too_many_iterations)) as Hfold.
  { by induction cs. }
  by rewrite Hfold.
Qed.

(** A limit of zero makes the client panic.  The limits of the node are taken
    as they are, and splitting a request into chunks of size zero panics, also
    when there is nothing to request. *)
Theorem zero_limit_panics `{Protocol} :
  let proto : proto_limits := {[
    proto_name GetNotesById := {[ "note_id"%string := 0 ]};
    proto_name CheckNullifiers := {[ "nullifier"%string := 0 ]};
    proto_name SyncTransactions := {[ "account_id"%string := 1000 ]};
    proto_name SyncNotes := {[ "note_tag"%string := 1000 ]} ]} in
  ∃ limits, RpcLimits_try_from proto = Ok limits ∧
    (∀ request prefixes from to, sync_nullifiers request limits prefixes from to = Panicked) ∧
    (∀ request note_ids, grpc_get_notes_by_id limits request note_ids = Panicked).
Proof. eexists. split; [reflexivity|]. split; intros; reflexivity. Qed.

(** ** Witnesses *)

Definition toy_busy : Status :=
  {| st_code := 8; st_message := "Too Many Requests!"; st_details := []; st_retry_after := Some "2"%string |}.

Lemma call_with_retry_spec_witness :
  let call := λ t : nat, if Nat.eqb t 0 then Err toy_busy else Ok 5 in
  ∃ n r slept,
    call_with_retry (λ _, Ok ()) call (λ _, Rpc_InvalidResponse "") 4 100 = Finished (r, slept) ∧
    r = Ok 5 ∧ slept = [2000] ∧
    retried (λ _, Ok ()) call (λ _, Rpc_InvalidResponse "") 4 100 0 n [] slept r.
Proof.
  intros call.
  destruct (call_with_retry_spec (λ _, Ok ()) call (λ _, Rpc_InvalidResponse "") 4 100)
    as (n & r & slept & E & Hr); [lia|].
  exists n, r, slept. split; [exact E|].
  assert (call_with_retry (λ _, Ok ()) call (λ _, Rpc_InvalidResponse "") 4 100 =
    Finished (Ok 5, [2000])) as E' by reflexivity.
  rewrite E in E'. injection E' as -> ->. auto.
Defined.

(** A node with items in blocks [4], [6] and [7], and pages of two blocks. *)
Definition toy_items : list Z := [4; 6; 7].
Definition toy_item_pages (t : nat) (from : BlockNumber) (to : option BlockNumber) :
    result RpcError (PageResponse RpcError Z) :=
  let last := Z.min (target_block to 9) (from + 1) in
  Ok {| pr_page := Some (last, 9); pr_items := Ok (items_in (λ x, x) from last toy_items) |}.

Lemma block_pages_complete_witness :
  ∃ info, sync_storage_maps toy_item_pages 4 (Some 7) = Finished (Ok info) ∧
    smi_updates info = toy_items ∧ 7 ≤ smi_block_number info.
Proof.
  assert (match sync_storage_maps toy_item_pages 4 (Some 7) with
    | Finished (Ok info) => smi_block_number info = 7 ∧ smi_chain_tip info = 9
    | _ => False end) as Hc by (vm_compute; split; reflexivity).
  destruct (sync_storage_maps toy_item_pages 4 (Some 7)) as [[info|]| |] eqn:E; try contradiction.
  destruct Hc as [Hb Ht]. exists info. split; [reflexivity|].
  destruct (block_pages_complete toy_item_pages (λ x, x) toy_items 4 (Some 7)) as (_ & _ & Hx).
  destruct (Hx ltac:(intros t from to resp bn tip batch Hr Hp Hi; injection Hr as <-;
    injection Hp as <- <-; injection Hi as <-; split; [reflexivity|unfold U32_MAX; lia])
    ltac:(repeat constructor; unfold toy_items; lia)) as [Hs _].
  destruct (Hs info E) as [Hu Htgt]. rewrite Hb, Ht in *. split; [exact Hu|exact Htgt].
Defined.

(** A node with one spent nullifier, in block [5]. *)
Definition toy_nullifier_pages (t : nat) (chunk : list u16) (from : BlockNumber)
    (to : option BlockNumber) : result RpcError (PageResponse string NullifierUpdate) :=
  Ok {| pr_page := Some (from + 1, 9);
        pr_items := Ok (filter (λ u, from ≤ nu_block_num u ≤ from + 1)
          [{| nu_nullifier := toy_nullifier 3 5; nu_block_num := 5 |}]) |}.

Definition toy_spent (n : Nullifier) : option BlockNumber :=
  if decide (n = toy_nullifier 3 5) then Some 5 else None.

Lemma sync_nullifiers_complete_witness :
  ∃ r, sync_nullifiers toy_nullifier_pages RpcLimits_default
      [Nullifier_prefix (toy_nullifier 3 5)] 2 (Some 8) = Finished r ∧
    ∀ l, r = Ok l → {| nu_nullifier := toy_nullifier 3 5; nu_block_num := 5 |} ∈ l.
Proof.
  destruct (sync_nullifiers_complete toy_nullifier_pages toy_spent RpcLimits_default
    [Nullifier_prefix (toy_nullifier 3 5)] 2 (Some 8)) as (r & E & Hr).
  - intros t chunk from to resp batch Hq Hb. injection Hq as <-. injection Hb as <-.
    assert (∀ n b, toy_spent n = Some b → n = toy_nullifier 3 5 ∧ b = 5) as Hsp.
    { intros n b. unfold toy_spent. case_decide; intros Hb; [|discriminate Hb].
      injection Hb as <-. auto. }
    split.
    + intros u [_ Hu]%list_elem_of_filter. apply list_elem_of_singleton in Hu as ->. reflexivity.
    + intros bn tip Hp. injection Hp as <- <-. split; [unfold U32_MAX; lia|].
      intros n b [-> ->]%Hsp. split; [lia|]. intros _ Hb. apply list_elem_of_fmap.
      exists {| nu_nullifier := toy_nullifier 3 5; nu_block_num := 5 |}. split; [reflexivity|].
      apply list_elem_of_filter. split; [exact Hb|left].
  - simpl. lia.
  - exists r. split; [exact E|]. intros l Hok. apply (proj1 (Hr l Hok)).
    + reflexivity.
    + left.
    + lia.
    + intros to Hto. injection Hto as <-. lia.
Defined.

Lemma missing_page_info_fails_witness :
  sync_nullifiers (λ _ _ _ _, Ok {| pr_page := None; pr_items := Ok [] |}) RpcLimits_default
    [Nullifier_prefix (toy_nullifier 3 5)] 2 None = Finished (Err too_many_iterations).
Proof.
  apply (missing_page_info_fails (λ _ _ _ _, Ok {| pr_page := None; pr_items := Ok [] |})
    RpcLimits_default [Nullifier_prefix (toy_nullifier 3 5)] 2 None).
  - intros. eexists. reflexivity.
  - simpl. lia.
  - discriminate.
Defined.
