(* ===== verification/SyncUpdate.v ===== *)
(** * The result of a sync

    [sync/state_sync_update.rs] and [SyncSummary] of [sync/mod.rs]: the changes a
    sync computes for the store (blocks, notes, transactions, accounts), the
    summary reported to the user and its binary format. *)

From S2P Require Import Prelude Protocol Serde Model NoteStates InputNote OutputNote TxRecord.
From S2P Require Import TxTracker Errors NoteTracker TxOrdering Rpc.
From Stdlib Require Import ZArith Lia.
From stdpp Require Import base gmap list strings.

Open Scope Z_scope.

Section update.
Context `{MmrLib}.

(** *** Blocks *)

Record BlockUpdates := {
  bu_block_headers : gmap BlockNumber (BlockHeader * bool * MmrPeaks);
  bu_new_authentication_nodes : list (InOrderIndex * Word)
}.

Definition BlockUpdates_default : BlockUpdates :=
  {| bu_block_headers := ∅; bu_new_authentication_nodes := [] |}.

Definition BlockUpdates_insert (self : BlockUpdates) (block_header : BlockHeader)
    (has_client_notes : bool) (peaks : MmrPeaks)
    (new_authentication_nodes : list (InOrderIndex * Word)) : BlockUpdates :=
  {| bu_block_headers :=
       btree_modify_or_insert (KeyType0 := Z_key) (BlockHeader_block_num block_header)
         (λ '(header, existing_has_notes, existing_peaks),
            (header, existing_has_notes || has_client_notes, existing_peaks))
         (block_header, has_client_notes, peaks) (bu_block_headers self);
     bu_new_authentication_nodes :=
       bu_new_authentication_nodes self ++ new_authentication_nodes |}.

Definition BlockUpdates_block_headers (self : BlockUpdates) :
    list (BlockHeader * bool * MmrPeaks) :=
  btree_values (KeyType0 := Z_key) (bu_block_headers self).

Definition BlockUpdates_extend_authentication_nodes (self : BlockUpdates)
    (nodes : list (InOrderIndex * Word)) : BlockUpdates :=
  {| bu_block_headers := bu_block_headers self;
     bu_new_authentication_nodes := bu_new_authentication_nodes self ++ nodes |}.

(** *** Accounts *)

Record AccountUpdates := {
  au_updated_public_accounts : list Account;
  au_mismatched_private_accounts : list (AccountId * Word)
}.

Definition AccountUpdates_default : AccountUpdates :=
  {| au_updated_public_accounts := []; au_mismatched_private_accounts := [] |}.

Definition AccountUpdates_extend (self other : AccountUpdates) : AccountUpdates :=
  {| au_updated_public_accounts :=
       au_updated_public_accounts self ++ au_updated_public_accounts other;
     au_mismatched_private_accounts :=
       au_mismatched_private_accounts self ++ au_mismatched_private_accounts other |}.

(** *** The update *)

Record StateSyncUpdate := {
  ssu_block_num : BlockNumber;
  ssu_block_updates : BlockUpdates;
  ssu_note_updates : NoteUpdateTracker;
  ssu_transaction_updates : TransactionUpdateTracker;
  ssu_account_updates : AccountUpdates
}.

(** *** The summary *)

Record SyncSummary := {
  ss_block_num : BlockNumber;
  ss_new_public_notes : list NoteId;
  ss_committed_notes : list NoteId;
  ss_consumed_notes : list NoteId;
  ss_updated_accounts : list AccountId;
  ss_locked_accounts : list AccountId;
  ss_committed_transactions : list TransactionId
}.

Definition SyncSummary_new_empty (block_num : BlockNumber) : SyncSummary :=
  {| ss_block_num := block_num; ss_new_public_notes := []; ss_committed_notes := [];
     ss_consumed_notes := []; ss_updated_accounts := []; ss_locked_accounts := [];
     ss_committed_transactions := [] |}.

Definition list_is_empty {A} (l : list A) : bool := match l with [] => true | _ => false end.

Definition SyncSummary_is_empty (self : SyncSummary) : bool :=
  list_is_empty (ss_new_public_notes self) &&
  list_is_empty (ss_committed_notes self) &&
  list_is_empty (ss_consumed_notes self) &&
  list_is_empty (ss_updated_accounts self) &&
  list_is_empty (ss_locked_accounts self) &&
  list_is_empty (ss_committed_transactions self).

Definition SyncSummary_combine_with (self other : SyncSummary) : SyncSummary :=
  {| ss_block_num := Z.max (ss_block_num self) (ss_block_num other);
     ss_new_public_notes := ss_new_public_notes self ++ ss_new_public_notes other;
     ss_committed_notes := ss_committed_notes self ++ ss_committed_notes other;
     ss_consumed_notes := ss_consumed_notes self ++ ss_consumed_notes other;
     ss_updated_accounts := ss_updated_accounts self ++ ss_updated_accounts other;
     ss_locked_accounts := ss_locked_accounts self ++ ss_locked_accounts other;
     ss_committed_transactions :=
       ss_committed_transactions self ++ ss_committed_transactions other |}.

Definition SyncSummary_codec `{!SerdeLib} : codec SyncSummary := Codec
  (λ self,
    write_into BlockNumber_codec (ss_block_num self) ++
    write_into (vec_codec NoteId_codec) (ss_new_public_notes self) ++
    write_into (vec_codec NoteId_codec) (ss_committed_notes self) ++
    write_into (vec_codec NoteId_codec) (ss_consumed_notes self) ++
    write_into (vec_codec AccountId_codec) (ss_updated_accounts self) ++
    write_into (vec_codec AccountId_codec) (ss_locked_accounts self) ++
    write_into (vec_codec TransactionId_codec) (ss_committed_transactions self))
  (block_num <~ read_from BlockNumber_codec ;;
   new_public_notes <~ read_from (vec_codec NoteId_codec) ;;
   committed_notes <~ read_from (vec_codec NoteId_codec) ;;
   consumed_notes <~ read_from (vec_codec NoteId_codec) ;;
   updated_accounts <~ read_from (vec_codec AccountId_codec) ;;
   locked_accounts <~ read_from (vec_codec AccountId_codec) ;;
   committed_transactions <~ read_from (vec_codec TransactionId_codec) ;;
   rret {| ss_block_num := block_num; ss_new_public_notes := new_public_notes;
           ss_committed_notes := committed_notes; ss_consumed_notes := consumed_notes;
           ss_updated_accounts := updated_accounts; ss_locked_accounts := locked_accounts;
           ss_committed_transactions := committed_transactions |}).

Definition is_update (t : NoteUpdateType) : bool :=
  match t with UpdateUpdate => true | _ => false end.
Definition is_insert (t : NoteUpdateType) : bool :=
  match t with UpdateInsert => true | _ => false end.

(** [From<&StateSyncUpdate> for SyncSummary]; the two sets are collected into
    [BTreeSet]s and listed in order. *)
Definition SyncSummary_from_update (value : StateSyncUpdate) : SyncSummary :=
  let notes := ssu_note_updates value in
  let new_public_note_ids :=
    InputNoteUpdate_id <$> filter (λ u, is_insert (iu_update_type u) = true)
      (updated_input_notes notes) in
  let committed_note_ids : gset NoteId := list_to_set (
    (InputNoteUpdate_id <$> filter (λ u, is_update (iu_update_type u) = true ∧
        InputNoteRecord_is_committed (iu_note u) = true) (updated_input_notes notes)) ++
    (OutputNoteUpdate_id <$> filter (λ u, is_update (ou_update_type u) = true ∧
        OutputNoteRecord_is_committed (ou_note u) = true) (updated_output_notes notes))) in
  let consumed_note_ids : gset NoteId := list_to_set (
    InputNoteUpdate_id <$> filter (λ u, InputNoteRecord_is_consumed (iu_note u) = true)
      (updated_input_notes notes)) in
  {| ss_block_num := ssu_block_num value;
     ss_new_public_notes := new_public_note_ids;
     ss_committed_notes := bset_elements committed_note_ids;
     ss_consumed_notes := bset_elements consumed_note_ids;
     ss_updated_accounts :=
       Account_id <$> au_updated_public_accounts (ssu_account_updates value);
     ss_locked_accounts := fst <$> au_mismatched_private_accounts (ssu_account_updates value);
     ss_committed_transactions :=
       tx_id <$> committed_transactions (ssu_transaction_updates value) |}.

Definition SyncSummary_wf (s : SyncSummary) : Prop :=
  in_range U32_MAX (ss_block_num s) ∧
  Z.of_nat (length (ss_new_public_notes s)) ≤ U64_MAX ∧
  Z.of_nat (length (ss_committed_notes s)) ≤ U64_MAX ∧
  Z.of_nat (length (ss_consumed_notes s)) ≤ U64_MAX ∧
  Z.of_nat (length (ss_updated_accounts s)) ≤ U64_MAX ∧
  Z.of_nat (length (ss_locked_accounts s)) ≤ U64_MAX ∧
  Z.of_nat (length (ss_committed_transactions s)) ≤ U64_MAX.
End update.

Lemma is_update_true ty : is_update ty = true ↔ ty = UpdateUpdate.
Proof. destruct ty; naive_solver. Qed.

Lemma is_insert_true ty : is_insert ty = true ↔ ty = UpdateInsert.
Proof. destruct ty; naive_solver. Qed.

(** ** Correctness *)

(** A summary written to bytes is read back unchanged. *)
Theorem SyncSummary_roundtrip `{SerdeLaws} (s : SyncSummary) rest :
  SyncSummary_wf s →
  read_from SyncSummary_codec (write_into SyncSummary_codec s ++ rest) = Ok (s, rest).
Proof.
  destruct s. intros (? & ? & ? & ? & ? & ? & ?). simpl in *. roundtrip.
Qed.

(** The summary lists exactly what changed.  A note is reported as committed
    when an input or output note marked for update is in a committed state, and
    as consumed when a marked input note is consumed; both lists are without
    repetition.  New notes are the inserted ones, and transactions the committed
    ones of the tracker. *)
Theorem summary_lists_the_changes `{MmrLib} (u : StateSyncUpdate) :
  let s := SyncSummary_from_update u in
  let t := ssu_note_updates u in
  NoDup (ss_committed_notes s) ∧ NoDup (ss_consumed_notes s) ∧
  (∀ id, id ∈ ss_committed_notes s ↔
    (∃ k n, input_notes t !! k = Some n ∧ InputNoteUpdate_id n = id ∧
       iu_update_type n = UpdateUpdate ∧ InputNoteRecord_is_committed (iu_note n) = true) ∨
    (∃ k n, output_notes t !! k = Some n ∧ OutputNoteUpdate_id n = id ∧
       ou_update_type n = UpdateUpdate ∧ OutputNoteRecord_is_committed (ou_note n) = true)) ∧
  (∀ id, id ∈ ss_consumed_notes s ↔
    ∃ k n, input_notes t !! k = Some n ∧ InputNoteUpdate_id n = id ∧
      iu_update_type n ≠ UpdateNone ∧ InputNoteRecord_is_consumed (iu_note n) = true) ∧
  (∀ id, id ∈ ss_new_public_notes s ↔
    ∃ k n, input_notes t !! k = Some n ∧ InputNoteUpdate_id n = id ∧
      iu_update_type n = UpdateInsert) ∧
  (∀ id, id ∈ ss_committed_transactions s ↔
    ∃ k tx, ssu_transaction_updates u !! k = Some tx ∧ tx_id tx = id ∧
      TransactionStatus_variant (tx_status tx) = 1).
Proof.
  cbv zeta. simpl. split_and!; [apply NoDup_bset_elements..| | | |]; intros id.
  - rewrite elem_of_bset_elements, elem_of_list_to_set, elem_of_app, !list_elem_of_fmap.
    setoid_rewrite list_elem_of_filter. setoid_rewrite elem_of_updated_input.
    setoid_rewrite elem_of_updated_output. setoid_rewrite is_update_true. split.
    + intros [(n & -> & [? ?] & [k ?] & _)|(n & -> & [? ?] & [k ?] & _)]; [left|right]; eauto 8.
    + intros [(k & n & ? & <- & ? & ?)|(k & n & ? & <- & ? & ?)]; [left|right]; exists n;
        split_and!; eauto; congruence.
  - rewrite elem_of_bset_elements, elem_of_list_to_set, list_elem_of_fmap.
    setoid_rewrite list_elem_of_filter. setoid_rewrite elem_of_updated_input. naive_solver.
  - rewrite list_elem_of_fmap. setoid_rewrite list_elem_of_filter.
    setoid_rewrite elem_of_updated_input. setoid_rewrite is_insert_true. split.
    + intros (n & -> & ? & [k ?] & _). eauto.
    + intros (k & n & ? & <- & ?). exists n. split_and!; eauto; congruence.
  - rewrite list_elem_of_fmap. setoid_rewrite elem_of_committed_transactions. naive_solver.
Qed.

(** ** Witness *)

Lemma SyncSummary_roundtrip_witness :
  let s := SyncSummary_new_empty 12 in
  read_from SyncSummary_codec (write_into SyncSummary_codec s ++ [4]) = Ok (s, [4]).
Proof.
  intros s. apply (SyncSummary_roundtrip s [4]). repeat split; discriminate.
Defined.
