(* ===== verification/StateSync.v ===== *)
(** * State sync

    [StateSync] of [sync/state_sync.rs]: one sync fetches the chain tip, the MMR
    delta, the matching notes and the transactions of the tracked accounts, and
    turns them into a [StateSyncUpdate].  The node is the class [NodeRpcClient],
    the callback that decides which notes matter the class [OnNoteReceived].
    Asynchronous calls are run one after the other, as the code awaits them. *)

From S2P Require Import Prelude Protocol Serde Model NoteStates InputNote OutputNote TxRecord.
From S2P Require Import TxTracker Errors NoteTracker TxOrdering Rpc Grpc SyncUpdate.
From Stdlib Require Import ZArith Lia.
From stdpp Require Import base gmap list strings relations.

Open Scope Z_scope.

(** *** The callback *)

Inductive NoteUpdateAction `{Protocol} :=
| Action_Commit (note : CommittedNote)
| Action_Insert (note : InputNoteRecord)
| Action_Discard.

Class OnNoteReceived `{Protocol} :=
  on_note_received : CommittedNote → option InputNoteRecord → result ClientError NoteUpdateAction.

Section sync.
Context `{NodeRpcClient} `{!OnNoteReceived}.

Record StateSyncInput := {
  si_accounts : list AccountHeader;
  si_note_tags : gset NoteTag;
  si_input_notes : list InputNoteRecord;
  si_output_notes : list OutputNoteRecord;
  si_uncommitted_transactions : list TransactionRecord
}.

Record RawStateSyncData := {
  rd_chain_tip : BlockNumber;
  rd_mmr_delta : MmrDelta;
  rd_chain_tip_header : BlockHeader;
  rd_note_blocks : list NoteSyncBlock;
  rd_public_notes : gmap NoteId Note;
  rd_account_commitment_updates : list (AccountId * Word);
  rd_transactions : list TransactionInclusion;
  rd_nullifiers : list Nullifier
}.

(** The configuration of the component. *)
Record StateSync := {
  tx_discard_delta : option u32;
  sync_nullifiers_enabled : bool
}.

Definition StateSync_new (tx_discard_delta : option u32) : StateSync :=
  {| tx_discard_delta := tx_discard_delta; sync_nullifiers_enabled := true |}.
Definition disable_nullifier_sync (self : StateSync) : StateSync :=
  {| tx_discard_delta := tx_discard_delta self; sync_nullifiers_enabled := false |}.
Definition enable_nullifier_sync (self : StateSync) : StateSync :=
  {| tx_discard_delta := tx_discard_delta self; sync_nullifiers_enabled := true |}.

(** *** Fetching *)

Definition inclusion_of_record (r : RpcTransactionRecord) : TransactionInclusion := {|
  incl_transaction_id := TransactionHeader_id (rtx_header r);
  incl_block_num := rtx_block_num r;
  incl_account_id := TransactionHeader_account_id (rtx_header r);
  incl_initial_state_commitment := TransactionHeader_initial_state_commitment (rtx_header r)
|}.

Definition fetch_transaction_data (block_from block_to : BlockNumber)
    (account_ids : list AccountId) :
    result ClientError (list (AccountId * Word) * list TransactionInclusion * list Nullifier) :=
  if bool_decide (account_ids = []) then Ok ([], [], [])
  else
    tx_info ← map_err Client_RpcError
      (rpc_sync_transactions block_from (Some block_to) account_ids);
    let account_updates :=
      derive_account_commitment_updates (ti_transaction_records tx_info) in
    let tx_inclusions := inclusion_of_record <$> ti_transaction_records tx_info in
    let nullifiers := compute_ordered_nullifiers (ti_transaction_records tx_info) in
    Ok (account_updates, tx_inclusions, nullifiers).

Definition fetch_sync_data (fuel : nat) (current_block_num : BlockNumber)
    (account_ids : list AccountId) (note_tags : gset NoteTag) : eff ClientError RawStateSyncData :=
  '(chain_tip_header, _) ← lift (map_err Client_RpcError
    (rpc_get_block_header_by_number None false));
  let chain_tip := BlockHeader_block_num chain_tip_header in
  if chain_tip =? current_block_num then
    mret {| rd_chain_tip := chain_tip;
            rd_mmr_delta := MmrDelta_empty current_block_num;
            rd_chain_tip_header := chain_tip_header;
            rd_note_blocks := [];
            rd_public_notes := ∅;
            rd_account_commitment_updates := [];
            rd_transactions := [];
            rd_nullifiers := [] |}
  else
    chain_mmr_info ← lift (map_err Client_RpcError
      (rpc_sync_chain_mmr current_block_num (Some chain_tip)));
    sync_notes_result ← eff_map_err Client_RpcError
      (sync_notes_with_details fuel current_block_num (Some chain_tip) note_tags);
    '(account_commitment_updates, transactions, nullifiers) ←
      lift (fetch_transaction_data current_block_num chain_tip account_ids);
    mret {| rd_chain_tip := chain_tip;
            rd_mmr_delta := cmi_mmr_delta chain_mmr_info;
            rd_chain_tip_header := chain_tip_header;
            rd_note_blocks := snr_blocks sync_notes_result;
            rd_public_notes := snr_public_notes sync_notes_result;
            rd_account_commitment_updates := account_commitment_updates;
            rd_transactions := transactions;
            rd_nullifiers := nullifiers |}.

(** *** Applying *)

(** The body of the loop of [note_state_sync]. *)
Definition note_state_sync_step (block_header : BlockHeader)
    (public_notes : gmap NoteId InputNoteRecord) (acc : bool * NoteUpdateTracker)
    (committed_note : CommittedNote) : result ClientError (bool * NoteUpdateTracker) :=
  let '(found_relevant_note, note_updates) := acc in
  let public_note :=
    if bool_decide (CommittedNote_note_type committed_note ≠ NoteType_Private)
    then public_notes !! cn_note_id committed_note else None in
  action ← on_note_received committed_note public_note;
  match action with
  | Action_Commit committed_note =>
      '(tracked, note_updates) ←
        apply_committed_note_state_transitions note_updates committed_note block_header;
      Ok (found_relevant_note || tracked, note_updates)
  | Action_Insert public_note =>
      note_updates ← apply_new_public_note note_updates public_note block_header;
      Ok (true, note_updates)
  | Action_Discard => Ok (found_relevant_note, note_updates)
  end.

Definition note_state_sync (note_updates : NoteUpdateTracker)
    (note_inclusions : gmap NoteId CommittedNote) (block_header : BlockHeader)
    (public_notes : gmap NoteId InputNoteRecord) : result ClientError (bool * NoteUpdateTracker) :=
  try_fold (note_state_sync_step block_header public_notes) (btree_values note_inclusions)
    (false, note_updates).

Definition transaction_state_sync (self : StateSync)
    (transaction_updates : TransactionUpdateTracker) (new_block_header : BlockHeader)
    (transaction_inclusions : list TransactionInclusion) : TransactionUpdateTracker :=
  let transaction_updates :=
    foldl (λ updates transaction_inclusion,
        apply_transaction_inclusion updates transaction_inclusion
          (BlockHeader_timestamp new_block_header))
      transaction_updates transaction_inclusions in
  apply_sync_height_update transaction_updates (BlockHeader_block_num new_block_header)
    (tx_discard_delta self).

(** The body of the loop of [nullifiers_state_sync]. *)
Definition nullifier_step (acc : NoteUpdateTracker * TransactionUpdateTracker)
    (nullifier_update : NullifierUpdate) :
    result ClientError (NoteUpdateTracker * TransactionUpdateTracker) :=
  let '(note_updates, transaction_updates) := acc in
  note_updates ← apply_nullifiers_state_transitions note_updates nullifier_update
    (committed_transactions transaction_updates);
  Ok (note_updates, apply_input_note_nullified transaction_updates (nu_nullifier nullifier_update)).

Definition with_trackers (u : StateSyncUpdate) (n : NoteUpdateTracker)
    (t : TransactionUpdateTracker) : StateSyncUpdate :=
  {| ssu_block_num := ssu_block_num u; ssu_block_updates := ssu_block_updates u;
     ssu_note_updates := n; ssu_transaction_updates := t;
     ssu_account_updates := ssu_account_updates u |}.

Definition nullifiers_state_sync (state_sync_update : StateSyncUpdate)
    (current_block_num : BlockNumber) : result ClientError StateSyncUpdate :=
  let nullifiers_tags :=
    Nullifier_prefix <$> unspent_nullifiers (ssu_note_updates state_sync_update) in
  new_nullifiers ← map_err Client_RpcError
    (rpc_sync_nullifiers nullifiers_tags current_block_num
      (Some (ssu_block_num state_sync_update)));
  let new_nullifiers :=
    filter (λ update, nu_block_num update ≤ ssu_block_num state_sync_update) new_nullifiers in
  '(note_updates, transaction_updates) ← try_fold nullifier_step new_nullifiers
    (ssu_note_updates state_sync_update, ssu_transaction_updates state_sync_update);
  Ok (with_trackers state_sync_update note_updates transaction_updates).

Definition get_updated_public_accounts (account_updates : list (AccountId * Word))
    (current_public_accounts : list AccountHeader) : result ClientError (list Account) :=
  let mismatched_public_accounts :=
    omap (M:=list) (λ '(id, commitment),
      head (filter (λ acc, id = AccountHeader_id acc ∧ commitment ≠ AccountHeader_to_commitment acc)
        current_public_accounts)) account_updates in
  map_err Client_RpcError (rpc_get_updated_public_accounts mismatched_public_accounts).

Definition account_state_sync (account_updates : AccountUpdates) (accounts : list AccountHeader)
    (account_commitment_updates : list (AccountId * Word)) : result ClientError AccountUpdates :=
  let public_accounts :=
    filter (λ h, AccountId_is_private (AccountHeader_id h) = false) accounts in
  let private_accounts :=
    filter (λ h, AccountId_is_private (AccountHeader_id h) = true) accounts in
  updated_public_accounts ←
    get_updated_public_accounts account_commitment_updates public_accounts;
  let mismatched_private_accounts :=
    filter (λ p, Exists (λ account,
        AccountHeader_id account = p.1 ∧ AccountHeader_to_commitment account ≠ p.2)
      private_accounts) account_commitment_updates in
  Ok (AccountUpdates_extend account_updates
    {| au_updated_public_accounts := updated_public_accounts;
       au_mismatched_private_accounts := mismatched_private_accounts |}).

(** The partial MMR is a mutable reference of the caller: a step changes it whether
    it succeeds or not. *)
Definition mmr_m (A : Type) : Type := PartialMmr → PartialMmr * eff ClientError A.
#[export] Instance mmr_ret : MRet mmr_m := λ A a s, (s, mret a).
#[export] Instance mmr_bind : MBind mmr_m := λ A B f m s,
  match m s with
  | (s', Finished (Ok a)) => f a s'
  | (s', Finished (Err e)) => (s', Finished (Err e))
  | (s', Panicked) => (s', Panicked)
  | (s', OutOfFuel) => (s', OutOfFuel)
  end.
(** A step that leaves the MMR alone. *)
Definition keep {A} (m : eff ClientError A) : mmr_m A := λ s, (s, m).
(** A fallible method of the MMR, with [StoreError::MmrError] converted by [?]. *)
Definition mmr_call {A} (f : PartialMmr → PartialMmr * result string A) : mmr_m A :=
  λ s, let '(s', r) := f s in (s', lift (map_err Client_StoreError r)).
Definition mmr_get : mmr_m PartialMmr := λ s, (s, mret s).
Fixpoint mmr_fold {A B} (f : B → A → mmr_m B) (l : list A) (b : B) : mmr_m B :=
  match l with
  | [] => mret b
  | a :: l => b' ← f b a; mmr_fold f l b'
  end.

(** The body of the loop over the note blocks. *)
Definition note_block_step (public_note_records : gmap NoteId InputNoteRecord)
    (acc : NoteUpdateTracker * BlockUpdates) (block : NoteSyncBlock) :
    mmr_m (NoteUpdateTracker * BlockUpdates) :=
  let '(note_updates, block_updates) := acc in
  '(found_relevant_note, note_updates) ← keep (lift
    (note_state_sync note_updates (nsb_notes block) (nsb_block_header block) public_note_records));
  if (found_relevant_note : bool) then
    let block_pos := BlockHeader_block_num (nsb_block_header block) in
    mmr ← mmr_get;
    track_auth_nodes ←
      (if mmr_is_tracked mmr block_pos then mret []
       else
         let nodes_before := mmr_nodes mmr in
         mmr_call (λ s, mmr_track s block_pos
           (BlockHeader_commitment (nsb_block_header block)) (nsb_mmr_path block));;
         mmr ← mmr_get;
         mret (filter (λ kv : InOrderIndex * Word, kv.1 ∉ nodes_before.*1) (mmr_nodes mmr)));
    mmr ← mmr_get;
    mret (note_updates,
          BlockUpdates_insert block_updates (nsb_block_header block) true (mmr_peaks mmr)
            track_auth_nodes)
  else mret (note_updates, block_updates).

Definition apply_sync_result (self : StateSync) (sync_data : RawStateSyncData)
    (public_note_records : gmap NoteId InputNoteRecord) (state_sync_update : StateSyncUpdate) :
    mmr_m StateSyncUpdate :=
  new_authentication_nodes ← mmr_call (λ s, mmr_apply s (rd_mmr_delta sync_data));
  mmr ← mmr_get;
  let new_peaks := mmr_peaks mmr in
  tip_nodes ← (λ s, let '(s', nodes) :=
    mmr_add s (BlockHeader_commitment (rd_chain_tip_header sync_data)) false in (s', mret nodes));
  let new_authentication_nodes := new_authentication_nodes ++ tip_nodes in
  let block_updates :=
    BlockUpdates_insert (ssu_block_updates state_sync_update) (rd_chain_tip_header sync_data)
      false new_peaks new_authentication_nodes in
  '(note_updates, block_updates) ← mmr_fold (note_block_step public_note_records)
    (rd_note_blocks sync_data) (ssu_note_updates state_sync_update, block_updates);
  note_updates ← keep (expect (extend_nullifiers note_updates (rd_nullifiers sync_data)));
  let transaction_updates :=
    transaction_state_sync self (ssu_transaction_updates state_sync_update)
      (rd_chain_tip_header sync_data) (rd_transactions sync_data) in
  mret {| ssu_block_num := ssu_block_num state_sync_update;
          ssu_block_updates := block_updates;
          ssu_note_updates := note_updates;
          ssu_transaction_updates := transaction_updates;
          ssu_account_updates := ssu_account_updates state_sync_update |}.

(** *** The whole sync *)

(** The records of the public notes whose proof is in one of the note blocks. *)
Definition build_public_note_records (note_blocks : list NoteSyncBlock)
    (public_notes : gmap NoteId Note) : gmap NoteId InputNoteRecord :=
  foldl (λ records '(note_id, note),
      match head (omap (M:=list) (λ b, nsb_notes b !! note_id) note_blocks) with
      | Some committed =>
          let record := {|
            in_details := Note_into_details note;
            in_created_at := None;
            in_state := Unverified {|
              Unverified_metadata := Note_metadata note;
              Unverified_inclusion_proof := cn_inclusion_proof committed |} |} in
          <[InputNoteRecord_id record := record]> records
      | None => records
      end)
    ∅ (btree_to_list public_notes).

(** The update every sync starts from. *)
Definition initial_update (block_num : BlockNumber) (input : StateSyncInput) : StateSyncUpdate := {|
  ssu_block_num := block_num;
  ssu_block_updates := BlockUpdates_default;
  ssu_note_updates := NoteUpdateTracker_new (si_input_notes input) (si_output_notes input);
  ssu_transaction_updates := TransactionUpdateTracker_new (si_uncommitted_transactions input);
  ssu_account_updates := AccountUpdates_default
|}.

Definition sync_state (fuel : nat) (self : StateSync) (input : StateSyncInput) :
    mmr_m StateSyncUpdate :=
  mmr ← mmr_get;
  block_num ← keep (lift (ok_or
    (try_from U32_MAX (saturating_sub (mmr_num_leaves mmr) 1))
    Client_InvalidPartialMmrForest));
  let state_sync_update := initial_update block_num input in
  let account_ids := AccountHeader_id <$> si_accounts input in
  sync_data ← keep (fetch_sync_data fuel (ssu_block_num state_sync_update) account_ids
    (si_note_tags input));
  if rd_chain_tip sync_data =? ssu_block_num state_sync_update then mret state_sync_update
  else
    let public_note_records :=
      build_public_note_records (rd_note_blocks sync_data) (rd_public_notes sync_data) in
    account_updates ← keep (lift (account_state_sync (ssu_account_updates state_sync_update)
      (si_accounts input) (rd_account_commitment_updates sync_data)));
    let state_sync_update := {|
      ssu_block_num := rd_chain_tip sync_data;
      ssu_block_updates := ssu_block_updates state_sync_update;
      ssu_note_updates := ssu_note_updates state_sync_update;
      ssu_transaction_updates := ssu_transaction_updates state_sync_update;
      ssu_account_updates := account_updates |} in
    state_sync_update ← apply_sync_result self sync_data public_note_records state_sync_update;
    if sync_nullifiers_enabled self then
      keep (lift (nullifiers_state_sync state_sync_update block_num))
    else mret state_sync_update.
End sync.

(** ** Lemmas *)

Section lemmas.
Context `{NodeRpcClient} `{!OnNoteReceived}.

(** Every input note of the tracker satisfies [P]. *)
Definition tracker_all (P : InputNoteRecord → Prop) (t : NoteUpdateTracker) : Prop :=
  ∀ id u, input_notes t !! id = Some u → P (iu_note u).

(** [P] survives every call on a record. *)
Definition step_closed (P : InputNoteRecord → Prop) : Prop :=
  ∀ r r', P r → note_step r r' → P r'.

Lemma step_closed_steps P r r' : step_closed P → P r → rtc note_step r r' → P r'.
Proof. intros Hc Hp Hs. induction Hs; eauto. Qed.

Lemma tracker_all_insert P t id u :
  tracker_all P t → P (iu_note u) → tracker_all P (set_input_notes t (<[id := u]> (input_notes t))).
Proof. intros Ht Hu id' u'. simpl. rewrite lookup_insert. case_decide; [by intros [= <-]|apply Ht]. Qed.

Lemma committed_all P t note header b t' :
  step_closed P → tracker_all P t →
  apply_committed_note_state_transitions t note header = Ok (b, t') → tracker_all P t'.
Proof.
  intros Hc Ht. unfold apply_committed_note_state_transitions, note_error. intros Hs.
  apply bind_Ok in Hs as ([b1 t1] & Hs1 & Hs). apply bind_Ok in Hs as (t2 & Hs2 & Hs).
  injection Hs as <- <-.
  assert (tracker_all P t1) as Ht1.
  { destruct (input_notes t !! _) as [u|] eqn:Eu; inv_ok; [|done].
    apply tracker_all_insert; [done|]. simpl.
    eapply Hc; [|eauto using header_step]. eapply Hc; [|eauto using proof_step]. by eapply Ht. }
  destruct (output_notes t1 !! _) as [u|] eqn:Eu; inv_ok; done.
Qed.

Lemma public_all P t note header t' :
  step_closed P → tracker_all P t → P note →
  apply_new_public_note t note header = Ok t' → tracker_all P t'.
Proof.
  intros Hc Ht Hn. unfold apply_new_public_note, note_error. intros Hs. inv_ok.
  intros id u. simpl. rewrite lookup_insert. case_decide; [|apply Ht].
  intros [= <-]. simpl. eauto using header_step.
Qed.

Lemma nullifiers_all P t update txs t' :
  step_closed P → tracker_all P t →
  apply_nullifiers_state_transitions t update txs = Ok t' → tracker_all P t'.
Proof.
  intros Hc Ht. unfold apply_nullifiers_state_transitions, note_error. intros Hs.
  apply bind_Ok in Hs as (t1 & Hs1 & Hs).
  assert (tracker_all P t1) as Ht1.
  { unfold get_input_note_update_by_nullifier in Hs1.
    destruct (input_notes_by_nullifier t !! _) as [id|]; simpl in Hs1; [|by inv_ok].
    destruct (input_notes t !! id) as [u|] eqn:Eu; simpl in Hs1; [|by inv_ok].
    apply bind_Ok in Hs1 as (u' & Hn & Hs1). injection Hs1 as <-.
    apply tracker_all_insert; [done|]. apply nullify_steps in Hn as [Hn _].
    eapply step_closed_steps; [done|by eapply Ht|done]. }
  unfold get_output_note_by_nullifier in Hs.
  destruct (output_notes_by_nullifier t1 !! _) as [id|]; simpl in Hs; [|by inv_ok].
  destruct (output_notes t1 !! id) as [u|] eqn:Eu; simpl in Hs; inv_ok; done.
Qed.

Lemma extend_input_notes l : ∀ t t',
  extend_nullifiers t l = Some t' → input_notes t' = input_notes t.
Proof.
  induction l as [|n l IH]; intros t t'; simpl; [by intros [= <-]|].
  intros (p & _ & Hl)%bind_Some. by rewrite (IH _ _ Hl).
Qed.

Lemma tracker_new_all P ins outs :
  Forall P ins → tracker_all P (NoteUpdateTracker_new ins outs).
Proof.
  intros Hins. unfold NoteUpdateTracker_new.
  assert (∀ l t, tracker_all P t →
    tracker_all P (foldl (λ t note, insert_output_note t note UpdateNone) t l)) as Hout.
  { induction l; intros t Ht; simpl; [done|]. apply IHl. intros id u. apply Ht. }
  apply Hout. clear Hout outs.
  assert (∀ t, tracker_all P t →
    tracker_all P (foldl (λ t note, insert_input_note t note UpdateNone) t ins)) as Hin.
  { induction Hins as [|r l Hr Hl IH]; intros t Ht; simpl; [done|]. apply IH. intros id u. simpl.
    rewrite lookup_insert. case_decide; [by intros [= <-]|apply Ht]. }
  apply Hin. intros id u. simpl. by rewrite lookup_empty.
Qed.

(** The callback only asks to insert the public note it was given. *)
Definition inserts_given_note : Prop :=
  ∀ cn pn r, on_note_received cn pn = Ok (Action_Insert r) → pn = Some r.

Lemma note_state_sync_all P t inclusions header publics b t' :
  step_closed P → inserts_given_note → (∀ id r, publics !! id = Some r → P r) →
  tracker_all P t → note_state_sync t inclusions header publics = Ok (b, t') → tracker_all P t'.
Proof.
  intros Hc Hcb Hpub Ht Hs. unfold note_state_sync in Hs.
  refine (try_fold_inv (λ acc, tracker_all P acc.2) _ _ _ (b, t') _ _ Hs); [done|].
  intros [b1 t1] cn [b2 t2] _ Ht1. simpl in *. unfold note_state_sync_step. intros Hstep.
  apply bind_Ok in Hstep as (action & Ha & Hstep). destruct action as [cn'|r|].
  - apply bind_Ok in Hstep as ([tracked t3] & Hst & Hstep). injection Hstep as _ <-.
    by eapply committed_all.
  - apply bind_Ok in Hstep as (t3 & Hst & Hstep). injection Hstep as _ <-.
    eapply public_all; [done|done| |done]. apply Hcb in Ha. case_bool_decide; [eauto|done].
  - by injection Hstep as _ <-.
Qed.

(** What a successful run of each kind of step gives. *)
Lemma mmr_bind_Ok {A B} (m : mmr_m A) (f : A → mmr_m B) s s' b :
  (m ≫= f) s = (s', Finished (Ok b)) ↔
  ∃ s1 a, m s = (s1, Finished (Ok a)) ∧ f a s1 = (s', Finished (Ok b)).
Proof. unfold mbind, mmr_bind. destruct (m s) as [s1 [[a|e]| |]]; naive_solver. Qed.

Lemma mmr_fold_inv {A B} (P : B → Prop) (f : B → A → mmr_m B) l : ∀ b b' s s',
  P b → (∀ b a b' s s', P b → f b a s = (s', Finished (Ok b')) → P b') →
  mmr_fold f l b s = (s', Finished (Ok b')) → P b'.
Proof.
  induction l as [|a l IH]; intros b b' s s' Hb Hf Hs; [by injection Hs as _ <-|].
  apply mmr_bind_Ok in Hs as (s1 & b1 & Hb1 & Hs). eapply IH; [|done|done]. by eapply Hf.
Qed.

Lemma note_blocks_all P publics blocks acc acc' s s' :
  step_closed P → inserts_given_note → (∀ id r, publics !! id = Some r → P r) →
  tracker_all P acc.1 → mmr_fold (note_block_step publics) blocks acc s = (s', Finished (Ok acc')) →
  tracker_all P acc'.1.
Proof.
  intros Hc Hcb Hpub Ht Hs.
  refine (mmr_fold_inv (λ acc, tracker_all P acc.1) _ _ acc acc' s s' Ht _ Hs).
  intros [t1 bu1] block [t2 bu2] r r' Ht1 Hstep. simpl in *.
  apply mmr_bind_Ok in Hstep as (r1 & [found t3] & Hn & Hstep). injection Hn as <- Hn.
  assert (tracker_all P t3) by (by eapply note_state_sync_all).
  destruct found; [|by injection Hstep as _ <- _].
  repeat apply mmr_bind_Ok in Hstep as (? & ? & _ & Hstep). by injection Hstep as _ <- _.
Qed.

Lemma nullifier_steps_all P l acc acc' :
  step_closed P → tracker_all P acc.1 → try_fold nullifier_step l acc = Ok acc' →
  tracker_all P acc'.1.
Proof.
  intros Hc Ht Hs. refine (try_fold_inv (λ acc, tracker_all P acc.1) _ _ _ acc' Ht _ Hs).
  intros [t1 x1] n [t2 x2] _ Ht1 Hstep. simpl in *. unfold nullifier_step in Hstep.
  apply bind_Ok in Hstep as (t3 & Hn & Hstep). simplify_eq. by eapply nullifiers_all.
Qed.

Lemma nullifier_steps_rel l acc acc' :
  try_fold nullifier_step l acc = Ok acc' → discard_rel acc.2 acc'.2.
Proof.
  intros Hs. refine (try_fold_inv (λ a, discard_rel acc.2 a.2) _ _ _ acc' (discard_rel_refl _) _ Hs).
  intros [t1 x1] n [t2 x2] _ Hr Hstep. simpl in *. unfold nullifier_step in Hstep.
  apply bind_Ok in Hstep as (t3 & Hn & Hstep). simplify_eq.
  eapply discard_rel_trans; [done|]. apply discard_with_predicate_rel.
Qed.

Lemma public_records_unverified blocks publics id r :
  build_public_note_records blocks publics !! id = Some r → initial_record r.
Proof.
  unfold build_public_note_records.
  assert (∀ l (m : gmap NoteId InputNoteRecord),
    (∀ id r, m !! id = Some r → initial_record r) →
    ∀ id r, foldl (λ records '(note_id, note),
      match head (omap (M:=list) (λ b, nsb_notes b !! note_id) blocks) with
      | Some committed =>
          let record := {|
            in_details := Note_into_details note;
            in_created_at := None;
            in_state := Unverified {|
              Unverified_metadata := Note_metadata note;
              Unverified_inclusion_proof := cn_inclusion_proof committed |} |} in
          <[InputNoteRecord_id record := record]> records
      | None => records
      end) m l !! id = Some r → initial_record r) as Hl.
  { induction l as [|[k n] l IH]; intros m Hm id0 r0; simpl; [apply Hm|]. apply IH.
    destruct (head _) as [c|]; [|done]. intros id1 r1. rewrite lookup_insert.
    case_decide; [by intros [= <-]|apply Hm]. }
  apply Hl. intros ? ?. by rewrite lookup_empty.
Qed.

(** *** The stages as steps of the tracker *)

Lemma note_state_sync_steps t inclusions header publics b t' :
  note_state_sync t inclusions header publics = Ok (b, t') → rtc note_tracker_step t t'.
Proof.
  intros Hs. unfold note_state_sync in Hs.
  refine (try_fold_inv (λ acc, rtc note_tracker_step t acc.2) _ _ _ (b, t') _ _ Hs);
    [apply rtc_refl|].
  intros [b1 t1] cn [b2 t2] _ Ht1. simpl in *. unfold note_state_sync_step. intros Hstep.
  apply bind_Ok in Hstep as (action & Ha & Hstep). destruct action as [cn'|r|].
  - apply bind_Ok in Hstep as ([tracked t3] & Hst & Hstep). injection Hstep as _ <-.
    eapply rtc_r; [done|]. by eapply nts_committed.
  - apply bind_Ok in Hstep as (t3 & Hst & Hstep). injection Hstep as _ <-.
    eapply rtc_r; [done|]. by eapply nts_public.
  - by injection Hstep as _ <-.
Qed.

Lemma note_blocks_steps publics blocks acc acc' s s' :
  mmr_fold (note_block_step publics) blocks acc s = (s', Finished (Ok acc')) →
  rtc note_tracker_step acc.1 acc'.1.
Proof.
  refine (mmr_fold_inv (λ a, rtc note_tracker_step acc.1 a.1) _ _ acc acc' s s' (rtc_refl _ _) _).
  intros [t1 bu1] block [t2 bu2] r r' Ht1 Hstep. simpl in *.
  apply mmr_bind_Ok in Hstep as (r1 & [found t3] & Hn & Hstep). injection Hn as <- Hn.
  assert (rtc note_tracker_step acc.1 t3) by (etrans; [done|]; by eapply note_state_sync_steps).
  destruct found; [|by injection Hstep as _ <- _].
  repeat apply mmr_bind_Ok in Hstep as (? & ? & _ & Hstep). by injection Hstep as _ <- _.
Qed.

(** A nullifier update only moves input notes along their life. *)
Lemma nullifiers_input_steps t update txs t' id u' :
  apply_nullifiers_state_transitions t update txs = Ok t' → input_notes t' !! id = Some u' →
  ∃ u, input_notes t !! id = Some u ∧ rtc note_step (iu_note u) (iu_note u').
Proof.
  unfold apply_nullifiers_state_transitions, note_error. intros Hs Hu'.
  apply bind_Ok in Hs as (t1 & Hs1 & Hs).
  assert (input_notes t1 !! id = Some u') as Hu1.
  { unfold get_output_note_by_nullifier in Hs.
    destruct (output_notes_by_nullifier t1 !! _) as [oid|]; simpl in Hs; [|by inv_ok].
    destruct (output_notes t1 !! oid) as [u|] eqn:Eu; simpl in Hs; inv_ok; done. }
  clear Hs Hu'. unfold get_input_note_update_by_nullifier in Hs1.
  destruct (input_notes_by_nullifier t !! _) as [id0|]; simpl in Hs1; [|inv_ok; eauto using rtc_refl].
  destruct (input_notes t !! id0) as [u0|] eqn:Eu; simpl in Hs1; [|inv_ok; eauto using rtc_refl].
  apply bind_Ok in Hs1 as (u2 & Hn & Hs1). injection Hs1 as <-. simpl in Hu1.
  rewrite lookup_insert in Hu1. case_decide; simplify_eq; [|eauto using rtc_refl].
  apply nullify_steps in Hn as [Hn _]. eauto.
Qed.

Lemma nullifiers_index t update txs t' :
  apply_nullifiers_state_transitions t update txs = Ok t' →
  input_notes_by_nullifier t' = input_notes_by_nullifier t.
Proof.
  unfold apply_nullifiers_state_transitions, note_error. intros Hs.
  apply bind_Ok in Hs as (t1 & Hs1 & Hs). trans (input_notes_by_nullifier t1).
  - destruct (get_output_note_by_nullifier t1 _) as [[]|]; inv_ok; done.
  - destruct (get_input_note_update_by_nullifier t _) as [[]|]; inv_ok; done.
Qed.

Lemma consumed_steps r r' :
  rtc note_step r r' → InputNoteRecord_is_consumed r = true → InputNoteRecord_is_consumed r' = true.
Proof.
  induction 1 as [|r1 r2 r3 Hs _ IH]; [done|]. intros Hc. apply IH.
  by destruct (consumed_step _ _ Hc Hs) as [? _].
Qed.
End lemmas.

Section laws.
Context `{NodeRpcClient} `{!OnNoteReceived} `{!ProtocolLaws}.

(** After a nullifier update, the tracked note of that nullifier is consumed. *)
Lemma nullified_note_consumed t update txs t' id u' :
  tracker_wf t → all_committed txs →
  apply_nullifiers_state_transitions t update txs = Ok t' →
  input_notes t' !! id = Some u' → InputNoteRecord_nullifier (iu_note u') = nu_nullifier update →
  InputNoteRecord_is_consumed (iu_note u') = true.
Proof.
  intros Hwf Htxs Hs Hu' Hn.
  assert (input_notes_by_nullifier t !! nu_nullifier update = Some id) as Hix.
  { rewrite <-(nullifiers_index _ _ _ _ Hs).
    apply (wf_in_index _ (nullifiers_wf _ _ _ _ Hs Hwf)). eauto. }
  destruct (proj1 (wf_in_index _ Hwf _ _) Hix) as (u & Hu & Hnu).
  destruct (nullifiers_input_steps _ _ _ _ _ _ Hs Hu') as (u0 & Hu0 & Hst). simplify_eq.
  destruct (InputNoteRecord_is_consumed (iu_note u)) eqn:Hc; [by eapply consumed_steps|].
  destruct (nullify_outcome u update txs (get_nullifier_order t (nu_nullifier update)) Hc Hnu Htxs)
    as (u2 & Hu2 & Hc2 & _).
  unfold apply_nullifiers_state_transitions, get_input_note_update_by_nullifier in Hs.
  rewrite Hix in Hs. simpl in Hs. rewrite Hu in Hs. simpl in Hs. rewrite Hu2 in Hs. simpl in Hs.
  assert (u' = u2) as ->; [|done].
  destruct (get_output_note_by_nullifier _ _) as [[oid o]|]; unfold note_error in Hs; inv_ok;
    simpl in Hu'; rewrite lookup_insert_eq in Hu'; by injection Hu'.
Qed.

Lemma committed_all_committed x : all_committed (committed_transactions x).
Proof. apply Forall_forall. intros tx Htx. by apply elem_of_committed_transactions in Htx as [_ ?]. Qed.

(** Applying a list of nullifier updates consumes the notes of all of them. *)
Lemma nullifier_steps_consume l : ∀ acc acc',
  tracker_wf acc.1 → try_fold nullifier_step l acc = Ok acc' →
  ∀ id u', input_notes acc'.1 !! id = Some u' →
  (∃ u, input_notes acc.1 !! id = Some u ∧ rtc note_step (iu_note u) (iu_note u')) ∧
  (InputNoteRecord_nullifier (iu_note u') ∈ nu_nullifier <$> l →
    InputNoteRecord_is_consumed (iu_note u') = true).
Proof.
  induction l as [|n l IH]; intros [t x] acc' Hwf Hs id u' Hu'; simpl in Hs.
  { injection Hs as <-. split; [eauto using rtc_refl|by intros ?%not_elem_of_nil]. }
  apply bind_Ok in Hs as ([t1 x1] & Hstep & Hs). apply bind_Ok in Hstep as (t2 & Hn & Hstep).
  injection Hstep as -> <-.
  destruct (IH (t1, _) acc' (nullifiers_wf _ _ _ _ Hn Hwf) Hs id u' Hu') as [(u1 & Hu1 & Hr) Hc].
  destruct (nullifiers_input_steps _ _ _ _ _ _ Hn Hu1) as (u & Hu & Hr').
  split; [exists u; split; [done|by etrans]|]. intros [Heq|Hin]%elem_of_cons; [|by apply Hc].
  eapply consumed_steps; [done|].
  eapply nullified_note_consumed; [exact Hwf|apply committed_all_committed|done..|].
  rewrite <-Heq. unfold InputNoteRecord_nullifier. by rewrite (steps_details _ _ Hr).
Qed.
End laws.

(** *** What a successful sync did *)

Section inversion.
Context `{NodeRpcClient} `{!OnNoteReceived}.

Lemma fetch_sync_data_tip fuel bn accounts tags data :
  fetch_sync_data fuel bn accounts tags = Finished (Ok data) →
  ∃ proof, rpc_get_block_header_by_number None false = Ok (rd_chain_tip_header data, proof) ∧
    rd_chain_tip data = BlockHeader_block_num (rd_chain_tip_header data) ∧
    (rd_chain_tip data ≠ bn → ∃ info, rpc_sync_chain_mmr bn (Some (rd_chain_tip data)) = Ok info ∧
      rd_mmr_delta data = cmi_mmr_delta info).
Proof.
  unfold fetch_sync_data. intros Hf. apply eff_bind_Ok in Hf as ([header proof] & Hh & Hf).
  injection Hh as Hh. apply map_err_Ok in Hh. exists proof.
  destruct (Z.eqb_spec (BlockHeader_block_num header) bn) as [Heq|Hne].
  - injection Hf as <-. done.
  - apply eff_bind_Ok in Hf as (info & Hi & Hf). apply eff_bind_Ok in Hf as (notes & _ & Hf).
    apply eff_bind_Ok in Hf as ([[us ts] ns] & _ & Hf). injection Hf as <-.
    injection Hi as Hi. apply map_err_Ok in Hi. split_and!; eauto.
Qed.

(** The parts of an update that a sync to the tip computes. *)
Record synced (self : StateSync) (input : StateSyncInput) (bn : BlockNumber) (s s' : PartialMmr)
    (data : RawStateSyncData) (notes : NoteUpdateTracker) (u : StateSyncUpdate) : Prop := {
  synced_block : ssu_block_num u = rd_chain_tip data;
  synced_mmr : ∃ s1 nodes notes0 bu bu',
    mmr_apply s (rd_mmr_delta data) = (s1, Ok nodes) ∧
    mmr_fold (note_block_step
        (build_public_note_records (rd_note_blocks data) (rd_public_notes data)))
      (rd_note_blocks data)
      (NoteUpdateTracker_new (si_input_notes input) (si_output_notes input), bu)
      (mmr_add s1 (BlockHeader_commitment (rd_chain_tip_header data)) false).1 =
      (s', Finished (Ok (notes0, bu'))) ∧
    extend_nullifiers notes0 (rd_nullifiers data) = Some notes;
  synced_nullifiers :
    let txs := transaction_state_sync self
      (TransactionUpdateTracker_new (si_uncommitted_transactions input))
      (rd_chain_tip_header data) (rd_transactions data) in
    if sync_nullifiers_enabled self then
      ∃ l, rpc_sync_nullifiers (Nullifier_prefix <$> unspent_nullifiers notes) bn
          (Some (rd_chain_tip data)) = Ok l ∧
        try_fold nullifier_step (filter (λ x, nu_block_num x ≤ rd_chain_tip data) l) (notes, txs) =
          Ok (ssu_note_updates u, ssu_transaction_updates u)
    else ssu_note_updates u = notes ∧ ssu_transaction_updates u = txs
}.

Lemma apply_sync_result_inv self data publics u0 s s' u :
  apply_sync_result self data publics u0 s = (s', Finished (Ok u)) →
  ssu_block_num u = ssu_block_num u0 ∧
  ssu_transaction_updates u = transaction_state_sync self (ssu_transaction_updates u0)
    (rd_chain_tip_header data) (rd_transactions data) ∧
  ∃ s1 nodes notes0 bu bu',
    mmr_apply s (rd_mmr_delta data) = (s1, Ok nodes) ∧
    mmr_fold (note_block_step publics) (rd_note_blocks data) (ssu_note_updates u0, bu)
      (mmr_add s1 (BlockHeader_commitment (rd_chain_tip_header data)) false).1 =
      (s', Finished (Ok (notes0, bu'))) ∧
    extend_nullifiers notes0 (rd_nullifiers data) = Some (ssu_note_updates u).
Proof.
  unfold apply_sync_result. intros Hs. apply mmr_bind_Ok in Hs as (s1 & nodes & Ha & Hs).
  apply mmr_bind_Ok in Hs as (s2 & m & Hg & Hs). injection Hg as <- <-.
  apply mmr_bind_Ok in Hs as (s2 & tip & Hadd & Hs).
  destruct (mmr_add s1 _ _) as [s3 nodes3] eqn:Eadd. injection Hadd as <- <-.
  apply mmr_bind_Ok in Hs as (s4 & [notes0 bu'] & Hfold & Hs).
  apply mmr_bind_Ok in Hs as (s5 & notes & Hext & Hs). injection Hext as <- Hext.
  injection Hs as <- <-. simpl. split_and!; [done..|].
  unfold mmr_call in Ha. destruct (mmr_apply s _) as [s6 [n|e]]; [|done]. injection Ha as <- <-.
  destruct (extend_nullifiers notes0 _) eqn:He; [|done]. injection Hext as <-.
  eexists _, _, notes0, _, bu'. rewrite Eadd. split_and!; [done| |done]. exact Hfold.
Qed.

(** A successful sync is either one that found nothing new, or one to the tip. *)
Lemma sync_state_inv fuel self input s s' u :
  sync_state fuel self input s = (s', Finished (Ok u)) →
  let bn := saturating_sub (mmr_num_leaves s) 1 in
  bn ≤ U32_MAX ∧
  ∃ data, fetch_sync_data fuel bn (AccountHeader_id <$> si_accounts input) (si_note_tags input) =
      Finished (Ok data) ∧
    (rd_chain_tip data = bn ∧ s' = s ∧ u = initial_update bn input ∨
     rd_chain_tip data ≠ bn ∧ ∃ notes, synced self input bn s s' data notes u).
Proof.
  intros Hs bn. unfold sync_state in Hs. apply mmr_bind_Ok in Hs as (s1 & m & Hg & Hs).
  injection Hg as <- <-. apply mmr_bind_Ok in Hs as (s1 & bn' & Hb & Hs). injection Hb as <- Hb.
  apply ok_or_Ok in Hb. unfold try_from in Hb. fold bn in Hb.
  destruct (in_rangeb U32_MAX bn) eqn:Er; [|done]. injection Hb as <-.
  unfold in_rangeb in Er. split; [lia|].
  apply mmr_bind_Ok in Hs as (s1 & data & Hf & Hs). injection Hf as <- Hf.
  exists data. split; [done|]. simpl in Hs. destruct (Z.eqb_spec (rd_chain_tip data) bn) as [Heq|Hne].
  { left. by injection Hs as <- <-. }
  right. split; [done|]. apply mmr_bind_Ok in Hs as (s1 & au & Hau & Hs). injection Hau as <- _.
  apply mmr_bind_Ok in Hs as (s1 & u1 & Hu1 & Hs).
  destruct (apply_sync_result_inv _ _ _ _ _ _ _ Hu1) as (Hbn & Htx & Hm). simpl in *.
  exists (ssu_note_updates u1). destruct (sync_nullifiers_enabled self) eqn:En.
  - injection Hs as -> Hs. unfold nullifiers_state_sync in Hs.
    apply bind_Ok in Hs as (l & Hl & Hs). apply map_err_Ok in Hl. rewrite Hbn in Hl, Hs.
    apply bind_Ok in Hs as ([n t] & Hfold & Hs). injection Hs as <-.
    split; [done|done|]. rewrite En. exists l. split; [done|]. by rewrite <-Htx.
  - injection Hs as -> <-. split; [done|done|]. rewrite En. auto.
Qed.
End inversion.

(** ** Correctness *)

Section mmr_state.
Context `{NodeRpcClient} `{!OnNoteReceived} `{!MmrLaws}.

Lemma note_block_leaves publics acc block s :
  mmr_num_leaves (note_block_step publics acc block s).1 = mmr_num_leaves s.
Proof.
  destruct acc as [t bu]. unfold note_block_step, mbind, mmr_bind, keep, lift.
  destruct (note_state_sync _ _ _ _) as [[[] t']|e]; [|done..].
  simpl. destruct (mmr_is_tracked s _); [done|].
  unfold mmr_call. pose proof (mmr_track_leaves s (BlockHeader_block_num (nsb_block_header block))
    (BlockHeader_commitment (nsb_block_header block)) (nsb_mmr_path block)) as Hl.
  destruct (mmr_track s _ _ _) as [s' [[]|e]]; done.
Qed.

Lemma note_blocks_leaves publics blocks : ∀ acc s,
  mmr_num_leaves (mmr_fold (note_block_step publics) blocks acc s).1 = mmr_num_leaves s.
Proof.
  induction blocks as [|block blocks IH]; intros acc s; [done|]. simpl.
  unfold mbind, mmr_bind. pose proof (note_block_leaves publics acc block s) as Hl.
  destruct (note_block_step _ _ _ _) as [s1 [[a|e]| |]]; simpl in *; [by rewrite IH|done..].
Qed.

End mmr_state.

(** C28: a sync ends at the tip of the node, and the MMR where the delta of the node ends.
    Whatever the node sends, the update of a successful sync carries the block number of the
    tip.  A sync that did not start there leaves an MMR with one leaf more than the forest of
    the delta that the node sent, which is not compared with the tip.  When the forest is
    that of the blocks before the tip, as the code expects, the next sync with the node still
    at that tip finds nothing to do, whatever its input: it returns the input unchanged and
    does not touch the MMR.  With any other delta the next sync asks the node again, from the
    block where the MMR ended. *)
Theorem sync_ends_at_the_tip `{NodeRpcClient} `{!OnNoteReceived} `{!MmrLaws}
    fuel self input s s' u header proof :
  rpc_get_block_header_by_number None false = Ok (header, proof) →
  in_range U32_MAX (BlockHeader_block_num header) →
  sync_state fuel self input s = (s', Finished (Ok u)) →
  let tip := BlockHeader_block_num header in
  let height (m : PartialMmr) := saturating_sub (mmr_num_leaves m) 1 in
  ssu_block_num u = tip ∧
  (height s = tip ∧ s' = s ∨
   height s ≠ tip ∧ ∃ info, rpc_sync_chain_mmr (height s) (Some tip) = Ok info ∧
     mmr_num_leaves s' = MmrDelta_forest (cmi_mmr_delta info) + 1) ∧
  (height s' = tip → ∀ fuel' self' input',
     sync_state fuel' self' input' s' = (s', Finished (Ok (initial_update tip input')))) ∧
  (height s' ≠ tip → ∀ fuel' self' input' s2 u2,
     sync_state fuel' self' input' s' = (s2, Finished (Ok u2)) →
     ∃ info, rpc_sync_chain_mmr (height s') (Some tip) = Ok info).
Proof.
  intros Hh Hr (Hle & data & Hf & Hcase)%sync_state_inv tip height.
  destruct (fetch_sync_data_tip _ _ _ _ _ Hf) as (proof' & Hh' & Htip & Hinfo).
  rewrite Hh in Hh'. injection Hh' as -> ->. fold tip in Htip. fold (height s) in *.
  split_and!.
  - destruct Hcase as [(Heq & -> & ->)|(Hne & notes & Hsync)]; [simpl; congruence|].
    by rewrite (synced_block _ _ _ _ _ _ _ _ Hsync).
  - destruct Hcase as [(Heq & -> & _)|(Hne & notes & Hsync)]; [left; split; [congruence|done]|right].
    destruct (synced_mmr _ _ _ _ _ _ _ _ Hsync) as (s1 & nodes & n0 & bu & bu' & Ha & Hfold & _).
    destruct (Hinfo Hne) as (info & Hi & Hdelta). rewrite Htip in *.
    split; [done|]. exists info. split; [done|].
    apply mmr_apply_leaves in Ha. rewrite <-Hdelta, <-Ha.
    rewrite <-(mmr_add_leaves s1 (BlockHeader_commitment (rd_chain_tip_header data)) false).
    apply (f_equal (λ x, mmr_num_leaves x.1)) in Hfold. by rewrite note_blocks_leaves in Hfold.
  - intros Hs' fuel' self' input'. unfold sync_state.
    unfold mbind at 1, mmr_bind at 1, mmr_get. simpl. fold (height s'). rewrite Hs'.
    unfold try_from. replace (in_rangeb _ _) with true by (unfold in_rangeb, in_range, tip in *; lia).
    unfold mbind, mmr_bind, keep, lift. simpl. unfold fetch_sync_data. rewrite Hh. simpl. fold tip.
    rewrite Z.eqb_refl. simpl. by rewrite Z.eqb_refl.
  - intros Hs' fuel' self' input' s2 u2 (_ & data2 & Hf2 & _)%sync_state_inv. fold (height s') in Hf2.
    destruct (fetch_sync_data_tip _ _ _ _ _ Hf2) as (proof2 & Hh2 & Htip2 & Hinfo2).
    rewrite Hh in Hh2. injection Hh2 as Hh2 _. rewrite <-Hh2 in Htip2. fold tip in Htip2.
    destruct Hinfo2 as (info & Hi & _); [congruence|]. exists info. by rewrite <-Htip2.
Qed.

(** What survives every call on a record, and holds of the records given to a sync
    and of those of new public notes, holds of every record of the update. *)
Lemma sync_tracker_all `{NodeRpcClient} `{!OnNoteReceived} P fuel self input s s' u :
  step_closed P → (∀ r, initial_record r → P r) → Forall P (si_input_notes input) →
  inserts_given_note → sync_state fuel self input s = (s', Finished (Ok u)) →
  tracker_all P (ssu_note_updates u).
Proof.
  intros Hc Hinit Hin Hcb (_ & data & _ & Hcase)%sync_state_inv.
  pose proof (tracker_new_all P _ (si_output_notes input) Hin) as H0'.
  destruct Hcase as [(_ & _ & ->)|(_ & notes & Hsync)]; [done|].
  destruct (synced_mmr _ _ _ _ _ _ _ _ Hsync) as (s1 & nodes & n0 & bu & bu' & _ & Hfold & Hext).
  assert (tracker_all P notes) as Hnotes.
  { intros id' u'. rewrite (extend_input_notes _ _ _ Hext).
    apply (note_blocks_all _ _ _ _ _ _ _ Hc Hcb) in Hfold; [apply Hfold| |done].
    intros k r Hr%public_records_unverified. by apply Hinit. }
  pose proof (synced_nullifiers _ _ _ _ _ _ _ _ Hsync) as Hn. simpl in Hn.
  destruct (sync_nullifiers_enabled self); [|by destruct Hn as [-> _]].
  destruct Hn as (l & _ & Hfold'). by eapply (nullifier_steps_all _ _ _ _ Hc) in Hfold'.
Qed.

Lemma sync_auth_inv `{NodeRpcClient} `{!OnNoteReceived} fuel self input s s' u :
  Forall auth_inv (si_input_notes input) → inserts_given_note →
  sync_state fuel self input s = (s', Finished (Ok u)) → tracker_all auth_inv (ssu_note_updates u).
Proof.
  intros Hin Hcb. apply sync_tracker_all; [|intros r Hr|done..].
  - intros ??. apply auth_inv_step.
  - apply auth_inv_reachable. by exists r.
Qed.

(** C3: nothing that a sync stores as authenticated escapes verification.  When
    the records given to a sync are sound, and the callback inserts only the
    public notes it is shown, every authenticated input note of the update carries
    a proof of its commitment in the note root stored with it: a note that the
    node invents is never accepted on the node's word. *)
Theorem synced_notes_are_authentic `{NodeRpcClient} `{!OnNoteReceived}
    fuel self input s s' u id iu :
  Forall auth_inv (si_input_notes input) → inserts_given_note →
  sync_state fuel self input s = (s', Finished (Ok u)) →
  input_notes (ssu_note_updates u) !! id = Some iu →
  InputNoteRecord_is_authenticated (iu_note iu) = true →
  ∃ root, authenticated_root (in_state (iu_note iu)) = Some root ∧ proof_shows (iu_note iu) root.
Proof.
  intros Hin Hcb Hsync Hiu. pose proof (sync_auth_inv _ _ _ _ _ _ Hin Hcb Hsync) as Hall.
  apply auth_inv_authenticated. by eapply Hall.
Qed.

(** C29: no transaction is left pending after its time.  After a sync that moved,
    a transaction that is still pending expires after the new tip and, with a
    discard delta [d], was submitted at most [d] blocks before it. *)
Theorem pending_after_sync_is_live `{NodeRpcClient} `{!OnNoteReceived}
    fuel self input s s' u id tx :
  sync_state fuel self input s = (s', Finished (Ok u)) →
  ssu_block_num u ≠ saturating_sub (mmr_num_leaves s) 1 →
  ssu_transaction_updates u !! id = Some tx → is_pending (tx_status tx) = true →
  ssu_block_num u < tx_expiration_block_num (tx_details tx) ∧
  ∀ d, tx_discard_delta self = Some d →
    Z.max 0 (ssu_block_num u - d) ≤ tx_submission_height (tx_details tx).
Proof.
  intros (_ & data & Hf & Hcase)%sync_state_inv Hne Htx Hp.
  destruct (fetch_sync_data_tip _ _ _ _ _ Hf) as (proof & _ & Htip & _).
  destruct Hcase as [(_ & _ & ->)|(_ & notes & Hsync)]; [done|].
  rewrite (synced_block _ _ _ _ _ _ _ _ Hsync), Htip.
  pose proof (synced_nullifiers _ _ _ _ _ _ _ _ Hsync) as Hn. simpl in Hn.
  assert (transaction_state_sync self
      (TransactionUpdateTracker_new (si_uncommitted_transactions input))
      (rd_chain_tip_header data) (rd_transactions data) !! id = Some tx) as Ht.
  { destruct (sync_nullifiers_enabled self); [|by destruct Hn as [_ <-]].
    destruct Hn as (l & _ & Hfold%nullifier_steps_rel). simpl in Hfold.
    by eapply discard_rel_pending. }
  unfold transaction_state_sync in Ht.
  by apply sync_height_leaves_live_transactions in Ht as [_ Ht].
Qed.

(** The chain's spent nullifiers, as the node answers about them: a nullifier of
    the range whose prefix is asked for is reported, with its block. *)
Definition honest_nullifiers `{NodeRpcClient} (spent : Nullifier → option BlockNumber) : Prop :=
  ∀ prefixes from to l, rpc_sync_nullifiers prefixes from (Some to) = Ok l →
  ∀ n b, spent n = Some b → from ≤ b ≤ to → Nullifier_prefix n ∈ prefixes →
  ∃ x, x ∈ l ∧ nu_nullifier x = n ∧ nu_block_num x = b.

(** The gRPC client keeps that promise when the pages of the node are honest. *)
Lemma grpc_honest_nullifiers `{NodeRpcClient} request spent limits :
  (∀ prefixes from to l, rpc_sync_nullifiers prefixes from to = Ok l →
    sync_nullifiers request limits prefixes from to = Finished (Ok l)) →
  honest_nullifier_pages request spent → 0 < nullifiers_limit limits → honest_nullifiers spent.
Proof.
  intros Hrpc Hh Hl prefixes from to l Hok n b Hn Hb Hp.
  destruct (nullifier_result_spec request spent limits prefixes from (Some to) Hh Hl)
    as (r & Hr & Hspec). rewrite (Hrpc _ _ _ _ Hok) in Hr. injection Hr as <-.
  destruct (Hspec l eq_refl) as [Hin _]. eexists. split; [apply (Hin n b Hn Hp)|done]; [lia|].
  intros to' Hto. injection Hto as <-. lia.
Qed.

(** C7: a spent note is not left unspent.  With nullifier sync enabled and a node
    that reports the nullifiers it is asked about, after a sync from block [bn] to
    the tip every tracked input note whose nullifier entered the chain in between
    is consumed, whether it was tracked before the sync or was found by it. *)
Theorem spent_notes_are_consumed `{NodeRpcClient} `{!OnNoteReceived} `{!ProtocolLaws}
    fuel self input s s' u spent id iu b :
  sync_nullifiers_enabled self = true → Forall output_wf (si_output_notes input) →
  honest_nullifiers spent →
  sync_state fuel self input s = (s', Finished (Ok u)) →
  ssu_block_num u ≠ saturating_sub (mmr_num_leaves s) 1 →
  input_notes (ssu_note_updates u) !! id = Some iu →
  spent (InputNoteRecord_nullifier (iu_note iu)) = Some b →
  saturating_sub (mmr_num_leaves s) 1 ≤ b ≤ ssu_block_num u →
  InputNoteRecord_is_consumed (iu_note iu) = true.
Proof.
  intros Hen Hout Hspent (_ & data & _ & Hcase)%sync_state_inv Hne Hiu Hb Hrange.
  destruct Hcase as [(_ & _ & ->)|(_ & notes & Hsync)]; [done|].
  rewrite (synced_block _ _ _ _ _ _ _ _ Hsync) in Hrange.
  destruct (synced_mmr _ _ _ _ _ _ _ _ Hsync) as (s1 & nodes & n0 & bu & bu' & _ & Hfold & Hext).
  pose proof (synced_nullifiers _ _ _ _ _ _ _ _ Hsync) as Hn. simpl in Hn. rewrite Hen in Hn.
  destruct Hn as (l & Hl & Hsteps).
  assert (tracker_wf notes) as Hwf.
  { eapply extend_wf; [done|]. apply note_blocks_steps in Hfold. simpl in Hfold.
    assert (tracker_wf (NoteUpdateTracker_new (si_input_notes input) (si_output_notes input))) as Hw
      by (apply fold_outputs_wf; auto using fold_inputs_wf, default_wf).
    revert Hw. induction Hfold; eauto using note_tracker_step_wf. }
  destruct (nullifier_steps_consume _ (notes, _) _ Hwf Hsteps id iu Hiu) as [(u1 & Hu1 & Hst) Hc].
  destruct (InputNoteRecord_is_consumed (iu_note u1)) eqn:Hc1; [by eapply consumed_steps|].
  apply Hc. assert (InputNoteRecord_nullifier (iu_note u1) = InputNoteRecord_nullifier (iu_note iu))
    as Heq by (unfold InputNoteRecord_nullifier; by rewrite (steps_details _ _ Hst)).
  destruct (Hspent _ _ _ _ Hl _ _ Hb Hrange) as (x & Hx & Hxn & Hxb).
  - apply list_elem_of_fmap. eexists. split; [done|]. rewrite <-Heq.
    apply elem_of_app. left. apply list_elem_of_fmap. exists u1. split; [done|].
    apply list_elem_of_filter. split; [done|]. apply elem_of_btree_values. eauto.
  - apply list_elem_of_fmap. exists x. split; [done|]. apply list_elem_of_filter. split; [lia|done].
Qed.

(** ** Concrete syncs *)

Definition toy_screener : OnNoteReceived := λ cn pn,
  Ok match pn with Some r => Action_Insert r | None => Action_Commit cn end.

(** A client at block [3] that expects the note [(3, 5)], with a pending
    transaction. *)
Definition toy_input (tx : TransactionRecord) : StateSyncInput := {|
  si_accounts := [(7, 200, 1) : @AccountHeader toy_protocol];
  si_note_tags := ∅;
  si_input_notes := [toy_record STATE_EXPECTED];
  si_output_notes := [];
  si_uncommitted_transactions := [tx] |}.

Definition toy_sync (node : NodeRpcClient) (tx : TransactionRecord) (mmr : Z * list (Z * Z)) :
    (Z * list (Z * Z)) * eff ClientError StateSyncUpdate :=
  @sync_state _ _ node toy_screener 10 (StateSync_new (Some 15)) (toy_input tx) mmr.

(** The same node with other answers about nullifiers and transactions. *)
Definition with_answers (node : NodeRpcClient)
    (nullifiers : BlockNumber → result RpcError (list NullifierUpdate))
    (transactions : BlockNumber → result RpcError TransactionsInfo) : NodeRpcClient := {|
  rpc_get_block_header_by_number := @rpc_get_block_header_by_number _ _ node;
  rpc_get_notes_by_id := @rpc_get_notes_by_id _ _ node;
  rpc_sync_chain_mmr := @rpc_sync_chain_mmr _ _ node;
  rpc_get_account_details := @rpc_get_account_details _ _ node;
  rpc_sync_notes := @rpc_sync_notes _ _ node;
  rpc_sync_nullifiers := λ _ from _, nullifiers from;
  rpc_sync_transactions := λ from _ _, transactions from |}.

Definition toy_good : NodeRpcClient := toy_node 6 2 toy_chain.

(** A node that fails when asked about nullifiers. *)
Definition toy_unavailable : NodeRpcClient :=
  with_answers toy_good (λ _, Err (Rpc_InvalidResponse "unavailable"))
    (λ from, @rpc_sync_transactions _ _ toy_good from None []).

(** A node whose chain has a transaction in block [6], and that answers with the
    transactions of two blocks at a time, saying where it stopped. *)
Definition toy_paged : NodeRpcClient :=
  with_answers toy_good (λ _, Ok [])
    (λ from, Ok {| ti_chain_tip := 6; ti_block_num := Z.min 6 (from + 1);
      ti_transaction_records := filter (λ r, from ≤ rtx_block_num r ≤ from + 1)
        [toy_rtx 72 6 200 201 []] |}).

Definition note_kind (r : (Z * list (Z * Z)) * eff ClientError StateSyncUpdate) : option u8 :=
  match r.2 with
  | Finished (Ok u) =>
      (λ x, record_kind (iu_note x)) <$> (input_notes (ssu_note_updates u) !! toy_noteid 3 5)
  | _ => None
  end.
Definition tx_state (id : Z) (r : (Z * list (Z * Z)) * eff ClientError StateSyncUpdate) :
    option TransactionStatus :=
  match r.2 with
  | Finished (Ok u) => tx_status <$> (ssu_transaction_updates u !! toy_txid id)
  | _ => None
  end.

(** A failed sync moves the caller's MMR.  When the node fails after the MMR
    was advanced, the error is returned with the MMR at the new tip; a second
    sync with that MMR, to a node that answers, takes the range as synced and
    leaves the expected note as it was, while a sync from the MMR before the
    failure finds it consumed. *)
Theorem failed_sync_moves_the_mmr :
  let tx := toy_tx 72 200 201 50 in
  let '(mmr, r) := toy_sync toy_unavailable tx (4, []) in
  r = Finished (Err (Client_RpcError (Rpc_InvalidResponse "unavailable"))) ∧
  note_kind (toy_sync toy_good tx mmr) = Some STATE_EXPECTED ∧
  note_kind (toy_sync toy_good tx (4, [])) = Some STATE_CONSUMED_EXTERNAL.
Proof. split; [reflexivity|]. split; reflexivity. Qed.

(** Only the first page of transactions is used.  The node answers the
    request for blocks [3] to [6] with blocks [3] and [4]; the sync goes to block
    [6] all the same, and a transaction that was committed in block [6], where it
    expires, is discarded as expired. *)
Theorem later_transactions_are_missed :
  let r := toy_sync toy_paged (toy_tx 72 200 201 6) (4, []) in
  @rpc_sync_transactions _ _ toy_paged 5 (Some 6) [toy_account 7] =
    Ok {| ti_chain_tip := 6; ti_block_num := 6;
          ti_transaction_records := [toy_rtx 72 6 200 201 []] |} ∧
  tx_state 72 r = Some (Discarded Expired).
Proof. split; reflexivity. Qed.

(** ** Witnesses *)

Lemma toy_sync_result node tx mmr :
  (match toy_sync node tx mmr with (_, Finished (Ok _)) => true | _ => false end) = true →
  ∃ s' u, toy_sync node tx mmr = (s', Finished (Ok u)).
Proof. destruct (toy_sync node tx mmr) as [s' [[u|]| |]]; try done. eauto. Qed.

Lemma sync_ends_at_the_tip_witness :
  ∃ s' u, toy_sync toy_good (toy_tx 72 200 201 50) (4, []) = (s', Finished (Ok u)) ∧
    ssu_block_num u = 6 ∧
    toy_sync toy_good (toy_tx 72 200 201 50) s' =
      (s', Finished (Ok (initial_update 6 (toy_input (toy_tx 72 200 201 50))))).
Proof.
  destruct (toy_sync_result toy_good (toy_tx 72 200 201 50) (4, []) eq_refl) as (s' & u & E).
  exists s', u. split; [exact E|].
  destruct (@sync_ends_at_the_tip _ _ toy_good toy_screener _ 10 (StateSync_new (Some 15))
    (toy_input (toy_tx 72 200 201 50)) (4, []) s' u ((6, 0) : @BlockHeader toy_protocol) None)
    as (Hu & Hm & Hs & _).
  - reflexivity.
  - unfold in_range. simpl. unfold U32_MAX. lia.
  - exact E.
  - split; [exact Hu|]. apply Hs.
    destruct Hm as [[Heq _]|(_ & info & Hi & Hl)]; [discriminate Heq|].
    rewrite Hl. simpl in Hi. injection Hi as <-. reflexivity.
Defined.

Lemma synced_notes_are_authentic_witness :
  ∃ s' u iu, @sync_state _ _ toy_good toy_screener 10 (disable_nullifier_sync (StateSync_new None))
      (toy_input (toy_tx 72 200 201 50)) ((4, []) : @PartialMmr _ toy_mmr) =
      (s', Finished (Ok u)) ∧
    input_notes (ssu_note_updates u) !! toy_noteid 3 5 = Some iu ∧
    record_kind (iu_note iu) = STATE_COMMITTED ∧
    ∃ root, authenticated_root (in_state (iu_note iu)) = Some root ∧ proof_shows (iu_note iu) root.
Proof.
  set (r := @sync_state _ _ toy_good toy_screener 10 (disable_nullifier_sync (StateSync_new None))
      (toy_input (toy_tx 72 200 201 50)) ((4, []) : @PartialMmr _ toy_mmr)).
  assert (note_kind r = Some STATE_COMMITTED) as Hk by reflexivity.
  unfold note_kind in Hk. destruct r as [s' [[u|]| |]] eqn:E; try discriminate Hk. cbn [snd] in Hk.
  destruct (input_notes (ssu_note_updates u) !! toy_noteid 3 5) as [iu|] eqn:Hiu; [|discriminate Hk].
  injection Hk as Hk. exists s', u, iu. split_and!; [reflexivity|exact Hiu|exact Hk|].
  refine (@synced_notes_are_authentic _ _ toy_good toy_screener _ _ _ _ s' u _ iu _ _ E Hiu _).
  - apply Forall_singleton. intros root Hroot. discriminate Hroot.
  - intros cn [pn|] rec Hr; simpl in Hr; [by injection Hr as ->|discriminate Hr].
  - unfold InputNoteRecord_is_authenticated.
    unfold record_kind in Hk. destruct (in_state (iu_note iu)); try discriminate Hk. reflexivity.
Defined.

Lemma pending_after_sync_is_live_witness :
  ∃ s' u tx, toy_sync toy_good (toy_tx 72 200 201 50) (4, []) = (s', Finished (Ok u)) ∧
    ssu_transaction_updates u !! toy_txid 72 = Some tx ∧
    ssu_block_num u < tx_expiration_block_num (tx_details tx).
Proof.
  set (r := toy_sync toy_good (toy_tx 72 200 201 50) (4, [])).
  assert (tx_state 72 r = Some Pending) as Hk by reflexivity.
  assert (match r.2 with Finished (Ok u) => ssu_block_num u | _ => 0 end = 6) as Hb by reflexivity.
  unfold tx_state in Hk. destruct r as [s' [[u|]| |]] eqn:E; try discriminate Hk. cbn [snd] in Hk, Hb.
  destruct (ssu_transaction_updates u !! toy_txid 72) as [tx|] eqn:Htx; [|discriminate Hk].
  injection Hk as Hk. exists s', u, tx. split_and!; [reflexivity|exact Htx|].
  refine (proj1 (@pending_after_sync_is_live _ _ toy_good toy_screener _ _ _ _ s' u _ tx E _ Htx _)).
  - rewrite Hb. discriminate.
  - rewrite Hk. reflexivity.
Defined.

Lemma spent_notes_are_consumed_witness :
  ∃ s' u iu, toy_sync toy_good (toy_tx 72 200 201 50) (4, []) = (s', Finished (Ok u)) ∧
    input_notes (ssu_note_updates u) !! toy_noteid 3 5 = Some iu ∧
    InputNoteRecord_is_consumed (iu_note iu) = true.
Proof.
  set (r := toy_sync toy_good (toy_tx 72 200 201 50) (4, [])).
  assert (match r.2 with
    | Finished (Ok u) => ssu_block_num u = 6 ∧
        (λ x, InputNoteRecord_nullifier (iu_note x)) <$>
          (input_notes (ssu_note_updates u) !! toy_noteid 3 5) = Some (toy_nullifier 3 5)
    | _ => False end) as Hk by (split; reflexivity).
  destruct r as [s' [[u|]| |]] eqn:E; try contradiction. cbn [snd] in Hk. destruct Hk as [Hb Hk].
  destruct (input_notes (ssu_note_updates u) !! toy_noteid 3 5) as [iu|] eqn:Hiu; [|discriminate Hk].
  apply (inj Some) in Hk. exists s', u, iu. split_and!; [reflexivity|exact Hiu|].
  refine (@spent_notes_are_consumed _ _ toy_good toy_screener _ 10 (StateSync_new (Some 15))
    (toy_input (toy_tx 72 200 201 50)) (4, []) s' u
    (λ n, if decide (n = toy_nullifier 3 5) then Some 5 else None) _ iu 5
    eq_refl _ _ E _ Hiu _ _).
  - constructor.
  - intros prefixes from to l Hl n b Hn Hr Hp. injection Hl as <-.
    destruct (decide (n = toy_nullifier 3 5)) as [->|]; [|discriminate Hn]. injection Hn as <-.
    eexists. split_and!; [apply list_elem_of_filter; split; [|left]|reflexivity|reflexivity]. exact Hr.
  - rewrite Hb. discriminate.
  - rewrite Hk. reflexivity.
  - rewrite Hb. split; discriminate.
Defined.
