(* ===== verification/Text.v ===== *)
(** * Strings

    The operations of Rust's [str] that the client uses, on strings as sequences of
    bytes: splitting, trimming, searching and slicing.  A slice outside the string,
    or that cuts a UTF-8 character, is a panic and is [None] here.  The decimal
    notation that [to_string] prints is read back by [parse]. *)

From S2P Require Import Prelude.
From Stdlib Require Import ZArith Lia Ascii.
From stdpp Require Import base list strings pretty.

Open Scope Z_scope.
#[local] Arguments String.append : simpl nomatch.

(** [str::split(c)]: at least one part. *)
Fixpoint split_on (c : Ascii.ascii) (s : string) : list string :=
  match s with
  | EmptyString => [EmptyString]
  | String a s =>
      if decide (a = c) then EmptyString :: split_on c s
      else match split_on c s with
           | p :: ps => String a p :: ps
           | [] => [String a EmptyString]
           end
  end.

(** [str::trim_end_matches(c)]. *)
Fixpoint trim_end_matches (c : Ascii.ascii) (s : string) : string :=
  match s with
  | EmptyString => EmptyString
  | String a s =>
      match trim_end_matches c s with
      | EmptyString => if decide (a = c) then EmptyString else String a EmptyString
      | t => String a t
      end
  end.

(** ["c".repeat(n)]. *)
Fixpoint str_repeat (c : Ascii.ascii) (n : nat) : string :=
  match n with O => EmptyString | S n => String c (str_repeat c n) end.

(** [str::find(pattern)]: the first position of the pattern. *)
Definition str_find (pattern s : string) : option nat := String.index 0 pattern s.

(** [str::rfind(c)]: the last position of the character. *)
Fixpoint str_rfind (c : Ascii.ascii) (s : string) : option nat :=
  match s with
  | EmptyString => None
  | String a s =>
      match str_rfind c s with
      | Some i => Some (S i)
      | None => if decide (a = c) then Some O else None
      end
  end.

(** [str::is_char_boundary]: not before a continuation byte. *)
Definition is_char_boundary (s : string) (i : nat) : bool :=
  match String.get i s with
  | Some a => let b := Ascii.nat_of_ascii a in negb ((128 <=? b) && (b <? 192))%nat
  | None => (i =? String.length s)%nat
  end.

(** [str::split_at(i)]; [None] is its panic. *)
Definition split_at (i : nat) (s : string) : option (string * string) :=
  if (i <=? String.length s)%nat && is_char_boundary s i then
    Some (String.substring 0 i s, String.substring i (String.length s - i) s)
  else None.

(** [&s[i..]] and [&s[..i]]. *)
Definition slice_from (i : nat) (s : string) : option string := snd <$> split_at i s.
Definition slice_to (i : nat) (s : string) : option string := fst <$> split_at i s.

(** ** Lemmas *)

Lemma string_app_nil_r s : s +:+ EmptyString = s.
Proof. induction s as [|a s IH]; [done|]. simpl. by rewrite IH. Qed.

Lemma string_app_assoc s t u : s +:+ (t +:+ u) = (s +:+ t) +:+ u.
Proof. induction s as [|a s IH]; [done|]. simpl. by rewrite IH. Qed.

Lemma string_app_length s t : String.length (s +:+ t) = (String.length s + String.length t)%nat.
Proof. induction s as [|a s IH]; [done|]. simpl. by rewrite IH. Qed.

Lemma str_repeat_length c n : String.length (str_repeat c n) = n.
Proof. induction n as [|n IH]; [done|]. simpl. by rewrite IH. Qed.

Lemma str_repeat_snoc c n : str_repeat c n +:+ String c EmptyString = str_repeat c (S n).
Proof. induction n as [|n IH]; [done|]. simpl. simpl in IH. by rewrite IH. Qed.

(** The character does not occur. *)
Fixpoint str_free (c : Ascii.ascii) (s : string) : Prop :=
  match s with
  | EmptyString => True
  | String a s => a ≠ c ∧ str_free c s
  end.

Lemma str_free_app c s t : str_free c (s +:+ t) ↔ str_free c s ∧ str_free c t.
Proof. induction s as [|a s IH]; simpl; [tauto|]. rewrite IH. tauto. Qed.

Lemma split_on_free c s : str_free c s → split_on c s = [s].
Proof.
  induction s as [|a s IH]; [done|]. intros [Ha Hs]. simpl.
  by rewrite decide_False, IH.
Qed.

Lemma split_on_app c s t : str_free c s → split_on c (s +:+ String c t) = s :: split_on c t.
Proof.
  induction s as [|a s IH]; simpl; [by rewrite decide_True|].
  intros [Ha Hs]. by rewrite decide_False, IH.
Qed.

(** The parts contain no separator, and put together with it they are the string. *)
Lemma split_on_spec c s :
  match split_on c s with
  | [] => False
  | [p] => s = p ∧ str_free c p
  | p :: q :: ps =>
      str_free c p ∧ ∃ t, s = p +:+ String c t ∧ split_on c t = q :: ps
  end.
Proof.
  induction s as [|a s IH]; simpl; [done|]. case_decide as Ha.
  - subst a. destruct (split_on c s) as [|p ps] eqn:E; [done|].
    split; [exact I|]. by exists s.
  - destruct (split_on c s) as [|p [|q ps]]; [done| |].
    + by destruct IH as [-> Hp].
    + destruct IH as (Hp & t & -> & Ht). split; [done|]. by exists t.
Qed.

(** A string is its trimmed part followed by the trimmed characters. *)
Lemma trim_end_matches_app c s :
  ∃ n, s = trim_end_matches c s +:+ str_repeat c n.
Proof.
  induction s as [|a s [n IH]]; [by exists O|]. simpl.
  destruct (trim_end_matches c s) as [|b t] eqn:E.
  - simpl in IH. case_decide as Ha; [exists (S n)|exists n]; simpl; by rewrite <-IH, ?Ha.
  - exists n. simpl. simpl in IH. by rewrite <-IH.
Qed.

Lemma trim_end_matches_length c s :
  (String.length (trim_end_matches c s) ≤ String.length s)%nat.
Proof.
  destruct (trim_end_matches_app c s) as [n Hn]. rewrite Hn at 2. rewrite string_app_length. lia.
Qed.

Lemma trim_end_matches_keep c s a :
  a ≠ c → trim_end_matches c (s +:+ String a EmptyString) = s +:+ String a EmptyString.
Proof.
  intros Ha. induction s as [|b s IH]; simpl; [by rewrite decide_False|].
  rewrite IH. by destruct s.
Qed.

Lemma str_rfind_None c s : str_rfind c s = None ↔ str_free c s.
Proof.
  induction s as [|a s IH]; simpl; [done|]. destruct (str_rfind c s).
  - split; [done|]. intros [_ Hs]. by apply IH in Hs.
  - case_decide; naive_solver.
Qed.

Lemma str_rfind_app c s t :
  str_free c t → str_rfind c (s +:+ String c t) = Some (String.length s).
Proof.
  intros Ht. induction s as [|a s IH]; simpl.
  - rewrite (proj2 (str_rfind_None c t) Ht). by rewrite decide_True.
  - by rewrite IH.
Qed.

Lemma str_rfind_Some c s i :
  str_rfind c s = Some i →
  ∃ p t, s = p +:+ String c t ∧ String.length p = i ∧ str_free c t.
Proof.
  revert i. induction s as [|a s IH]; intros i; simpl; [done|].
  destruct (str_rfind c s) as [j|] eqn:E.
  - intros [= <-]. destruct (IH j eq_refl) as (p & t & -> & <- & Ht).
    by exists (String a p), t.
  - case_decide; intros [= <-]. subst a. exists EmptyString, s.
    split_and!; [done..|]. by apply str_rfind_None.
Qed.

(** *** Searching for a pattern *)

Lemma prefix_app p s : String.prefix p (p +:+ s) = true.
Proof. induction p as [|a p IH]; simpl; [by destruct s|]. by destruct (Ascii.ascii_dec a a). Qed.

Lemma prefix_inv p s : String.prefix p s = true → ∃ t, s = p +:+ t.
Proof.
  revert s. induction p as [|a p IH]; intros s Hp; [by exists s|].
  destruct s as [|b s]; [done|]. simpl in Hp. destruct (Ascii.ascii_dec a b); [|done].
  destruct (IH s Hp) as [t ->]. exists t. simpl. by subst.
Qed.

Lemma str_find_cons p a s :
  str_find p (String a s) =
    if String.prefix p (String a s) then Some O else S <$> str_find p s.
Proof.
  unfold str_find. destruct p as [|b p]; [done|]. unfold String.index; fold String.index.
  destruct (String.prefix _ _); [done|]. by destruct (String.index 0 _ s).
Qed.

Lemma str_find_Some a p s i :
  str_find (String a p) s = Some i →
  ∃ l r, s = l +:+ String a p +:+ r ∧ String.length l = i.
Proof.
  revert i. induction s as [|b s IH]; intros i; [done|]. rewrite str_find_cons.
  destruct (String.prefix _ _) eqn:E.
  - intros [= <-]. apply prefix_inv in E as [t ->]. by exists EmptyString, t.
  - destruct (str_find _ s) as [j|]; [|done]. simpl. intros [= <-].
    destruct (IH j eq_refl) as (l & r & -> & <-). by exists (String b l), r.
Qed.

(** The pattern starts with a character that does not occur before it. *)
Lemma str_find_app a p l r :
  str_free a l → str_find (String a p) (l +:+ String a p +:+ r) = Some (String.length l).
Proof.
  induction l as [|b l IH]; intros Hl.
  - change (str_find (String a p) (String a (p +:+ r)) = Some O). rewrite str_find_cons.
    change (String a (p +:+ r)) with (String a p +:+ r). by rewrite prefix_app.
  - destruct Hl as [Hb Hl].
    change (str_find (String a p) (String b (l +:+ String a p +:+ r)) = Some (S (String.length l))).
    rewrite str_find_cons. replace (String.prefix _ _) with false; [by rewrite IH|].
    symmetry. simpl. by destruct (Ascii.ascii_dec a b).
Qed.

Lemma str_find_None a p s : str_free a s → str_find (String a p) s = None.
Proof.
  induction s as [|b s IH]; [done|]. intros [Hb Hs]. rewrite str_find_cons.
  replace (String.prefix _ _) with false; [by rewrite IH|].
  symmetry. simpl. by destruct (Ascii.ascii_dec a b).
Qed.

(** *** Slices *)

Lemma substring_app_l l r : String.substring 0 (String.length l) (l +:+ r) = l.
Proof. induction l as [|a l IH]; simpl; [by destruct r|]. by rewrite IH. Qed.

Lemma substring_all s : String.substring 0 (String.length s) s = s.
Proof. induction s as [|a s IH]; [done|]. simpl. by rewrite IH. Qed.

Lemma substring_app_r l r : String.substring (String.length l) (String.length r) (l +:+ r) = r.
Proof. induction l as [|a l IH]; simpl; [apply substring_all|done]. Qed.

Lemma get_app_r l r : String.get (String.length l) (l +:+ r) = String.get 0 r.
Proof. induction l as [|a l IH]; [done|]. done. Qed.

(** Not a continuation byte. *)
Definition char_start (a : Ascii.ascii) : Prop :=
  negb ((128 <=? Ascii.nat_of_ascii a) && (Ascii.nat_of_ascii a <? 192))%nat = true.

Lemma split_at_app l r :
  (match r with EmptyString => True | String a _ => char_start a end) →
  split_at (String.length l) (l +:+ r) = Some (l, r).
Proof.
  intros Hr. unfold split_at. rewrite string_app_length.
  rewrite (proj2 (Nat.leb_le _ _)) by lia. unfold is_char_boundary. rewrite get_app_r.
  replace (String.length l + String.length r - String.length l)%nat with (String.length r) by lia.
  rewrite substring_app_l, substring_app_r, string_app_length.
  destruct r as [|a r]; cbn [String.get String.length].
  - by rewrite Nat.add_0_r, Nat.eqb_refl.
  - unfold char_start in Hr. by rewrite Hr.
Qed.

(** ** Decimal notation *)

(** The value of a string of digits, in decimal, starting from [acc]. *)
Fixpoint digits_value (acc : Z) (s : string) : option Z :=
  match s with
  | EmptyString => Some acc
  | String c s => d ← digit c; digits_value (acc * 10 + d) s
  end.

Lemma digit_range c d : digit c = Some d → 0 ≤ d ≤ 9.
Proof. unfold digit. destruct (_ && _) eqn:E; [|done]. intros [= <-]. lia. Qed.

Lemma digits_value_app acc s t :
  digits_value acc (s +:+ t) = (a ← digits_value acc s; digits_value a t).
Proof.
  revert acc. induction s as [|c s IH]; intros acc; [done|]. simpl.
  destruct (digit c); simpl; [apply IH|done].
Qed.

Lemma digits_value_ge acc s v : 0 ≤ acc → digits_value acc s = Some v → acc ≤ v.
Proof.
  revert acc. induction s as [|c s IH]; intros acc Ha; simpl; [intros [= <-]; lia|].
  destruct (digit c) as [d|] eqn:Ed; [|done]. simpl. intros Hv.
  apply digit_range in Ed. apply IH in Hv; lia.
Qed.

(** The accumulator is scaled by the number of digits. *)
Lemma digits_value_acc acc s :
  digits_value acc s =
    (λ v, acc * 10 ^ Z.of_nat (String.length s) + v) <$> digits_value 0 s.
Proof.
  revert acc. induction s as [|c s IH]; intros acc; simpl; [f_equal; lia|].
  destruct (digit c) as [d|]; simpl; [|done]. rewrite (IH (acc * 10 + d)), (IH (0 * 10 + d)).
  destruct (digits_value 0 s); simpl; [|done]. f_equal.
  rewrite Nat2Z.inj_succ, Z.pow_succ_r by lia. lia.
Qed.

Lemma digits_value_bound s v :
  digits_value 0 s = Some v → 0 ≤ v < 10 ^ Z.of_nat (String.length s).
Proof.
  revert v. induction s as [|c s IH]; intros v; simpl; [intros [= <-]; lia|].
  destruct (digit c) as [d|] eqn:Ed; [|done]. simpl. rewrite digits_value_acc.
  destruct (digits_value 0 s) as [w|]; [|done]. simpl. intros [= <-].
  apply digit_range in Ed. specialize (IH w eq_refl).
  rewrite Nat2Z.inj_succ, Z.pow_succ_r by lia. nia.
Qed.

Lemma digits_value_zeros acc n :
  digits_value acc (str_repeat "0"%char n) = Some (acc * 10 ^ Z.of_nat n).
Proof.
  revert acc. induction n as [|n IH]; intros acc; [simpl; f_equal; lia|].
  cbn [str_repeat digits_value]. change (digit "0"%char) with (Some 0). cbn [mbind option_bind].
  rewrite IH. f_equal. rewrite Nat2Z.inj_succ, Z.pow_succ_r by lia. lia.
Qed.

(** The loop of [parse] fails exactly when a character is no digit or the value is
    too large. *)
Lemma parse_digits_spec max acc s v :
  0 ≤ acc ≤ max →
  parse_digits max acc s = Some v ↔ digits_value acc s = Some v ∧ v ≤ max.
Proof.
  revert acc. induction s as [|c s IH]; intros acc Ha; simpl.
  - split; [intros [= <-]; split; [done|lia]|by intros [? _]].
  - destruct (digit c) as [d|] eqn:Ed; simpl; [|naive_solver].
    apply digit_range in Ed. destruct (acc * 10 + d <=? max) eqn:E.
    + apply IH. lia.
    + split; [done|]. intros [Hv Hm]. apply digits_value_ge in Hv; lia.
Qed.

Lemma digit_not_sign c d : digit c = Some d → Ascii.nat_of_ascii c ≠ 43%nat.
Proof. unfold digit. intros Hd Hc. rewrite Hc in Hd. discriminate Hd. Qed.

(** [parse] on a non-empty string of digits. *)
Lemma parse_unsigned_digits max s v :
  0 ≤ max → s ≠ EmptyString → digits_value 0 s = Some v → v ≤ max →
  parse_unsigned max s = Some v.
Proof.
  intros Hmax Hs Hv Hle. destruct s as [|c s]; [done|]. unfold parse_unsigned.
  destruct (Nat.eqb_spec (Ascii.nat_of_ascii c) 43) as [Hc|_].
  - exfalso. simpl in Hv. destruct (digit c) eqn:E; [|done]. by apply digit_not_sign in E.
  - apply parse_digits_spec; [lia|done].
Qed.

(** What [parse] accepts: digits, after an optional plus sign. *)
Lemma parse_unsigned_Some max s v :
  0 ≤ max → parse_unsigned max s = Some v →
  0 ≤ v ≤ max ∧
  ∃ t, t ≠ EmptyString ∧ digits_value 0 t = Some v ∧ (s = t ∨ s = String "+"%char t).
Proof.
  intros Hmax. destruct s as [|c s]; [done|]. unfold parse_unsigned.
  destruct (Nat.eqb_spec (Ascii.nat_of_ascii c) 43) as [Hc|_].
  - assert (c = "+"%char) as -> by (rewrite <-(Ascii.ascii_nat_embedding c), Hc; reflexivity).
    destruct s as [|b s]; [done|]. intros [Hv Hle]%parse_digits_spec; [|lia].
    split; [pose proof (digits_value_ge _ _ _ (Z.le_refl 0) Hv); lia|].
    exists (String b s). auto.
  - intros [Hv Hle]%parse_digits_spec; [|lia].
    split; [pose proof (digits_value_ge _ _ _ (Z.le_refl 0) Hv); lia|].
    exists (String c s). auto.
Qed.

(** [to_string] on an unsigned integer. *)
Definition u_to_string (z : Z) : string := pretty (Z.to_N z).

Lemma pretty_char_digit x : (x < 10)%N → digit (pretty_N_char x) = Some (Z.of_N x).
Proof.
  intros Hx.
  assert (x = 0 ∨ x = 1 ∨ x = 2 ∨ x = 3 ∨ x = 4 ∨ x = 5 ∨ x = 6 ∨ x = 7 ∨ x = 8 ∨ x = 9)%N as Hc by lia.
  repeat (destruct Hc as [->|Hc]; [reflexivity|]). subst. reflexivity.
Qed.

Lemma pretty_go_value x : ∀ s v, digits_value (Z.of_N x) s = Some v →
  digits_value 0 (pretty_N_go x s) = Some v.
Proof.
  induction x as [x IH] using (well_founded_induction N.lt_wf_0). intros s v Hv.
  destruct (decide (x = 0)%N) as [->|Hx]; [by rewrite pretty_N_go_0|].
  rewrite pretty_N_go_step by lia. apply IH; [apply N.div_lt; lia|].
  cbn [digits_value]. rewrite pretty_char_digit by (apply N.mod_lt; lia).
  cbn [mbind option_bind]. rewrite <-Hv. f_equal.
  pose proof (N.div_mod x 10). lia.
Qed.

Lemma u_to_string_value z : 0 ≤ z → digits_value 0 (u_to_string z) = Some z.
Proof.
  intros Hz. unfold u_to_string, pretty, pretty_N. case_decide as H0.
  - assert (z = 0) as -> by lia. reflexivity.
  - apply pretty_go_value. simpl. f_equal. lia.
Qed.

Lemma u_to_string_nonempty z : u_to_string z ≠ EmptyString.
Proof.
  unfold u_to_string, pretty, pretty_N. case_decide as H0; [done|].
  assert (∀ x s, s ≠ EmptyString → pretty_N_go x s ≠ EmptyString) as Hgo.
  { intros x. induction x as [x IH] using (well_founded_induction N.lt_wf_0). intros s Hs.
    destruct (decide (x = 0)%N) as [->|Hx]; [by rewrite pretty_N_go_0|].
    rewrite pretty_N_go_step by lia. apply IH; [apply N.div_lt; lia|done]. }
  rewrite pretty_N_go_step by lia. by apply Hgo.
Qed.

(** A character of a string with a value is a digit. *)
Lemma digits_free c acc s v : digit c = None → digits_value acc s = Some v → str_free c s.
Proof.
  intros Hc. revert acc. induction s as [|a s IH]; intros acc; [done|]. simpl.
  destruct (digit a) as [d|] eqn:E; [|done]. simpl. intros Hv. split; [|by eapply IH].
  intros ->. congruence.
Qed.

(** Every part of a string with a value has one. *)
Lemma digits_value_parts acc s t v :
  digits_value acc (s +:+ t) = Some v → is_Some (digits_value 0 s) ∧ is_Some (digits_value 0 t).
Proof.
  rewrite digits_value_app, (digits_value_acc acc s).
  destruct (digits_value 0 s) as [a|]; [|done]. simpl. rewrite digits_value_acc.
  destruct (digits_value 0 t); [|done]. by split; eexists.
Qed.

(** [parse] reads a non-empty string of digits that fits, after an optional sign. *)
Lemma parse_unsigned_iff max s v :
  0 ≤ max →
  parse_unsigned max s = Some v ↔
    v ≤ max ∧ ∃ sign t, (sign = EmptyString ∨ sign = "+"%string) ∧ s = sign +:+ t ∧
      t ≠ EmptyString ∧ digits_value 0 t = Some v.
Proof.
  intros Hmax. split.
  - intros (Hv & t & Ht & Hd & Hs)%parse_unsigned_Some; [|done]. split; [lia|].
    destruct Hs as [->| ->]; [exists EmptyString, t|exists "+"%string, t]; auto.
  - intros (Hv & sign & t & [-> | ->] & -> & Ht & Hd); [by apply parse_unsigned_digits|].
    simpl. destruct t as [|c t]; [done|]. apply parse_digits_spec; [lia|done].
Qed.

(** What is left after trimming does not end with the trimmed character. *)
Lemma trim_end_matches_last c s :
  trim_end_matches c s = EmptyString ∨
  ∃ p a, trim_end_matches c s = p +:+ String a EmptyString ∧ a ≠ c.
Proof.
  induction s as [|b s IH]; simpl; [by left|].
  destruct IH as [->|(p & a & Hp & Ha)].
  - case_decide; [by left|]. right. by exists EmptyString, b.
  - right. rewrite Hp. exists (String b p), a. by destruct p.
Qed.

Lemma digit_zero a : digit a = Some 0 → a = "0"%char.
Proof.
  unfold digit. destruct (_ && _); [|done]. intros [= Hz].
  rewrite <-(ascii_nat_embedding a). replace (nat_of_ascii a) with 48%nat by lia. reflexivity.
Qed.

(** A number without trailing zeros is not a multiple of ten. *)
Lemma trimmed_mod_10 s v :
  trim_end_matches "0"%char s ≠ EmptyString →
  digits_value 0 (trim_end_matches "0"%char s) = Some v → v mod 10 ≠ 0.
Proof.
  intros Hne. destruct (trim_end_matches_last "0"%char s) as [?|(p & a & -> & Ha)]; [done|].
  rewrite digits_value_app. destruct (digits_value 0 p) as [vp|]; [|done]. simpl.
  destruct (digit a) as [d|] eqn:Ed; [|done]. simpl. intros [= <-] Hmod.
  pose proof (digit_range _ _ Ed). rewrite Z.add_comm, Z.mod_add, Z.mod_small in Hmod by lia.
  subst d. by apply Ha, digit_zero.
Qed.

Lemma string_split s k :
  (k ≤ String.length s)%nat → ∃ l r, s = l +:+ r ∧ String.length l = k.
Proof.
  revert s. induction k as [|k IH]; intros s Hk; [by exists EmptyString, s|].
  destruct s as [|a s]; [simpl in Hk; lia|]. simpl in Hk.
  destruct (IH s ltac:(lia)) as (l & r & -> & <-). by exists (String a l), r.
Qed.

Lemma digit_char_start a d : digit a = Some d → char_start a.
Proof.
  unfold digit, char_start. destruct (_ && _) eqn:E; [|done]. intros _.
  apply andb_true_iff in E as [_ E]. apply Z.leb_le in E.
  by rewrite (proj2 (Nat.leb_gt _ _)) by lia.
Qed.

(** *** What the validity of UTF-8 gives

    A string starts with the first byte of a character, and so does what follows an
    ASCII character. *)

Fixpoint follows (prev : nat) (s : string) : Prop :=
  match s with
  | EmptyString => True
  | String a s => ((prev < 128)%nat → char_start a) ∧ follows (nat_of_ascii a) s
  end.

Definition str_valid (s : string) : Prop := follows 0 s.

Definition starts_char (s : string) : Prop :=
  match s with EmptyString => True | String a _ => char_start a end.

Lemma follows_app p l a r : follows p (l +:+ String a r) → (nat_of_ascii a < 128)%nat → str_valid r.
Proof.
  revert p. induction l as [|b l IH]; intros p; simpl.
  - intros [_ Hr] Ha. destruct r as [|c r]; [done|]. simpl in *. destruct Hr as [Hc Hr].
    split; [intros _; by apply Hc|done].
  - intros [_ Hr]. by eapply IH.
Qed.

Lemma follows_app_l p l r : follows p (l +:+ r) → follows p l.
Proof.
  revert p. induction l as [|b l IH]; intros p; simpl; [done|]. intros [Hb Hr]. split; [done|].
  by apply IH.
Qed.

Lemma str_valid_starts s : str_valid s → starts_char s.
Proof. destruct s as [|a s]; [done|]. intros [Ha _]. apply Ha. lia. Qed.

Lemma ascii_char_start a : (nat_of_ascii a < 128)%nat → char_start a.
Proof. intros Ha. unfold char_start. by rewrite (proj2 (Nat.leb_gt _ _)) by lia. Qed.

(** The last occurrence of a character is at or after any other. *)
Lemma last_occurrence c l u p t :
  str_free c t → l +:+ String c u = p +:+ String c t →
  (p = l ∧ t = u) ∨ ∃ w, p = l +:+ String c w ∧ u = w +:+ String c t.
Proof.
  intros Ht. revert p. induction l as [|a l IH]; intros p; simpl.
  - destruct p as [|b p]; simpl; [intros [= ->]; by left|].
    intros [= -> ->]. right. by exists p.
  - destruct p as [|b p]; simpl; intros [= -> Hu].
    + exfalso. subst t. apply str_free_app in Ht as [_ [Ht _]]. done.
    + destruct (IH _ Hu) as [[-> ->]|(w & -> & ->)]; [by left|right; by exists w].
Qed.

Lemma trim_free c s : str_free c s → trim_end_matches c s = s.
Proof.
  induction s as [|a s IH]; [done|]. intros [Ha Hs]. simpl. rewrite IH by done.
  destruct s; [by rewrite decide_False|done].
Qed.
