(* ===== verification/Amounts.v ===== *)
(** * Token amounts

    [utils.rs]: amounts in base units are shown and read as decimal numbers of
    tokens.  The largest number of decimals of a faucet is a constant of
    [miden-standards] and a parameter here. *)

From S2P Require Import Prelude Text.
From Stdlib Require Import ZArith Lia Ascii.
From stdpp Require Import base list strings pretty.

Open Scope Z_scope.
#[local] Arguments String.append : simpl nomatch.

Inductive TokenParseError :=
| MaxDecimals (n : Z)
| MultipleDecimalPoints
| ParseU64
| TooManyDecimals (n : Z).

Definition base_units_to_tokens (units decimals : Z) : loop_result string :=
  let units_str := u_to_string units in
  let len := String.length units_str in
  if decimals =? 0 then Finished units_str
  else if (len <=? Z.to_nat decimals)%nat then
    Finished (("0." +:+ str_repeat "0"%char (Z.to_nat decimals - len)) +:+ units_str)
  else
    match slice_to (len - Z.to_nat decimals) units_str,
          slice_from (len - Z.to_nat decimals) units_str with
    | Some integer_part, Some fractional_part =>
        Finished (integer_part +:+ "." +:+ fractional_part)
    | _, _ => Panicked
    end.

(** The [while] loop that appends zeros; each step adds one, so [n] steps do. *)
Fixpoint pad_zeros (fuel n : nat) (fractional_part : string) : string :=
  match fuel with
  | O => fractional_part
  | S fuel =>
      if (String.length fractional_part <? n)%nat
      then pad_zeros fuel n (fractional_part +:+ "0")
      else fractional_part
  end.

Section amounts.
Variable MAX_DECIMALS : Z.

Definition tokens_to_base_units (decimal_str : string) (n_decimals : Z) :
    eff TokenParseError Z :=
  if MAX_DECIMALS <? n_decimals then Finished (Err (MaxDecimals n_decimals))
  else
    let parts := split_on "."%char decimal_str in
    if (2 <? length parts)%nat then Finished (Err MultipleDecimalPoints)
    else
      lift (try_fold (λ _ part, _ ← ok_or (parse_unsigned U64_MAX part) ParseU64; Ok ()) parts ());;
      integer_part ← expect (parts !! 0%nat);
      fractional_part ←
        (if (1 <? length parts)%nat
         then part ← expect (parts !! 1%nat); mret (trim_end_matches "0"%char part)
         else mret EmptyString);
      if (Z.to_nat n_decimals <? String.length fractional_part)%nat
      then Finished (Err (TooManyDecimals n_decimals))
      else
        let fractional_part :=
          pad_zeros (Z.to_nat n_decimals) (Z.to_nat n_decimals) fractional_part in
        digits ← expect (slice_to (Z.to_nat n_decimals) fractional_part);
        lift (ok_or (parse_unsigned U64_MAX (integer_part +:+ digits)) ParseU64).

(** ** Lemmas *)

Lemma pad_zeros_spec fuel n s :
  (n - String.length s ≤ fuel)%nat →
  pad_zeros fuel n s = s +:+ str_repeat "0"%char (n - String.length s).
Proof.
  revert s. induction fuel as [|fuel IH]; intros s Hf.
  - replace (n - String.length s)%nat with O by lia. simpl. by rewrite string_app_nil_r.
  - cbn [pad_zeros]. destruct (Nat.ltb_spec (String.length s) n) as [Hlt|Hge].
    + rewrite IH; rewrite string_app_length; simpl String.length; [|lia].
      rewrite <-string_app_assoc. f_equal.
      replace (n - String.length s)%nat with (S (n - (String.length s + 1))) by lia. done.
    + replace (n - String.length s)%nat with O by lia. simpl. by rewrite string_app_nil_r.
Qed.

Lemma slice_to_all s : slice_to (String.length s) s = Some s.
Proof.
  unfold slice_to. rewrite <-(string_app_nil_r s) at 2. by rewrite split_at_app.
Qed.

Lemma pad_zeros_length n s :
  (String.length s ≤ n)%nat → String.length (pad_zeros n n s) = n.
Proof.
  intros Hs. rewrite pad_zeros_spec by lia. rewrite string_app_length, str_repeat_length. lia.
Qed.

(** Trimming the zeros of a fraction and padding it to its length gives it back. *)
Lemma pad_trim s : pad_zeros (String.length s) (String.length s) (trim_end_matches "0"%char s) = s.
Proof.
  destruct (trim_end_matches_app "0"%char s) as [k Hk].
  assert (String.length s = String.length (trim_end_matches "0"%char s) + k)%nat as Hl.
  { rewrite Hk at 1. by rewrite string_app_length, str_repeat_length. }
  rewrite pad_zeros_spec by lia. rewrite Hk at 4. do 2 f_equal. lia.
Qed.

(** What is parsed after the checks: the integer part and the padded fraction. *)
Definition scaled (integer_part fractional_part : string) (n : nat) : string :=
  integer_part +:+ pad_zeros n n (trim_end_matches "0"%char fractional_part).

(** The function on a string with a decimal point. *)
Lemma tokens_point i f n :
  n ≤ MAX_DECIMALS → str_free "."%char i → str_free "."%char f →
  tokens_to_base_units (i +:+ "." +:+ f) n =
    Finished (
      _ ← ok_or (parse_unsigned U64_MAX i) ParseU64;
      _ ← ok_or (parse_unsigned U64_MAX f) ParseU64;
      if (Z.to_nat n <? String.length (trim_end_matches "0"%char f))%nat
      then Err (TooManyDecimals n)
      else ok_or (parse_unsigned U64_MAX (scaled i f (Z.to_nat n))) ParseU64).
Proof.
  intros Hn Hi Hf. unfold tokens_to_base_units. rewrite (proj2 (Z.ltb_ge _ _)) by lia.
  change (i +:+ "." +:+ f) with (i +:+ String "."%char f).
  rewrite split_on_app, split_on_free by done. cbn [length try_fold].
  change (2 <? 2)%nat with false. change (1 <? 2)%nat with true. cbv iota.
  destruct (parse_unsigned U64_MAX i) as [vi|]; [|done].
  destruct (parse_unsigned U64_MAX f) as [vf|]; [|done]. simpl lookup.
  cbn [ok_or mbind result_bind lift eff_bind expect mret eff_ret].
  destruct (Nat.ltb_spec (Z.to_nat n) (String.length (trim_end_matches "0"%char f))) as [|Hle]; [done|].
  rewrite <-(pad_zeros_length (Z.to_nat n) (trim_end_matches "0"%char f)) at 1 by done.
  by rewrite slice_to_all.
Qed.

(** The function on a string without one. *)
Lemma tokens_no_point i n :
  n ≤ MAX_DECIMALS → str_free "."%char i →
  tokens_to_base_units i n =
    Finished (
      _ ← ok_or (parse_unsigned U64_MAX i) ParseU64;
      ok_or (parse_unsigned U64_MAX (scaled i EmptyString (Z.to_nat n))) ParseU64).
Proof.
  intros Hn Hi. unfold tokens_to_base_units. rewrite (proj2 (Z.ltb_ge _ _)) by lia.
  rewrite split_on_free by done. cbn [length try_fold].
  change (2 <? 1)%nat with false. change (1 <? 1)%nat with false. cbv iota.
  destruct (parse_unsigned U64_MAX i) as [vi|]; [|done]. simpl lookup.
  cbn [ok_or mbind result_bind lift eff_bind expect mret eff_ret String.length].
  rewrite (proj2 (Nat.ltb_ge _ _)) by lia.
  rewrite <-(pad_zeros_length (Z.to_nat n) EmptyString) at 1 by (simpl; lia).
  by rewrite slice_to_all.
Qed.

Lemma scaled_value i vi f vf n :
  digits_value 0 i = Some vi → digits_value 0 f = Some vf → (String.length f ≤ n)%nat →
  digits_value 0 (i +:+ pad_zeros n n f) =
    Some ((vi * 10 ^ Z.of_nat (String.length f) + vf) * 10 ^ Z.of_nat (n - String.length f)).
Proof.
  intros Hi Hf Hl. rewrite pad_zeros_spec by lia. rewrite string_app_assoc, !digits_value_app, Hi.
  simpl. rewrite digits_value_acc, Hf. simpl. apply digits_value_zeros.
Qed.

(** [s] is a decimal number with integer digits [i] and fraction digits [f], of which
    the values fit a [u64]. *)
Definition decimal_number (s i f : string) (vi vf : Z) : Prop :=
  (∃ sign, (sign = EmptyString ∨ sign = "+"%string) ∧
    ((s = sign +:+ i ∧ f = EmptyString) ∨ (s = sign +:+ i +:+ "." +:+ f ∧ f ≠ EmptyString))) ∧
  i ≠ EmptyString ∧ digits_value 0 i = Some vi ∧ digits_value 0 f = Some vf ∧ vf ≤ U64_MAX.

(** The digits of the fraction without its trailing zeros. *)
Lemma trim_value f vf :
  digits_value 0 f = Some vf →
  ∃ vt k, digits_value 0 (trim_end_matches "0"%char f) = Some vt ∧ vf = vt * 10 ^ Z.of_nat k ∧
    String.length f = (String.length (trim_end_matches "0"%char f) + k)%nat.
Proof.
  intros Hf. destruct (trim_end_matches_app "0"%char f) as [k Hk]. rewrite Hk in Hf.
  rewrite digits_value_app in Hf.
  destruct (digits_value 0 (trim_end_matches _ f)) as [vt|] eqn:Ht; [|done]. simpl in Hf.
  rewrite digits_value_zeros in Hf. injection Hf as <-. exists vt, k. split_and!; [done..|].
  rewrite Hk at 1. by rewrite string_app_length, str_repeat_length.
Qed.

(** The result on a decimal number. *)
Definition amount_of (i f : string) (n : Z) : Z :=
  let t := trim_end_matches "0"%char f in
  (default 0 (digits_value 0 i) * 10 ^ Z.of_nat (String.length t) +
    default 0 (digits_value 0 t)) * 10 ^ (n - Z.of_nat (String.length t)).

(** Digits after a sign: the sign is no digit, so the two are determined. *)
Lemma signed_inj sign t sign' t' v v' :
  sign = EmptyString ∨ sign = "+"%string → sign' = EmptyString ∨ sign' = "+"%string →
  digits_value 0 t = Some v → digits_value 0 t' = Some v' → t ≠ EmptyString → t' ≠ EmptyString →
  ∀ r r', sign +:+ t +:+ r = sign' +:+ t' +:+ r' → t +:+ r = t' +:+ r'.
Proof.
  intros Hs Hs' Hv Hv' Ht Ht' r r' Heq.
  assert (∀ u x, digits_value 0 (String "+"%char u) = Some x → False) as Hplus by done.
  destruct t as [|a t], t' as [|a' t']; [done..|].
  destruct Hs as [->| ->], Hs' as [->| ->]; simpl in Heq.
  - done.
  - injection Heq as -> _. by apply Hplus in Hv.
  - injection Heq as <- _. by apply Hplus in Hv'.
  - injection Heq as -> Heq. simpl. by rewrite Heq.
Qed.

Lemma parse_signed sign t v :
  sign = EmptyString ∨ sign = "+"%string → t ≠ EmptyString → digits_value 0 t = Some v →
  parse_unsigned U64_MAX (sign +:+ t) = if v <=? U64_MAX then Some v else None.
Proof.
  intros Hs Ht Hv. destruct (Z.leb_spec v U64_MAX) as [Hle|Hgt].
  - apply parse_unsigned_iff; [done|]. split; [done|]. by exists sign, t.
  - destruct (parse_unsigned _ _) as [w|] eqn:E; [|done]. exfalso.
    apply parse_unsigned_iff in E as (Hw & sign' & t' & Hs' & Heq & Ht' & Hv'); [|done].
    rewrite <-(string_app_nil_r t), <-(string_app_nil_r t') in Heq.
    apply (signed_inj sign t sign' t' v w) in Heq; [|done..].
    rewrite !string_app_nil_r in Heq. simplify_eq. lia.
Qed.

Lemma tokens_decimal s i f vi vf n :
  0 ≤ n ≤ MAX_DECIMALS → decimal_number s i f vi vf → vi ≤ U64_MAX →
  tokens_to_base_units s n = Finished (
    if (Z.to_nat n <? String.length (trim_end_matches "0"%char f))%nat
    then Err (TooManyDecimals n)
    else if amount_of i f n <=? U64_MAX then Ok (amount_of i f n) else Err ParseU64).
Proof.
  intros Hn ((sign & Hsign & Hs) & Hi & Hvi & Hvf & Hle) Hmax.
  destruct (trim_value _ _ Hvf) as (vt & k & Hvt & -> & Hlen).
  assert (str_free "."%char (sign +:+ i)) as Hfree.
  { apply str_free_app. split; [by destruct Hsign as [->| ->]|]. by eapply digits_free. }
  assert (parse_unsigned U64_MAX (sign +:+ i) = Some vi) as Hpi.
  { rewrite (parse_signed _ _ vi) by done. by rewrite (proj2 (Z.leb_le _ _)). }
  assert ((String.length (trim_end_matches "0"%char f) ≤ Z.to_nat n)%nat →
    parse_unsigned U64_MAX (scaled (sign +:+ i) f (Z.to_nat n)) =
      if amount_of i f n <=? U64_MAX then Some (amount_of i f n) else None) as Hsc.
  { intros Hl. unfold scaled. rewrite <-string_app_assoc. apply parse_signed; [done|by destruct i|].
    rewrite (scaled_value _ vi _ vt) by done. unfold amount_of. rewrite Hvi, Hvt. simpl.
    do 3 f_equal. lia. }
  destruct Hs as [[-> ->]|[-> Hf]].
  - rewrite tokens_no_point by (done || lia). rewrite Hpi. simpl in *.
    rewrite Hsc by lia. by destruct (_ <=? _).
  - rewrite string_app_assoc, tokens_point; [|lia|done|by eapply digits_free].
    rewrite Hpi, (parse_unsigned_digits _ f (vt * 10 ^ Z.of_nat k)) by done.
    cbn [ok_or mbind result_bind].
    destruct (Nat.ltb_spec (Z.to_nat n) (String.length (trim_end_matches "0"%char f))); [done|].
    rewrite Hsc by done. by destruct (_ <=? _).
Qed.

Lemma tokens_inv s n v :
  tokens_to_base_units s n = Finished (Ok v) →
  n ≤ MAX_DECIMALS ∧ ∃ i f vi vf, decimal_number s i f vi vf ∧ vi ≤ U64_MAX.
Proof.
  intros Hs. assert (n ≤ MAX_DECIMALS) as Hn.
  { unfold tokens_to_base_units in Hs. destruct (Z.ltb_spec MAX_DECIMALS n); [done|lia]. }
  split; [done|]. pose proof (split_on_spec "."%char s) as Hsplit.
  destruct (split_on "."%char s) as [|p [|q [|r l]]] eqn:E; [done| | |].
  - destruct Hsplit as [-> Hp]. rewrite tokens_no_point in Hs by done. injection Hs as Hs. inv_ok.
    match goal with H : parse_unsigned _ p = Some _ |- _ =>
      apply parse_unsigned_iff in H as (Hw & sign & t & Hsign & -> & Ht & Hd); [|done] end.
    exists t, EmptyString. eexists _, 0. split; [|eassumption].
    split_and!; [exists sign; auto|done..].
  - destruct Hsplit as (Hp & t & -> & Ht). pose proof (split_on_spec "."%char t) as Hq.
    rewrite Ht in Hq. destruct Hq as [-> Hq].
    change (p +:+ String "."%char q) with (p +:+ "." +:+ q) in *.
    rewrite tokens_point in Hs by done. injection Hs as Hs. inv_ok.
    match goal with H : parse_unsigned _ p = Some _ |- _ =>
      apply parse_unsigned_iff in H as (Hw & sign & i & Hsign & -> & Hi & Hd); [|done] end.
    destruct (Nat.ltb_spec (Z.to_nat n) (String.length (trim_end_matches "0"%char q))) as [|Hl];
      [done|]. inv_ok.
    assert (is_Some (digits_value 0 q)) as [vq Hvq].
    { match goal with H : parse_unsigned _ (scaled _ _ _) = Some _ |- _ =>
        apply parse_unsigned_iff in H as (_ & sign' & t' & Hs' & Heq & Ht' & Hd'); [|done] end.
      unfold scaled in Heq. rewrite <-string_app_assoc, <-(string_app_nil_r t') in Heq.
      apply (signed_inj sign i sign' t' _ v Hsign Hs' Hd Hd' Hi Ht') in Heq. rewrite string_app_nil_r in Heq.
      rewrite <-Heq in Hd'. apply digits_value_parts in Hd' as [_ [w Hw']].
      rewrite pad_zeros_spec in Hw' by lia. apply digits_value_parts in Hw' as [[vt Hvt] _].
      destruct (trim_end_matches_app "0"%char q) as [k Hk]. rewrite Hk, digits_value_app, Hvt.
      simpl. rewrite digits_value_zeros. eauto. }
    match goal with H : parse_unsigned _ q = Some ?w |- _ =>
      apply parse_unsigned_Some in H as (Hw' & t' & Ht' & Hd' & Hor); [|done];
      assert (q = t') as -> by (destruct Hor as [->| ->]; [done|discriminate Hvq]) end.
    exists i, t'. eexists _, vq. split; [|eassumption]. split_and!; [|done..|simplify_eq; lia].
    exists sign. split; [done|]. right. split; [|done]. by rewrite string_app_assoc.
  - exfalso. unfold tokens_to_base_units in Hs. rewrite E in Hs.
    destruct (_ <? _); [done|]. done.
Qed.

Lemma tokens_finished s n : ∃ r, tokens_to_base_units s n = Finished r.
Proof.
  destruct (Z.leb_spec n MAX_DECIMALS) as [Hn|Hn].
  - pose proof (split_on_spec "."%char s) as Hsplit.
    destruct (split_on "."%char s) as [|p [|q [|r l]]] eqn:E; [done| | |].
    + destruct Hsplit as [-> Hp]. rewrite tokens_no_point by done. eauto.
    + destruct Hsplit as (Hp & t & -> & Ht). pose proof (split_on_spec "."%char t) as Hq.
      rewrite Ht in Hq. destruct Hq as [-> Hq].
      change (p +:+ String "."%char q) with (p +:+ "." +:+ q).
      rewrite tokens_point by done. eauto.
    + unfold tokens_to_base_units. rewrite E. destruct (_ <? _); eauto.
  - unfold tokens_to_base_units. rewrite (proj2 (Z.ltb_lt _ _)) by lia. eauto.
Qed.

(** The scaled number, without fractions. *)
Lemma amount_of_exact i f vi vf n v :
  0 ≤ n → digits_value 0 i = Some vi → digits_value 0 f = Some vf →
  (v * 10 ^ Z.of_nat (String.length f) = (vi * 10 ^ Z.of_nat (String.length f) + vf) * 10 ^ n) ↔
  Z.of_nat (String.length (trim_end_matches "0"%char f)) ≤ n ∧ v = amount_of i f n.
Proof.
  intros Hn Hi Hf. destruct (trim_value _ _ Hf) as (vt & k & Hvt & -> & ->).
  unfold amount_of. rewrite Hi, Hvt. simpl.
  set (t := trim_end_matches "0"%char f) in *. rewrite Nat2Z.inj_add.
  set (L := Z.of_nat (String.length t)). rewrite Z.pow_add_r by lia.
  assert (0 < 10 ^ Z.of_nat k) by (apply Z.pow_pos_nonneg; lia).
  assert (0 < 10 ^ L) by (apply Z.pow_pos_nonneg; lia).
  transitivity (v * 10 ^ L = (vi * 10 ^ L + vt) * 10 ^ n); [nia|].
  destruct (Z.le_gt_cases L n) as [Hle|Hgt].
  - assert (10 ^ n = 10 ^ L * 10 ^ (n - L)) as -> by (rewrite <-Z.pow_add_r by lia; f_equal; lia).
    split; [intros; split; [done|]; nia|intros [_ ->]; ring].
  - split; [|lia]. intros Heq. exfalso.
    assert (10 ^ L = 10 ^ n * (10 * 10 ^ (L - n - 1))) as HL.
    { rewrite <-Z.pow_succ_r, <-Z.pow_add_r by lia. f_equal. lia. }
    assert (t ≠ EmptyString) as Hne by (intros Ht; subst L; rewrite Ht in Hgt; simpl in Hgt; lia).
    apply (trimmed_mod_10 _ _ Hne Hvt). apply Z.mod_divide; [lia|].
    assert (0 < 10 ^ n) by (apply Z.pow_pos_nonneg; lia).
    exists (10 ^ (L - n - 1) * (v - vi * 10 ^ n)).
    assert (v * (10 * 10 ^ (L - n - 1)) = vi * 10 ^ L + vt) by (rewrite HL in Heq at 1; nia).
    rewrite HL in *. lia.
Qed.
End amounts.

(** ** Properties *)

(** C40: Parsing a token amount is exact.  It ends without a panic on every string,
    and succeeds with [v] exactly when the decimals asked for are at most the maximum
    and the string is a decimal number (digits, after an optional sign, with an optional fraction of which the digits fit a [u64])
    whose value times [10^n_decimals] is the integer [v] and [v] fits a [u64]; no
    amount is rounded and none wraps around. *)
Theorem amount_exact MAX_DECIMALS s n :
  0 ≤ n →
  (∃ r, tokens_to_base_units MAX_DECIMALS s n = Finished r) ∧
  ∀ v, tokens_to_base_units MAX_DECIMALS s n = Finished (Ok v) ↔
    n ≤ MAX_DECIMALS ∧ v ≤ U64_MAX ∧
    ∃ i f vi vf, decimal_number s i f vi vf ∧ vi ≤ U64_MAX ∧
      v * 10 ^ Z.of_nat (String.length f) =
        (vi * 10 ^ Z.of_nat (String.length f) + vf) * 10 ^ n.
Proof.
  intros Hn0. split; [apply tokens_finished|]. intros v. split.
  - intros Hv. destruct (tokens_inv _ _ _ _ Hv) as (Hn & i & f & vi & vf & Hd & Hvi).
    rewrite (tokens_decimal _ _ _ _ _ _ _ (conj Hn0 Hn) Hd Hvi) in Hv.
    destruct (Nat.ltb_spec (Z.to_nat n) (String.length (trim_end_matches "0"%char f))); [done|].
    destruct (Z.leb_spec (amount_of i f n) U64_MAX); [|done]. injection Hv as <-.
    split_and!; [done..|]. exists i, f, vi, vf. split_and!; [done..|].
    destruct Hd as (_ & _ & Hi & Hf & _). apply (proj2 (amount_of_exact i f vi vf n _ Hn0 Hi Hf)). split; [lia|done].
  - intros (Hn & Hv & i & f & vi & vf & Hd & Hvi & Heq).
    rewrite (tokens_decimal _ _ _ _ _ _ _ (conj Hn0 Hn) Hd Hvi).
    destruct Hd as (_ & _ & Hi & Hf & _). apply (amount_of_exact i f vi vf n v Hn0 Hi Hf) in Heq as [Hl ->].
    rewrite (proj2 (Nat.ltb_ge _ _)) by lia. by rewrite (proj2 (Z.leb_le _ _)).
Qed.

Lemma base_units_shape units decimals :
  in_range U64_MAX units → 0 ≤ decimals →
  ∃ s i f, base_units_to_tokens units decimals = Finished s ∧
    decimal_number s i f (units / 10 ^ decimals) (units mod 10 ^ decimals) ∧
    Z.of_nat (String.length f) = decimals.
Proof.
  intros [Hu Hmax] Hd. unfold base_units_to_tokens.
  pose proof (u_to_string_value _ Hu) as Hv. pose proof (u_to_string_nonempty units) as Hne.
  destruct (Z.eqb_spec decimals 0) as [->|Hd0].
  { exists (u_to_string units), (u_to_string units), EmptyString. split; [done|]. split; [|done].
    rewrite Z.div_1_r, Z.mod_1_r. split_and!; [|done..]. exists EmptyString. auto. }
  set (len := String.length (u_to_string units)) in *.
  pose proof (digits_value_bound _ _ Hv) as Hb. fold len in Hb.
  assert (0 < 10 ^ decimals) by (apply Z.pow_pos_nonneg; lia).
  pose proof (Z.mod_le units (10 ^ decimals) Hu ltac:(lia)) as Hmod.
  destruct (Nat.leb_spec len (Z.to_nat decimals)) as [Hle|Hgt].
  - assert (units < 10 ^ decimals).
    { eapply Z.lt_le_trans; [apply Hb|]. apply Z.pow_le_mono_r; lia. }
    rewrite Z.div_small, Z.mod_small by lia.
    eexists _, "0"%string, (str_repeat "0"%char (Z.to_nat decimals - len) +:+ u_to_string units).
    split; [done|]. split; [|rewrite string_app_length, str_repeat_length; lia].
    split_and!; [|done..| |done].
    + exists EmptyString. split; [by left|]. right. split; [done|].
      destruct (_ - _)%nat; [by destruct (u_to_string units)|done].
    + rewrite digits_value_app, digits_value_zeros. cbn [mbind option_bind].
      rewrite Z.mul_0_l. exact Hv.
  - set (k := (len - Z.to_nat decimals)%nat).
    destruct (string_split (u_to_string units) k) as (l & r & Hlr & Hlk); [lia|].
    rewrite Hlr in Hv. assert (String.length r = Z.to_nat decimals) as Hr.
    { assert (len = String.length l + String.length r)%nat
        by (unfold len; by rewrite Hlr, string_app_length). lia. }
    destruct (digits_value_parts _ _ _ _ Hv) as [[vl Hl] [vr Hvr]].
    rewrite digits_value_app, Hl in Hv. simpl in Hv. rewrite digits_value_acc, Hvr in Hv.
    injection Hv as Hv. pose proof (digits_value_bound _ _ Hvr) as Hbr. rewrite Hr in Hv, Hbr.
    rewrite Z2Nat.id in Hv, Hbr by lia.
    assert (units / 10 ^ decimals = vl) as ->.
    { symmetry. apply (Z.div_unique _ _ _ vr); [lia|]. lia. }
    assert (units mod 10 ^ decimals = vr) as Hmr.
    { symmetry. apply (Z.mod_unique _ _ vl); lia. }
    rewrite Hmr in *. unfold slice_to, slice_from. rewrite Hlr, <-Hlk, split_at_app.
    + simpl. eexists _, l, r. split; [done|]. split; [|lia]. split_and!; [|by destruct l; [simpl in *; lia|]|done..|lia].
      exists EmptyString. split; [by left|]. right. split; [done|]. intros ->. simpl in Hr. lia.
    + destruct r as [|a r]; [exact I|]. simpl in Hvr.
      destruct (digit a) as [d|] eqn:Ea; [|done]. by eapply digit_char_start.
Qed.

(** An amount that is shown is read back: for every [u64] amount and every
    number of decimals a faucet can have, printing does not panic and parsing what
    was printed gives the same amount. *)
Theorem amount_roundtrip MAX_DECIMALS units decimals :
  in_range U64_MAX units → 0 ≤ decimals ≤ MAX_DECIMALS →
  ∃ s, base_units_to_tokens units decimals = Finished s ∧
    tokens_to_base_units MAX_DECIMALS s decimals = Finished (Ok units).
Proof.
  intros Hu Hd. destruct (base_units_shape units decimals Hu) as (s & i & f & Hs & Hdec & Hl); [lia|].
  exists s. split; [done|]. assert (0 < 10 ^ decimals) by (apply Z.pow_pos_nonneg; lia).
  pose proof (Z.div_mod units (10 ^ decimals) ltac:(lia)) as Hdm.
  assert (units / 10 ^ decimals ≤ U64_MAX) as Hi.
  { destruct Hu. etrans; [|done]. apply Z.div_le_upper_bound; nia. }
  rewrite (tokens_decimal _ _ _ _ _ _ _ Hd Hdec Hi).
  destruct Hdec as (_ & _ & Hvi & Hvf & _).
  destruct (amount_of_exact i f _ _ decimals units ltac:(lia) Hvi Hvf) as [Hex _].
  rewrite Hl in Hex. destruct Hex as [Hlen <-]; [f_equal; lia|].
  rewrite (proj2 (Nat.ltb_ge _ _)) by lia. destruct Hu. by rewrite (proj2 (Z.leb_le _ _)).
Qed.

(** ** Witnesses *)

Lemma amount_exact_witness :
  tokens_to_base_units 12 "7531.2468" 8 = Finished (Ok 753124680000) ∧
  tokens_to_base_units 12 "18446744.073709551616" 12 = Finished (Err ParseU64) ∧
  ∃ i f vi vf, decimal_number "7531.2468" i f vi vf ∧
    753124680000 * 10 ^ Z.of_nat (String.length f) =
      (vi * 10 ^ Z.of_nat (String.length f) + vf) * 10 ^ 8.
Proof.
  split; [reflexivity|]. split; [reflexivity|].
  destruct (amount_exact 12 "7531.2468" 8 ltac:(lia)) as [_ He].
  destruct (proj1 (He 753124680000) eq_refl) as (_ & _ & i & f & vi & vf & Hd & _ & Heq).
  exists i, f, vi, vf. split; assumption.
Defined.

Lemma amount_roundtrip_witness :
  base_units_to_tokens 18446744073709551615 12 = Finished "18446744.073709551615"%string ∧
  ∃ s, base_units_to_tokens 18446744073709551615 12 = Finished s ∧
    tokens_to_base_units 12 s 12 = Finished (Ok 18446744073709551615).
Proof.
  split; [reflexivity|].
  apply (amount_roundtrip 12 18446744073709551615 12); unfold in_range, U64_MAX; lia.
Defined.
