(* ===== verification/Endpoint.v ===== *)
(** * Node endpoints

    [rpc/endpoint.rs]: an endpoint is written as an address and read back. *)

From S2P Require Import Prelude Text.
From Stdlib Require Import ZArith Lia Ascii.
From stdpp Require Import base list strings pretty.

Open Scope Z_scope.
#[local] Arguments String.append : simpl nomatch.

Record Endpoint := {
  protocol : string;
  host : string;
  port : option Z
}.

#[export] Instance Endpoint_eq_dec : EqDecision Endpoint.
Proof. solve_decision. Defined.

Definition MIDEN_NODE_PORT : Z := 57291.

Definition Endpoint_new (protocol host : string) (port : option Z) : Endpoint :=
  {| protocol := protocol; host := host; port := port |}.

Definition testnet : Endpoint := Endpoint_new "https" "rpc.testnet.miden.io" None.
Definition devnet : Endpoint := Endpoint_new "https" "rpc.devnet.miden.io" None.
Definition localhost : Endpoint := Endpoint_new "http" "localhost" (Some MIDEN_NODE_PORT).

(** [impl Display]. *)
Definition Endpoint_fmt (self : Endpoint) : string :=
  match port self with
  | Some port => protocol self +:+ "://" +:+ host self +:+ ":" +:+ u_to_string port
  | None => protocol self +:+ "://" +:+ host self
  end.

(** [port[1..].trim_end_matches('/').parse::<u16>()]; the error is the message of the
    standard library. *)
Definition parse_port (port : string) : eff () Z :=
  port ← expect (slice_from 1 port);
  lift (ok_or (parse_unsigned U16_MAX (trim_end_matches "/"%char port)) ()).

(** The separator before the host. *)
Definition scheme_sep : string := "://".

(** [impl TryFrom<&str>]. *)
Definition Endpoint_try_from (endpoint : string) : eff () Endpoint :=
  let protocol_separator_index := str_find scheme_sep endpoint in
  let port_separator_index := str_rfind ":"%char endpoint in
  let port_separator_index :=
    if decide (port_separator_index = protocol_separator_index) then None
    else port_separator_index in
  match protocol_separator_index, port_separator_index with
  | Some protocol_idx, Some port_idx =>
      '(protocol_and_hostname, port) ← expect (split_at port_idx endpoint);
      port ← parse_port port;
      '(protocol, hostname) ← expect (split_at protocol_idx protocol_and_hostname);
      hostname ← expect (slice_from 3 hostname);
      mret (Endpoint_new protocol hostname (Some port))
  | Some protocol_idx, None =>
      '(protocol, hostname) ← expect (split_at protocol_idx endpoint);
      hostname ← expect (slice_from 3 hostname);
      mret (Endpoint_new protocol hostname None)
  | None, Some port_idx =>
      '(hostname, port) ← expect (split_at port_idx endpoint);
      port ← parse_port port;
      mret (Endpoint_new "https" hostname (Some port))
  | None, None => mret (Endpoint_new "https" endpoint None)
  end.

(** The network an endpoint belongs to; [NetworkId::new] of the protocol crate checks
    the prefix. *)
Section network.
Context {NetworkId : Type} (Testnet Devnet : NetworkId) (NetworkId_new : string → option NetworkId).

Definition to_network_id (self : Endpoint) : loop_result NetworkId :=
  if decide (self = testnet) then Finished Testnet
  else if decide (self = devnet) then Finished Devnet
  else
    match NetworkId_new (if decide (self = localhost) then "mlcl" else "mcst") with
    | Some id => Finished id
    | None => Panicked
    end.
End network.

(** ** Lemmas *)

Lemma slice_from_app l r :
  match r with EmptyString => True | String a _ => char_start a end →
  slice_from (String.length l) (l +:+ r) = Some r.
Proof. intros Hr. unfold slice_from. by rewrite split_at_app. Qed.

(** A port after its colon. *)
Lemma parse_port_app t :
  starts_char t →
  parse_port (String ":"%char t) =
    Finished (ok_or (parse_unsigned U16_MAX (trim_end_matches "/"%char t)) ()).
Proof.
  intros Ht. unfold parse_port.
  change (slice_from 1 _) with (slice_from (String.length ":") (":" +:+ t)).
  by rewrite (slice_from_app ":" t).
Qed.

Lemma colon_start t : starts_char (String ":"%char t).
Proof. exact eq_refl. Qed.

Lemma split_scheme l r : split_at (String.length l) (l +:+ scheme_sep +:+ r) = Some (l, scheme_sep +:+ r).
Proof. by apply split_at_app. Qed.

Lemma host_after r : starts_char r → slice_from 3 (scheme_sep +:+ r) = Some r.
Proof. intros Hr. by apply (slice_from_app scheme_sep r). Qed.

(** The four ways an address is read. *)
Lemma try_from_scheme_port l r t :
  str_free ":"%char l ∨ str_find scheme_sep (l +:+ scheme_sep +:+ r +:+ ":" +:+ t) = Some (String.length l) →
  str_free ":"%char t → starts_char r → starts_char t →
  Endpoint_try_from (l +:+ scheme_sep +:+ r +:+ ":" +:+ t) =
    Finished (p ← ok_or (parse_unsigned U16_MAX (trim_end_matches "/"%char t)) ();
              Ok (Endpoint_new l r (Some p))).
Proof.
  intros Hl Ht Hr Hts. unfold Endpoint_try_from.
  assert (str_find scheme_sep (l +:+ scheme_sep +:+ r +:+ ":" +:+ t) = Some (String.length l)) as ->
    by (destruct Hl; [by apply (str_find_app ":"%char "//")|done]).
  assert (l +:+ scheme_sep +:+ r +:+ ":" +:+ t = (l +:+ scheme_sep +:+ r) +:+ String ":"%char t)
    as -> by by rewrite !string_app_assoc, <-string_app_assoc.
  rewrite str_rfind_app by done.
  rewrite decide_False by (rewrite !string_app_length; intros [= Heq]; simpl in Heq; lia).
  cbv zeta. rewrite split_at_app by done. cbn [expect mbind eff_bind].
  rewrite parse_port_app by done.
  destruct (parse_unsigned _ _) as [p|]; [|done]. cbn [ok_or mbind eff_bind result_bind].
  rewrite split_scheme. cbn [expect mbind eff_bind]. by rewrite host_after.
Qed.

Lemma try_from_scheme l r :
  str_free ":"%char l ∨ str_find scheme_sep (l +:+ scheme_sep +:+ r) = Some (String.length l) →
  str_free ":"%char r → starts_char r →
  Endpoint_try_from (l +:+ scheme_sep +:+ r) = Finished (Ok (Endpoint_new l r None)).
Proof.
  intros Hl Hr Hs. unfold Endpoint_try_from.
  assert (str_find scheme_sep (l +:+ scheme_sep +:+ r) = Some (String.length l)) as ->
    by (destruct Hl; [by apply (str_find_app ":"%char "//")|done]).
  change (l +:+ scheme_sep +:+ r) with (l +:+ String ":"%char ("//" +:+ r)).
  rewrite str_rfind_app by done. rewrite decide_True by done. cbv zeta.
  change (l +:+ String ":"%char ("//" +:+ r)) with (l +:+ scheme_sep +:+ r).
  rewrite split_scheme. cbn [expect mbind eff_bind]. by rewrite host_after.
Qed.

Lemma try_from_port r t :
  str_find scheme_sep (r +:+ ":" +:+ t) = None → str_free ":"%char t → starts_char t →
  Endpoint_try_from (r +:+ ":" +:+ t) =
    Finished (p ← ok_or (parse_unsigned U16_MAX (trim_end_matches "/"%char t)) ();
              Ok (Endpoint_new "https" r (Some p))).
Proof.
  intros Hf Ht Hs. unfold Endpoint_try_from. rewrite Hf.
  change (r +:+ ":" +:+ t) with (r +:+ String ":"%char t).
  rewrite str_rfind_app by done. rewrite decide_False by done. cbv zeta.
  rewrite split_at_app by done. cbn [expect mbind eff_bind].
  rewrite parse_port_app by done. by destruct (parse_unsigned _ _).
Qed.

Lemma parsed_port pre pr s h t p :
  (pre = pr +:+ "://" ∨ (pre = EmptyString ∧ pr = "https"%string)) →
  s = pre +:+ h +:+ ":" +:+ t → str_free ":"%char t →
  parse_unsigned U16_MAX (trim_end_matches "/"%char t) = Some p →
  ∃ pre suf, s = pre +:+ h +:+ suf ∧
    (pre = pr +:+ "://" ∨ (pre = EmptyString ∧ pr = "https"%string)) ∧
    in_range U16_MAX p ∧ ∃ t, suf = ":" +:+ t ∧ str_free ":"%char t ∧
      parse_unsigned U16_MAX (trim_end_matches "/"%char t) = Some p.
Proof.
  intros Hpre -> Ht Hp. exists pre, (":" +:+ t). split_and!; [done..| |eauto].
  by apply parse_unsigned_Some in Hp as [? _].
Qed.

(** ** Properties *)

(** An endpoint that is printed is read back.  The protocol has no colon, the
    port is a [u16], and a host without a port has no colon either (with a port it
    may have some: the port follows the last one). *)
Theorem endpoint_roundtrip e :
  str_free ":"%char (protocol e) → starts_char (host e) →
  match port e with
  | Some p => in_range U16_MAX p
  | None => str_free ":"%char (host e)
  end →
  Endpoint_try_from (Endpoint_fmt e) = Finished (Ok e).
Proof.
  destruct e as [pr h [p|]]; cbn [protocol host port]; intros Hpr Hh Hp; unfold Endpoint_fmt;
    cbn [protocol host port]; fold scheme_sep.
  - destruct Hp as [Hp Hmax]. pose proof (u_to_string_value p Hp) as Hv.
    assert (str_free "/"%char (u_to_string p)) as Hslash by by eapply digits_free.
    rewrite try_from_scheme_port.
    + rewrite trim_free by done. rewrite (parse_unsigned_digits _ _ p) by
        (done || apply u_to_string_nonempty). done.
    + by left.
    + by eapply digits_free.
    + done.
    + destruct (u_to_string p) as [|c s]; [done|]. simpl in Hv.
      destruct (digit c) eqn:E; [|done]. by eapply digit_char_start.
  - apply try_from_scheme; [by left|done..].
Qed.

(** Reading an address never panics on a string (whose bytes are valid UTF-8),
    and what it returns is what is written: the host is the text between the
    protocol separator (or the start, with the protocol "https") and the last
    colon after it, if any, which is followed by the port and slashes only. *)
Theorem endpoint_parse_spec s :
  str_valid s →
  ∃ r, Endpoint_try_from s = Finished r ∧
    ∀ e, r = Ok e → ∃ pre suf, s = pre +:+ host e +:+ suf ∧
      (pre = protocol e +:+ "://" ∨ (pre = EmptyString ∧ protocol e = "https"%string)) ∧
      match port e with
      | None => suf = EmptyString ∧ str_free ":"%char (host e)
      | Some p => in_range U16_MAX p ∧ ∃ t, suf = ":" +:+ t ∧ str_free ":"%char t ∧
          parse_unsigned U16_MAX (trim_end_matches "/"%char t) = Some p
      end.
Proof.
  intros Hs. destruct (str_find scheme_sep s) as [i|] eqn:Ef.
  - pose proof Ef as Ef'. apply str_find_Some in Ef' as (l & u & -> & <-).
    change (String ":"%char "//") with scheme_sep in *.
    assert (starts_char u) as Hu.
    { apply str_valid_starts, (follows_app 0 (l +:+ ":/") "/"%char); [|apply Nat.ltb_lt; reflexivity].
      by rewrite <-string_app_assoc. }
    destruct (str_rfind ":"%char u) as [j|] eqn:Er.
    + apply str_rfind_Some in Er as (r & t & -> & <- & Ht).
      assert (starts_char t) as Hts.
      { apply str_valid_starts, (follows_app 0 (l +:+ scheme_sep +:+ r) ":"%char); [|apply Nat.ltb_lt; reflexivity].
        by rewrite <-!string_app_assoc. }
      assert (starts_char r) as Hr by by destruct r.
      change (String ":"%char t) with (":" +:+ t) in *.
      rewrite (try_from_scheme_port l r t) by auto. eexists. split; [done|].
      intros e He. inv_ok. apply (parsed_port (l +:+ scheme_sep) l _ r t); [by left| |done..].
      by rewrite <-!string_app_assoc.
    + apply str_rfind_None in Er. rewrite (try_from_scheme l u) by auto.
      eexists. split; [done|]. intros e [= <-]. exists (l +:+ scheme_sep), EmptyString. simpl.
      rewrite string_app_nil_r, <-string_app_assoc. auto.
  - destruct (str_rfind ":"%char s) as [j|] eqn:Er.
    + apply str_rfind_Some in Er as (r & t & -> & <- & Ht).
      change (String ":"%char t) with (":" +:+ t) in *.
      assert (starts_char t) as Hts.
      { apply str_valid_starts, (follows_app 0 r ":"%char); [done|apply Nat.ltb_lt; reflexivity]. }
      rewrite (try_from_port r t) by done. eexists. split; [done|].
      intros e He. inv_ok. apply (parsed_port EmptyString "https" _ r t); [by right|done..].
    + unfold Endpoint_try_from. rewrite Ef, Er. rewrite decide_True by done.
      eexists. split; [done|]. intros e [= <-]. exists EmptyString, EmptyString. simpl.
      rewrite string_app_nil_r. apply str_rfind_None in Er. auto.
Qed.

(** ** Witnesses *)

Lemma endpoint_roundtrip_witness :
  Endpoint_fmt localhost = "http://localhost:57291"%string ∧
  Endpoint_try_from (Endpoint_fmt localhost) = Finished (Ok localhost).
Proof.
  split; [reflexivity|]. apply (endpoint_roundtrip localhost).
  - simpl. repeat split; discriminate.
  - reflexivity.
  - unfold in_range, localhost, MIDEN_NODE_PORT, U16_MAX; simpl; lia.
Defined.

Lemma endpoint_parse_spec_witness :
  str_valid "https://some.test.domain:8000/" ∧
  ∃ r, Endpoint_try_from "https://some.test.domain:8000/" = Finished r ∧
    r = Ok (Endpoint_new "https" "some.test.domain" (Some 8000)).
Proof.
  assert (str_valid "https://some.test.domain:8000/") as Hv by (repeat split).
  split; [exact Hv|].
  destruct (endpoint_parse_spec _ Hv) as (r & Hr & _). exists r. split; [exact Hr|].
  assert (Endpoint_try_from "https://some.test.domain:8000/" =
    Finished (Ok (Endpoint_new "https" "some.test.domain" (Some 8000)))) as Hc by reflexivity.
  rewrite Hc in Hr. injection Hr as <-. reflexivity.
Defined.
