(* ===== verification/AccountTypes.v ===== *)
(** * Accounts as the store sees them

    [store/account.rs] and [store/errors.rs], and the parts of an account of the
    protocol crate that the store takes apart: the vault, the storage with its maps,
    the code and the delta of a transaction.  They are parameters ([AccountLib]); the
    laws ([AccountLaws]) state that text and byte encodings of identifiers are
    injective. *)

From S2P Require Import Prelude Protocol Serde Model NoteStates Errors.
From Stdlib Require Import ZArith Lia Ascii.
From stdpp Require Import base gmap list strings pretty.

Open Scope Z_scope.

Class AccountLib `{Protocol} := {
  AccountId_has_public_state : AccountId → bool;
  EMPTY_WORD : Word;
  Word_to_hex : Word → string;
  Word_to_string : Word → string;
  Word_try_from : string → option Word;
  Word_to_bytes : Word → bytes;
  Word_from_bytes : bytes → option Word;
  AccountId_to_hex : AccountId → string;
  AccountId_from_hex : string → option AccountId;
  (* Storage. *)
  StorageSlotName : Type;
  StorageSlotName_key :: KeyType StorageSlotName;
  StorageSlotName_to_string : StorageSlotName → string;
  StorageSlotName_new : string → option StorageSlotName;
  StorageMapKey : Type;
  StorageMapKey_key :: KeyType StorageMapKey;
  StorageMapKey_as_word : StorageMapKey → Word;
  StorageMapKey_new : Word → StorageMapKey;
  StorageMapKey_hash : StorageMapKey → Word;
  StorageMap : Type;
  StorageMap_default : StorageMap;
  StorageMap_entries : StorageMap → list (StorageMapKey * Word);
  StorageMap_insert : StorageMap → StorageMapKey → Word → result foreign StorageMap;
  StorageMap_root : StorageMap → Word;
  AccountStorage : Type;
  AccountStorage_slots : AccountStorage → list (StorageSlotName * (Word + StorageMap));
  AccountStorage_new : list (StorageSlotName * (Word + StorageMap)) → result foreign AccountStorage;
  (* The vault. *)
  AssetVaultKey : Type;
  AssetVaultKey_key :: KeyType AssetVaultKey;
  AssetVaultKey_to_string : AssetVaultKey → string;
  AssetVaultKey_as_word : AssetVaultKey → Word;
  AssetVaultKey_faucet_id : AssetVaultKey → AccountId;
  Asset_vault_key : Asset → AssetVaultKey;
  Asset_to_value_word : Asset → Word;
  Asset_from_key_value_words : Word → Word → result foreign Asset;
  FungibleAsset_new : AccountId → u64 → result foreign FungibleAsset;
  FungibleAsset_add : FungibleAsset → FungibleAsset → result foreign FungibleAsset;
  FungibleAsset_sub : FungibleAsset → FungibleAsset → result foreign FungibleAsset;
  AssetVault : Type;
  AssetVault_new : list Asset → result foreign AssetVault;
  AssetVault_assets : AssetVault → list Asset;
  AssetVault_root : AssetVault → Word;
  (* Maps and vaults of which only the root is known. *)
  PartialStorageMap : Type;
  PartialStorageMap_new : Word → PartialStorageMap;
  PartialVault : Type;
  PartialVault_new : Word → PartialVault;
  (* Code and headers. *)
  AccountCode : Type;
  AccountCode_commitment : AccountCode → Word;
  AccountCode_to_bytes : AccountCode → bytes;
  AccountCode_from_bytes : bytes → result foreign AccountCode;
  AccountHeader_new : AccountId → u64 → Word → Word → Word → AccountHeader;
  AccountHeader_vault_root : AccountHeader → Word;
  AccountHeader_storage_commitment : AccountHeader → Word;
  AccountHeader_code_commitment : AccountHeader → Word;
  Account_to_header : Account → AccountHeader;
  Account_vault : Account → AssetVault;
  Account_storage : Account → AccountStorage;
  Account_code : Account → AccountCode;
  Account_seed : Account → option Word;
  Account_new_unchecked :
    AccountId → AssetVault → AccountStorage → AccountCode → u64 → option Word → Account;
  (* Addresses. *)
  Address : Type;
  Address_to_bytes : Address → bytes;
  Address_from_bytes : bytes → option Address;
  Address_to_note_tag : Address → NoteTag;
  (* The changes of a transaction.  Non-fungible assets are added ([true]) or
     removed; the values of a map delta are the new values. *)
  AccountDelta : Type;
  delta_fungible : AccountDelta → list (AssetVaultKey * Z);
  delta_non_fungible : AccountDelta → list (NonFungibleAsset * bool);
  delta_values : AccountDelta → list (StorageSlotName * Word);
  delta_maps : AccountDelta → list (StorageSlotName * list (StorageMapKey * Word))
}.

(** Encodings are read back. *)
Class AccountLaws `{AccountLib} : Prop := {
  Word_display w : Word_to_string w = Word_to_hex w;
  Word_hex_roundtrip w : Word_try_from (Word_to_hex w) = Some w;
  Word_bytes_roundtrip w : Word_from_bytes (Word_to_bytes w) = Some w;
  AccountId_hex_roundtrip a : AccountId_from_hex (AccountId_to_hex a) = Some a;
  StorageSlotName_roundtrip n : StorageSlotName_new (StorageSlotName_to_string n) = Some n;
  AccountHeader_new_eta h :
    AccountHeader_new (AccountHeader_id h) (AccountHeader_nonce h) (AccountHeader_vault_root h)
      (AccountHeader_storage_commitment h) (AccountHeader_code_commitment h) = h;
  AccountCode_roundtrip c : AccountCode_from_bytes (AccountCode_to_bytes c) = Ok c
}.

#[export] Instance Word_to_hex_inj `{AccountLaws} : Inj (=) (=) Word_to_hex.
Proof. intros a b Hab. apply (f_equal Word_try_from) in Hab. rewrite !Word_hex_roundtrip in Hab. congruence. Qed.

#[export] Instance AccountId_to_hex_inj `{AccountLaws} : Inj (=) (=) AccountId_to_hex.
Proof. intros a b Hab. apply (f_equal AccountId_from_hex) in Hab. rewrite !AccountId_hex_roundtrip in Hab. congruence. Qed.

Section types.
Context `{AccountLib}.

(** [StorageSlotType] with its representation as a [u8]. *)
Inductive StorageSlotType := SlotType_Value | SlotType_Map.

#[export] Instance StorageSlotType_eq_dec : EqDecision StorageSlotType.
Proof. solve_decision. Defined.

Definition StorageSlotType_as_u8 (t : StorageSlotType) : u8 :=
  match t with SlotType_Value => 0 | SlotType_Map => 1 end.
Definition StorageSlotType_try_from (n : u8) : option StorageSlotType :=
  if n =? 0 then Some SlotType_Value else if n =? 1 then Some SlotType_Map else None.

(** [StorageSlot::value] and [slot_type]. *)
Definition StorageSlot_value (content : Word + StorageMap) : Word :=
  match content with inl w => w | inr m => StorageMap_root m end.
Definition StorageSlot_type (content : Word + StorageMap) : StorageSlotType :=
  match content with inl _ => SlotType_Value | inr _ => SlotType_Map end.

(** *** [AccountStorageRequirements] of [rpc/domain/account.rs] *)

(** The slots of an account that are asked for, with the keys of each; a slot without
    keys stands for all its entries. *)
Definition AccountStorageRequirements : Type := gmap StorageSlotName (list StorageMapKey).

Definition AccountStorageRequirements_new (slots_and_keys : list (StorageSlotName * list StorageMapKey)) :
    AccountStorageRequirements := btree_collect slots_and_keys.
Definition keys_for_slot (self : AccountStorageRequirements) (slot_name : StorageSlotName) :
    list StorageMapKey := default [] (self !! slot_name).

(** *** [store/errors.rs] *)

Inductive MerkleError :=
| Merkle_UntrackedKey (key : Word)
| Merkle_ConflictingRoots (expected_root actual_root : Word)
| Merkle_RootNotInStore (root : Word)
| Merkle_Other (e : foreign).

Inductive StoreError :=
| Store_AssetError (e : foreign)
| Store_AssetVaultError (e : foreign)
| Store_AccountCodeDataNotFound (root : Word)
| Store_AccountDataNotFound (id : AccountId)
| Store_AccountError (e : foreign)
| Store_AddressError (e : foreign)
| Store_AccountIdError (e : foreign)
| Store_AccountCommitmentMismatch (id : AccountId)
| Store_AccountStorageRootNotFound (root : Word)
| Store_AccountStorageIndexNotFound (index : Z)
| Store_BlockHeaderNotFound (block : BlockNumber)
| Store_PartialBlockchainNodeNotFound (index : u64)
| Store_DataDeserializationError (e : DeserializationError)
| Store_DatabaseError (msg : string)
| Store_HexParseError (e : foreign)
| Store_InvalidInt
| Store_NoteRecordError (e : NoteRecordError)
| Store_MerkleStoreError (e : MerkleError)
| Store_MmrError (e : foreign)
| Store_NoteInclusionProofError (e : foreign)
| Store_NoteTagAlreadyTracked (tag : u64)
| Store_NoteScriptNotFound (root : string)
| Store_ParsingError (msg : string)
| Store_QueryError (msg : string)
| Store_SmtProofError (e : foreign)
| Store_StorageMapError (e : foreign)
| Store_TransactionScriptError (e : foreign)
| Store_VaultDataNotFound (root : Word)
| Store_WordError.

(** *** [store/account.rs] *)

Inductive AccountStatus :=
| AccountStatus_New (seed : Word)
| AccountStatus_Tracked
| AccountStatus_Locked (seed : option Word).

Definition AccountStatus_is_new (self : AccountStatus) : bool :=
  match self with AccountStatus_New _ => true | _ => false end.
Definition AccountStatus_is_locked (self : AccountStatus) : bool :=
  match self with AccountStatus_Locked _ => true | _ => false end.
Definition AccountStatus_seed (self : AccountStatus) : option Word :=
  match self with
  | AccountStatus_New seed => Some seed
  | AccountStatus_Locked seed => seed
  | AccountStatus_Tracked => None
  end.

(** [PartialAccount] of the protocol crate, as the client builds it: the header values,
    the code, the storage header with its partial maps, the partial vault and the seed. *)
Record PartialAccount := {
  partial_id : AccountId;
  partial_nonce : u64;
  partial_code : AccountCode;
  partial_storage_header : list (StorageSlotName * StorageSlotType * Word);
  partial_maps : list PartialStorageMap;
  partial_vault : PartialVault;
  partial_seed : option Word
}.

Inductive AccountRecordData :=
| AccountRecordData_Full (account : Account)
| AccountRecordData_Partial (account : PartialAccount).

Definition AccountRecordData_nonce (self : AccountRecordData) : u64 :=
  match self with
  | AccountRecordData_Full account => Account_nonce account
  | AccountRecordData_Partial account => partial_nonce account
  end.

Record AccountRecord := {
  account_data : AccountRecordData;
  status : AccountStatus
}.

Definition AccountRecord_new (account_data : AccountRecordData) (status : AccountStatus) :
    AccountRecord := {| account_data := account_data; status := status |}.
Definition AccountRecord_is_locked (self : AccountRecord) : bool :=
  AccountStatus_is_locked (status self).
Definition AccountRecord_nonce (self : AccountRecord) : u64 :=
  AccountRecordData_nonce (account_data self).

(** [TryFrom<AccountRecord>] for [Account] and [PartialAccount]. *)
Definition Account_try_from (value : AccountRecord) : result ClientError Account :=
  match account_data value with
  | AccountRecordData_Full acc => Ok acc
  | AccountRecordData_Partial acc => Err (Client_AccountRecordNotFull (partial_id acc))
  end.
Definition PartialAccount_try_from (value : AccountRecord) : result ClientError PartialAccount :=
  match account_data value with
  | AccountRecordData_Partial acc => Ok acc
  | AccountRecordData_Full acc => Err (Client_AccountRecordNotPartial (Account_id acc))
  end.
End types.

(** ** A concrete account library *)

(** Integers in binary, as the text of words. *)
Fixpoint pos_to_bits (p : positive) : string :=
  match p with
  | xH => EmptyString
  | xO p => String "0"%char (pos_to_bits p)
  | xI p => String "1"%char (pos_to_bits p)
  end.
Fixpoint bits_to_pos (s : string) : positive :=
  match s with
  | EmptyString => xH
  | String c s => if decide (c = "0"%char) then xO (bits_to_pos s) else xI (bits_to_pos s)
  end.
Definition z_to_text (z : Z) : string :=
  match z with
  | Z0 => "z"
  | Zpos p => String "+"%char (pos_to_bits p)
  | Zneg p => String "-"%char (pos_to_bits p)
  end.
Definition text_to_z (s : string) : option Z :=
  match s with
  | String c s =>
      if decide (c = "+"%char) then Some (Zpos (bits_to_pos s))
      else if decide (c = "-"%char) then Some (Zneg (bits_to_pos s))
      else Some 0
  | EmptyString => None
  end.

Lemma bits_roundtrip p : bits_to_pos (pos_to_bits p) = p.
Proof. induction p as [p IH|p IH|]; simpl; by rewrite ?IH. Qed.
Lemma text_roundtrip z : text_to_z (z_to_text z) = Some z.
Proof. destruct z; simpl; by rewrite ?bits_roundtrip. Qed.

(** The text of an account starts like hexadecimal. *)
Definition toy_account_hex (a : Z) : string := "0x" +:+ z_to_text a.
Definition toy_account_of_hex (s : string) : option Z :=
  match s with
  | String _ (String _ t) => a ← text_to_z t; if decide (s = toy_account_hex a) then Some a else None
  | _ => None
  end.
Lemma toy_account_hex_roundtrip a : toy_account_of_hex (toy_account_hex a) = Some a.
Proof.
  change (match text_to_z (z_to_text a) with
    | Some b => if decide (toy_account_hex a = toy_account_hex b) then Some b else None
    | None => None end = Some a).
  rewrite text_roundtrip. by rewrite decide_True.
Qed.

(** The root of a tree: zero when it is empty, as [EMPTY_WORD] entries count for
    nothing. *)
Definition toy_root (entries : list (Z * Z)) : Z := foldr (λ e acc, 100 * e.1 + e.2 + acc) 0 entries.

Definition toy_vault_key (a : @Asset toy_protocol) : Z :=
  match a with
  | Asset_Fungible (f, _) => 2 * f
  | Asset_NonFungible (f, x) => 2 * (f + 1000 * x) + 1
  end.
Definition toy_value_word (a : @Asset toy_protocol) : Z :=
  match a with Asset_Fungible (_, n) => n | Asset_NonFungible (_, x) => x end.
Definition toy_from_words (key value : Z) : result foreign (@Asset toy_protocol) :=
  if Z.even key then Ok (@Asset_Fungible toy_protocol (key / 2, value))
  else Ok (@Asset_NonFungible toy_protocol ((key - 1) / 2 - 1000 * value, value)).

Definition toy_vault_root (l : list (@Asset toy_protocol)) : Z :=
  toy_root ((λ a, (toy_vault_key a, toy_value_word a)) <$> l).

#[export] Instance toy_account_lib : AccountLib := {|
  AccountId_has_public_state := λ a : @AccountId toy_protocol, 0 <=? (a : Z);
  EMPTY_WORD := (0 : @Word toy_protocol);
  Word_to_hex := z_to_text;
  Word_to_string := z_to_text;
  Word_try_from := text_to_z;
  Word_to_bytes := λ w, [w];
  Word_from_bytes := λ b, head b;
  AccountId_to_hex := toy_account_hex;
  AccountId_from_hex := toy_account_of_hex;
  StorageSlotName := Z;
  StorageSlotName_to_string := z_to_text;
  StorageSlotName_new := text_to_z;
  StorageMapKey := Z;
  StorageMapKey_as_word := λ k, k;
  StorageMapKey_new := λ k, k;
  StorageMapKey_hash := λ k, k + 1;
  StorageMap := list (Z * Z);
  StorageMap_default := [];
  StorageMap_entries := λ m, m;
  StorageMap_insert := λ m k v, Ok (m ++ [(k, v)]);
  StorageMap_root := λ m, toy_root ((λ kv, (kv.1 + 1, kv.2)) <$> m);
  AccountStorage := list (Z * (Z + list (Z * Z)));
  AccountStorage_slots := λ s, s;
  AccountStorage_new := λ s, Ok s;
  AssetVaultKey := Z;
  AssetVaultKey_to_string := z_to_text;
  AssetVaultKey_as_word := λ k, k;
  AssetVaultKey_faucet_id := λ k, k / 2;
  Asset_vault_key := toy_vault_key;
  Asset_to_value_word := toy_value_word;
  Asset_from_key_value_words := toy_from_words;
  FungibleAsset_new := λ f n, Ok ((f, n) : @FungibleAsset toy_protocol);
  FungibleAsset_add := λ a b, Ok ((a.1, a.2 + b.2) : @FungibleAsset toy_protocol);
  FungibleAsset_sub := λ a b,
    if a.2 <? b.2 then Err "amount"%string else Ok ((a.1, a.2 - b.2) : @FungibleAsset toy_protocol);
  AssetVault := list (@Asset toy_protocol);
  AssetVault_new := λ l, Ok l;
  AssetVault_assets := λ v, v;
  AssetVault_root := toy_vault_root;
  PartialStorageMap := Z * list (Z * Z);
  PartialStorageMap_new := λ root, (root, []);
  PartialVault := Z;
  PartialVault_new := λ root, root;
  AccountCode := Z;
  AccountCode_commitment := λ c, c;
  AccountCode_to_bytes := λ c, [c];
  AccountCode_from_bytes := λ b, match b with [c] => Ok c | _ => Err "code"%string end;
  AccountHeader_new := λ id nonce vault storage code, (id, vault, nonce);
  AccountHeader_vault_root := λ h, h.1.2;
  AccountHeader_storage_commitment := λ _, 0;
  AccountHeader_code_commitment := λ _, 0;
  Account_to_header := λ a,
    (a.1.1, toy_vault_root ((λ p, @Asset_Fungible toy_protocol p) <$> a.2), a.1.2);
  Account_vault := λ a, (λ p, @Asset_Fungible toy_protocol p) <$> a.2;
  Account_storage := λ _, [];
  Account_code := λ _, 0;
  Account_seed := λ _, None;
  Account_new_unchecked := λ id vault _ _ nonce _,
    (id, nonce, omap (λ a, match a with Asset_Fungible p => Some p | _ => None end) vault);
  Address := Z;
  Address_to_bytes := λ a, [a];
  Address_from_bytes := λ b, head b;
  Address_to_note_tag := λ a, a;
  AccountDelta := list (Z * Z) * list ((Z * Z) * bool) * list (Z * Z) * list (Z * list (Z * Z));
  delta_fungible := λ d, d.1.1.1;
  delta_non_fungible := λ d, d.1.1.2;
  delta_values := λ d, d.1.2;
  delta_maps := λ d, d.2
|}.

#[export] Instance toy_account_laws : AccountLaws.
Proof. split; simpl; try done; try apply text_roundtrip; try apply toy_account_hex_roundtrip. by intros [[]]. Qed.
