(* ===== verification/TxRequest.v ===== *)
(** * Transaction requests

    [transaction/request/mod.rs], [transaction/request/builder.rs],
    [transaction/request/foreign.rs] and the checks of [transaction/mod.rs] that
    look at a request: the request, its builder, the input notes handed to the
    executor, the balance check before execution and the output check after it. *)

From S2P Require Import Prelude Protocol Model NoteStates InputNote Errors AccountTypes.
From Stdlib Require Import ZArith Lia.
From stdpp Require Import base gmap list strings sorting relations.

Open Scope Z_scope.

(** Types and functions of the protocol, standards and VM crates that requests are
    made of.  Note creation draws from a random number generator. *)
Class RequestLib `{AccountLib} := {
  AdviceMap : Type;
  AdviceMap_default : AdviceMap;
  AdviceMap_extend : AdviceMap → list (Word * list Z) → AdviceMap;
  MerkleStore : Type;
  InnerNodeInfo : Type;
  MerkleStore_default : MerkleStore;
  MerkleStore_extend : MerkleStore → list InnerNodeInfo → MerkleStore;
  NoteTag_with_account_target : AccountId → NoteTag;
  (* [InputNotes::new] checks the number of notes and that they are distinct. *)
  InputNotes_new : list InputNote → result string (list InputNote);
  Rng : Type;
  P2idNote_create :
    AccountId → AccountId → list Asset → NoteType → Rng → Rng * result string Note;
  P2ideNote_create :
    AccountId → AccountId → option BlockNumber → option BlockNumber → list Asset → NoteType → Rng →
    Rng * result string Note;
  SwapNote_create :
    AccountId → Asset → Asset → NoteType → NoteType → Rng →
    Rng * result string (Note * NoteDetails)
}.

(** ** Assets *)

Section assets.
Context `{Protocol}.

(** One asset of [collect_assets]; the sum of two amounts is a [u64] addition, which
    panics when it overflows. *)
Definition collect_asset {E} (acc : gmap AccountId u64 * list NonFungibleAsset) (asset : Asset) :
    eff E (gmap AccountId u64 * list NonFungibleAsset) :=
  let '(fungible_balance_map, non_fungible_set) := acc in
  match asset with
  | Asset_Fungible fungible =>
      let faucet_id := FungibleAsset_faucet_id fungible in
      match fungible_balance_map !! faucet_id with
      | Some balance =>
          sum ← expect (checked_add U64_MAX balance (FungibleAsset_amount fungible));
          mret (<[faucet_id := sum]> fungible_balance_map, non_fungible_set)
      | None =>
          mret (<[faucet_id := FungibleAsset_amount fungible]> fungible_balance_map,
                non_fungible_set)
      end
  | Asset_NonFungible non_fungible =>
      if bool_decide (non_fungible ∈ non_fungible_set)
      then mret (fungible_balance_map, non_fungible_set)
      else mret (fungible_balance_map, non_fungible_set ++ [non_fungible])
  end.

Definition collect_assets {E} (assets : list Asset) :
    eff E (gmap AccountId u64 * list NonFungibleAsset) :=
  eff_fold collect_asset assets (∅, []).
End assets.

(** ** The request *)

Section request.
Context `{RequestLib}.

(** [NoteArgs] is a [Word]. *)
Inductive TransactionScriptTemplate :=
| CustomScript (script : TransactionScript)
| SendNotes (notes : list PartialNote).

Inductive ForeignAccount :=
| ForeignAccount_Public (id : AccountId) (requirements : AccountStorageRequirements)
| ForeignAccount_Private (account : PartialAccount).

Definition ForeignAccount_public (account_id : AccountId)
    (storage_requirements : AccountStorageRequirements) :
    result TransactionRequestError ForeignAccount :=
  if negb (AccountId_has_public_state account_id) then Err (Req_InvalidForeignAccountId account_id)
  else Ok (ForeignAccount_Public account_id storage_requirements).
Definition ForeignAccount_private (account : PartialAccount) :
    result TransactionRequestError ForeignAccount :=
  if AccountId_has_public_state (partial_id account)
  then Err (Req_InvalidForeignAccountId (partial_id account))
  else Ok (ForeignAccount_Private account).
Definition ForeignAccount_account_id (self : ForeignAccount) : AccountId :=
  match self with
  | ForeignAccount_Public account_id _ => account_id
  | ForeignAccount_Private partial_account => partial_id partial_account
  end.
Definition storage_slot_requirements (self : ForeignAccount) : AccountStorageRequirements :=
  match self with
  | ForeignAccount_Public _ requirements => requirements
  | ForeignAccount_Private _ => ∅
  end.

Record TransactionRequest := {
  tr_input_notes : list Note;
  tr_input_notes_args : list (NoteId * option Word);
  tr_script_template : option TransactionScriptTemplate;
  tr_expected_output_recipients : gmap Word NoteRecipient;
  tr_expected_future_notes : gmap NoteId (NoteDetails * NoteTag);
  tr_advice_map : AdviceMap;
  tr_merkle_store : MerkleStore;
  tr_foreign_accounts : gmap AccountId ForeignAccount;
  tr_expiration_delta : option u16;
  tr_ignore_invalid_input_notes : bool;
  tr_script_arg : option Word;
  tr_auth_arg : option Word;
  tr_expected_ntx_scripts : list NoteScript
}.

Definition input_note_ids (self : TransactionRequest) : list NoteId :=
  Note_id <$> tr_input_notes self.

Definition incoming_assets {E} (self : TransactionRequest) :
    eff E (gmap AccountId u64 * list NonFungibleAsset) :=
  collect_assets (concat ((λ note, NoteAssets_iter (Note_assets note)) <$> tr_input_notes self)).

Definition get_note_args (self : TransactionRequest) : gmap NoteId Word :=
  btree_collect (omap (λ '(note, args), (λ a, (note, a)) <$> args) (tr_input_notes_args self)).

(** The lookup of each recipient is an [expect]. *)
Definition expected_output_own_notes {E} (self : TransactionRequest) : eff E (list Note) :=
  match tr_script_template self with
  | Some (SendNotes notes) =>
      expect (mapM (λ partial,
        recipient ← tr_expected_output_recipients self !! PartialNote_recipient_digest partial;
        Some (Note_new (PartialNote_assets partial) (PartialNote_metadata partial) recipient)) notes)
  | _ => mret []
  end.

Definition expected_output_recipients (self : TransactionRequest) : list NoteRecipient :=
  btree_values (tr_expected_output_recipients self).
Definition expected_future_notes (self : TransactionRequest) : list (NoteDetails * NoteTag) :=
  btree_values (tr_expected_future_notes self).

(** The loop over the authenticated records; the conversion is an [expect]. *)
Definition add_authenticated (acc : gmap NoteId InputNote) (record : InputNoteRecord) :
    eff TransactionRequestError (gmap NoteId InputNote) :=
  if negb (InputNoteRecord_is_authenticated record) then
    lift (Err (Req_InputNoteNotAuthenticated (InputNoteRecord_id record)))
  else if InputNoteRecord_is_consumed record then
    lift (Err (Req_InputNoteAlreadyConsumed (InputNoteRecord_id record)))
  else
    match InputNoteRecord_try_into_input_note record with
    | Ok note => mret (<[InputNoteRecord_id record := note]> acc)
    | Err _ => Panicked
    end.

(** Taking the notes out of the map in the order of the request; a note that is not
    there is a panic. *)
Fixpoint take_notes (ids : list NoteId) (input_notes : gmap NoteId InputNote) :
    option (list InputNote) :=
  match ids with
  | [] => Some []
  | id :: ids =>
      note ← input_notes !! id;
      notes ← take_notes ids (delete id input_notes);
      Some (note :: notes)
  end.

Definition build_input_notes (self : TransactionRequest)
    (authenticated_note_records : list InputNoteRecord) :
    eff TransactionRequestError (list InputNote) :=
  input_notes ← eff_fold add_authenticated authenticated_note_records ∅;
  let authenticated_note_ids := dom input_notes in
  let input_notes :=
    foldl (λ m note, <[Note_id note := InputNote_Unauthenticated note]> m) input_notes
      (filter (λ n, Note_id n ∉ authenticated_note_ids) (tr_input_notes self)) in
  notes ← expect (take_notes (input_note_ids self) input_notes);
  lift (map_err Req_TransactionInputError (InputNotes_new notes)).

(** ** The builder *)

Record TransactionRequestBuilder := {
  b_input_notes : list Note;
  b_input_notes_args : list (NoteId * option Word);
  b_own_output_notes : list Note;
  b_expected_output_recipients : gmap Word NoteRecipient;
  b_expected_future_notes : gmap NoteId (NoteDetails * NoteTag);
  b_custom_script : option TransactionScript;
  b_advice_map : AdviceMap;
  b_merkle_store : MerkleStore;
  b_foreign_accounts : gmap AccountId ForeignAccount;
  b_expiration_delta : option u16;
  b_ignore_invalid_input_notes : bool;
  b_script_arg : option Word;
  b_auth_arg : option Word;
  b_expected_ntx_scripts : list NoteScript
}.
Implicit Types (b : TransactionRequestBuilder).

Definition TransactionRequestBuilder_new : TransactionRequestBuilder :=
  Build_TransactionRequestBuilder [] [] [] ∅ ∅ None AdviceMap_default MerkleStore_default ∅ None
    false None None [].

Definition b_with_input_notes b (notes : list (Note * option Word)) : TransactionRequestBuilder :=
  Build_TransactionRequestBuilder
    (b_input_notes b ++ notes.*1)
    (b_input_notes_args b ++ ((λ '(note, argument), (Note_id note, argument)) <$> notes))
    (b_own_output_notes b) (b_expected_output_recipients b) (b_expected_future_notes b)
    (b_custom_script b) (b_advice_map b) (b_merkle_store b) (b_foreign_accounts b)
    (b_expiration_delta b) (b_ignore_invalid_input_notes b) (b_script_arg b) (b_auth_arg b)
    (b_expected_ntx_scripts b).

Definition own_output_notes b (notes : list Note) : TransactionRequestBuilder :=
  Build_TransactionRequestBuilder (b_input_notes b) (b_input_notes_args b)
    (b_own_output_notes b ++ notes)
    (foldl (λ m note, <[NoteRecipient_digest (Note_recipient note) := Note_recipient note]> m)
      (b_expected_output_recipients b) notes)
    (b_expected_future_notes b) (b_custom_script b) (b_advice_map b) (b_merkle_store b)
    (b_foreign_accounts b) (b_expiration_delta b) (b_ignore_invalid_input_notes b) (b_script_arg b)
    (b_auth_arg b) (b_expected_ntx_scripts b).

Definition custom_script b (script : TransactionScript) : TransactionRequestBuilder :=
  Build_TransactionRequestBuilder (b_input_notes b) (b_input_notes_args b) (b_own_output_notes b)
    (b_expected_output_recipients b) (b_expected_future_notes b) (Some script) (b_advice_map b)
    (b_merkle_store b) (b_foreign_accounts b) (b_expiration_delta b)
    (b_ignore_invalid_input_notes b) (b_script_arg b) (b_auth_arg b) (b_expected_ntx_scripts b).

Definition foreign_accounts b (accounts : list ForeignAccount) : TransactionRequestBuilder :=
  Build_TransactionRequestBuilder (b_input_notes b) (b_input_notes_args b) (b_own_output_notes b)
    (b_expected_output_recipients b) (b_expected_future_notes b) (b_custom_script b)
    (b_advice_map b) (b_merkle_store b)
    (foldl (λ m account, <[ForeignAccount_account_id account := account]> m)
      (b_foreign_accounts b) accounts)
    (b_expiration_delta b) (b_ignore_invalid_input_notes b) (b_script_arg b) (b_auth_arg b)
    (b_expected_ntx_scripts b).

(** These two replace the map. *)
Definition b_with_expected_output_recipients b (recipients : list NoteRecipient) :
    TransactionRequestBuilder :=
  Build_TransactionRequestBuilder (b_input_notes b) (b_input_notes_args b) (b_own_output_notes b)
    (btree_collect ((λ recipient, (NoteRecipient_digest recipient, recipient)) <$> recipients))
    (b_expected_future_notes b) (b_custom_script b) (b_advice_map b) (b_merkle_store b)
    (b_foreign_accounts b) (b_expiration_delta b) (b_ignore_invalid_input_notes b) (b_script_arg b)
    (b_auth_arg b) (b_expected_ntx_scripts b).
Definition b_with_expected_future_notes b (notes : list (NoteDetails * NoteTag)) :
    TransactionRequestBuilder :=
  Build_TransactionRequestBuilder (b_input_notes b) (b_input_notes_args b) (b_own_output_notes b)
    (b_expected_output_recipients b)
    (btree_collect ((λ note, (NoteDetails_id note.1, note)) <$> notes))
    (b_custom_script b) (b_advice_map b) (b_merkle_store b) (b_foreign_accounts b)
    (b_expiration_delta b) (b_ignore_invalid_input_notes b) (b_script_arg b) (b_auth_arg b)
    (b_expected_ntx_scripts b).

Definition extend_advice_map b (iter : list (Word * list Z)) : TransactionRequestBuilder :=
  Build_TransactionRequestBuilder (b_input_notes b) (b_input_notes_args b) (b_own_output_notes b)
    (b_expected_output_recipients b) (b_expected_future_notes b) (b_custom_script b)
    (AdviceMap_extend (b_advice_map b) iter) (b_merkle_store b) (b_foreign_accounts b)
    (b_expiration_delta b) (b_ignore_invalid_input_notes b) (b_script_arg b) (b_auth_arg b)
    (b_expected_ntx_scripts b).
Definition extend_merkle_store b (iter : list InnerNodeInfo) : TransactionRequestBuilder :=
  Build_TransactionRequestBuilder (b_input_notes b) (b_input_notes_args b) (b_own_output_notes b)
    (b_expected_output_recipients b) (b_expected_future_notes b) (b_custom_script b)
    (b_advice_map b) (MerkleStore_extend (b_merkle_store b) iter) (b_foreign_accounts b)
    (b_expiration_delta b) (b_ignore_invalid_input_notes b) (b_script_arg b) (b_auth_arg b)
    (b_expected_ntx_scripts b).

Definition expiration_delta b (delta : u16) : TransactionRequestBuilder :=
  Build_TransactionRequestBuilder (b_input_notes b) (b_input_notes_args b) (b_own_output_notes b)
    (b_expected_output_recipients b) (b_expected_future_notes b) (b_custom_script b)
    (b_advice_map b) (b_merkle_store b) (b_foreign_accounts b) (Some delta)
    (b_ignore_invalid_input_notes b) (b_script_arg b) (b_auth_arg b) (b_expected_ntx_scripts b).
Definition ignore_invalid_input_notes b : TransactionRequestBuilder :=
  Build_TransactionRequestBuilder (b_input_notes b) (b_input_notes_args b) (b_own_output_notes b)
    (b_expected_output_recipients b) (b_expected_future_notes b) (b_custom_script b)
    (b_advice_map b) (b_merkle_store b) (b_foreign_accounts b) (b_expiration_delta b) true
    (b_script_arg b) (b_auth_arg b) (b_expected_ntx_scripts b).
Definition script_arg b (arg : Word) : TransactionRequestBuilder :=
  Build_TransactionRequestBuilder (b_input_notes b) (b_input_notes_args b) (b_own_output_notes b)
    (b_expected_output_recipients b) (b_expected_future_notes b) (b_custom_script b)
    (b_advice_map b) (b_merkle_store b) (b_foreign_accounts b) (b_expiration_delta b)
    (b_ignore_invalid_input_notes b) (Some arg) (b_auth_arg b) (b_expected_ntx_scripts b).
Definition auth_arg b (arg : Word) : TransactionRequestBuilder :=
  Build_TransactionRequestBuilder (b_input_notes b) (b_input_notes_args b) (b_own_output_notes b)
    (b_expected_output_recipients b) (b_expected_future_notes b) (b_custom_script b)
    (b_advice_map b) (b_merkle_store b) (b_foreign_accounts b) (b_expiration_delta b)
    (b_ignore_invalid_input_notes b) (b_script_arg b) (Some arg) (b_expected_ntx_scripts b).
Definition expected_ntx_scripts b (scripts : list NoteScript) : TransactionRequestBuilder :=
  Build_TransactionRequestBuilder (b_input_notes b) (b_input_notes_args b) (b_own_output_notes b)
    (b_expected_output_recipients b) (b_expected_future_notes b) (b_custom_script b)
    (b_advice_map b) (b_merkle_store b) (b_foreign_accounts b) (b_expiration_delta b)
    (b_ignore_invalid_input_notes b) (b_script_arg b) (b_auth_arg b) scripts.

(** *** [build] *)

(** The loop over the arguments: the first identifier that was seen before. *)
Fixpoint first_duplicate (seen : gset NoteId) (ids : list NoteId) : option NoteId :=
  match ids with
  | [] => None
  | id :: ids => if bool_decide (id ∈ seen) then Some id else first_duplicate ({[ id ]} ∪ seen) ids
  end.

Definition build_script_template b :
    result TransactionRequestError (option TransactionScriptTemplate) :=
  match b_custom_script b, b_own_output_notes b with
  | Some _, _ :: _ =>
      Err (Req_ScriptTemplateError "Cannot set both a custom script and own output notes")
  | Some script, [] =>
      match b_expiration_delta b with
      | Some _ =>
          Err (Req_ScriptTemplateError "Cannot set expiration delta when a custom script is set")
      | None => Ok (Some (CustomScript script))
      end
  | None, _ :: _ => Ok (Some (SendNotes (PartialNote_of_note <$> b_own_output_notes b)))
  | None, [] => Ok None
  end.

Definition build b : result TransactionRequestError TransactionRequest :=
  match first_duplicate ∅ (b_input_notes_args b).*1 with
  | Some note_id => Err (Req_DuplicateInputNote note_id)
  | None =>
      script_template ← build_script_template b;
      Ok {| tr_input_notes := b_input_notes b;
            tr_input_notes_args := b_input_notes_args b;
            tr_script_template := script_template;
            tr_expected_output_recipients := b_expected_output_recipients b;
            tr_expected_future_notes := b_expected_future_notes b;
            tr_advice_map := b_advice_map b;
            tr_merkle_store := b_merkle_store b;
            tr_foreign_accounts := b_foreign_accounts b;
            tr_expiration_delta := b_expiration_delta b;
            tr_ignore_invalid_input_notes := b_ignore_invalid_input_notes b;
            tr_script_arg := b_script_arg b;
            tr_auth_arg := b_auth_arg b;
            tr_expected_ntx_scripts := b_expected_ntx_scripts b |}
  end.
End request.

(** *** Standard requests *)

Section standard.
Context `{RequestLib}.
Implicit Types (b : TransactionRequestBuilder).

Record PaymentNoteDescription := {
  pay_assets : list Asset;
  pay_sender_account_id : AccountId;
  pay_target_account_id : AccountId;
  pay_reclaim_height : option BlockNumber;
  pay_timelock_height : option BlockNumber
}.

Definition PaymentNoteDescription_new (assets : list Asset) (sender target : AccountId) :
    PaymentNoteDescription :=
  {| pay_assets := assets; pay_sender_account_id := sender; pay_target_account_id := target;
     pay_reclaim_height := None; pay_timelock_height := None |}.
Definition with_reclaim_height (self : PaymentNoteDescription) (height : BlockNumber) :
    PaymentNoteDescription :=
  {| pay_assets := pay_assets self; pay_sender_account_id := pay_sender_account_id self;
     pay_target_account_id := pay_target_account_id self;
     pay_reclaim_height := Some height; pay_timelock_height := pay_timelock_height self |}.
Definition with_timelock_height (self : PaymentNoteDescription) (height : BlockNumber) :
    PaymentNoteDescription :=
  {| pay_assets := pay_assets self; pay_sender_account_id := pay_sender_account_id self;
     pay_target_account_id := pay_target_account_id self;
     pay_reclaim_height := pay_reclaim_height self; pay_timelock_height := Some height |}.

Definition payment_into_note (self : PaymentNoteDescription) (note_type : NoteType) (rng : Rng) :
    Rng * result string Note :=
  match pay_reclaim_height self, pay_timelock_height self with
  | None, None =>
      P2idNote_create (pay_sender_account_id self) (pay_target_account_id self) (pay_assets self)
        note_type rng
  | _, _ =>
      P2ideNote_create (pay_sender_account_id self) (pay_target_account_id self)
        (pay_reclaim_height self) (pay_timelock_height self) (pay_assets self) note_type rng
  end.

Record SwapTransactionData := {
  swap_sender_account_id : AccountId;
  swap_offered_asset : Asset;
  swap_requested_asset : Asset
}.

Definition build_consume_notes b (notes : list Note) :
    result TransactionRequestError TransactionRequest :=
  build (b_with_input_notes b ((λ note, (note, None)) <$> notes)).

Definition build_mint_fungible_asset b (asset : FungibleAsset) (target_id : AccountId)
    (note_type : NoteType) (rng : Rng) : Rng * result TransactionRequestError TransactionRequest :=
  let '(rng, created_note) := P2idNote_create (FungibleAsset_faucet_id asset) target_id
    [Asset_Fungible asset] note_type rng in
  (rng, created_note ← map_err Req_NoteCreationError created_note;
        build (own_output_notes b [created_note])).

(** [asset.is_fungible() && asset.unwrap_fungible().amount() == 0]. *)
Definition is_empty_asset (asset : Asset) : bool :=
  match asset with
  | Asset_Fungible fungible => FungibleAsset_amount fungible =? 0
  | Asset_NonFungible _ => false
  end.

Definition build_pay_to_id b (payment_data : PaymentNoteDescription) (note_type : NoteType)
    (rng : Rng) : Rng * result TransactionRequestError TransactionRequest :=
  if forallb is_empty_asset (pay_assets payment_data) then (rng, Err Req_P2IDNoteWithoutAsset)
  else
    let '(rng, created_note) := payment_into_note payment_data note_type rng in
    (rng, created_note ← map_err Req_NoteCreationError created_note;
          build (own_output_notes b [created_note])).

Definition build_swap b (swap_data : SwapTransactionData) (note_type payback_note_type : NoteType)
    (rng : Rng) : Rng * result TransactionRequestError TransactionRequest :=
  let '(rng, created) := SwapNote_create (swap_sender_account_id swap_data)
    (swap_offered_asset swap_data) (swap_requested_asset swap_data) note_type payback_note_type
    rng in
  (rng,
   '(created_note, payback_note_details) ← map_err Req_NoteCreationError created;
   let payback_tag := NoteTag_with_account_target (swap_sender_account_id swap_data) in
   build (own_output_notes
     (b_with_expected_future_notes b [(payback_note_details, payback_tag)]) [created_note])).
End standard.

(** ** Checks *)

Section checks.
Context `{RequestLib}.

(** The assets of the notes that the request creates, by note identifier. *)
Definition outgoing_notes {E} (transaction_request : TransactionRequest) :
    eff E (gmap NoteId NoteAssets) :=
  let own_notes_assets : gmap NoteId NoteAssets :=
    match tr_script_template transaction_request with
    | Some (SendNotes notes) =>
        btree_collect ((λ note, (PartialNote_id note, PartialNote_assets note)) <$> notes)
    | _ => ∅
    end in
  output_notes ← expected_output_own_notes transaction_request;
  let output_notes_assets : gmap NoteId NoteAssets :=
    btree_collect ((λ note, (Note_id note, Note_assets note)) <$> output_notes) in
  mret (own_notes_assets ∪ output_notes_assets).

Definition outgoing_items (m : gmap NoteId NoteAssets) : list Asset :=
  concat (NoteAssets_iter <$> btree_values m).

Definition get_outgoing_assets {E} (transaction_request : TransactionRequest) :
    eff E (gmap AccountId u64 * list NonFungibleAsset) :=
  output_notes_assets ← outgoing_notes transaction_request;
  collect_assets (outgoing_items output_notes_assets).

(** The check of one fungible balance; the sum is a [u64] addition. *)
Definition check_fungible (account : Account) (incoming : gmap AccountId u64) (_ : unit)
    (entry : AccountId * u64) : eff ClientError unit :=
  let '(faucet_id, amount) := entry in
  let account_asset_amount := default 0 (Account_get_balance account faucet_id) in
  let incoming_balance := default 0 (incoming !! faucet_id) in
  sum ← expect (checked_add U64_MAX account_asset_amount incoming_balance);
  if sum <? amount then
    lift (Err (Client_AssetError (FungibleAssetAmountNotSufficient account_asset_amount amount)))
  else mret ().

Definition check_non_fungible (account : Account) (incoming : list NonFungibleAsset) (_ : unit)
    (non_fungible : NonFungibleAsset) : eff ClientError unit :=
  let mismatch := lift (Err (Client_AssetError
    (NonFungibleFaucetIdTypeMismatch (NonFungibleAsset_faucet_id non_fungible)))) in
  match Account_has_non_fungible_asset account non_fungible with
  | Some true => mret ()
  | Some false => if bool_decide (non_fungible ∈ incoming) then mret () else mismatch
  | None => mismatch
  end.

Definition validate_basic_account_request (transaction_request : TransactionRequest)
    (account : Account) : eff ClientError unit :=
  '(fungible_balance_map, non_fungible_set) ← get_outgoing_assets transaction_request;
  '(incoming_fungible_balance_map, incoming_non_fungible_balance_set) ←
    incoming_assets transaction_request;
  eff_fold (check_fungible account incoming_fungible_balance_map)
    (btree_to_list fungible_balance_map) ();;
  eff_fold (check_non_fungible account incoming_non_fungible_balance_set) non_fungible_set ().

(** [validate_executed_transaction], on the known recipients of the output notes. *)
Definition validate_executed_transaction (output_recipients : list (option NoteRecipient))
    (expected_output_recipients : list NoteRecipient) : result ClientError unit :=
  let tx_output_recipient_digests :=
    omap (λ recipient, NoteRecipient_digest <$> recipient) output_recipients in
  let missing_recipient_digest :=
    omap (λ recipient,
      if bool_decide (NoteRecipient_digest recipient ∉ tx_output_recipient_digests)
      then Some (NoteRecipient_digest recipient) else None) expected_output_recipients in
  match missing_recipient_digest with
  | [] => Ok ()
  | _ => Err (Client_MissingOutputRecipients missing_recipient_digest)
  end.
End checks.

(** ** Lemmas *)

(** A loop that only checks succeeds when every check does. *)
Lemma eff_fold_checks {E A} (f : unit → A → eff E unit) (ok : A → Prop) l :
  (∀ a, a ∈ l → ∃ r, f () a = Finished r ∧ (r = Ok () ↔ ok a)) →
  ∃ r, eff_fold f l () = Finished r ∧ (r = Ok () ↔ Forall ok l).
Proof.
  induction l as [|a l IH]; intros Hl; [by eexists|]. simpl.
  destruct (Hl a ltac:(left)) as ([[]|e] & -> & Ha); simpl.
  - destruct IH as (r & -> & Hr); [intros; apply Hl; by right|]. exists r. split; [done|].
    rewrite Forall_cons. tauto.
  - eexists. split; [done|]. rewrite Forall_cons. naive_solver.
Qed.

Section asset_lemmas.
Context `{Protocol}.

(** The amount of one faucet's asset in a list of assets. *)
Fixpoint fungible_total (f : AccountId) (assets : list Asset) : Z :=
  match assets with
  | [] => 0
  | Asset_Fungible a :: assets =>
      (if bool_decide (FungibleAsset_faucet_id a = f) then FungibleAsset_amount a else 0) +
      fungible_total f assets
  | Asset_NonFungible _ :: assets => fungible_total f assets
  end.

Definition has_faucet (f : AccountId) (assets : list Asset) : Prop :=
  ∃ a, Asset_Fungible a ∈ assets ∧ FungibleAsset_faucet_id a = f.

Definition amounts_ok (assets : list Asset) : Prop :=
  ∀ a, Asset_Fungible a ∈ assets → 0 ≤ FungibleAsset_amount a.

Lemma fungible_total_app f l1 l2 :
  fungible_total f (l1 ++ l2) = fungible_total f l1 + fungible_total f l2.
Proof. induction l1 as [|[a|a] l1 IH]; simpl; lia. Qed.

Lemma fungible_total_nonneg f l : amounts_ok l → 0 ≤ fungible_total f l.
Proof.
  unfold amounts_ok. induction l as [|[a|a] l IH]; intros Hl; simpl; [lia| |].
  - pose proof (Hl a ltac:(left)). assert (0 ≤ fungible_total f l) by (apply IH; set_solver).
    case_bool_decide; lia.
  - apply IH. set_solver.
Qed.

(** What [collect_assets] returns: one entry per faucet with its total, and the
    non-fungible assets without repetition. *)
Definition collected (assets : list Asset) (r : gmap AccountId u64 * list NonFungibleAsset) : Prop :=
  (∀ f, r.1 !! f = Some (fungible_total f assets) ∧ has_faucet f assets ∨
        r.1 !! f = None ∧ ¬ has_faucet f assets ∧ fungible_total f assets = 0) ∧
  NoDup r.2 ∧ (∀ n, n ∈ r.2 ↔ Asset_NonFungible n ∈ assets).

Lemma has_faucet_snoc f assets x :
  has_faucet f (assets ++ [x]) ↔
  has_faucet f assets ∨ ∃ a, x = Asset_Fungible a ∧ FungibleAsset_faucet_id a = f.
Proof.
  unfold has_faucet. setoid_rewrite elem_of_app. setoid_rewrite list_elem_of_singleton. naive_solver.
Qed.

Lemma collected_fungible assets m nfs a :
  collected assets (m, nfs) →
  collected (assets ++ [Asset_Fungible a])
    (<[FungibleAsset_faucet_id a := fungible_total (FungibleAsset_faucet_id a) assets +
        FungibleAsset_amount a]> m, nfs).
Proof.
  intros (Hm & Hnd & Hin). simpl in *. split_and!; simpl; [|done|].
  - intros f. specialize (Hm f). rewrite fungible_total_app, has_faucet_snoc. simpl.
    destruct (decide (FungibleAsset_faucet_id a = f)) as [<-|Hne].
    + left. rewrite lookup_insert_eq, bool_decide_eq_true_2 by done.
      split; [f_equal; lia|]. right. eauto.
    + rewrite lookup_insert_ne, bool_decide_eq_false_2 by done. rewrite !Z.add_0_r.
      destruct Hm as [[-> ?]|(-> & Hf & ->)]; [left; auto|right]. split_and!; [done| |done].
      intros [?|(a' & [= <-] & ?)]; done.
  - intros n. rewrite elem_of_app, Hin. set_solver.
Qed.

Lemma collected_non_fungible assets m nfs n :
  collected assets (m, nfs) →
  collected (assets ++ [Asset_NonFungible n])
    (m, if bool_decide (n ∈ nfs) then nfs else nfs ++ [n]).
Proof.
  intros (Hm & Hnd & Hin). simpl in *. split_and!; simpl.
  - intros f. specialize (Hm f). rewrite fungible_total_app, has_faucet_snoc. simpl.
    rewrite Z.add_0_r. naive_solver.
  - case_bool_decide; [done|]. apply NoDup_app. split_and!; [done|set_solver|apply NoDup_singleton].
  - intros n'. rewrite elem_of_app. case_bool_decide; rewrite ?elem_of_app, Hin; [|set_solver].
    split; [by left|]. intros [?|Hn]; [done|]. apply list_elem_of_singleton in Hn as [= ->]. by apply Hin.
Qed.

Lemma collect_assets_spec {E} assets :
  amounts_ok assets → (∀ f, fungible_total f assets ≤ U64_MAX) →
  ∃ r, collect_assets (E := E) assets = Finished (Ok r) ∧ collected assets r.
Proof.
  unfold collect_assets. induction assets as [|x assets IH] using rev_ind; intros Hp Hmax.
  { eexists. split; [done|]. split_and!; simpl; [|apply NoDup_nil_2|set_solver].
    intros f. right. split_and!; [done| |done]. intros (a & Ha & _). set_solver. }
  rewrite eff_fold_app. destruct IH as ([m nfs] & -> & Hc).
  { intros a Ha. apply Hp. set_solver. }
  { intros f. specialize (Hmax f). rewrite fungible_total_app in Hmax.
    assert (0 ≤ fungible_total f [x]); [|lia]. apply fungible_total_nonneg.
    intros a Ha. apply Hp. set_solver. }
  simpl. destruct x as [a|n]; simpl.
  - pose proof (collected_fungible _ _ _ a Hc) as Hc'. destruct Hc as [Hm _].
    specialize (Hm (FungibleAsset_faucet_id a)). simpl in Hm.
    destruct Hm as [[-> _]|(-> & _ & Ht)].
    + specialize (Hmax (FungibleAsset_faucet_id a)). rewrite fungible_total_app in Hmax.
      simpl in Hmax. rewrite bool_decide_eq_true_2 in Hmax by done.
      unfold checked_add. rewrite (proj2 (Z.leb_le _ _)) by lia. simpl. eauto.
    + rewrite Ht, Z.add_0_l in Hc'. simpl. eauto.
  - pose proof (collected_non_fungible _ _ _ n Hc) as Hc'.
    case_bool_decide; simpl; eauto.
Qed.
End asset_lemmas.

Section builder_lemmas.
Context `{RequestLib} `{!ProtocolLaws}.
Implicit Types (b : TransactionRequestBuilder).

(** The calls on a builder, other than the one that replaces the recipients. *)
Inductive builder_step : TransactionRequestBuilder → TransactionRequestBuilder → Prop :=
| bs_input_notes b notes : builder_step b (b_with_input_notes b notes)
| bs_own_output_notes b notes : builder_step b (own_output_notes b notes)
| bs_custom_script b script : builder_step b (custom_script b script)
| bs_foreign_accounts b accounts : builder_step b (foreign_accounts b accounts)
| bs_future_notes b notes : builder_step b (b_with_expected_future_notes b notes)
| bs_advice_map b iter : builder_step b (extend_advice_map b iter)
| bs_merkle_store b iter : builder_step b (extend_merkle_store b iter)
| bs_expiration_delta b delta : builder_step b (expiration_delta b delta)
| bs_ignore_invalid b : builder_step b (ignore_invalid_input_notes b)
| bs_script_arg b arg : builder_step b (script_arg b arg)
| bs_auth_arg b arg : builder_step b (auth_arg b arg)
| bs_ntx_scripts b scripts : builder_step b (expected_ntx_scripts b scripts).

(** Every own note's recipient is in the map, under its digest. *)
Definition recipients_of (m : gmap Word NoteRecipient) (notes : list Note) : Prop :=
  ∀ n, n ∈ notes → ∃ r, m !! NoteRecipient_digest (Note_recipient n) = Some r ∧
    NoteRecipient_digest r = NoteRecipient_digest (Note_recipient n).

Record builder_inv b : Prop := {
  bi_args : (b_input_notes_args b).*1 = Note_id <$> b_input_notes b;
  bi_own : recipients_of (b_expected_output_recipients b) (b_own_output_notes b)
}.

Lemma recipients_of_insert notes : ∀ m own,
  recipients_of m own →
  recipients_of
    (foldl (λ m note, <[NoteRecipient_digest (Note_recipient note) := Note_recipient note]> m) m notes)
    (own ++ notes).
Proof.
  induction notes as [|n notes IH]; intros m own Hm; simpl; [by rewrite app_nil_r|].
  replace (own ++ n :: notes) with ((own ++ [n]) ++ notes) by (by rewrite <-app_assoc).
  apply IH. intros x [Hx|Hx]%elem_of_app.
  - destruct (Hm x Hx) as (r & Hr & Hd). rewrite lookup_insert. case_decide as Hdec; [|eauto].
    eexists. split; [done|]. done.
  - apply list_elem_of_singleton in Hx as ->. eexists. rewrite lookup_insert_eq. done.
Qed.

Lemma builder_step_inv b b' : builder_step b b' → builder_inv b → builder_inv b'.
Proof.
  intros [] [Ha Ho]; (split; simpl; [|first [done | by apply recipients_of_insert]]); try done.
  rewrite !fmap_app, Ha. f_equal. rewrite <-!list_fmap_compose. apply list_fmap_ext. by intros ? [].
Qed.

Lemma builder_steps_inv b b' :
  rtc builder_step b b' → builder_inv b → builder_inv b'.
Proof. induction 1; eauto using builder_step_inv. Qed.

Lemma new_builder_inv : builder_inv TransactionRequestBuilder_new.
Proof. split; [done|]. intros n Hn. simpl in Hn. by apply not_elem_of_nil in Hn. Qed.

Lemma first_duplicate_spec ids : ∀ seen,
  first_duplicate seen ids = None ↔ NoDup ids ∧ ∀ id, id ∈ ids → id ∉ seen.
Proof.
  induction ids as [|id ids IH]; intros seen; simpl.
  { split; [split; [apply NoDup_nil_2|set_solver]|done]. }
  rewrite NoDup_cons. case_bool_decide.
  - split; [done|]. intros [_ Hs]. destruct (Hs id); [left|done].
  - rewrite IH. split.
    + intros [Hnd Hs]. split_and!; [|done|]; [intros Hin; apply (Hs id Hin); set_solver|].
      intros x [->|Hx]%elem_of_cons; [done|]. specialize (Hs x Hx). set_solver.
    + intros [[Hni Hnd] Hs]. split; [done|]. intros x Hx. specialize (Hs x ltac:(by right)). set_solver.
Qed.

Lemma build_ok b req :
  build b = Ok req ↔
  NoDup (b_input_notes_args b).*1 ∧ ∃ template, build_script_template b = Ok template ∧
    req = {| tr_input_notes := b_input_notes b; tr_input_notes_args := b_input_notes_args b;
      tr_script_template := template;
      tr_expected_output_recipients := b_expected_output_recipients b;
      tr_expected_future_notes := b_expected_future_notes b; tr_advice_map := b_advice_map b;
      tr_merkle_store := b_merkle_store b; tr_foreign_accounts := b_foreign_accounts b;
      tr_expiration_delta := b_expiration_delta b;
      tr_ignore_invalid_input_notes := b_ignore_invalid_input_notes b;
      tr_script_arg := b_script_arg b; tr_auth_arg := b_auth_arg b;
      tr_expected_ntx_scripts := b_expected_ntx_scripts b |}.
Proof.
  unfold build. destruct (first_duplicate ∅ _) as [id|] eqn:Ed.
  - split; [done|]. intros [Hnd _]. exfalso.
    assert (first_duplicate ∅ (b_input_notes_args b).*1 = None) as Hn; [|congruence].
    apply first_duplicate_spec. split; [done|set_solver].
  - apply first_duplicate_spec in Ed as [Hnd _]. split.
    + intros (t & Ht & Hr)%bind_Ok. injection Hr as <-. eauto.
    + intros (_ & t & -> & ->). done.
Qed.

(** The rebuilt note of an own note. *)
Lemma own_notes_rebuilt m notes :
  recipients_of m notes →
  ∃ rebuilt, mapM (λ partial, recipient ← m !! PartialNote_recipient_digest partial;
      Some (Note_new (PartialNote_assets partial) (PartialNote_metadata partial) recipient))
      (PartialNote_of_note <$> notes) = Some rebuilt ∧
    Forall2 (λ n n', Note_id n' = Note_id n ∧ Note_assets n' = Note_assets n ∧
      Note_metadata n' = Note_metadata n) notes rebuilt.
Proof.
  setoid_rewrite mapM_Some.
  induction notes as [|n notes IH]; intros Hm; [by exists []|].
  destruct IH as (rebuilt & Hre & Hr); [intros x Hx; apply Hm; by right|].
  destruct (Hm n ltac:(left)) as (r & Hl & Hd).
  destruct (PartialNote_of_note_spec n) as (Ha & Hmd & Hdg).
  eexists (_ :: rebuilt). rewrite fmap_cons.
  split; [constructor; [by rewrite Hdg, Hl|done]|]. constructor; [|done].
  rewrite Ha, Hmd. split_and!.
  - rewrite !Note_id_spec, !NoteDetails_id_spec, !Note_details_assets, !Note_details_recipient,
      Note_new_assets, Note_new_recipient. by rewrite Hd.
  - apply Note_new_assets.
  - apply Note_new_metadata.
Qed.
End builder_lemmas.

Section input_notes_lemmas.
Context `{RequestLib}.
Implicit Types (records : list InputNoteRecord).

(** A record that can be given to the executor. *)
Definition usable (r : InputNoteRecord) : Prop :=
  InputNoteRecord_is_authenticated r = true ∧ InputNoteRecord_is_consumed r = false.

(** A usable record is an authenticated note, with its proof. *)
Lemma usable_note r : usable r →
  ∃ metadata proof, InputNoteRecord_metadata r = Some metadata ∧
    InputNoteRecord_inclusion_proof r = Some proof ∧
    InputNoteRecord_try_into_input_note r = Ok (InputNote_Authenticated
      (Note_new (NoteDetails_assets (in_details r)) metadata (NoteDetails_recipient (in_details r)))
      proof).
Proof.
  destruct r as [d c []]; intros [Ha Hc]; try done; by eexists _, _.
Qed.

Definition record_entry (r : InputNoteRecord) (n : InputNote) : Prop :=
  InputNoteRecord_try_into_input_note r = Ok n.

Lemma add_authenticated_ok records : Forall usable records →
  ∃ l, Forall2 (λ r kv, InputNoteRecord_id r = kv.1 ∧ record_entry r kv.2) records l ∧
    ∀ m, eff_fold add_authenticated records m =
      Finished (Ok (foldl (λ m kv, <[kv.1 := kv.2]> m) m l)).
Proof.
  induction 1 as [|r records Hr Hrs IH]; [by exists []|]. destruct IH as (l & Hl & Hf).
  destruct (usable_note r Hr) as (md & proof & _ & _ & Hn). destruct Hr as [Ha Hc].
  eexists ((InputNoteRecord_id r, _) :: l). split; [constructor; [split; [done|exact Hn]|done]|].
  intros m. simpl. rewrite <-Hf.
  assert (add_authenticated m r = mret (<[InputNoteRecord_id r := InputNote_Authenticated
    (Note_new (NoteDetails_assets (in_details r)) md (NoteDetails_recipient (in_details r)))
    proof]> m)) as -> by (unfold add_authenticated; by rewrite Ha, Hc, Hn).
  done.
Qed.

(** The first unusable record is reported. *)
Lemma add_authenticated_err records : ¬ Forall usable records →
  ∀ m, ∃ e, eff_fold add_authenticated records m = Finished (Err e).
Proof.
  induction records as [|r records IH]; intros Hn m; [destruct Hn; constructor|]. simpl.
  destruct (add_authenticated m r) as [[m'|e]| |] eqn:E; simpl; [|eauto|..];
    unfold add_authenticated in E;
    destruct (InputNoteRecord_is_authenticated r) eqn:Ha; simpl in E; try done;
    destruct (InputNoteRecord_is_consumed r) eqn:Hc; simpl in E; try done;
    destruct (usable_note r ltac:(done)) as (md & proof & _ & _ & Hr); rewrite Hr in E; [|done..].
  apply IH. intros Hf. apply Hn. constructor; done.
Qed.

(** The note handed to the executor for a note of the request: the stored one with
    its proof when it is authenticated, or else the note of the request. *)
Definition executor_note records (note : Note) (n : InputNote) : Prop :=
  (∃ r, r ∈ records ∧ InputNoteRecord_id r = Note_id note ∧ record_entry r n) ∨
  ¬ (∃ r, r ∈ records ∧ InputNoteRecord_id r = Note_id note) ∧ n = InputNote_Unauthenticated note.

Lemma take_notes_spec (notes : list Note) (R : Note → InputNote → Prop) : ∀ m,
  NoDup (Note_id <$> notes) →
  (∀ n, n ∈ notes → ∃ x, m !! Note_id n = Some x ∧ R n x) →
  ∃ l, take_notes (Note_id <$> notes) m = Some l ∧ Forall2 R notes l.
Proof.
  induction notes as [|n notes IH]; intros m Hnd Hm; simpl; [by exists []|].
  apply NoDup_cons in Hnd as [Hni Hnd]. destruct (Hm n ltac:(left)) as (x & -> & Hx). simpl.
  destruct (IH (delete (Note_id n) m) Hnd) as (l & Hl & HF).
  2:{ exists (x :: l). change (list_fmap _ _ Note_id notes) with (Note_id <$> notes). rewrite Hl.
      split; [done|]. by constructor. }
  intros n' Hn'. destruct (Hm n' ltac:(by right)) as (x' & Hx' & HR). exists x'.
  rewrite lookup_delete_ne; [done|]. intros Heq. apply Hni. rewrite Heq.
  apply list_elem_of_fmap. eauto.
Qed.

Lemma lookup_unauthenticated (notes : list Note) : ∀ (m : gmap NoteId InputNote) k,
  foldl (λ m note, <[Note_id note := InputNote_Unauthenticated note]> m) m notes !! k = m !! k ∨
  ∃ n, n ∈ notes ∧ Note_id n = k ∧
    foldl (λ m note, <[Note_id note := InputNote_Unauthenticated note]> m) m notes !! k =
      Some (InputNote_Unauthenticated n).
Proof.
  induction notes as [|n notes IH]; intros m k; simpl; [by left|].
  destruct (IH (<[Note_id n := InputNote_Unauthenticated n]> m) k) as [->|(n' & Hn' & Hk & Hl)].
  - rewrite lookup_insert. case_decide as Hd; [|by left]. right. exists n. split_and!; [left|done|done].
  - right. exists n'. split_and!; [by right|done|done].
Qed.

Lemma lookup_unauthenticated_in (notes : list Note) (m : gmap NoteId InputNote) n :
  NoDup (Note_id <$> notes) → n ∈ notes →
  foldl (λ m note, <[Note_id note := InputNote_Unauthenticated note]> m) m notes !! Note_id n =
    Some (InputNote_Unauthenticated n).
Proof.
  revert m. induction notes as [|n0 notes IH]; intros m Hnd Hin; [by apply not_elem_of_nil in Hin|].
  simpl. apply NoDup_cons in Hnd as [Hni Hnd]. apply elem_of_cons in Hin as [->|Hin]; [|by apply IH].
  destruct (lookup_unauthenticated notes
    (<[Note_id n0 := InputNote_Unauthenticated n0]> m) (Note_id n0)) as [->|(n' & Hn' & Hk & _)];
    [by rewrite lookup_insert_eq|].
  destruct Hni. rewrite <-Hk. apply list_elem_of_fmap. eauto.
Qed.
End input_notes_lemmas.

(** ** Correctness *)

(** The input notes handed to the executor.  For a request without duplicates
    and any stored records (one per note), the call never panics.  It fails when
    a record is not authenticated or is consumed; otherwise the notes are those of
    the request, in its order, each as the stored authenticated note with its
    proof when there is a record for it, and as an unauthenticated note when not. *)
Theorem build_input_notes_spec `{RequestLib} (request : TransactionRequest) records :
  NoDup (input_note_ids request) → NoDup (InputNoteRecord_id <$> records) →
  (Forall usable records → ∃ notes,
    Forall2 (executor_note records) (tr_input_notes request) notes ∧
    build_input_notes request records =
      lift (map_err Req_TransactionInputError (InputNotes_new notes))) ∧
  (¬ Forall usable records → ∃ e, build_input_notes request records = Finished (Err e)).
Proof.
  intros Hnd Hrec. unfold build_input_notes. split; intros Hu.
  2:{ destruct (add_authenticated_err records Hu ∅) as [e ->]. by exists e. }
  destruct (add_authenticated_ok records Hu) as (l & Hl & ->). simpl.
  change (foldl _ ∅ l) with (btree_collect l).
  assert (InputNoteRecord_id <$> records = l.*1) as Hids.
  { clear -Hl. induction Hl as [|r kv records l [Hk _] _ IH]; [done|]. by rewrite !fmap_cons, IH, Hk. }
  rewrite Hids in Hrec.
  destruct (take_notes_spec (tr_input_notes request) (executor_note records)
    (foldl (λ m note, <[Note_id note := InputNote_Unauthenticated note]> m) (btree_collect l)
      (filter (λ n, Note_id n ∉ dom (btree_collect l)) (tr_input_notes request))) Hnd)
    as (notes & Htake & Hnotes).
  - intros n Hn. destruct (btree_collect l !! Note_id n) as [x|] eqn:Ex.
    + exists x. destruct (lookup_unauthenticated
        (filter (λ n, Note_id n ∉ dom (btree_collect l)) (tr_input_notes request))
        (btree_collect l) (Note_id n)) as [->|(n' & Hn' & Hk & _)].
      * split; [done|]. left. apply lookup_btree_collect in Ex; [|done].
        clear -Hl Ex. induction Hl as [|r kv records l [Hid He] _ IH]; [by apply not_elem_of_nil in Ex|].
        apply elem_of_cons in Ex as [<-|Ex]; [exists r; split_and!; [left|done|done]|].
        destruct (IH Ex) as (r' & ? & ? & ?). exists r'. split_and!; [by right|done|done].
      * apply list_elem_of_filter in Hn' as [Hn' _]. rewrite Hk in Hn'.
        destruct Hn'. apply elem_of_dom. by eexists.
    + exists (InputNote_Unauthenticated n). split.
      * apply lookup_unauthenticated_in; [|apply list_elem_of_filter; split; [|done]; by apply not_elem_of_dom].
        by apply NoDup_fmap_filter.
      * right. split; [|done]. intros (r & Hr & Hid). apply lookup_btree_collect_None in Ex.
        destruct Ex. rewrite <-Hids. apply list_elem_of_fmap. eauto.
  - exists notes. split; [done|]. unfold input_note_ids. by rewrite Htake.
Qed.

(** A built request can be executed on its own terms.  Whatever calls made the
    builder (other than replacing the expected recipients), a request that it
    builds has distinct input notes, and the notes its script has to create are
    the own notes given to the builder: the recipient of each of them is found,
    and identifiers, assets and metadata are the same. *)
Theorem built_request_keeps_own_notes `{RequestLib} `{!ProtocolLaws} b request :
  rtc builder_step TransactionRequestBuilder_new b → build b = Ok request →
  NoDup (input_note_ids request) ∧
  ∃ notes, (∀ E, expected_output_own_notes (E := E) request = Finished (Ok notes)) ∧
    Forall2 (λ n n', Note_id n' = Note_id n ∧ Note_assets n' = Note_assets n ∧
      Note_metadata n' = Note_metadata n) (b_own_output_notes b) notes.
Proof.
  intros Hs%builder_steps_inv (Hnd & template & Ht & ->)%build_ok; [|apply new_builder_inv].
  destruct Hs as [Hargs Hown]. rewrite Hargs in Hnd. split; [done|].
  unfold expected_output_own_notes, build_script_template in *. simpl.
  destruct (own_notes_rebuilt _ _ Hown) as (notes & Hm & Hf). exists notes. split; [|done].
  intros E. destruct (b_custom_script b) as [script|]; destruct (b_own_output_notes b) as [|n ns];
    try done; [destruct (b_expiration_delta b); try done|..]; injection Ht as <-; simpl in *.
  - by injection Hm as <-.
  - by injection Hm as <-.
  - by rewrite Hm.
Qed.

Section check_lemmas.
Context `{RequestLib}.

Lemma check_fungible_spec account (mi : gmap AccountId u64) inc f amount ni :
  collected inc (mi, ni) →
  0 ≤ default 0 (Account_get_balance account f) ∧
    default 0 (Account_get_balance account f) + fungible_total f inc ≤ U64_MAX →
  ∃ r, check_fungible account mi () (f, amount) = Finished r ∧
    (r = Ok () ↔ amount ≤ default 0 (Account_get_balance account f) + fungible_total f inc).
Proof.
  intros [Hm _] [Hb Hmax]. specialize (Hm f). simpl in Hm. unfold check_fungible.
  assert (default 0 (mi !! f) = fungible_total f inc) as ->.
  { destruct Hm as [[-> _]|(-> & _ & ->)]; done. }
  unfold checked_add. rewrite (proj2 (Z.leb_le _ _)) by lia. simpl.
  case_match; eexists; (split; [done|]); split; try done; lia.
Qed.

Lemma check_non_fungible_spec account ni (inc : list Asset) n :
  (∀ n, n ∈ ni ↔ Asset_NonFungible n ∈ inc) →
  ∃ r, check_non_fungible account ni () n = Finished r ∧
    (r = Ok () ↔ Account_has_non_fungible_asset account n = Some true ∨
      Account_has_non_fungible_asset account n = Some false ∧ Asset_NonFungible n ∈ inc).
Proof.
  intros Hn. unfold check_non_fungible.
  destruct (Account_has_non_fungible_asset account n) as [[]|]; [| |].
  - eexists. split; [done|]. naive_solver.
  - setoid_rewrite <-Hn. case_bool_decide; eexists; (split; [done|]); naive_solver.
  - eexists. split; [done|]. naive_solver.
Qed.

(** The entries of the outgoing map speak for all faucets. *)
Lemma covered_total out mo no (cover : AccountId → Z) :
  collected out (mo, no) → (∀ f, 0 ≤ cover f) →
  Forall (λ kv, kv.2 ≤ cover kv.1) (btree_to_list mo) ↔ ∀ f, fungible_total f out ≤ cover f.
Proof.
  intros [Hm _] Hc. simpl in Hm. rewrite Forall_forall. split.
  - intros Hall f. destruct (Hm f) as [[Hf _]|(_ & _ & ->)]; [|done].
    apply (Hall (f, fungible_total f out)). by apply elem_of_btree_to_list.
  - intros Hall [f amount] Hin. apply elem_of_btree_to_list in Hin. simpl.
    destruct (Hm f) as [[Hf _]|(Hf & _)]; rewrite Hf in Hin; [|done]. by injection Hin as <-.
Qed.
End check_lemmas.

(** The assets that the input notes of a request bring. *)
Definition incoming_items `{RequestLib} (request : TransactionRequest) : list Asset :=
  concat ((λ note, NoteAssets_iter (Note_assets note)) <$> tr_input_notes request).

(** C36: the balance check is exact.  When the recipients of the own notes are among the
    expected ones, and as long as the amounts add up within a [u64], the check ends; it accepts a request when, for every faucet, what the created
    notes take is covered by the account's balance and the input notes, and every
    non-fungible asset they take is in the account or in an input note; and it
    refuses every other request. *)
Theorem balance_check_exact `{RequestLib} (request : TransactionRequest) account notes :
  outgoing_notes (E := ClientError) request = Finished (Ok notes) →
  let out := outgoing_items notes in
  let inc := incoming_items request in
  let balance f := default 0 (Account_get_balance account f) in
  amounts_ok out → amounts_ok inc →
  (∀ f, fungible_total f out ≤ U64_MAX) →
  (∀ f, 0 ≤ balance f ∧ balance f + fungible_total f inc ≤ U64_MAX) →
  ∃ r, validate_basic_account_request request account = Finished r ∧
    (r = Ok () ↔
      (∀ f, fungible_total f out ≤ balance f + fungible_total f inc) ∧
      (∀ n, Asset_NonFungible n ∈ out →
        Account_has_non_fungible_asset account n = Some true ∨
        Account_has_non_fungible_asset account n = Some false ∧ Asset_NonFungible n ∈ inc)).
Proof.
  intros Hout out inc balance Hpo Hpi Hmo Hmi. unfold validate_basic_account_request, get_outgoing_assets.
  rewrite Hout. simpl. fold out.
  destruct (collect_assets_spec (E := ClientError) out Hpo Hmo) as ([mo no] & -> & Hco).
  assert (∀ f, fungible_total f inc ≤ U64_MAX) as Hmi' by (intros f; specialize (Hmi f); lia).
  unfold incoming_assets. fold (incoming_items request). fold inc.
  destruct (collect_assets_spec (E := ClientError) inc Hpi Hmi') as ([mi ni] & -> & Hci). simpl.
  destruct (eff_fold_checks (check_fungible account mi)
    (λ kv, kv.2 ≤ balance kv.1 + fungible_total kv.1 inc) (btree_to_list mo)) as (r1 & -> & Hr1).
  { intros [f amount] _. eapply check_fungible_spec; [done|apply Hmi]. }
  destruct (eff_fold_checks (check_non_fungible account ni)
    (λ n, Account_has_non_fungible_asset account n = Some true ∨
      Account_has_non_fungible_asset account n = Some false ∧ Asset_NonFungible n ∈ inc) no)
    as (r2 & Hr2 & Hok2).
  { intros n _. apply check_non_fungible_spec. by apply Hci. }
  assert (∀ f, 0 ≤ balance f + fungible_total f inc) as Hnn.
  { intros f. pose proof (fungible_total_nonneg f inc Hpi). specialize (Hmi f). lia. }
  rewrite (covered_total out mo no (λ f, balance f + fungible_total f inc) Hco Hnn) in Hr1.
  rewrite Forall_forall in Hok2. setoid_rewrite (proj2 (proj2 Hco)) in Hok2. simpl in *.
  destruct r1 as [[]|e]; simpl; [rewrite Hr2; exists r2; naive_solver|].
  eexists. split; [done|]. naive_solver.
Qed.

(** The check after execution.  A transaction is accepted exactly when it
    created a note for every expected recipient; otherwise the error lists the
    digests of exactly the recipients without a note. *)
Theorem output_check_exact `{RequestLib} outputs expected :
  let created r := ∃ r', Some r' ∈ outputs ∧ NoteRecipient_digest r' = NoteRecipient_digest r in
  (validate_executed_transaction outputs expected = Ok () ∧ ∀ r, r ∈ expected → created r) ∨
  ∃ missing, validate_executed_transaction outputs expected =
      Err (Client_MissingOutputRecipients missing) ∧ missing ≠ [] ∧
    ∀ d, d ∈ missing ↔ ∃ r, r ∈ expected ∧ NoteRecipient_digest r = d ∧ ¬ created r.
Proof.
  intros created. unfold validate_executed_transaction.
  set (digests := omap (λ recipient, NoteRecipient_digest <$> recipient) outputs).
  assert (∀ r, NoteRecipient_digest r ∈ digests ↔ created r) as Hd.
  { intros r. unfold digests, created. rewrite list_elem_of_omap. split.
    - intros ([r'|] & Hin & Heq); simplify_eq/=. eauto.
    - intros (r' & Hin & Heq). exists (Some r'). split; [done|]. simpl. by rewrite Heq. }
  set (missing := omap _ expected).
  assert (∀ d, d ∈ missing ↔ ∃ r, r ∈ expected ∧ NoteRecipient_digest r = d ∧ ¬ created r) as Hm.
  { intros d. unfold missing. rewrite list_elem_of_omap. setoid_rewrite <-Hd. split.
    - intros (r & Hin & Heq). case_bool_decide; simplify_eq. eauto.
    - intros (r & Hin & <- & Hn). exists r. split; [done|]. by rewrite bool_decide_eq_true_2. }
  destruct missing as [|d l]; [left|right; by exists (d :: l)].
  split; [done|]. intros r Hr. apply Hd. destruct (decide (NoteRecipient_digest r ∈ digests)) as [|Hn];
    [done|]. exfalso. apply (not_elem_of_nil (NoteRecipient_digest r)). apply Hm. exists r.
  rewrite <-Hd. done.
Qed.

(** ** A concrete request *)

#[export] Instance toy_request_lib : RequestLib := {|
  AdviceMap := list (Z * list Z);
  AdviceMap_default := [];
  AdviceMap_extend := λ m l, m ++ l;
  MerkleStore := list Z;
  InnerNodeInfo := Z;
  MerkleStore_default := [];
  MerkleStore_extend := λ m l, m ++ l;
  NoteTag_with_account_target := λ a, a;
  InputNotes_new := λ l, Ok l;
  Rng := Z;
  P2idNote_create := λ sender target assets ty rng, (rng + 1, Ok toy_note);
  P2ideNote_create := λ sender target reclaim timelock assets ty rng, (rng + 1, Ok toy_note);
  SwapNote_create := λ sender offered requested ty ty' rng,
    (rng + 1, Ok (toy_note, Note_into_details toy_note))
|}.

(** A note with identifier [(r, a)] that carries [amount] of the asset of faucet [7]. *)
Definition toy_paying (r a amount : Z) : Note := ((a, [inl (7, amount)]), (1, true, 7), r).

Definition toy_payment (amount : Z) : TransactionRequestBuilder :=
  own_output_notes (b_with_input_notes TransactionRequestBuilder_new [(toy_paying 8 1 30, None)])
    [toy_paying 9 2 amount].

(** An account with a balance of [50] from that faucet. *)
Definition toy_owner : Account := ((5, 1), [(7, 50)]).

(** Replacing the expected recipients loses those of the own notes.  The call is
    accepted, and so is the request; asking it for its own notes panics, and with
    it the check that precedes every execution. *)
Theorem replaced_recipients_panic :
  ∃ request, build (b_with_expected_output_recipients (toy_payment 40) []) = Ok request ∧
    expected_output_own_notes (E := ClientError) request = Panicked ∧
    validate_basic_account_request request toy_owner = Panicked.
Proof. eexists. split_and!; reflexivity. Qed.

(** ** Witnesses *)

Lemma build_input_notes_spec_witness :
  ∃ request notes, build_consume_notes TransactionRequestBuilder_new [toy_note; toy_paying 8 1 30] =
      Ok request ∧
    Forall2 (executor_note [toy_record STATE_COMMITTED]) [toy_note; toy_paying 8 1 30] notes ∧
    build_input_notes request [toy_record STATE_COMMITTED] = Finished (Ok notes).
Proof.
  eexists.
  destruct (build_input_notes_spec {| tr_input_notes := [toy_note; toy_paying 8 1 30];
      tr_input_notes_args := [(toy_noteid 3 5, None); (toy_noteid 8 1, None)];
      tr_script_template := None; tr_expected_output_recipients := ∅;
      tr_expected_future_notes := ∅; tr_advice_map := AdviceMap_default; tr_merkle_store := MerkleStore_default;
      tr_foreign_accounts := ∅; tr_expiration_delta := None;
      tr_ignore_invalid_input_notes := false; tr_script_arg := None; tr_auth_arg := None;
      tr_expected_ntx_scripts := [] |} [toy_record STATE_COMMITTED]) as [Hok _].
  - apply NoDup_cons. split; [|apply NoDup_singleton]. intros Hin.
    apply list_elem_of_singleton in Hin. discriminate Hin.
  - apply NoDup_singleton.
  - destruct Hok as (notes & Hf & Hb); [apply Forall_singleton; split; reflexivity|].
    exists notes. split; [reflexivity|]. split; [exact Hf|exact Hb].
Defined.

Lemma built_request_keeps_own_notes_witness :
  ∃ request notes, build (toy_payment 40) = Ok request ∧
    expected_output_own_notes (E := ClientError) request = Finished (Ok notes) ∧
    Note_id <$> notes = [toy_noteid 9 2].
Proof.
  eexists.
  destruct (built_request_keeps_own_notes (toy_payment 40) _
    (rtc_l _ _ _ _ (bs_input_notes _ _) (rtc_once _ _ (bs_own_output_notes _ _))) eq_refl)
    as (_ & notes & Hn & Hf).
  exists notes. split; [reflexivity|]. split; [apply Hn|].
  destruct notes as [|n [|n' notes]]; [by inversion Hf| |].
  - apply Forall2_cons in Hf as [(Hid & _) _]. rewrite fmap_cons, Hid. reflexivity.
  - apply Forall2_cons in Hf as [_ Hf]. inversion Hf.
Defined.

Definition toy_request : TransactionRequest := {|
  tr_input_notes := [toy_paying 8 1 30]; tr_input_notes_args := [(toy_noteid 8 1, None)];
  tr_script_template := Some (SendNotes [PartialNote_of_note (toy_paying 9 2 80)]);
  tr_expected_output_recipients := {[ toy_word 9 := Note_recipient (toy_paying 9 2 80) ]};
  tr_expected_future_notes := ∅; tr_advice_map := AdviceMap_default;
  tr_merkle_store := MerkleStore_default; tr_foreign_accounts := ∅; tr_expiration_delta := None;
  tr_ignore_invalid_input_notes := false; tr_script_arg := None; tr_auth_arg := None;
  tr_expected_ntx_scripts := [] |}.

Lemma balance_check_exact_witness :
  build (toy_payment 80) = Ok toy_request ∧
  validate_basic_account_request toy_request toy_owner = Finished (Ok ()).
Proof.
  split; [reflexivity|].
  assert (outgoing_items {[ toy_noteid 9 2 := (2, [inl (7, 80)]) : @NoteAssets toy_protocol ]} =
    [Asset_Fungible ((7, 80) : @FungibleAsset toy_protocol)]) as Ho by reflexivity.
  assert (incoming_items toy_request = [Asset_Fungible ((7, 30) : @FungibleAsset toy_protocol)])
    as Hi by reflexivity.
  assert (∀ f : Z, default 0 (Account_get_balance toy_owner f) = if decide (7 = f) then 50 else 0)
    as Hb by (intros f; simpl; case_decide; reflexivity).
  destruct (balance_check_exact toy_request toy_owner
    {[ toy_noteid 9 2 := (2, [inl (7, 80)]) : @NoteAssets toy_protocol ]} eq_refl)
    as (r & Hr & Hok).
  - intros a Ha. apply list_elem_of_singleton in Ha. injection Ha as ->. simpl. lia.
  - intros a Ha. apply list_elem_of_singleton in Ha. injection Ha as ->. simpl. lia.
  - intros f. rewrite Ho. simpl. unfold U64_MAX. case_bool_decide; lia.
  - intros f. rewrite Hi, Hb. simpl. unfold U64_MAX. case_decide; case_bool_decide; lia.
  - rewrite Hr. f_equal. apply Hok. split.
    + intros f. rewrite Ho, Hi, Hb. simpl. case_decide; case_bool_decide; simplify_eq; lia.
    + intros n Hn. apply list_elem_of_singleton in Hn. discriminate Hn.
Defined.
