(* ===== verification/SmtForest.v ===== *)
(** * The forest of account trees

    [store/smt_forest.rs].  The store keeps the sparse Merkle trees of all account
    vaults and storage maps in one forest.  A tree is shared by the accounts that
    have it, so its root is counted, and popped from the forest when no account
    refers to it.  A transaction stages the new roots of its account; committing it
    releases the old ones, discarding it restores them. *)

From S2P Require Import Prelude Protocol Serde Model NoteStates Errors AccountTypes.
From Stdlib Require Import ZArith Lia.
From stdpp Require Import base gmap list strings.

Open Scope Z_scope.

(** [SmtForest] of the crypto crate.  Both operations that change it return the new
    forest; [batch_insert] keeps the old tree and adds the changed one. *)
Class SmtForestLib `{AccountLib} := {
  SmtForest : Type;
  SmtForest_new : SmtForest;
  SmtForest_batch_insert : SmtForest → Word → list (Word * Word) → SmtForest * result MerkleError Word;
  SmtForest_pop_smts : SmtForest → list Word → SmtForest;
  SmtProof : Type;
  SmtForest_open : SmtForest → Word → Word → result MerkleError SmtProof;
  SmtProof_get : SmtProof → Word → option Word;
  (* [*EmptySubtreeRoots::entry(SMT_DEPTH, 0)]. *)
  empty_smt_root : Word;
  (* [Smt::with_entries(entries)] and the entries of the tree it builds. *)
  Smt_with_entries : list (Word * Word) → result foreign (list (Word * Word));
  AssetWitness : Type;
  AssetWitness_new : SmtProof → result foreign AssetWitness;
  StorageMapWitness : Type;
  StorageMapWitness_new : SmtProof → list StorageMapKey → result foreign StorageMapWitness;
  StorageMapWitness_get : StorageMapWitness → StorageMapKey → option Word
}.

Section forest.
Context `{SmtForestLib}.

Record AccountSmtForest := {
  forest : SmtForest;
  account_roots : gmap AccountId (list Word);
  pending_old_roots : gmap AccountId (list (list Word));
  root_refcounts : gmap Word Z
}.

Definition AccountSmtForest_new : AccountSmtForest :=
  {| forest := SmtForest_new; account_roots := ∅; pending_old_roots := ∅; root_refcounts := ∅ |}.

Definition set_forest (f : SmtForest) (self : AccountSmtForest) : AccountSmtForest :=
  {| forest := f; account_roots := account_roots self;
     pending_old_roots := pending_old_roots self; root_refcounts := root_refcounts self |}.
Definition set_account_roots (m : gmap AccountId (list Word)) (self : AccountSmtForest) :
    AccountSmtForest :=
  {| forest := forest self; account_roots := m;
     pending_old_roots := pending_old_roots self; root_refcounts := root_refcounts self |}.
Definition set_pending (m : gmap AccountId (list (list Word))) (self : AccountSmtForest) :
    AccountSmtForest :=
  {| forest := forest self; account_roots := account_roots self;
     pending_old_roots := m; root_refcounts := root_refcounts self |}.
Definition set_refcounts (m : gmap Word Z) (self : AccountSmtForest) : AccountSmtForest :=
  {| forest := forest self; account_roots := account_roots self;
     pending_old_roots := pending_old_roots self; root_refcounts := m |}.

(** ** Readers *)

Definition get_roots (self : AccountSmtForest) (account_id : AccountId) : option (list Word) :=
  account_roots self !! account_id.

Definition get_asset_and_witness (self : AccountSmtForest) (vault_root : Word)
    (vault_key : AssetVaultKey) : result StoreError (Asset * AssetWitness) :=
  let vault_key_word := AssetVaultKey_as_word vault_key in
  proof ← map_err Store_MerkleStoreError (SmtForest_open (forest self) vault_root vault_key_word);
  asset_word ← ok_or (SmtProof_get proof vault_key_word)
    (Store_MerkleStoreError (Merkle_UntrackedKey vault_key_word));
  if decide (asset_word = EMPTY_WORD)
  then Err (Store_MerkleStoreError (Merkle_UntrackedKey vault_key_word))
  else
    asset ← map_err Store_AssetError (Asset_from_key_value_words vault_key_word asset_word);
    witness ← map_err Store_AssetError (AssetWitness_new proof);
    Ok (asset, witness).

Definition get_storage_map_item_witness (self : AccountSmtForest) (map_root : Word)
    (key : StorageMapKey) : result StoreError StorageMapWitness :=
  let hashed_key := StorageMapKey_hash key in
  proof ← map_err Store_MerkleStoreError (SmtForest_open (forest self) map_root hashed_key);
  map_err Store_StorageMapError (StorageMapWitness_new proof [key]).

(** ** Root life cycle *)

Definition increment_refcounts (refcounts : gmap Word Z) (roots : list Word) : gmap Word Z :=
  foldl (λ refcounts root, <[root := default 0 (refcounts !! root) + 1]> refcounts) refcounts roots.

(** The roots whose count reached zero are returned; the subtraction does not wrap
    around, as the counts in the map are positive. *)
Definition decrement_step (acc : gmap Word Z * list Word) (root : Word) : gmap Word Z * list Word :=
  let '(refcounts, to_pop) := acc in
  match refcounts !! root with
  | Some count =>
      let count := count - 1 in
      if count =? 0 then (delete root refcounts, to_pop ++ [root])
      else (<[root := count]> refcounts, to_pop)
  | None => (refcounts, to_pop)
  end.

Definition decrement_refcounts (refcounts : gmap Word Z) (roots : list Word) :
    gmap Word Z * list Word := foldl decrement_step (refcounts, []) roots.

Definition safe_pop_smts (self : AccountSmtForest) (roots : list Word) : AccountSmtForest :=
  set_forest (SmtForest_pop_smts (forest self) roots) self.

(** [decrement_refcounts] on the counts of the forest, then [safe_pop_smts]. *)
Definition release_roots (self : AccountSmtForest) (roots : list Word) : AccountSmtForest :=
  let '(refcounts, to_pop) := decrement_refcounts (root_refcounts self) roots in
  safe_pop_smts (set_refcounts refcounts self) to_pop.

Definition stage_roots (self : AccountSmtForest) (account_id : AccountId) (new_roots : list Word) :
    AccountSmtForest :=
  let self := set_refcounts (increment_refcounts (root_refcounts self) new_roots) self in
  let old_roots := account_roots self !! account_id in
  let self := set_account_roots (<[account_id := new_roots]> (account_roots self)) self in
  match old_roots with
  | Some old_roots =>
      set_pending (<[account_id := default [] (pending_old_roots self !! account_id) ++ [old_roots]]>
        (pending_old_roots self)) self
  | None => self
  end.

Definition commit_roots (self : AccountSmtForest) (account_id : AccountId) : AccountSmtForest :=
  match pending_old_roots self !! account_id with
  | Some old_roots_stack =>
      foldl release_roots
        (set_pending (delete account_id (pending_old_roots self)) self) old_roots_stack
  | None => self
  end.

(** [Vec::pop]. *)
Definition vec_pop {A} (l : list A) : option A * list A :=
  match reverse l with
  | [] => (None, [])
  | a :: r => (Some a, reverse r)
  end.

Definition discard_roots (self : AccountSmtForest) (account_id : AccountId) : AccountSmtForest :=
  let '(old_roots, self) :=
    match pending_old_roots self !! account_id with
    | Some stack =>
        let '(old_roots, stack) := vec_pop stack in
        (old_roots, set_pending (<[account_id := stack]> (pending_old_roots self)) self)
    | None => (None, self)
    end in
  let new_roots := account_roots self !! account_id in
  let self :=
    match old_roots with
    | Some old_roots => set_account_roots (<[account_id := old_roots]> (account_roots self)) self
    | None => set_account_roots (delete account_id (account_roots self)) self
    end in
  let self :=
    match new_roots with Some new_roots => release_roots self new_roots | None => self end in
  if decide (pending_old_roots self !! account_id = Some [])
  then set_pending (delete account_id (pending_old_roots self)) self
  else self.

(** The assertion that nothing is staged is the panic. *)
Definition replace_roots (self : AccountSmtForest) (account_id : AccountId) (new_roots : list Word) :
    loop_result AccountSmtForest :=
  match pending_old_roots self !! account_id with
  | Some _ => Panicked
  | None => Finished (
      let self := set_refcounts (increment_refcounts (root_refcounts self) new_roots) self in
      let old_roots := account_roots self !! account_id in
      let self := set_account_roots (<[account_id := new_roots]> (account_roots self)) self in
      match old_roots with
      | Some old_roots => release_roots self old_roots
      | None => self
      end)
  end.

(** ** Tree mutators *)

(** The forest is changed in place: it is returned with every result. *)
Definition insert_entries (self : AccountSmtForest) (root : Word) (entries : list (Word * Word)) :
    AccountSmtForest * result StoreError Word :=
  if bool_decide (entries = []) then (self, Ok root)
  else
    let '(f, r) := SmtForest_batch_insert (forest self) root entries in
    (set_forest f self, map_err Store_MerkleStoreError r).

Definition update_asset_nodes (self : AccountSmtForest) (root : Word) (new_assets : list Asset)
    (removed_vault_keys : list AssetVaultKey) : AccountSmtForest * result StoreError Word :=
  let entries :=
    ((λ asset, (AssetVaultKey_as_word (Asset_vault_key asset), Asset_to_value_word asset))
       <$> new_assets) ++
    ((λ vault_key, (AssetVaultKey_as_word vault_key, EMPTY_WORD)) <$> removed_vault_keys) in
  insert_entries self root entries.

Definition update_storage_map_nodes (self : AccountSmtForest) (root : Word)
    (entries : list (StorageMapKey * Word)) : AccountSmtForest * result StoreError Word :=
  insert_entries self root ((λ kv, (StorageMapKey_hash kv.1, kv.2)) <$> entries).

Definition insert_asset_nodes (self : AccountSmtForest) (vault : AssetVault) :
    AccountSmtForest * result StoreError () :=
  match Smt_with_entries ((λ asset, (AssetVaultKey_as_word (Asset_vault_key asset),
      Asset_to_value_word asset)) <$> AssetVault_assets vault) with
  | Err e => (self, Err (Store_MerkleStoreError (Merkle_Other e)))
  | Ok entries =>
      let '(self, r) := insert_entries self empty_smt_root entries in
      (self, _ ← r; Ok ())
  end.

Definition insert_storage_map_nodes_for_map (self : AccountSmtForest) (map : StorageMap) :
    AccountSmtForest * result StoreError () :=
  let '(self, r) := insert_entries self empty_smt_root
    ((λ kv, (StorageMapKey_hash kv.1, kv.2)) <$> StorageMap_entries map) in
  (self, _ ← r; Ok ()).

(** The maps among the slots of a storage. *)
Definition storage_maps (storage : AccountStorage) : list StorageMap :=
  omap (λ slot, match slot.2 with inr map => Some map | inl _ => None end)
    (AccountStorage_slots storage).

(** A loop over [&mut self] with [?] in its body. *)
Fixpoint for_each {S A E} (f : S → A → S * result E ()) (l : list A) (s : S) : S * result E () :=
  match l with
  | [] => (s, Ok ())
  | a :: l =>
      match f s a with
      | (s, Ok _) => for_each f l s
      | (s, Err e) => (s, Err e)
      end
  end.

Definition insert_storage_map_nodes (self : AccountSmtForest) (storage : AccountStorage) :
    AccountSmtForest * result StoreError () :=
  for_each insert_storage_map_nodes_for_map (storage_maps storage) self.

Definition insert_account_state (self : AccountSmtForest) (vault : AssetVault)
    (storage : AccountStorage) : AccountSmtForest * result StoreError () :=
  match insert_storage_map_nodes self storage with
  | (self, Ok _) => insert_asset_nodes self vault
  | (self, Err e) => (self, Err e)
  end.

Definition collect_account_roots (vault : AssetVault) (storage : AccountStorage) : list Word :=
  AssetVault_root vault :: (StorageMap_root <$> storage_maps storage).

Definition insert_and_stage_account_state (self : AccountSmtForest) (account_id : AccountId)
    (vault : AssetVault) (storage : AccountStorage) : AccountSmtForest * result StoreError () :=
  match insert_account_state self vault storage with
  | (self, Ok _) => (stage_roots self account_id (collect_account_roots vault storage), Ok ())
  | (self, Err e) => (self, Err e)
  end.

Definition insert_and_register_account_state (self : AccountSmtForest) (account_id : AccountId)
    (vault : AssetVault) (storage : AccountStorage) :
    loop_result (AccountSmtForest * result StoreError ()) :=
  match insert_account_state self vault storage with
  | (self, Ok _) =>
      match replace_roots self account_id (collect_account_roots vault storage) with
      | Finished self => Finished (self, Ok ())
      | Panicked => Panicked
      | OutOfFuel => OutOfFuel
      end
  | (self, Err e) => Finished (self, Err e)
  end.
End forest.

(** ** Counting *)

Section count.
Context {A : Type} `{!EqDecision A}.

(** The number of occurrences in a list. *)
Fixpoint occ (a : A) (l : list A) : Z :=
  match l with
  | [] => 0
  | b :: l => (if decide (b = a) then 1 else 0) + occ a l
  end.

Lemma occ_nonneg a l : 0 ≤ occ a l.
Proof. induction l; simpl; [lia|]. case_decide; lia. Qed.

Lemma occ_app a l1 l2 : occ a (l1 ++ l2) = occ a l1 + occ a l2.
Proof. induction l1 as [|b l IH]; simpl; [lia|]. rewrite IH. lia. Qed.

Lemma occ_pos a l : 0 < occ a l ↔ a ∈ l.
Proof.
  induction l as [|b l IH]; simpl; [split; [lia|intros Ha; by apply not_elem_of_nil in Ha]|].
  rewrite elem_of_cons, <-IH. pose proof (occ_nonneg a l). case_decide; naive_solver lia.
Qed.
End count.

Section sum.
Context {K V : Type} `{Countable K}.

(** The sum of a measure of the values of a map. *)
Definition map_sum (f : V → Z) (m : gmap K V) : Z := map_fold (λ _ v acc, f v + acc) 0 m.

Lemma map_sum_empty f : map_sum f ∅ = 0.
Proof. apply map_fold_empty. Qed.

Lemma map_sum_fresh f m k v : m !! k = None → map_sum f (<[k := v]> m) = f v + map_sum f m.
Proof. intros Hk. unfold map_sum. rewrite map_fold_insert_L; [done|intros; lia|done]. Qed.

Lemma map_sum_delete f m k v : m !! k = Some v → map_sum f m = f v + map_sum f (delete k m).
Proof.
  intros Hk. rewrite <-map_sum_fresh with (k := k) by apply lookup_delete_eq.
  by rewrite insert_delete_id.
Qed.

Lemma map_sum_insert f m k v : map_sum f (<[k := v]> m) = f v + map_sum f (delete k m).
Proof. rewrite <-insert_delete_eq. apply map_sum_fresh, lookup_delete_eq. Qed.

Lemma map_sum_nonneg f m : (∀ v, 0 ≤ f v) → 0 ≤ map_sum f m.
Proof.
  intros Hf. unfold map_sum. apply (map_fold_weak_ind (λ b _, 0 ≤ b)); [lia|].
  intros k v m' b _ Hb. specialize (Hf v). lia.
Qed.

Lemma map_sum_lookup f m k v : (∀ v, 0 ≤ f v) → m !! k = Some v → f v ≤ map_sum f m.
Proof. intros Hf Hk. rewrite (map_sum_delete f m k v Hk). pose proof (map_sum_nonneg f (delete k m) Hf). lia. Qed.
End sum.

(** ** The counts of the roots *)

(** Which trees a forest holds.  Popping removes only the given roots, and inserting
    keeps all trees and adds the new one. *)
Class SmtForestLaws `{SmtForestLib} := {
  SmtForest_holds : SmtForest → Word → Prop;
  SmtForest_pop_keeps f roots w :
    SmtForest_holds f w → w ∉ roots → SmtForest_holds (SmtForest_pop_smts f roots) w;
  SmtForest_insert_keeps f root entries w :
    SmtForest_holds f w → SmtForest_holds (SmtForest_batch_insert f root entries).1 w;
  SmtForest_insert_adds f root entries f' w :
    SmtForest_batch_insert f root entries = (f', Ok w) → SmtForest_holds f' w
}.

Section invariant.
Context `{SmtForestLaws}.
Implicit Types (self : AccountSmtForest) (w : Word) (roots : list Word).

Definition stack_occ w (stack : list (list Word)) : Z := occ w (concat stack).

(** How often the accounts refer to a root, currently or in a staged change. *)
Definition references self w : Z :=
  map_sum (occ w) (account_roots self) + map_sum (stack_occ w) (pending_old_roots self).

Lemma references_nonneg self w : 0 ≤ references self w.
Proof.
  unfold references. pose proof (map_sum_nonneg (occ w) (account_roots self) (occ_nonneg w)).
  pose proof (map_sum_nonneg (stack_occ w) (pending_old_roots self)
    (λ stack, occ_nonneg w (concat stack))). lia.
Qed.

(** The count of a root in the map; a root that is not counted has none. *)
Definition refcount self w : Z := default 0 (root_refcounts self !! w).

(** The counts are the numbers of references plus [extra], no zero is stored, every
    referenced root is held by the forest, and no account has an empty stack. *)
Record counted (extra : Word → Z) self : Prop := {
  counted_refs w : refcount self w = references self w + extra w;
  counted_pos w c : root_refcounts self !! w = Some c → 0 < c;
  counted_held w : 0 < refcount self w → SmtForest_holds (forest self) w
}.

Definition no_empty_stack self : Prop :=
  ∀ id, pending_old_roots self !! id ≠ Some [].

Definition forest_wf self : Prop := counted (λ _, 0) self ∧ no_empty_stack self.

Lemma increment_lookup refs roots w :
  default 0 (increment_refcounts refs roots !! w) = default 0 (refs !! w) + occ w roots.
Proof.
  unfold increment_refcounts. revert refs. induction roots as [|r roots IH]; intros refs; simpl; [lia|].
  rewrite IH. destruct (decide (r = w)) as [->|Hne].
  - rewrite lookup_insert_eq. simpl. lia.
  - rewrite lookup_insert_ne by done. lia.
Qed.

Lemma increment_pos refs roots :
  (∀ w c, refs !! w = Some c → 0 < c) →
  ∀ w c, increment_refcounts refs roots !! w = Some c → 0 < c.
Proof.
  unfold increment_refcounts. revert refs.
  induction roots as [|r roots IH]; intros refs Hp w c; simpl; [apply Hp|]. apply IH.
  intros w' c'. rewrite lookup_insert. case_decide; [|apply Hp].
  intros [= <-]. destruct (refs !! r) as [n|] eqn:E; simpl; [specialize (Hp _ _ E)|]; lia.
Qed.

Definition positive_counts (refs : gmap Word Z) : Prop := ∀ w c, refs !! w = Some c → 0 < c.

(** One step on a root that is counted: its count decreases by one, and it is
    returned when nothing is left. *)
Lemma decrement_step_spec refs pop r :
  positive_counts refs → 0 < default 0 (refs !! r) →
  ∃ refs' pop', decrement_step (refs, pop) r = (refs', pop') ∧ positive_counts refs' ∧
    (∀ w, default 0 (refs' !! w) = default 0 (refs !! w) - if decide (r = w) then 1 else 0) ∧
    (∀ w, w ∈ pop' → w ∈ pop ∨ default 0 (refs' !! w) = 0).
Proof.
  intros Hpos Hr. unfold decrement_step. destruct (refs !! r) as [c|] eqn:Ec; [|simpl in Hr; lia].
  simpl in Hr. cbv zeta. destruct (Z.eqb_spec (c - 1) 0) as [Hc|Hc]; eexists _, _.
  - split; [done|]. split_and!.
    + intros w c'. rewrite lookup_delete. case_decide; [done|apply Hpos].
    + intros w. rewrite lookup_delete. case_decide; subst; rewrite ?Ec; simpl; lia.
    + intros w [Hw|Hw%list_elem_of_singleton]%elem_of_app; [by left|]. subst w.
      right. by rewrite lookup_delete_eq.
  - split; [done|]. split_and!; [| |by left].
    + intros w c'. rewrite lookup_insert.
      case_decide; [intros [= <-]; specialize (Hpos _ _ Ec); lia|apply Hpos].
    + intros w. rewrite lookup_insert. case_decide; subst; rewrite ?Ec; simpl; lia.
Qed.

(** Counts that are large enough are decreased, and only roots that reach zero are
    returned. *)
Lemma decrement_fold refs pop roots :
  positive_counts refs → (∀ w, occ w roots ≤ default 0 (refs !! w)) →
  ∃ refs' pop', foldl decrement_step (refs, pop) roots = (refs', pop') ∧ positive_counts refs' ∧
    (∀ w, default 0 (refs' !! w) = default 0 (refs !! w) - occ w roots) ∧
    (∀ w, w ∈ pop' → w ∈ pop ∨ default 0 (refs' !! w) = 0).
Proof.
  revert refs pop. induction roots as [|r roots IH]; intros refs pop Hpos Hle.
  { exists refs, pop. split_and!; [done..|intros; simpl; lia|by left]. }
  pose proof (Hle r) as Hr. simpl in Hr. rewrite decide_True in Hr by done.
  pose proof (occ_nonneg r roots) as Hnn.
  destruct (decrement_step_spec refs pop r Hpos) as (refs1 & pop1 & Hs & Hpos1 & Hd1 & Hp1); [lia|].
  destruct (IH refs1 pop1 Hpos1) as (refs2 & pop2 & Hf & Hpos2 & Hd2 & Hp2).
  { intros w. specialize (Hle w). simpl in Hle. rewrite Hd1. lia. }
  exists refs2, pop2. cbn [foldl]. rewrite Hs. split_and!; [done..| |].
  - intros w. rewrite Hd2, Hd1. simpl. lia.
  - intros w Hw. destruct (Hp2 _ Hw) as [Hw1|Hw1]; [|by right].
    destruct (Hp1 _ Hw1) as [Hw0|Hw0]; [by left|]. right.
    assert (0 ≤ default 0 (refs2 !! w)) as Hge.
    { destruct (refs2 !! w) as [c|] eqn:E; simpl; [specialize (Hpos2 _ _ E)|]; lia. }
    rewrite Hd2, Hw0 in *. pose proof (occ_nonneg w roots). lia.
Qed.

(** Releasing roots that are counted besides the references. *)
Lemma release_counted extra self roots :
  counted (λ w, extra w + occ w roots) self → (∀ w, 0 ≤ extra w) →
  counted extra (release_roots self roots).
Proof.
  intros [Href Hpos Hheld] Hex. unfold release_roots, decrement_refcounts.
  destruct (decrement_fold (root_refcounts self) [] roots Hpos) as (refs & pop & -> & Hp & Hd & Hpop).
  { intros w. change (occ w roots ≤ refcount self w). rewrite Href. specialize (Hex w).
    assert (0 ≤ references self w) by (apply references_nonneg). lia. }
  split.
  - intros w. unfold refcount. simpl. rewrite Hd. specialize (Href w). unfold refcount in Href.
    change (references _ w) with (references self w). lia.
  - done.
  - intros w. unfold refcount. simpl. intros Hw. apply SmtForest_pop_keeps.
    + apply Hheld. unfold refcount. rewrite Hd in Hw. pose proof (occ_nonneg w roots). lia.
    + intros Hin. destruct (Hpop _ Hin) as [Hn|Hz]; [by apply not_elem_of_nil in Hn|lia].
Qed.

Lemma counted_ext extra extra' self :
  (∀ w, extra w = extra' w) → counted extra self → counted extra' self.
Proof. intros He [Hr Hp Hh]. split; [intros w; by rewrite <-He|done..]. Qed.

Lemma stack_occ_snoc w stack roots : stack_occ w (stack ++ [roots]) = stack_occ w stack + occ w roots.
Proof. unfold stack_occ. rewrite concat_app, occ_app. simpl. rewrite app_nil_r. lia. Qed.

(** The stack of an account, empty when there is none. *)
Definition stack_of self id : list (list Word) := default [] (pending_old_roots self !! id).

Lemma pending_sum w (m : gmap AccountId (list (list Word))) id (stack : list (list Word)) :
  map_sum (stack_occ w) (<[id := stack]> m) =
    map_sum (stack_occ w) m + stack_occ w stack - stack_occ w (default [] (m !! id)).
Proof.
  rewrite map_sum_insert. destruct (m !! id) as [old|] eqn:E; simpl.
  - rewrite (map_sum_delete _ m id old E). lia.
  - rewrite delete_id by done. change (stack_occ w []) with 0. lia.
Qed.

Lemma pending_delete_sum w (m : gmap AccountId (list (list Word))) id :
  map_sum (stack_occ w) (delete id m) =
    map_sum (stack_occ w) m - stack_occ w (default [] (m !! id)).
Proof.
  destruct (m !! id) as [old|] eqn:E; simpl.
  - rewrite (map_sum_delete _ m id old E). lia.
  - rewrite delete_id by done. change (stack_occ w []) with 0. lia.
Qed.

Lemma roots_sum w (m : gmap AccountId (list Word)) id roots :
  map_sum (occ w) (<[id := roots]> m) =
    map_sum (occ w) m + occ w roots - occ w (default [] (m !! id)).
Proof.
  rewrite map_sum_insert. destruct (m !! id) as [old|] eqn:E; simpl.
  - rewrite (map_sum_delete _ m id old E). lia.
  - rewrite delete_id by done. lia.
Qed.

Lemma roots_delete_sum w (m : gmap AccountId (list Word)) id :
  map_sum (occ w) (delete id m) = map_sum (occ w) m - occ w (default [] (m !! id)).
Proof.
  destruct (m !! id) as [old|] eqn:E; simpl.
  - rewrite (map_sum_delete _ m id old E). lia.
  - rewrite delete_id by done. lia.
Qed.

(** The two steps that operations start with: counting new roots, and changing which
    roots are referred to. *)
Lemma increment_counted extra self roots :
  counted extra self → (∀ w, w ∈ roots → SmtForest_holds (forest self) w) →
  counted (λ w, extra w + occ w roots)
    (set_refcounts (increment_refcounts (root_refcounts self) roots) self).
Proof.
  intros [Hr Hp Hh] Hheld. split.
  - intros w. unfold refcount. simpl. rewrite increment_lookup. specialize (Hr w).
    unfold refcount in Hr. change (references (set_refcounts _ self) w) with (references self w). lia.
  - by apply increment_pos.
  - intros w. unfold refcount. simpl. rewrite increment_lookup. intros Hw.
    destruct (decide (0 < occ w roots)) as [Hin|Hni]; [by apply Hheld, occ_pos|].
    apply Hh. unfold refcount. pose proof (occ_nonneg w roots). lia.
Qed.

Lemma rereference extra extra' self self' :
  counted extra self → forest self' = forest self → root_refcounts self' = root_refcounts self →
  (∀ w, references self' w + extra' w = references self w + extra w) → counted extra' self'.
Proof.
  intros [Hr Hp Hh] Hf Hc He. unfold refcount in *. split; unfold refcount; rewrite ?Hf, ?Hc; [|done..].
  intros w. rewrite He. apply Hr.
Qed.

Lemma stage_counted self id roots :
  forest_wf self → (∀ w, w ∈ roots → SmtForest_holds (forest self) w) →
  forest_wf (stage_roots self id roots).
Proof.
  intros [Hc Hs] Hheld. apply (increment_counted _ _ roots) in Hc; [|done]. split.
  - apply (rereference _ _ _ _ Hc); unfold stage_roots; simpl.
    + by destruct (account_roots self !! id).
    + by destruct (account_roots self !! id).
    + intros w. destruct (account_roots self !! id) as [old|] eqn:E; unfold references; simpl;
        rewrite roots_sum, E; simpl; [rewrite pending_sum, stack_occ_snoc|]; lia.
  - unfold stage_roots. intros id'. simpl. destruct (account_roots self !! id); [|apply Hs].
    simpl. rewrite lookup_insert. case_decide; [|apply Hs]. intros [= Heq].
    by apply app_eq_nil in Heq as [_ ?].
Qed.

Lemma release_stack extra self stack :
  counted (λ w, extra w + stack_occ w stack) self → (∀ w, 0 ≤ extra w) →
  counted extra (foldl release_roots self stack).
Proof.
  revert self. induction stack as [|roots stack IH]; intros self Hc Hex; simpl.
  - eapply counted_ext; [|done]. intros w. unfold stack_occ. simpl. lia.
  - apply IH; [|done]. apply release_counted.
    + eapply counted_ext; [|done]. intros w. unfold stack_occ. simpl. rewrite occ_app. lia.
    + intros w. specialize (Hex w). pose proof (occ_nonneg w (concat stack)). unfold stack_occ. lia.
Qed.

Lemma release_roots_pending self roots :
  pending_old_roots (release_roots self roots) = pending_old_roots self ∧
  account_roots (release_roots self roots) = account_roots self.
Proof. unfold release_roots. by destruct (decrement_refcounts _ _). Qed.

Lemma release_stack_pending self stack :
  pending_old_roots (foldl release_roots self stack) = pending_old_roots self ∧
  account_roots (foldl release_roots self stack) = account_roots self.
Proof.
  revert self. induction stack as [|roots stack IH]; intros self; [done|]. simpl.
  destruct (IH (release_roots self roots)) as [-> ->]. apply release_roots_pending.
Qed.

Lemma commit_counted self id : forest_wf self → forest_wf (commit_roots self id).
Proof.
  intros [Hc Hs]. unfold commit_roots. destruct (pending_old_roots self !! id) as [stack|] eqn:E; [|done].
  split.
  - apply release_stack; [|done].
    apply (rereference _ _ _ _ Hc); [done..|]. intros w. unfold references. simpl.
    rewrite pending_delete_sum, E. simpl. lia.
  - intros id'. rewrite (proj1 (release_stack_pending _ _)). simpl. rewrite lookup_delete.
    case_decide; [done|apply Hs].
Qed.

Lemma replace_counted self id roots self' :
  forest_wf self → (∀ w, w ∈ roots → SmtForest_holds (forest self) w) →
  replace_roots self id roots = Finished self' → forest_wf self'.
Proof.
  intros [Hc Hs] Hheld. unfold replace_roots.
  destruct (pending_old_roots self !! id); [done|]. cbv zeta. intros [= <-].
  apply (increment_counted _ _ roots) in Hc; [|done]. simpl.
  destruct (account_roots self !! id) as [old|] eqn:E; split.
  - apply release_counted; [|done]. apply (rereference _ _ _ _ Hc); [done..|].
    intros w. unfold references. simpl. rewrite roots_sum, E. simpl. lia.
  - intros id'. rewrite (proj1 (release_roots_pending _ _)). apply Hs.
  - apply (rereference _ _ _ _ Hc); [done..|].
    intros w. unfold references. simpl. rewrite roots_sum, E. simpl. lia.
  - apply Hs.
Qed.

Lemma vec_pop_snoc {A} (l : list A) a : vec_pop (l ++ [a]) = (Some a, l).
Proof. unfold vec_pop. rewrite reverse_snoc. by rewrite reverse_involutive. Qed.

(** [discard_roots] when a change is staged, and when nothing is. *)
Lemma discard_staged self id stack old :
  pending_old_roots self !! id = Some (stack ++ [old]) →
  discard_roots self id =
    let self1 := set_account_roots (<[id := old]> (account_roots self))
      (set_pending (<[id := stack]> (pending_old_roots self)) self) in
    let self2 := match account_roots self !! id with
      | Some new_roots => release_roots self1 new_roots | None => self1 end in
    if decide (stack = []) then set_pending (delete id (pending_old_roots self2)) self2 else self2.
Proof.
  intros Hst. unfold discard_roots. rewrite Hst, vec_pop_snoc. cbv zeta. simpl.
  destruct (account_roots self !! id) as [new|]; simpl.
  - rewrite (proj1 (release_roots_pending _ _)). simpl. rewrite lookup_insert_eq.
    destruct (decide (stack = [])) as [->|Hne]; [by rewrite decide_True|].
    rewrite decide_False by congruence. done.
  - rewrite lookup_insert_eq.
    destruct (decide (stack = [])) as [->|Hne]; [by rewrite decide_True|].
    by rewrite decide_False by congruence.
Qed.
Lemma discard_unstaged self id :
  pending_old_roots self !! id = None →
  discard_roots self id =
    let self1 := set_account_roots (delete id (account_roots self)) self in
    match account_roots self !! id with
    | Some new_roots => release_roots self1 new_roots | None => self1 end.
Proof.
  intros Hn. unfold discard_roots. rewrite Hn. cbv zeta.
  destruct (account_roots self !! id) as [new|].
  - rewrite (proj1 (release_roots_pending _ _)). simpl. by rewrite Hn.
  - simpl. by rewrite Hn.
Qed.

(** A match on the roots the account had: they are released if it had any. *)
Definition release_opt (o : option (list Word)) self : AccountSmtForest :=
  match o with Some roots => release_roots self roots | None => self end.

Lemma release_opt_counted self o :
  counted (λ w, occ w (default [] o)) self → counted (λ _, 0) (release_opt o self).
Proof.
  destruct o as [roots|]; simpl; intros Hc; [|by eapply counted_ext; [|done]].
  apply release_counted; [|done]. by eapply counted_ext; [|done].
Qed.

Lemma release_opt_pending self o :
  pending_old_roots (release_opt o self) = pending_old_roots self ∧
  account_roots (release_opt o self) = account_roots self.
Proof. destruct o; [apply release_roots_pending|done]. Qed.

Lemma last_or_nil {A} (l : list A) : l = [] ∨ ∃ l' a, l = l' ++ [a].
Proof. destruct l using rev_ind; [by left|right; eauto]. Qed.

Lemma discard_counted self id : forest_wf self → forest_wf (discard_roots self id).
Proof.
  intros [Hc Hs]. destruct (pending_old_roots self !! id) as [stack|] eqn:E.
  - destruct (last_or_nil stack) as [->|(stack' & old & ->)]; [by destruct (Hs id)|].
    rewrite (discard_staged _ _ _ _ E). cbv zeta.
    set (self1 := set_account_roots _ _).
    change (match account_roots self !! id with
      | Some new_roots => release_roots self1 new_roots | None => self1 end)
      with (release_opt (account_roots self !! id) self1).
    assert (counted (λ _, 0) (release_opt (account_roots self !! id) self1)) as Hc2.
    { apply release_opt_counted, (rereference _ _ _ _ Hc); [done..|].
      intros w. unfold references. simpl. rewrite roots_sum, pending_sum, E. simpl.
      rewrite stack_occ_snoc. lia. }
    case_decide as Hst.
    + subst stack'. split.
      * apply (rereference _ _ _ _ Hc2); [done..|]. intros w. unfold references. simpl.
        rewrite pending_delete_sum, (proj1 (release_opt_pending _ _)). simpl.
        rewrite lookup_insert_eq. change (stack_occ w (default [] (Some []))) with 0. lia.
      * intros id'. simpl. rewrite (proj1 (release_opt_pending _ _)). simpl.
        rewrite delete_insert_eq, lookup_delete. case_decide; [done|apply Hs].
    + split; [done|]. intros id'. rewrite (proj1 (release_opt_pending _ _)). simpl.
      rewrite lookup_insert. case_decide; [congruence|apply Hs].
  - rewrite (discard_unstaged _ _ E). cbv zeta. set (self1 := set_account_roots _ _).
    change (match account_roots self !! id with
      | Some new_roots => release_roots self1 new_roots | None => self1 end)
      with (release_opt (account_roots self !! id) self1).
    split.
    + apply release_opt_counted, (rereference _ _ _ _ Hc); [done..|].
      intros w. unfold references. simpl. rewrite roots_delete_sum. lia.
    + intros id'. rewrite (proj1 (release_opt_pending _ _)). apply Hs.
Qed.

(** With positive counts, equal numbers of references give equal maps. *)
Lemma refcounts_ext self self' :
  forest_wf self → forest_wf self' → (∀ w, references self w = references self' w) →
  root_refcounts self = root_refcounts self'.
Proof.
  intros [[Hr Hp _] _] [[Hr' Hp' _] _] He. apply map_eq. intros w.
  specialize (Hr w). specialize (Hr' w). rewrite He in Hr. rewrite <-Hr' in Hr.
  unfold refcount in Hr. destruct (root_refcounts self !! w) as [c|] eqn:E,
    (root_refcounts self' !! w) as [c'|] eqn:E'; simpl in Hr.
  - f_equal. lia.
  - specialize (Hp _ _ E). lia.
  - specialize (Hp' _ _ E'). lia.
  - done.
Qed.

(** ** Properties *)

(** C26: The reference counts of the forest are exact, whatever is staged, committed,
    discarded or replaced: the count of a root is the number of times accounts refer
    to it, now or in a staged change, and the forest holds the tree of every root
    that is counted; a tree in use is never popped. *)
Theorem forest_counts_exact self id roots :
  forest_wf self → (∀ w, w ∈ roots → SmtForest_holds (forest self) w) →
  forest_wf (stage_roots self id roots) ∧
  forest_wf (commit_roots self id) ∧
  forest_wf (discard_roots self id) ∧
  ∀ self', replace_roots self id roots = Finished self' → forest_wf self'.
Proof.
  intros Hwf Hheld. split_and!.
  - by apply stage_counted.
  - by apply commit_counted.
  - by apply discard_counted.
  - intros self' Hr. by eapply replace_counted.
Qed.

(** Discarding undoes staging: for an account with roots, staging new roots and
    then discarding them restores the roots of every account, the staged changes
    below it and all reference counts. *)
Theorem discard_undoes_stage self id old roots :
  forest_wf self → (∀ w, w ∈ roots → SmtForest_holds (forest self) w) →
  account_roots self !! id = Some old →
  let self' := discard_roots (stage_roots self id roots) id in
  account_roots self' = account_roots self ∧
  pending_old_roots self' = pending_old_roots self ∧
  root_refcounts self' = root_refcounts self.
Proof.
  intros Hwf Hheld Hold self'.
  assert (account_roots self' = account_roots self ∧
    pending_old_roots self' = pending_old_roots self) as [Ha Hp].
  { unfold self', stage_roots. cbn [account_roots set_refcounts]. rewrite Hold. cbv zeta.
    rewrite (discard_staged _ _ (default [] (pending_old_roots self !! id)) old); cbv zeta; simpl;
      [|by rewrite lookup_insert_eq].
    rewrite !lookup_insert_eq. simpl. case_decide as Hst; simpl;
      rewrite ?(proj1 (release_roots_pending _ _)), (proj2 (release_roots_pending _ _)); simpl;
      rewrite !insert_insert_eq, insert_id by done; (split; [done|]).
    - rewrite delete_insert_eq. apply delete_id.
      destruct (pending_old_roots self !! id) as [stack|] eqn:E; [|done]. simpl in Hst. subst.
      by destruct (proj2 Hwf id).
    - rewrite insert_id; [done|].
      by destruct (pending_old_roots self !! id) as [stack|]. }
  split_and!; [done..|]. apply refcounts_ext; [|done|].
  - apply discard_counted. by apply stage_counted.
  - intros w. unfold references. by rewrite Ha, Hp.
Qed.
End invariant.

(** ** A concrete forest *)

Definition toy_apply_entries (m : gmap Z Z) (entries : list (Z * Z)) : gmap Z Z :=
  foldl (λ m kv, if decide (kv.2 = 0) then delete kv.1 m else <[kv.1 := kv.2]> m) m entries.

(** Trees by their roots; the empty one is always there. *)
#[export] Instance toy_forest_lib : SmtForestLib := {|
  SmtForest := gmap Z (gmap Z Z);
  SmtForest_new := {[ 0 := ∅ ]};
  SmtForest_batch_insert := λ f root entries,
    match f !! root with
    | Some m =>
        let m := toy_apply_entries m entries in
        let new_root := toy_root (map_to_list m) in
        (<[new_root := m]> f, Ok (new_root : @Word toy_protocol))
    | None => (f, Err (Merkle_Other "root not in the forest"))
    end;
  SmtForest_pop_smts := λ f roots, foldl (λ f r, if decide (r = 0) then f else delete r f) f roots;
  SmtProof := gmap Z Z;
  SmtForest_open := λ f root key,
    match f !! root with Some m => Ok m | None => Err (Merkle_Other "root not in the forest") end;
  SmtProof_get := λ m key, Some (default 0 (m !! (key : Z)) : @Word toy_protocol);
  empty_smt_root := (0 : @Word toy_protocol);
  Smt_with_entries := λ entries, Ok entries;
  AssetWitness := gmap Z Z;
  AssetWitness_new := λ p, Ok p;
  StorageMapWitness := gmap Z Z;
  StorageMapWitness_new := λ p _, Ok p;
  StorageMapWitness_get := λ m key, (m !! ((key + 1) : Z) : option (@Word toy_protocol))
|}.

#[export] Instance toy_forest_laws : SmtForestLaws.
Proof.
  refine {| SmtForest_holds := λ f w, is_Some ((f : gmap Z (gmap Z Z)) !! (w : Z)) |}.
  - intros f roots. simpl in *. revert f. induction roots as [|r roots IH]; intros f w Hw Hni; [done|].
    apply not_elem_of_cons in Hni as [Hne Hni]. simpl. apply IH; [|done].
    case_decide as Hr; [exact Hw|]. rewrite lookup_delete_ne; [exact Hw|congruence].
  - intros f root entries w Hw. simpl in *. case_match; simpl; [|exact Hw].
    rewrite lookup_insert. case_decide; eauto.
  - intros f root entries f' w. simpl. case_match; [|intros Hx; discriminate Hx].
    intros [= <- <-]. rewrite lookup_insert_eq. eauto.
Defined.

(** ** Witnesses *)

Definition toy_staged : AccountSmtForest :=
  stage_roots (set_forest {[ 0 := ∅; 5 := {[ 1 := 2 ]}; 7 := {[ 3 := 4 ]} ]} AccountSmtForest_new)
    (toy_account 1) [0; 5].

Lemma toy_staged_wf : forest_wf toy_staged.
Proof.
  apply stage_counted.
  - split; [|by intros id]. split; [done..|]. intros w Hw. by apply Z.lt_irrefl in Hw.
  - intros w Hw. decompose_list_elem_of; subst; by apply (mk_is_Some _ _ eq_refl).
Qed.

Lemma toy_root_held w : w ∈ [toy_word 7] → SmtForest_holds (forest toy_staged) w.
Proof. intros Hw. decompose_list_elem_of; subst. by apply (mk_is_Some _ _ eq_refl). Qed.

Lemma forest_counts_exact_witness :
  forest_wf toy_staged ∧ forest_wf (stage_roots toy_staged (toy_account 1) [7]).
Proof.
  split; [apply toy_staged_wf|].
  exact (proj1 (forest_counts_exact toy_staged (toy_account 1) [toy_word 7] toy_staged_wf toy_root_held)).
Defined.

Lemma discard_undoes_stage_witness :
  account_roots toy_staged !! toy_account 1 = Some [0; 5] ∧
  let self' := discard_roots (stage_roots toy_staged (toy_account 1) [7]) (toy_account 1) in
  account_roots self' = account_roots toy_staged ∧
  pending_old_roots self' = pending_old_roots toy_staged ∧
  root_refcounts self' = root_refcounts toy_staged.
Proof.
  split; [reflexivity|].
  apply (discard_undoes_stage toy_staged (toy_account 1) [0; 5] [toy_word 7] toy_staged_wf toy_root_held).
  reflexivity.
Defined.
