(* ===== verification/Sql.v ===== *)
(** * Tables and statements

    The SQLite store keeps its data in tables.  A table with a primary key is a map
    from the key to the other columns, so [INSERT OR REPLACE] is an insertion and
    [INSERT OR IGNORE] keeps an existing row; [INSERT ... SELECT], [DELETE] and
    [UPDATE] with a [WHERE] clause go over all rows.  Rows come out of a query in an
    unspecified order unless it says [ORDER BY].  This file holds these statements,
    the conversion of unsigned integers to the signed ones of SQLite, and the
    computations of a database transaction, which is rolled back when it fails. *)

From S2P Require Import Prelude.
From Stdlib Require Import ZArith Lia.
From stdpp Require Import base gmap list strings sorting.

Open Scope Z_scope.

(** ** Statements *)

Section statements.
Context {K K' V V' : Type} `{Countable K} `{Countable K'}.

(** [INSERT OR REPLACE INTO dst SELECT ... FROM src WHERE ...]: [f] is the row that is
    selected for a row of [src], if any. *)
Definition insert_select (f : K → V → option (K' * V')) (src : gmap K V) (dst : gmap K' V') :
    gmap K' V' :=
  map_fold (λ k v dst, match f k v with Some (k', v') => <[k' := v']> dst | None => dst end) dst src.

(** [INSERT OR IGNORE INTO dst SELECT ...]. *)
Definition insert_select_ignore (f : K → V → option (K' * V')) (src : gmap K V) (dst : gmap K' V') :
    gmap K' V' :=
  map_fold (λ k v dst,
    match f k v with
    | Some (k', v') => match dst !! k' with Some _ => dst | None => <[k' := v']> dst end
    | None => dst
    end) dst src.
End statements.

(** [INSERT OR IGNORE] of one row. *)
Definition insert_ignore {K V} `{Countable K} (k : K) (v : V) (m : gmap K V) : gmap K V :=
  match m !! k with Some _ => m | None => <[k := v]> m end.

(** [DELETE ... WHERE p]. *)
Definition delete_where {K V} `{Countable K} (p : K → V → bool) (m : gmap K V) : gmap K V :=
  filter (λ kv, p kv.1 kv.2 = false) m.

(** [UPDATE ... SET ... WHERE p], for columns outside the primary key. *)
Definition update_where {K V} `{Countable K} (p : K → V → bool) (f : V → V) (m : gmap K V) : gmap K V :=
  map_imap (λ k v, Some (if p k v then f v else v)) m.

(** [SELECT ... WHERE p]: the rows in an unspecified order. *)
Definition select_where {K V} `{Countable K} (p : K → V → bool) (m : gmap K V) : list (K * V) :=
  filter (λ kv, p kv.1 kv.2 = true) (map_to_list m).

Lemma lookup_delete_where {K V} `{Countable K} (p : K → V → bool) (m : gmap K V) k :
  delete_where p m !! k = (v ← m !! k; if p k v then None else Some v).
Proof.
  unfold delete_where. rewrite map_lookup_filter. destruct (m !! k) as [v|]; [|done]. simpl.
  destruct (p k v); simpl; by rewrite ?option_guard_True, ?option_guard_False.
Qed.

Lemma lookup_update_where {K V} `{Countable K} (p : K → V → bool) (f : V → V) (m : gmap K V) k :
  update_where p f m !! k = (λ v, if p k v then f v else v) <$> m !! k.
Proof. unfold update_where. rewrite map_lookup_imap. by destruct (m !! k). Qed.

Lemma elem_of_select_where {K V} `{Countable K} (p : K → V → bool) (m : gmap K V) k v :
  (k, v) ∈ select_where p m ↔ m !! k = Some v ∧ p k v = true.
Proof.
  unfold select_where. rewrite list_elem_of_filter, elem_of_map_to_list. simpl. tauto.
Qed.

Lemma lookup_insert_ignore {K V} `{Countable K} (k : K) (v : V) (m : gmap K V) k' :
  insert_ignore k v m !! k' = match m !! k' with
    | Some v' => Some v'
    | None => if decide (k = k') then Some v else None
    end.
Proof.
  unfold insert_ignore. destruct (m !! k) eqn:E; [by destruct (m !! k') eqn:E'; [|case_decide; subst; congruence]|].
  rewrite lookup_insert. case_decide as Hk; [by subst; rewrite E|]. by destruct (m !! k').
Qed.

Section insert_select_lookup.
Context {K K' V V' : Type} `{Countable K} `{Countable K'}.
Variable f : K → V → option (K' * V').
(** The row that can be selected for a key. *)
Variable g : K' → K.
Hypothesis Hg : ∀ k v k' v', f k v = Some (k', v') → k = g k'.

(** What is selected for a key of the target. *)
Definition selected (src : gmap K V) (k' : K') : option V' :=
  v ← src !! g k'; kv ← f (g k') v; if decide (kv.1 = k') then Some kv.2 else None.

Lemma selected_insert k v src k' :
  src !! k = None →
  selected (<[k := v]> src) k' =
    match f k v with
    | Some (k2, v2) => if decide (k2 = k') then Some v2 else selected src k'
    | None => selected src k'
    end.
Proof.
  intros Hk. unfold selected. rewrite lookup_insert. destruct (decide (k = g k')) as [->|Hne].
  - rewrite Hk. simpl. destruct (f (g k') v) as [[k2 v2]|]; [|done]. done.
  - destruct (f k v) as [[k2 v2]|] eqn:E; [|done]. rewrite decide_False; [done|].
    intros ->. apply Hne. by eapply Hg.
Qed.

Lemma selected_empty k' : selected ∅ k' = None.
Proof. unfold selected. by rewrite lookup_empty. Qed.

Lemma lookup_insert_select src dst k' :
  insert_select f src dst !! k' =
    match selected src k' with Some v => Some v | None => dst !! k' end.
Proof.
  unfold insert_select. revert k'.
  apply (map_fold_weak_ind (λ (b : gmap K' V') (m : gmap K V),
    ∀ k', b !! k' = match selected m k' with Some v => Some v | None => dst !! k' end)).
  - intros k'. by rewrite selected_empty.
  - intros k v m b Hk IH k'. rewrite selected_insert by done.
    destruct (f k v) as [[k2 v2]|]; [|apply IH]. rewrite lookup_insert. by case_decide.
Qed.

Lemma lookup_insert_select_ignore src dst k' :
  insert_select_ignore f src dst !! k' =
    match dst !! k' with Some v => Some v | None => selected src k' end.
Proof.
  unfold insert_select_ignore. revert k'.
  apply (map_fold_weak_ind (λ (b : gmap K' V') (m : gmap K V),
    ∀ k', b !! k' = match dst !! k' with Some v => Some v | None => selected m k' end)).
  - intros k'. rewrite selected_empty. by destruct (dst !! k').
  - intros k v m b Hk IH k'. rewrite selected_insert by done.
    destruct (f k v) as [[k2 v2]|] eqn:E; [|apply IH].
    assert (dst !! k2 = None → selected m k2 = None) as Hnone.
    { intros _. unfold selected. by rewrite <-(Hg _ _ _ _ E), Hk. }
    destruct (b !! k2) as [v3|] eqn:Eb.
    + rewrite IH. destruct (dst !! k') eqn:Ed; [done|]. case_decide; [|done]. subst k2.
      rewrite IH, Ed, Hnone in Eb by done. done.
    + rewrite lookup_insert. case_decide as Hk2; [subst k2|apply IH].
      rewrite IH in Eb. by destruct (dst !! k').
Qed.
End insert_select_lookup.

(** [ORDER BY]: text is compared byte by byte. *)
Definition string_key : KeyType string := {| key_le := String.le |}.

Definition order_le {A K} `{!KeyType K} (key : A → K) (a b : A) : Prop := key_le (key a) (key b).
#[export] Instance order_le_dec {A K} `{!KeyType K} (key : A → K) a b : Decision (order_le key a b) :=
  key_le_dec (key a) (key b).

Definition order_by {A K} `{!KeyType K} (key : A → K) (rows : list A) : list A :=
  merge_sort (order_le key) rows.

Lemma order_by_perm {A K} `{!KeyType K} (key : A → K) rows : order_by key rows ≡ₚ rows.
Proof. apply merge_sort_Permutation. Qed.

Lemma order_by_sorted {A K} `{!KeyType K} (key : A → K) rows :
  StronglySorted (order_le key) (order_by key rows).
Proof.
  apply StronglySorted_merge_sort.
  - intros a b c Hab Hbc. unfold order_le in *. by etrans.
  - intros a b. unfold order_le. apply (total key_le).
Qed.

(** ** Integers *)

Definition I64_MAX : Z := 9223372036854775807.

(** [v as i64] on a [u64], and [v as u64] on an [i64]. *)
Definition u64_as_i64 (v : Z) : Z := if v <=? I64_MAX then v else v - (U64_MAX + 1).
Definition i64_as_u64 (v : Z) : Z := if 0 <=? v then v else v + (U64_MAX + 1).

(** [u64_to_value] and [column_value_as_u64] of [lib.rs]. *)
Definition u64_to_value (v : Z) : Z := u64_as_i64 v.
Definition column_value_as_u64 (v : Z) : Z := i64_as_u64 v.

Lemma u64_value_roundtrip v : in_range U64_MAX v → column_value_as_u64 (u64_to_value v) = v.
Proof.
  unfold in_range, column_value_as_u64, u64_to_value, i64_as_u64, u64_as_i64, I64_MAX, U64_MAX.
  intros Hv. repeat case_match; lia.
Qed.

Lemma u64_to_value_inj v v' :
  in_range U64_MAX v → in_range U64_MAX v' → u64_to_value v = u64_to_value v' → v = v'.
Proof. intros Hv Hv' Heq. rewrite <-(u64_value_roundtrip v), <-(u64_value_roundtrip v'), Heq by done. done. Qed.

(** ** Computations on the store

    A computation gets the state of the store and returns the state it leaves, also
    when it fails: what is in memory is not undone. *)

Definition dbm (E S A : Type) : Type := S → loop_result (S * result E A).

#[export] Instance dbm_ret E S : MRet (dbm E S) := λ A a s, Finished (s, Ok a).
#[export] Instance dbm_bind E S : MBind (dbm E S) := λ A B f m s,
  match m s with
  | Finished (s, Ok a) => f a s
  | Finished (s, Err e) => Finished (s, Err e)
  | Panicked => Panicked
  | OutOfFuel => OutOfFuel
  end.

(** A step that reads the state, or may fail without changing it. *)
Definition db_read {E S A} (f : S → result E A) : dbm E S A := λ s, Finished (s, f s).
Definition db_fail {E S A} (e : E) : dbm E S A := λ s, Finished (s, Err e).
Definition db_panic {E S A} : dbm E S A := λ _, Panicked.
(** A statement that changes the state, or fails. *)
Definition db_exec {E S} (f : S → result E S) : dbm E S () := λ s,
  match f s with Ok s' => Finished (s', Ok ()) | Err e => Finished (s, Err e) end.

(** A computation on a part of the state. *)
Definition zoom {E S T A} (get : S → T) (set : T → S → S) (m : dbm E T A) : dbm E S A := λ s,
  match m (get s) with
  | Finished (t, r) => Finished (set t s, r)
  | Panicked => Panicked
  | OutOfFuel => OutOfFuel
  end.

(** A loop whose body may leave with [?]. *)
Fixpoint db_each {E S A} (f : A → dbm E S ()) (l : list A) : dbm E S () :=
  match l with
  | [] => mret ()
  | a :: l => f a;; db_each f l
  end.

(** [conn.transaction()] to [tx.commit()]: the tables are the part of the state that
    is rolled back when the body fails. *)
Definition with_transaction {E S T A} (get : S → T) (set : T → S → S) (m : dbm E S A) : dbm E S A :=
  λ s,
  match m s with
  | Finished (s', Ok a) => Finished (s', Ok a)
  | Finished (s', Err e) => Finished (set (get s) s', Err e)
  | Panicked => Panicked
  | OutOfFuel => OutOfFuel
  end.

Lemma dbm_bind_Ok {E S A B} (m : dbm E S A) (f : A → dbm E S B) s s' b :
  (m ≫= f) s = Finished (s', Ok b) ↔
  ∃ s1 a, m s = Finished (s1, Ok a) ∧ f a s1 = Finished (s', Ok b).
Proof.
  unfold mbind, dbm_bind. destruct (m s) as [[s1 [a|e]]| |]; naive_solver.
Qed.

Lemma db_exec_Ok {E S} (f : S → result E S) s s' u :
  db_exec f s = Finished (s', Ok u) ↔ f s = Ok s'.
Proof. unfold db_exec. destruct u, (f s); naive_solver. Qed.

(** Break a successful computation into its steps. *)
Ltac inv_db :=
  repeat match goal with
  | H : (_ ≫= _) _ = Finished (_, Ok _) |- _ =>
      apply dbm_bind_Ok in H; destruct H as (? & ? & ? & H)
  | H : db_exec _ _ = Finished (_, Ok _) |- _ => apply db_exec_Ok in H
  | H : mret _ _ = Finished (_, Ok _) |- _ => injection H as ? ?; subst
  end.

(** A part of the state that no step of a loop touches. *)
Lemma foldl_keeps {A B C} (g : B → C) (f : B → A → B) l b :
  (∀ b a, g (f b a) = g b) → g (foldl f b l) = g b.
Proof. intros Hf. revert b. induction l as [|a l IH]; intros b; [done|]. simpl. by rewrite IH. Qed.

(** *** What a computation preserves

    [R] relates the state before a computation and after it, whatever its result. *)

Section preserves.
Context {E S : Type} (R : relation S) `{!PreOrder R}.

Definition preserves {A} (m : dbm E S A) : Prop := ∀ s s' r, m s = Finished (s', r) → R s s'.

Lemma preserves_ret {A} (a : A) : preserves (mret a).
Proof. intros s s' r [= <- _]. reflexivity. Qed.
Lemma preserves_read {A} (f : S → result E A) : preserves (db_read f).
Proof. intros s s' r [= <- _]. reflexivity. Qed.
Lemma preserves_fail {A} (e : E) : preserves (db_fail (A:=A) e).
Proof. intros s s' r [= <- _]. reflexivity. Qed.
Lemma preserves_panic {A} : preserves (db_panic (A:=A)).
Proof. intros s s' r [=]. Qed.

Lemma preserves_bind {A B} (m : dbm E S A) (f : A → dbm E S B) :
  preserves m → (∀ a, preserves (f a)) → preserves (m ≫= f).
Proof.
  intros Hm Hf s s' r. unfold mbind, dbm_bind.
  destruct (m s) as [[s1 [a|e]]| |] eqn:Em; [|intros [= <- <-]; by eapply Hm|done..].
  intros Hr. etrans; [by eapply Hm|by eapply Hf].
Qed.

Lemma preserves_each {A} (f : A → dbm E S ()) l : (∀ a, preserves (f a)) → preserves (db_each f l).
Proof.
  intros Hf. induction l as [|a l IH]; [apply preserves_ret|]. cbn [db_each].
  by apply preserves_bind.
Qed.

Lemma preserves_exec (f : S → result E S) :
  (∀ s s', f s = Ok s' → R s s') → preserves (db_exec f).
Proof.
  intros Hf s s' r. unfold db_exec. destruct (f s) as [s1|e] eqn:Ef; intros [= <- _]; [by apply Hf|].
  reflexivity.
Qed.
End preserves.

(** ** Tables that store a map

    The rows of a table with text keys are the encodings of the entries of a map. *)

Section represents.
Context {Id R Row : Type} `{Countable Id} (key : Id → string) (encode : R → Row).
Context `{!Inj (=) (=) key}.

Definition represents (recs : gmap Id R) (table : gmap string Row) : Prop :=
  table = kmap key (encode <$> recs).

Lemma represents_lookup recs table id :
  represents recs table → table !! key id = encode <$> recs !! id.
Proof. intros ->. by rewrite lookup_kmap, lookup_fmap. Qed.

Lemma represents_row recs table k row :
  represents recs table → table !! k = Some row ↔
    ∃ id r, recs !! id = Some r ∧ k = key id ∧ row = encode r.
Proof.
  intros ->. rewrite lookup_kmap_Some by done. setoid_rewrite lookup_fmap_Some. naive_solver.
Qed.

Lemma represents_empty : represents ∅ ∅.
Proof. unfold represents. by rewrite fmap_empty, kmap_empty. Qed.

Lemma represents_insert recs table id r :
  represents recs table → represents (<[id := r]> recs) (<[key id := encode r]> table).
Proof. intros ->. unfold represents. by rewrite fmap_insert, kmap_insert. Qed.

(** [UPDATE ... WHERE key = ?]. *)
Lemma represents_update recs table id (f : R → R) (g : Row → Row) :
  (∀ r, recs !! id = Some r → g (encode r) = encode (f r)) →
  represents recs table →
  represents (alter f id recs) (update_where (λ k _, bool_decide (k = key id)) g table).
Proof.
  intros Hfg Ht. unfold represents. apply map_eq. intros k. rewrite lookup_update_where.
  destruct (table !! k) as [row|] eqn:Hk.
  - apply (represents_row _ _ _ _ Ht) in Hk as (id' & r & Hr & -> & ->). simpl.
    rewrite lookup_kmap, lookup_fmap by done. case_bool_decide as Hd.
    + apply (inj key) in Hd as ->. rewrite lookup_alter_eq, Hr. simpl. by rewrite Hfg.
    + rewrite lookup_alter_ne by congruence. by rewrite Hr.
  - simpl. symmetry. destruct (kmap key (encode <$> alter f id recs) !! k) as [row|] eqn:Hk'; [|done].
    apply lookup_kmap_Some in Hk' as (id' & -> & Hr); [|done].
    rewrite (represents_lookup _ _ _ Ht) in Hk. rewrite lookup_fmap in Hr.
    destruct (decide (id = id')) as [->|Hne].
    + rewrite lookup_alter_eq in Hr. by destruct (recs !! id').
    + rewrite lookup_alter_ne in Hr by done. by destruct (recs !! id').
Qed.

(** A query selects the encodings of the entries that satisfy the condition. *)
Lemma represents_select recs table (p : string → Row → bool) (q : R → bool) :
  represents recs table → (∀ id r, recs !! id = Some r → p (key id) (encode r) = q r) →
  select_where p table ≡ₚ
    (λ ir, (key ir.1, encode ir.2)) <$> filter (λ ir, q ir.2 = true) (map_to_list recs).
Proof.
  intros Ht Hpq. apply NoDup_Permutation.
  - apply NoDup_filter, NoDup_map_to_list.
  - apply (NoDup_fmap_1 fst). rewrite <-list_fmap_compose.
    rewrite (list_fmap_ext _ (key ∘ fst) _) by done. rewrite list_fmap_compose.
    apply NoDup_fmap_2; [done|]. eapply (sublist_NoDup _ (map_to_list recs).*1); [apply NoDup_fst_map_to_list|].
    apply fmap_sublist, sublist_filter.
  - intros [k row]. rewrite elem_of_select_where, list_elem_of_fmap. split.
    + intros [Hk Hp]. apply (represents_row _ _ _ _ Ht) in Hk as (id & r & Hr & -> & ->).
      exists (id, r). split; [done|]. rewrite list_elem_of_filter, elem_of_map_to_list.
      split; [|done]. simpl. by rewrite <-(Hpq _ _ Hr).
    + intros ([id r] & [= -> ->] & Hin). rewrite list_elem_of_filter, elem_of_map_to_list in Hin.
      destruct Hin as [Hq Hr]. simpl in *. split; [|by rewrite (Hpq _ _ Hr)].
      by rewrite (represents_lookup _ _ _ Ht), Hr.
Qed.
End represents.

(** Parsing encodings gives the values back. *)
Lemma try_map_encode {E A B C} (f : B → result E C) (g : A → B) (h : A → C) l :
  (∀ a, a ∈ l → f (g a) = Ok (h a)) → try_map f (g <$> l) = Ok (h <$> l).
Proof.
  induction l as [|a l IH]; intros Hfg; [done|]. cbn [fmap list_fmap try_map].
  rewrite Hfg by left. simpl. rewrite IH by (intros; apply Hfg; by right). done.
Qed.

(** Conditions that agree on the entries of a map select the same ones. *)
Lemma filter_map_to_list_ext {K A} `{Countable K} (m : gmap K A) (p q : A → bool) :
  (∀ k a, m !! k = Some a → p a = q a) →
  filter (λ ka, p ka.2 = true) (map_to_list m) ≡ₚ filter (λ ka, q ka.2 = true) (map_to_list m).
Proof.
  intros Hpq. apply NoDup_Permutation; [apply NoDup_filter, NoDup_map_to_list..|].
  intros [k a]. rewrite !list_elem_of_filter, !elem_of_map_to_list. simpl.
  split; intros [Hp Hk]; (split; [|done]); specialize (Hpq _ _ Hk); congruence.
Qed.
