(* ===== verification/Versioned.v ===== *)
(** * Tables with a history

    The storage slots, the entries of storage maps and the assets of an account are
    kept the same way ([sqlite-store/DESIGN.md]): a table with the latest values, and
    a historical one with the value that was replaced at a nonce, or NULL when there
    was none.  This file has the statements on such a pair of tables, and what they do
    together: undoing a nonce restores what was recorded at it. *)

From S2P Require Import Prelude Sql.
From Stdlib Require Import ZArith Lia.
From stdpp Require Import base gmap list strings.

Open Scope Z_scope.

(** What a row of the historical table says: the old columns, or that there were
    none. *)
Class History (V H : Type) := {
  old_of : H → option V;
  archived : V → H;
  created : V → H;
  old_of_archived v : old_of (archived v) = Some v;
  old_of_created v : old_of (created v) = None
}.

Section versioned.
Context {K V H : Type} `{Countable K} `{!History V H}.
(** Keys are the account and what identifies the value; the history also has the
    nonce. *)
#[local] Abbreviation latest_table := (gmap (string * K) V).
#[local] Abbreviation historical_table := (gmap (string * Z * K) H).
Implicit Types (latest : latest_table) (hist : historical_table) (a : string) (n : Z) (k : K).

(** [INSERT OR REPLACE INTO latest SELECT ... FROM historical WHERE account_id = ? AND
    replaced_at_nonce = ? AND old_value IS NOT NULL]. *)
Definition restore_row a n : string * Z * K → H → option ((string * K) * V) := λ key h,
  if bool_decide (key.1.1 = a ∧ key.1.2 = n) then (λ v, ((a, key.2), v)) <$> old_of h else None.
Definition restore_replaced a n hist latest : latest_table :=
  insert_select (restore_row a n) hist latest.

(** [DELETE FROM latest WHERE account_id = ? AND k IN (SELECT k FROM historical WHERE
    account_id = ? AND replaced_at_nonce = ? AND old_value IS NULL)]. *)
Definition delete_created a n hist latest : latest_table :=
  delete_where (λ key _, bool_decide (key.1 = a) &&
    match hist !! (a, n, key.2) with Some h => bool_decide (old_of h = None) | None => false end) latest.

(** Both, for one nonce. *)
Definition restore_nonce a n hist latest : latest_table :=
  delete_created a n hist (restore_replaced a n hist latest).

(** [DELETE FROM historical WHERE account_id = ? AND replaced_at_nonce IN rarray(?)]. *)
Definition forget_nonces a (ns : list Z) hist : historical_table :=
  delete_where (λ key _, bool_decide (key.1.1 = a) && bool_decide (key.1.2 ∈ ns)) hist.

(** [DELETE FROM historical WHERE account_id = ? AND replaced_at_nonce <= ?]. *)
Definition forget_up_to a n hist : historical_table :=
  delete_where (λ key _, bool_decide (key.1.1 = a) && (key.1.2 <=? n)) hist.

(** [DELETE FROM latest WHERE account_id = ?]. *)
Definition clear_latest a latest : latest_table :=
  delete_where (λ key _, bool_decide (key.1 = a)) latest.

(** [INSERT OR REPLACE INTO historical SELECT account_id, ?, k, v FROM latest WHERE
    account_id = ?]. *)
Definition archive_row a n : string * K → V → option ((string * Z * K) * H) := λ key v,
  if bool_decide (key.1 = a) then Some ((a, n, key.2), archived v) else None.
Definition archive_latest a n latest hist : historical_table :=
  insert_select (archive_row a n) latest hist.

(** [INSERT OR IGNORE INTO historical SELECT account_id, ?, k, NULL FROM latest WHERE
    account_id = ?]. *)
Definition created_row a n : string * K → V → option ((string * Z * K) * H) := λ key v,
  if bool_decide (key.1 = a) then Some ((a, n, key.2), created v) else None.
Definition mark_created a n latest hist : historical_table :=
  insert_select_ignore (created_row a n) latest hist.

(** ** What each statement does to a row *)

Lemma lookup_restore_replaced a n hist latest a' k :
  restore_replaced a n hist latest !! (a', k) =
    match (if decide (a' = a) then hist !! (a, n, k) ≫= old_of else None) with
    | Some v => Some v
    | None => latest !! (a', k)
    end.
Proof.
  unfold restore_replaced.
  rewrite (lookup_insert_select _ (λ key : string * K, (a, n, key.2))).
  - unfold selected, restore_row. simpl. destruct (decide (a' = a)) as [->|Hne].
    + destruct (hist !! (a, n, k)) as [h|]; [|done]. simpl. rewrite bool_decide_true by done.
      destruct (old_of h); [|done]. simpl. by rewrite decide_True.
    + destruct (hist !! (a, n, k)) as [h|]; [|done]. simpl. rewrite bool_decide_true by done.
      destruct (old_of h); [|done]. simpl. rewrite decide_False; [done|congruence].
  - intros [[a1 n1] k1] h k2 v. unfold restore_row. simpl. case_bool_decide as Hd; [|done].
    destruct Hd as [-> ->]. destruct (old_of h); [|done]. simpl. by intros [= <- _].
Qed.

Lemma lookup_restore_nonce a n hist latest a' k :
  restore_nonce a n hist latest !! (a', k) =
    match (if decide (a' = a) then hist !! (a, n, k) else None) with
    | Some h => old_of h
    | None => latest !! (a', k)
    end.
Proof.
  unfold restore_nonce, delete_created. rewrite lookup_delete_where, lookup_restore_replaced. simpl.
  destruct (decide (a' = a)) as [->|Hne].
  - rewrite bool_decide_true by done. simpl.
    destruct (hist !! (a, n, k)) as [h|]; simpl; [|by destruct (latest !! _)].
    destruct (old_of h) as [v|]; simpl; [done|]. by destruct (latest !! _).
  - rewrite bool_decide_false by done. simpl. by destruct (latest !! _).
Qed.

Lemma lookup_forget_nonces a ns hist a' n k :
  forget_nonces a ns hist !! (a', n, k) =
    if decide (a' = a ∧ n ∈ ns) then None else hist !! (a', n, k).
Proof.
  unfold forget_nonces. rewrite lookup_delete_where. simpl.
  destruct (hist !! (a', n, k)) as [h|]; simpl; repeat (case_decide || case_bool_decide); naive_solver.
Qed.

Lemma lookup_clear_latest a latest a' k :
  clear_latest a latest !! (a', k) = if decide (a' = a) then None else latest !! (a', k).
Proof.
  unfold clear_latest. rewrite lookup_delete_where. simpl.
  destruct (latest !! (a', k)); simpl; repeat (case_decide || case_bool_decide); naive_solver.
Qed.

Lemma lookup_archive_latest a n latest hist a' n' k :
  archive_latest a n latest hist !! (a', n', k) =
    match (if decide (a' = a ∧ n' = n) then latest !! (a, k) else None) with
    | Some v => Some (archived v)
    | None => hist !! (a', n', k)
    end.
Proof.
  unfold archive_latest. rewrite (lookup_insert_select _ (λ key : string * Z * K, (a, key.2))).
  - unfold selected, archive_row. simpl. destruct (latest !! (a, k)) as [v|]; simpl.
    + rewrite bool_decide_true by done. simpl. repeat case_decide; naive_solver.
    + by case_decide.
  - intros [a1 k1] v k2 h. unfold archive_row. simpl. case_bool_decide as Hd; [|done].
    subst. by intros [= <- _].
Qed.

Lemma lookup_mark_created a n latest hist a' n' k :
  mark_created a n latest hist !! (a', n', k) =
    match hist !! (a', n', k) with
    | Some h => Some h
    | None => if decide (a' = a ∧ n' = n) then created <$> latest !! (a, k) else None
    end.
Proof.
  unfold mark_created. rewrite (lookup_insert_select_ignore _ (λ key : string * Z * K, (a, key.2))).
  - destruct (hist !! (a', n', k)); [done|]. unfold selected, created_row. simpl.
    destruct (latest !! (a, k)) as [v|]; simpl.
    + rewrite bool_decide_true by done. simpl. repeat case_decide; naive_solver.
    + by case_decide.
  - intros [a1 k1] v k2 h. unfold created_row. simpl. case_bool_decide as Hd; [|done].
    subst. by intros [= <- _].
Qed.

(** ** Recorded changes *)

(** The change from [latest] to [latest'] is recorded at nonce [n] of account [a]: it
    is of that account only, and every value that changed is in the history. *)
Record recorded a n latest hist latest' hist' : Prop := {
  recorded_fresh k : hist !! (a, n, k) = None;
  recorded_others a' k : a' ≠ a → latest' !! (a', k) = latest !! (a', k);
  recorded_history a' n' k : (a', n') ≠ (a, n) → hist' !! (a', n', k) = hist !! (a', n', k);
  recorded_old k :
    match hist' !! (a, n, k) with
    | Some h => old_of h = latest !! (a, k)
    | None => latest' !! (a, k) = latest !! (a, k)
    end
}.

Lemma recorded_restore a n latest hist latest' hist' :
  recorded a n latest hist latest' hist' → restore_nonce a n hist' latest' = latest.
Proof.
  intros [Hf Ho Hh Hold]. apply map_eq. intros [a' k]. rewrite lookup_restore_nonce.
  destruct (decide (a' = a)) as [->|Hne]; [|by apply Ho].
  specialize (Hold k). by destruct (hist' !! (a, n, k)).
Qed.

Lemma recorded_forget a n latest hist latest' hist' :
  recorded a n latest hist latest' hist' → forget_nonces a [n] hist' = hist.
Proof.
  intros [Hf Ho Hh Hold]. apply map_eq. intros [[a' n'] k]. rewrite lookup_forget_nonces.
  case_decide as Hd.
  - destruct Hd as [-> ->%list_elem_of_singleton]. by rewrite Hf.
  - apply Hh. intros [= -> ->]. apply Hd. split; [done|]. by apply list_elem_of_singleton.
Qed.

(** A sequence of recorded changes of one account at different nonces, the last one
    first. *)
Inductive recorded_all a : list Z → latest_table → historical_table →
    latest_table → historical_table → Prop :=
| recorded_nil latest hist : recorded_all a [] latest hist latest hist
| recorded_snoc n ns latest hist latest1 hist1 latest2 hist2 :
    recorded_all a ns latest hist latest1 hist1 →
    recorded a n latest1 hist1 latest2 hist2 → n ∉ ns →
    recorded_all a (n :: ns) latest hist latest2 hist2.

(** Undoing the nonces, the latest one first, from the history at the end. *)
Lemma restore_ext a n hist1 hist2 latest :
  (∀ k, hist1 !! (a, n, k) = hist2 !! (a, n, k)) →
  restore_nonce a n hist1 latest = restore_nonce a n hist2 latest.
Proof. intros He. apply map_eq. intros [a' k]. by rewrite !lookup_restore_nonce, He. Qed.

Lemma recorded_all_restore a ns latest hist latest' hist' :
  recorded_all a ns latest hist latest' hist' →
  foldl (λ latest n, restore_nonce a n hist' latest) latest' ns = latest.
Proof.
  induction 1 as [|n ns latest hist latest1 hist1 latest2 hist2 Hall IH Hrec Hni]; [done|]. simpl.
  rewrite (recorded_restore _ _ _ _ _ _ Hrec). etrans; [|exact IH].
  assert (∀ l, (∀ m, m ∈ ns → m ≠ n) → ∀ ns', (∀ m, m ∈ ns' → m ∈ ns) →
    foldl (λ latest n, restore_nonce a n hist2 latest) l ns' =
    foldl (λ latest n, restore_nonce a n hist1 latest) l ns') as Heq.
  { intros l Hne ns'. revert l. induction ns' as [|m ns' IHns]; intros l Hsub; [done|]. simpl.
    rewrite IHns by (intros; apply Hsub; by right). f_equal. apply restore_ext.
    intros k. apply (recorded_history _ _ _ _ _ _ Hrec). intros [= Hm].
    apply (Hne m); [apply Hsub; left|done]. }
  apply Heq; [|done]. intros m Hm ->. done.
Qed.

Lemma recorded_all_forget a ns latest hist latest' hist' :
  recorded_all a ns latest hist latest' hist' → forget_nonces a ns hist' = hist.
Proof.
  induction 1 as [|n ns latest hist latest1 hist1 latest2 hist2 Hall IH Hrec Hni].
  - apply map_eq. intros [[a' n'] k]. rewrite lookup_forget_nonces. case_decide as Hd; [|done].
    destruct Hd as [_ Hd]. by apply not_elem_of_nil in Hd.
  - rewrite <-IH, <-(recorded_forget _ _ _ _ _ _ Hrec). apply map_eq. intros [[a' n'] k].
    rewrite !lookup_forget_nonces. repeat case_decide; set_solver.
Qed.

(** ** The ways a change is made *)

(** A single value: its old value is archived in a row [h], and it gets a new value or
    is removed. *)
Definition set_latest a k (v : option V) latest : latest_table :=
  match v with Some v => <[(a, k) := v]> latest | None => delete (a, k) latest end.

Lemma lookup_set_latest a k v latest a' k' :
  set_latest a k v latest !! (a', k') =
    if decide (a' = a ∧ k' = k) then v else latest !! (a', k').
Proof.
  unfold set_latest. destruct v as [v|].
  - rewrite lookup_insert. repeat case_decide; naive_solver.
  - rewrite lookup_delete. repeat case_decide; naive_solver.
Qed.

Lemma recorded_refl a n latest hist :
  (∀ k, hist !! (a, n, k) = None) → recorded a n latest hist latest hist.
Proof. intros Hf. split; [done..|]. intros k. by rewrite Hf. Qed.

(** One more value is changed, which was not recorded at this nonce yet. *)
Lemma recorded_set a n latest hist latest1 hist1 k h v :
  recorded a n latest hist latest1 hist1 →
  hist1 !! (a, n, k) = None → old_of h = latest1 !! (a, k) →
  recorded a n latest hist (set_latest a k v latest1) (<[(a, n, k) := h]> hist1).
Proof.
  intros [Hf Ho Hh Hold] Hk Hhk. split; [done|..].
  - intros a' k' Hne. rewrite lookup_set_latest, decide_False by naive_solver. by apply Ho.
  - intros a' n' k' Hne. rewrite lookup_insert_ne by congruence. by apply Hh.
  - intros k'. rewrite lookup_insert, lookup_set_latest. case_decide as Hd; simplify_eq.
    + rewrite Hhk. specialize (Hold k'). by rewrite Hk in Hold.
    + rewrite decide_False by naive_solver. apply Hold.
Qed.

(** Several values are archived first and removed together. *)
Lemma lookup_archive_list a n (h : K → H) ks hist a' n' k :
  foldl (λ hist k, <[(a, n, k) := h k]> hist) hist ks !! (a', n', k) =
    if decide (a' = a ∧ n' = n ∧ k ∈ ks) then Some (h k) else hist !! (a', n', k).
Proof.
  revert hist. induction ks as [|k0 ks IH]; intros hist; simpl.
  - rewrite decide_False; [done|]. intros (_ & _ & Hk). by apply not_elem_of_nil in Hk.
  - rewrite IH, lookup_insert. repeat case_decide; set_solver.
Qed.

Lemma recorded_remove a n latest hist (h : K → H) ks :
  (∀ k, hist !! (a, n, k) = None) → (∀ k, old_of (h k) = latest !! (a, k)) →
  recorded a n latest hist
    (delete_where (λ key _, bool_decide (key.1 = a) && bool_decide (key.2 ∈ ks)) latest)
    (foldl (λ hist k, <[(a, n, k) := h k]> hist) hist ks).
Proof.
  intros Hf Hh. split; [done|..].
  - intros a' k Hne. rewrite lookup_delete_where. simpl. rewrite bool_decide_false by done.
    simpl. by destruct (latest !! _).
  - intros a' n' k Hne. rewrite lookup_archive_list, decide_False; [done|naive_solver].
  - intros k. rewrite lookup_archive_list, lookup_delete_where. simpl.
    rewrite bool_decide_true by done. simpl. rewrite Hf.
    destruct (decide (k ∈ ks)) as [Hk|Hk].
    + by rewrite decide_True.
    + rewrite decide_False by naive_solver. rewrite bool_decide_false by done.
      by destruct (latest !! _).
Qed.

(** The whole account is replaced: the latest values are archived, cleared and written
    again, and what is new is marked. *)
Lemma recorded_replace a n latest hist latest1 :
  (∀ k, hist !! (a, n, k) = None) →
  (∀ a' k, a' ≠ a → latest1 !! (a', k) = clear_latest a latest !! (a', k)) →
  recorded a n latest hist latest1 (mark_created a n latest1 (archive_latest a n latest hist)).
Proof.
  intros Hf Hl. split; [done|..].
  - intros a' k Hne. rewrite Hl by done. by rewrite lookup_clear_latest, decide_False.
  - intros a' n' k Hne. rewrite lookup_mark_created, lookup_archive_latest.
    rewrite !(decide_False (P := a' = a ∧ n' = n)) by naive_solver. by destruct (hist !! _).
  - intros k. rewrite lookup_mark_created, lookup_archive_latest.
    rewrite !(decide_True (P := a = a ∧ n = n)) by done. rewrite Hf.
    destruct (latest !! (a, k)) as [v|]; [apply old_of_archived|].
    destruct (latest1 !! (a, k)) as [v|]; [apply old_of_created|done].
Qed.

(** Pruning the history up to a nonce keeps what undoing later nonces needs. *)
Lemma forget_up_to_restore a n m hist latest :
  m < n → restore_nonce a n (forget_up_to a m hist) latest = restore_nonce a n hist latest.
Proof.
  intros Hlt. apply restore_ext. intros k. unfold forget_up_to. rewrite lookup_delete_where. simpl.
  destruct (hist !! (a, n, k)); [|done]. simpl. rewrite (proj2 (Z.leb_gt _ _)) by lia.
  by rewrite andb_false_r.
Qed.
End versioned.

(** The history of a single nullable column. *)
#[export] Instance option_history V : History V (option V) := {|
  old_of := λ o, o; archived := Some; created := λ _, None;
  old_of_archived := λ _, eq_refl; old_of_created := λ _, eq_refl |}.

(** The history of a column that comes with another one ([slot_type]), of which the
    history keeps the value it has when the row is written. *)
Definition pair_old {V T} (h : option V * T) : option (V * T) :=
  match h.1 with Some v => Some (v, h.2) | None => None end.

#[export] Instance pair_history V T : History (V * T) (option V * T).
Proof.
  refine {| old_of := pair_old; archived := λ v, (Some v.1, v.2); created := λ v, (None, v.2) |}.
  - by intros [].
  - done.
Defined.
