(* ===== verification/Db.v ===== *)
(** * The tables of the SQLite store

    [sqlite-store/src/store.sql]: one field of [Db] per table, with its primary key as
    the key of a map.  Identifiers are stored as hexadecimal text and structured values
    as their serialized bytes, as in the code.  The [migrations] table is not used
    after the database is opened. *)

From S2P Require Import Prelude Protocol Serde Sql.
From Stdlib Require Import ZArith Lia.
From stdpp Require Import base gmap list strings.

Open Scope Z_scope.

(** A row of [latest_account_headers]. *)
Record HeaderRow := {
  hr_id : string;
  hr_account_commitment : string;
  hr_code_commitment : string;
  hr_storage_commitment : string;
  hr_vault_root : string;
  hr_nonce : Z;
  hr_account_seed : option bytes;
  hr_locked : bool
}.

(** A row of [historical_account_headers]. *)
Record HistoricalHeaderRow := {
  hh_header : HeaderRow;
  hh_replaced_at_nonce : Z
}.

Record TransactionRow := {
  tr_details : bytes;
  tr_script_root : option bytes;
  tr_block_num : BlockNumber;
  tr_status_variant : u8;
  tr_status : bytes
}.

Record InputNoteRow := {
  inr_assets : bytes;
  inr_serial_number : bytes;
  inr_inputs : bytes;
  inr_script_root : string;
  inr_nullifier : string;
  inr_state_discriminant : u8;
  inr_state : bytes;
  inr_created_at : Z;
  inr_consumed_block_height : option u32;
  inr_consumed_tx_order : option u32;
  inr_consumer_account_id : option string
}.

Record OutputNoteRow := {
  onr_recipient_digest : string;
  onr_assets : bytes;
  onr_metadata : bytes;
  onr_nullifier : option string;
  onr_expected_height : u32;
  onr_state_discriminant : u8;
  onr_state : bytes
}.

Record BlockHeaderRow := {
  bhr_header : bytes;
  bhr_partial_blockchain_peaks : bytes;
  bhr_has_client_notes : bool
}.

Record Db := {
  (* commitment ↦ code *)
  account_code : gmap string bytes;
  (* by id *)
  latest_account_headers : gmap string HeaderRow;
  (* by account_commitment *)
  historical_account_headers : gmap string HistoricalHeaderRow;
  (* (account_id, slot_name) ↦ (slot_value, slot_type) *)
  latest_account_storage : gmap (string * string) (string * Z);
  (* (account_id, replaced_at_nonce, slot_name) ↦ (old_slot_value, slot_type) *)
  historical_account_storage : gmap (string * Z * string) (option string * Z);
  (* (account_id, (slot_name, key)) ↦ value *)
  latest_storage_map_entries : gmap (string * (string * string)) string;
  (* (account_id, replaced_at_nonce, (slot_name, key)) ↦ old_value *)
  historical_storage_map_entries : gmap (string * Z * (string * string)) (option string);
  (* (account_id, vault_key) ↦ asset *)
  latest_account_assets : gmap (string * string) string;
  (* (account_id, replaced_at_nonce, vault_key) ↦ old_asset *)
  historical_account_assets : gmap (string * Z * string) (option string);
  (* account_id ↦ code_commitment *)
  foreign_account_code : gmap string string;
  (* by id *)
  transactions : gmap string TransactionRow;
  (* script_root ↦ script *)
  transaction_scripts : gmap bytes bytes;
  (* by note_id *)
  input_notes : gmap string InputNoteRow;
  (* by note_id *)
  output_notes : gmap string OutputNoteRow;
  (* script_root ↦ serialized_note_script *)
  notes_scripts : gmap string bytes;
  (* block_num; one row *)
  state_sync : list BlockNumber;
  (* (tag, source); no key *)
  tags : list (bytes * bytes);
  (* by block_num *)
  block_headers : gmap Z BlockHeaderRow;
  (* id ↦ node *)
  partial_blockchain_nodes : gmap Z string;
  (* address ↦ account_id *)
  addresses : gmap bytes string;
  (* name ↦ value *)
  settings : gmap string bytes
}.

(** The tables after the migrations. *)
Definition Db_new : Db := {|
  account_code := ∅;
  latest_account_headers := ∅;
  historical_account_headers := ∅;
  latest_account_storage := ∅;
  historical_account_storage := ∅;
  latest_storage_map_entries := ∅;
  historical_storage_map_entries := ∅;
  latest_account_assets := ∅;
  historical_account_assets := ∅;
  foreign_account_code := ∅;
  transactions := ∅;
  transaction_scripts := ∅;
  input_notes := ∅;
  output_notes := ∅;
  notes_scripts := ∅;
  state_sync := [0];
  tags := [];
  block_headers := ∅;
  partial_blockchain_nodes := ∅;
  addresses := ∅;
  settings := ∅
|}.

(** Updating one table. *)
Definition set_account_code (x : gmap string bytes) (db : Db) : Db :=
  Build_Db x (latest_account_headers db) (historical_account_headers db)
    (latest_account_storage db) (historical_account_storage db) (latest_storage_map_entries db)
    (historical_storage_map_entries db) (latest_account_assets db) (historical_account_assets db)
    (foreign_account_code db) (transactions db) (transaction_scripts db) (input_notes db)
    (output_notes db) (notes_scripts db) (state_sync db) (tags db) (block_headers db)
    (partial_blockchain_nodes db) (addresses db) (settings db).
Definition set_latest_account_headers (x : gmap string HeaderRow) (db : Db) : Db :=
  Build_Db (account_code db) x (historical_account_headers db) (latest_account_storage db)
    (historical_account_storage db) (latest_storage_map_entries db)
    (historical_storage_map_entries db) (latest_account_assets db) (historical_account_assets db)
    (foreign_account_code db) (transactions db) (transaction_scripts db) (input_notes db)
    (output_notes db) (notes_scripts db) (state_sync db) (tags db) (block_headers db)
    (partial_blockchain_nodes db) (addresses db) (settings db).
Definition set_historical_account_headers (x : gmap string HistoricalHeaderRow) (db : Db) : Db :=
  Build_Db (account_code db) (latest_account_headers db) x (latest_account_storage db)
    (historical_account_storage db) (latest_storage_map_entries db)
    (historical_storage_map_entries db) (latest_account_assets db) (historical_account_assets db)
    (foreign_account_code db) (transactions db) (transaction_scripts db) (input_notes db)
    (output_notes db) (notes_scripts db) (state_sync db) (tags db) (block_headers db)
    (partial_blockchain_nodes db) (addresses db) (settings db).
Definition set_latest_account_storage (x : gmap (string * string) (string * Z)) (db : Db) : Db :=
  Build_Db (account_code db) (latest_account_headers db) (historical_account_headers db) x
    (historical_account_storage db) (latest_storage_map_entries db)
    (historical_storage_map_entries db) (latest_account_assets db) (historical_account_assets db)
    (foreign_account_code db) (transactions db) (transaction_scripts db) (input_notes db)
    (output_notes db) (notes_scripts db) (state_sync db) (tags db) (block_headers db)
    (partial_blockchain_nodes db) (addresses db) (settings db).
Definition set_historical_account_storage (x : gmap (string * Z * string) (option string * Z)) (db : Db) : Db :=
  Build_Db (account_code db) (latest_account_headers db) (historical_account_headers db)
    (latest_account_storage db) x (latest_storage_map_entries db)
    (historical_storage_map_entries db) (latest_account_assets db) (historical_account_assets db)
    (foreign_account_code db) (transactions db) (transaction_scripts db) (input_notes db)
    (output_notes db) (notes_scripts db) (state_sync db) (tags db) (block_headers db)
    (partial_blockchain_nodes db) (addresses db) (settings db).
Definition set_latest_storage_map_entries (x : gmap (string * (string * string)) string) (db : Db) : Db :=
  Build_Db (account_code db) (latest_account_headers db) (historical_account_headers db)
    (latest_account_storage db) (historical_account_storage db) x
    (historical_storage_map_entries db) (latest_account_assets db) (historical_account_assets db)
    (foreign_account_code db) (transactions db) (transaction_scripts db) (input_notes db)
    (output_notes db) (notes_scripts db) (state_sync db) (tags db) (block_headers db)
    (partial_blockchain_nodes db) (addresses db) (settings db).
Definition set_historical_storage_map_entries (x : gmap (string * Z * (string * string)) (option string)) (db : Db) : Db :=
  Build_Db (account_code db) (latest_account_headers db) (historical_account_headers db)
    (latest_account_storage db) (historical_account_storage db) (latest_storage_map_entries db) x
    (latest_account_assets db) (historical_account_assets db) (foreign_account_code db)
    (transactions db) (transaction_scripts db) (input_notes db) (output_notes db)
    (notes_scripts db) (state_sync db) (tags db) (block_headers db) (partial_blockchain_nodes db)
    (addresses db) (settings db).
Definition set_latest_account_assets (x : gmap (string * string) string) (db : Db) : Db :=
  Build_Db (account_code db) (latest_account_headers db) (historical_account_headers db)
    (latest_account_storage db) (historical_account_storage db) (latest_storage_map_entries db)
    (historical_storage_map_entries db) x (historical_account_assets db) (foreign_account_code db)
    (transactions db) (transaction_scripts db) (input_notes db) (output_notes db)
    (notes_scripts db) (state_sync db) (tags db) (block_headers db) (partial_blockchain_nodes db)
    (addresses db) (settings db).
Definition set_historical_account_assets (x : gmap (string * Z * string) (option string)) (db : Db) : Db :=
  Build_Db (account_code db) (latest_account_headers db) (historical_account_headers db)
    (latest_account_storage db) (historical_account_storage db) (latest_storage_map_entries db)
    (historical_storage_map_entries db) (latest_account_assets db) x (foreign_account_code db)
    (transactions db) (transaction_scripts db) (input_notes db) (output_notes db)
    (notes_scripts db) (state_sync db) (tags db) (block_headers db) (partial_blockchain_nodes db)
    (addresses db) (settings db).
Definition set_foreign_account_code (x : gmap string string) (db : Db) : Db :=
  Build_Db (account_code db) (latest_account_headers db) (historical_account_headers db)
    (latest_account_storage db) (historical_account_storage db) (latest_storage_map_entries db)
    (historical_storage_map_entries db) (latest_account_assets db) (historical_account_assets db) x
    (transactions db) (transaction_scripts db) (input_notes db) (output_notes db)
    (notes_scripts db) (state_sync db) (tags db) (block_headers db) (partial_blockchain_nodes db)
    (addresses db) (settings db).
Definition set_transactions (x : gmap string TransactionRow) (db : Db) : Db :=
  Build_Db (account_code db) (latest_account_headers db) (historical_account_headers db)
    (latest_account_storage db) (historical_account_storage db) (latest_storage_map_entries db)
    (historical_storage_map_entries db) (latest_account_assets db) (historical_account_assets db)
    (foreign_account_code db) x (transaction_scripts db) (input_notes db) (output_notes db)
    (notes_scripts db) (state_sync db) (tags db) (block_headers db) (partial_blockchain_nodes db)
    (addresses db) (settings db).
Definition set_transaction_scripts (x : gmap bytes bytes) (db : Db) : Db :=
  Build_Db (account_code db) (latest_account_headers db) (historical_account_headers db)
    (latest_account_storage db) (historical_account_storage db) (latest_storage_map_entries db)
    (historical_storage_map_entries db) (latest_account_assets db) (historical_account_assets db)
    (foreign_account_code db) (transactions db) x (input_notes db) (output_notes db)
    (notes_scripts db) (state_sync db) (tags db) (block_headers db) (partial_blockchain_nodes db)
    (addresses db) (settings db).
Definition set_input_notes (x : gmap string InputNoteRow) (db : Db) : Db :=
  Build_Db (account_code db) (latest_account_headers db) (historical_account_headers db)
    (latest_account_storage db) (historical_account_storage db) (latest_storage_map_entries db)
    (historical_storage_map_entries db) (latest_account_assets db) (historical_account_assets db)
    (foreign_account_code db) (transactions db) (transaction_scripts db) x (output_notes db)
    (notes_scripts db) (state_sync db) (tags db) (block_headers db) (partial_blockchain_nodes db)
    (addresses db) (settings db).
Definition set_output_notes (x : gmap string OutputNoteRow) (db : Db) : Db :=
  Build_Db (account_code db) (latest_account_headers db) (historical_account_headers db)
    (latest_account_storage db) (historical_account_storage db) (latest_storage_map_entries db)
    (historical_storage_map_entries db) (latest_account_assets db) (historical_account_assets db)
    (foreign_account_code db) (transactions db) (transaction_scripts db) (input_notes db) x
    (notes_scripts db) (state_sync db) (tags db) (block_headers db) (partial_blockchain_nodes db)
    (addresses db) (settings db).
Definition set_notes_scripts (x : gmap string bytes) (db : Db) : Db :=
  Build_Db (account_code db) (latest_account_headers db) (historical_account_headers db)
    (latest_account_storage db) (historical_account_storage db) (latest_storage_map_entries db)
    (historical_storage_map_entries db) (latest_account_assets db) (historical_account_assets db)
    (foreign_account_code db) (transactions db) (transaction_scripts db) (input_notes db)
    (output_notes db) x (state_sync db) (tags db) (block_headers db) (partial_blockchain_nodes db)
    (addresses db) (settings db).
Definition set_state_sync (x : list BlockNumber) (db : Db) : Db :=
  Build_Db (account_code db) (latest_account_headers db) (historical_account_headers db)
    (latest_account_storage db) (historical_account_storage db) (latest_storage_map_entries db)
    (historical_storage_map_entries db) (latest_account_assets db) (historical_account_assets db)
    (foreign_account_code db) (transactions db) (transaction_scripts db) (input_notes db)
    (output_notes db) (notes_scripts db) x (tags db) (block_headers db)
    (partial_blockchain_nodes db) (addresses db) (settings db).
Definition set_tags (x : list (bytes * bytes)) (db : Db) : Db :=
  Build_Db (account_code db) (latest_account_headers db) (historical_account_headers db)
    (latest_account_storage db) (historical_account_storage db) (latest_storage_map_entries db)
    (historical_storage_map_entries db) (latest_account_assets db) (historical_account_assets db)
    (foreign_account_code db) (transactions db) (transaction_scripts db) (input_notes db)
    (output_notes db) (notes_scripts db) (state_sync db) x (block_headers db)
    (partial_blockchain_nodes db) (addresses db) (settings db).
Definition set_block_headers (x : gmap Z BlockHeaderRow) (db : Db) : Db :=
  Build_Db (account_code db) (latest_account_headers db) (historical_account_headers db)
    (latest_account_storage db) (historical_account_storage db) (latest_storage_map_entries db)
    (historical_storage_map_entries db) (latest_account_assets db) (historical_account_assets db)
    (foreign_account_code db) (transactions db) (transaction_scripts db) (input_notes db)
    (output_notes db) (notes_scripts db) (state_sync db) (tags db) x (partial_blockchain_nodes db)
    (addresses db) (settings db).
Definition set_partial_blockchain_nodes (x : gmap Z string) (db : Db) : Db :=
  Build_Db (account_code db) (latest_account_headers db) (historical_account_headers db)
    (latest_account_storage db) (historical_account_storage db) (latest_storage_map_entries db)
    (historical_storage_map_entries db) (latest_account_assets db) (historical_account_assets db)
    (foreign_account_code db) (transactions db) (transaction_scripts db) (input_notes db)
    (output_notes db) (notes_scripts db) (state_sync db) (tags db) (block_headers db) x
    (addresses db) (settings db).
Definition set_addresses (x : gmap bytes string) (db : Db) : Db :=
  Build_Db (account_code db) (latest_account_headers db) (historical_account_headers db)
    (latest_account_storage db) (historical_account_storage db) (latest_storage_map_entries db)
    (historical_storage_map_entries db) (latest_account_assets db) (historical_account_assets db)
    (foreign_account_code db) (transactions db) (transaction_scripts db) (input_notes db)
    (output_notes db) (notes_scripts db) (state_sync db) (tags db) (block_headers db)
    (partial_blockchain_nodes db) x (settings db).
Definition set_settings (x : gmap string bytes) (db : Db) : Db :=
  Build_Db (account_code db) (latest_account_headers db) (historical_account_headers db)
    (latest_account_storage db) (historical_account_storage db) (latest_storage_map_entries db)
    (historical_storage_map_entries db) (latest_account_assets db) (historical_account_assets db)
    (foreign_account_code db) (transactions db) (transaction_scripts db) (input_notes db)
    (output_notes db) (notes_scripts db) (state_sync db) (tags db) (block_headers db)
    (partial_blockchain_nodes db) (addresses db) x.
