(* ===== verification/AccountDb.v ===== *)
(** * Accounts in the SQLite store

    [sqlite-store/src/account]: the tables of account headers, storage slots, storage
    map entries and assets, with their history.  A transaction changes the latest
    values and records what they were at the nonce it reaches; when it is discarded
    the recorded values are restored. *)

From S2P Require Import Prelude Protocol Serde Model NoteStates Errors AccountTypes SmtForest.
From S2P Require Import Sql Versioned Db.
From Stdlib Require Import ZArith Lia Ascii.
From stdpp Require Import base gmap list strings sorting.

Open Scope Z_scope.

(** The store: the tables and, in memory, the forest. *)
Record StoreState `{SmtForestLib} := {
  st_db : Db;
  st_forest : AccountSmtForest
}.

Section accounts.
Context `{SmtForestLib}.

Definition set_db (db : Db) (s : StoreState) : StoreState :=
  {| st_db := db; st_forest := st_forest s |}.
Definition set_st_forest (f : AccountSmtForest) (s : StoreState) : StoreState :=
  {| st_db := st_db s; st_forest := f |}.

(** A store computation, a statement on the tables, and a change of the forest. *)
Definition store_m (A : Type) : Type := dbm StoreError StoreState A.
Definition on_db (f : Db → result StoreError Db) : store_m () :=
  zoom st_db set_db (db_exec f).
Definition on_forest {A} (f : AccountSmtForest → AccountSmtForest * result StoreError A) : store_m A :=
  λ s, let '(forest, r) := f (st_forest s) in Finished (set_st_forest forest s, r).

(** [conn.transaction()]: only the tables are rolled back. *)
Definition in_transaction {A} (m : store_m A) : store_m A := with_transaction st_db set_db m.

Definition constraint_failed {A} : result StoreError A :=
  Err (Store_DatabaseError "constraint failed").

(** ** Headers *)

(** [FOREIGN KEY (code_commitment) REFERENCES account_code(commitment)]. *)
Definition code_exists (db : Db) (commitment : string) : bool :=
  bool_decide (is_Some (account_code db !! commitment)).

(** [INSERT OR REPLACE INTO latest_account_headers]: rows with the same [id] or the
    same (unique) commitment are replaced. *)
Definition replace_latest_header (row : HeaderRow) (db : Db) : result StoreError Db :=
  if code_exists db (hr_code_commitment row) then
    Ok (set_latest_account_headers (<[hr_id row := row]>
      (delete_where (λ _ r, bool_decide (hr_account_commitment r = hr_account_commitment row))
        (latest_account_headers db))) db)
  else constraint_failed.

(** [INSERT OR REPLACE INTO historical_account_headers], of which the key is the
    commitment; [CHECK (NOT (nonce = 0 AND account_seed IS NULL))]. *)
Definition replace_historical_header (row : HistoricalHeaderRow) (db : Db) : result StoreError Db :=
  let header := hh_header row in
  if negb (code_exists db (hr_code_commitment header)) then constraint_failed
  else if (hr_nonce header =? 0) && bool_decide (hr_account_seed header = None) then constraint_failed
  else Ok (set_historical_account_headers
    (<[hr_account_commitment header := row]> (historical_account_headers db)) db).

(** The columns of a header. *)
Definition header_row (header : AccountHeader) (account_seed : option bytes) (locked : bool) :
    HeaderRow := {|
  hr_id := AccountId_to_hex (AccountHeader_id header);
  hr_account_commitment := Word_to_string (AccountHeader_to_commitment header);
  hr_code_commitment := Word_to_string (AccountHeader_code_commitment header);
  hr_storage_commitment := Word_to_string (AccountHeader_storage_commitment header);
  hr_vault_root := Word_to_string (AccountHeader_vault_root header);
  hr_nonce := u64_to_value (AccountHeader_nonce header);
  hr_account_seed := account_seed;
  hr_locked := locked
|}.

Definition insert_account_header (new_header : AccountHeader) (account_seed : option Word)
    (old_header : option AccountHeader) (db : Db) : result StoreError Db :=
  db ← match old_header with
    | Some old =>
        let '(old_seed, old_locked) :=
          match latest_account_headers db !! AccountId_to_hex (AccountHeader_id old) with
          | Some row => (hr_account_seed row, hr_locked row)
          | None => (None, false)
          end in
        replace_historical_header {|
          hh_header := header_row old old_seed old_locked;
          hh_replaced_at_nonce := u64_to_value (AccountHeader_nonce new_header) |} db
    | None => Ok db
    end;
  replace_latest_header (header_row new_header (Word_to_bytes <$> account_seed) false) db.

(** [helpers.rs]: [parse_accounts]. *)
Definition parse_accounts (row : HeaderRow) : eff StoreError (AccountHeader * AccountStatus) :=
  account_seed ← lift match hr_account_seed row with
    | None => Ok None
    | Some seed => Some <$> ok_or (Word_from_bytes seed)
        (Store_DataDeserializationError (InvalidValue "Word"))
    end;
  let status :=
    match account_seed, hr_locked row with
    | seed, true => AccountStatus_Locked seed
    | Some seed, _ => AccountStatus_New seed
    | None, _ => AccountStatus_Tracked
    end in
  id ← expect (AccountId_from_hex (hr_id row));
  vault_root ← lift (ok_or (Word_try_from (hr_vault_root row)) Store_WordError);
  storage_commitment ← lift (ok_or (Word_try_from (hr_storage_commitment row)) Store_WordError);
  code_commitment ← lift (ok_or (Word_try_from (hr_code_commitment row)) Store_WordError);
  mret (AccountHeader_new id (column_value_as_u64 (hr_nonce row)) vault_root storage_commitment
    code_commitment, status).

(** [get_account_header]: the row of an account, parsed. *)
Definition get_account_header (db : Db) (account_id : AccountId) :
    eff StoreError (option (AccountHeader * AccountStatus)) :=
  match latest_account_headers db !! AccountId_to_hex account_id with
  | None => mret None
  | Some row => header ← parse_accounts row; mret (Some header)
  end.

Definition get_account_header_by_commitment (db : Db) (account_commitment : Word) :
    eff StoreError (option AccountHeader) :=
  match historical_account_headers db !! Word_to_string account_commitment with
  | None => mret None
  | Some row => header ← parse_accounts (hh_header row); mret (Some header.1)
  end.

(** ** Code and addresses *)

Definition insert_account_code (code : AccountCode) (db : Db) : result StoreError Db :=
  Ok (set_account_code (insert_ignore (Word_to_hex (AccountCode_commitment code))
    (AccountCode_to_bytes code) (account_code db)) db).

Definition query_account_code (db : Db) (commitment : Word) : result StoreError (option AccountCode) :=
  match account_code db !! Word_to_hex commitment with
  | None => Ok None
  | Some bytes => Some <$> map_err Store_AccountError (AccountCode_from_bytes bytes)
  end.

Definition insert_address_internal (address : Address) (account_id : AccountId) (db : Db) : Db :=
  set_addresses (<[Address_to_bytes address := AccountId_to_hex account_id]> (addresses db)) db.
Definition remove_address_internal (address : Address) (db : Db) : Db :=
  set_addresses (delete (Address_to_bytes address) (addresses db)) db.

Definition upsert_foreign_account_code (account_id : AccountId) (code : AccountCode) :
    store_m () :=
  in_transaction (
    on_db (insert_account_code code);;
    on_db (λ db,
      let commitment := Word_to_string (AccountCode_commitment code) in
      if code_exists db commitment then
        Ok (set_foreign_account_code (<[AccountId_to_hex account_id := commitment]>
          (foreign_account_code db)) db)
      else constraint_failed);;
    on_db (insert_account_code code)).

(** ** Vault ([vault.rs]) *)

Definition asset_hex (asset : Asset) : string := Word_to_hex (Asset_to_value_word asset).

Definition insert_assets (account_id : AccountId) (assets : list Asset) (db : Db) : Db :=
  foldl (λ db asset,
    set_latest_account_assets
      (<[(AccountId_to_hex account_id, AssetVaultKey_to_string (Asset_vault_key asset)) :=
         asset_hex asset]> (latest_account_assets db)) db) db assets.

(** The old value is archived at the nonce, NULL when there is none. *)
Definition archive_asset (account_id_hex : string) (nonce_val : Z) (vault_key : AssetVaultKey)
    (db : Db) : Db :=
  let vault_key_hex := AssetVaultKey_to_string vault_key in
  let old_asset := latest_account_assets db !! (account_id_hex, vault_key_hex) in
  set_historical_account_assets
    (<[(account_id_hex, nonce_val, vault_key_hex) := old_asset]> (historical_account_assets db)) db.

Definition persist_vault_delta (account_id_hex : string) (nonce_val : Z)
    (removed_vault_keys : list AssetVaultKey) (updated_assets : list Asset) (db : Db) : Db :=
  let db := foldl (λ db vault_key, archive_asset account_id_hex nonce_val vault_key db)
    db removed_vault_keys in
  let db :=
    if bool_decide (removed_vault_keys = []) then db
    else set_latest_account_assets
      (delete_where (λ key _, bool_decide (key.1 = account_id_hex) &&
          bool_decide (key.2 ∈ (AssetVaultKey_to_string <$> removed_vault_keys)))
        (latest_account_assets db)) db in
  foldl (λ db asset,
    let db := archive_asset account_id_hex nonce_val (Asset_vault_key asset) db in
    set_latest_account_assets
      (<[(account_id_hex, AssetVaultKey_to_string (Asset_vault_key asset)) := asset_hex asset]>
        (latest_account_assets db)) db) db updated_assets.

(** [query_vault_assets] and the same for the keys of a delta. *)
Definition parse_asset (vault_key asset : string) : result StoreError Asset :=
  key_word ← ok_or (Word_try_from vault_key) Store_WordError;
  value_word ← ok_or (Word_try_from asset) Store_WordError;
  map_err Store_AssetError (Asset_from_key_value_words key_word value_word).

Definition query_vault_assets (db : Db) (account_id : AccountId) : result StoreError (list Asset) :=
  try_map (λ row, parse_asset row.1.2 row.2)
    (select_where (λ key _, bool_decide (key.1 = AccountId_to_hex account_id))
      (latest_account_assets db)).

Definition unwrap_fungible (asset : Asset) : option FungibleAsset :=
  match asset with Asset_Fungible a => Some a | Asset_NonFungible _ => None end.

Definition get_account_fungible_assets_for_delta (db : Db) (account_id : AccountId)
    (delta : AccountDelta) : eff StoreError (gmap AssetVaultKey FungibleAsset) :=
  let vault_keys := (λ kv, AssetVaultKey_to_string kv.1) <$> delta_fungible delta in
  assets ← lift (try_map (λ row, parse_asset row.1.2 row.2)
    (select_where (λ key _, bool_decide (key.1 = AccountId_to_hex account_id) &&
       bool_decide (key.2 ∈ vault_keys)) (latest_account_assets db)));
  foldl (λ acc asset,
    m ← acc; fungible ← expect (unwrap_fungible asset);
    mret (<[Asset_vault_key asset := fungible]> m)) (mret ∅) assets.

(** The first loop of [apply_account_vault_delta]: the fungible assets after the
    delta, and the keys of those that are gone. *)
Definition apply_fungible_delta (updated_fungible_assets : gmap AssetVaultKey FungibleAsset)
    (delta : AccountDelta) : result StoreError (gmap AssetVaultKey Asset * list AssetVaultKey) :=
  '(_, updated_assets, removed_vault_keys) ← try_fold (λ acc kv,
    let '(updated_fungible_assets, updated_assets, removed_vault_keys) := acc in
    let '(vault_key, delta) := kv in
    delta_asset ← map_err Store_AssetError
      (FungibleAsset_new (AssetVaultKey_faucet_id vault_key) (Z.abs delta));
    asset ← match (updated_fungible_assets : gmap AssetVaultKey FungibleAsset) !! vault_key with
      | Some asset =>
          map_err Store_AssetError
            (if 0 <=? delta then FungibleAsset_add asset delta_asset
             else FungibleAsset_sub asset delta_asset)
      | None => Ok delta_asset
      end;
    let updated_fungible_assets := base.delete vault_key updated_fungible_assets in
    let key := Asset_vault_key (Asset_Fungible asset) in
    if 0 <? FungibleAsset_amount asset
    then Ok (updated_fungible_assets, <[key := Asset_Fungible asset]> updated_assets,
             removed_vault_keys)
    else Ok (updated_fungible_assets, updated_assets, removed_vault_keys ++ [key]))
    (delta_fungible delta) (updated_fungible_assets, ∅, []);
  Ok (updated_assets, removed_vault_keys).

Definition vault_changes (updated_fungible_assets : gmap AssetVaultKey FungibleAsset)
    (delta : AccountDelta) : result StoreError (list AssetVaultKey * list Asset) :=
  '(updated_assets, removed_vault_keys) ← apply_fungible_delta updated_fungible_assets delta;
  let added := filter (λ a, a.2 = true) (delta_non_fungible delta) in
  let removed := filter (λ a, a.2 = false) (delta_non_fungible delta) in
  let updated_assets := foldl (λ m a,
      <[Asset_vault_key (Asset_NonFungible a.1) := Asset_NonFungible a.1]> m) updated_assets added in
  let removed_vault_keys :=
    removed_vault_keys ++ ((λ a, Asset_vault_key (Asset_NonFungible a.1)) <$> removed) in
  Ok (removed_vault_keys, btree_values updated_assets).

Definition apply_account_vault_delta (account_id : AccountId)
    (init_account_state final_account_state : AccountHeader)
    (updated_fungible_assets : gmap AssetVaultKey FungibleAsset) (delta : AccountDelta) :
    store_m () :=
  let nonce_val := u64_to_value (AccountHeader_nonce final_account_state) in
  '(removed_vault_keys, updated_assets_values) ←
    db_read (λ _, vault_changes updated_fungible_assets delta);
  on_db (λ db, Ok (persist_vault_delta (AccountId_to_hex account_id) nonce_val
    removed_vault_keys updated_assets_values db));;
  new_vault_root ← on_forest (λ f, update_asset_nodes f
    (AccountHeader_vault_root init_account_state) updated_assets_values removed_vault_keys);
  if decide (new_vault_root = AccountHeader_vault_root final_account_state) then mret ()
  else db_fail (Store_MerkleStoreError
    (Merkle_ConflictingRoots (AccountHeader_vault_root final_account_state) new_vault_root)).

(** ** Storage ([storage.rs]) *)

Definition insert_storage_slots (account_id : AccountId)
    (slots : list (StorageSlotName * (Word + StorageMap))) (db : Db) : Db :=
  let account_id_hex := AccountId_to_hex account_id in
  foldl (λ db slot,
    let slot_name_str := StorageSlotName_to_string slot.1 in
    let db := set_latest_account_storage
      (<[(account_id_hex, slot_name_str) :=
         (Word_to_hex (StorageSlot_value slot.2), StorageSlotType_as_u8 (StorageSlot_type slot.2))]>
        (latest_account_storage db)) db in
    match slot.2 with
    | inl _ => db
    | inr map =>
        foldl (λ db kv,
          set_latest_storage_map_entries
            (<[(account_id_hex, (slot_name_str, Word_to_hex (StorageMapKey_as_word kv.1))) :=
               Word_to_hex kv.2]> (latest_storage_map_entries db)) db)
          db (StorageMap_entries map)
    end) db slots.

(** One entry of a storage map: archived, then removed or replaced. *)
Definition write_map_entry (account_id_hex : string) (nonce_val : Z) (slot_name_str : string)
    (kv : Word * Word) (db : Db) : Db :=
  let key_hex := Word_to_hex kv.1 in
  let key := (account_id_hex, (slot_name_str, key_hex)) in
  let old_entry_value := latest_storage_map_entries db !! key in
  let db := set_historical_storage_map_entries
    (<[(account_id_hex, nonce_val, (slot_name_str, key_hex)) := old_entry_value]>
      (historical_storage_map_entries db)) db in
  if decide (kv.2 = EMPTY_WORD)
  then set_latest_storage_map_entries (base.delete key (latest_storage_map_entries db)) db
  else set_latest_storage_map_entries (<[key := Word_to_hex kv.2]> (latest_storage_map_entries db)) db.

Definition write_map_entry_delta (account_id_hex : string) (nonce_val : Z) (slot_name_str : string)
    (changed_entries : list (Word * Word)) (db : Db) : Db :=
  foldl (λ db kv, write_map_entry account_id_hex nonce_val slot_name_str kv db) db changed_entries.

Definition write_slot (account_id_hex : string) (nonce_val : Z) (slot_name_str : string)
    (slot : Word * StorageSlotType) (db : Db) : Db :=
  let slot_type_val := StorageSlotType_as_u8 slot.2 in
  let old_slot_value := fst <$> latest_account_storage db !! (account_id_hex, slot_name_str) in
  let db := set_historical_account_storage
    (<[(account_id_hex, nonce_val, slot_name_str) := (old_slot_value, slot_type_val)]>
      (historical_account_storage db)) db in
  set_latest_account_storage
    (<[(account_id_hex, slot_name_str) := (Word_to_hex slot.1, slot_type_val)]>
      (latest_account_storage db)) db.

Definition write_storage_delta (account_id : AccountId) (nonce : u64)
    (updated_slots : gmap StorageSlotName (Word * StorageSlotType)) (delta : AccountDelta)
    (db : Db) : Db :=
  let account_id_hex := AccountId_to_hex account_id in
  let nonce_val := u64_to_value nonce in
  let delta_map_entries : gmap StorageSlotName (list (Word * Word)) :=
    btree_collect ((λ m : StorageSlotName * list (StorageMapKey * Word),
      (m.1, (λ kv, (StorageMapKey_as_word kv.1, kv.2)) <$> m.2)) <$> delta_maps delta) in
  foldl (λ db slot,
    let slot_name_str := StorageSlotName_to_string slot.1 in
    let db := write_slot account_id_hex nonce_val slot_name_str slot.2 db in
    match delta_map_entries !! slot.1 with
    | Some changed_entries =>
        write_map_entry_delta account_id_hex nonce_val slot_name_str changed_entries db
    | None => db
    end) db (btree_to_list updated_slots).

Definition get_storage_map_roots_for_delta (db : Db) (account_id : AccountId) (delta : AccountDelta) :
    result StoreError (gmap StorageSlotName Word) :=
  let map_slot_names := (λ m, StorageSlotName_to_string m.1) <$> delta_maps delta in
  if bool_decide (map_slot_names = []) then Ok ∅
  else
    rows ← try_map (λ row : (string * string) * (string * Z),
        slot_name ← ok_or (StorageSlotName_new row.1.2) (Store_ParsingError "slot name");
        value ← ok_or (Word_try_from row.2.1) Store_WordError;
        Ok (slot_name, value))
      (select_where (λ key _, bool_decide (key.1 = AccountId_to_hex account_id) &&
         bool_decide (key.2 ∈ map_slot_names)) (latest_account_storage db));
    Ok (btree_collect rows).

Definition apply_account_storage_delta (forest : AccountSmtForest)
    (old_map_roots : gmap StorageSlotName Word) (delta : AccountDelta) :
    AccountSmtForest * result StoreError (gmap StorageSlotName (Word * StorageSlotType)) :=
  let updated_slots : gmap StorageSlotName (Word * StorageSlotType) :=
    btree_collect ((λ v, (v.1, (v.2, SlotType_Value))) <$> delta_values delta) in
  let default_map_root := StorageMap_root StorageMap_default in
  foldl (λ acc map_delta,
    match acc with
    | (forest, Err e) => (forest, Err e)
    | (forest, Ok updated_slots) =>
        let '(slot_name, entries) := map_delta in
        let old_root := default default_map_root (old_map_roots !! slot_name) in
        let '(forest, r) := update_storage_map_nodes forest old_root entries in
        (forest, new_root ← r; Ok (<[slot_name := (new_root, SlotType_Map)]> updated_slots))
    end) (forest, Ok updated_slots) (delta_maps delta).

(** ** Applying the delta of a transaction ([accounts.rs]) *)

(** [if let Some(root) = roots.iter_mut().find(|r| **r == old_root) { *root = new_root }
    else { roots.push(new_root) }]. *)
Fixpoint replace_root (old_root new_root : Word) (roots : list Word) : list Word :=
  match roots with
  | [] => [new_root]
  | r :: roots =>
      if decide (r = old_root) then new_root :: roots else r :: replace_root old_root new_root roots
  end.

(** [if let Some(vault_root) = roots.first_mut() { *vault_root = root }]. *)
Definition set_first (root : Word) (roots : list Word) : list Word :=
  match roots with [] => [] | _ :: roots => root :: roots end.

Definition final_roots (init_roots : list Word) (vault_root : Word)
    (old_map_roots : gmap StorageSlotName Word)
    (updated_storage_slots : gmap StorageSlotName (Word * StorageSlotType)) : list Word :=
  foldl (λ roots slot,
    match slot.2.2 with
    | SlotType_Map =>
        let old_root := default (StorageMap_root StorageMap_default) (old_map_roots !! slot.1) in
        replace_root old_root slot.2.1 roots
    | SlotType_Value => roots
    end) (set_first vault_root init_roots) (btree_to_list updated_storage_slots).

Definition apply_account_delta (init_account_state final_account_state : AccountHeader)
    (updated_fungible_assets : gmap AssetVaultKey FungibleAsset)
    (old_map_roots : gmap StorageSlotName Word) (delta : AccountDelta) : store_m () :=
  let account_id := AccountHeader_id final_account_state in
  on_db (insert_account_header final_account_state None (Some init_account_state));;
  apply_account_vault_delta account_id init_account_state final_account_state
    updated_fungible_assets delta;;
  init_roots ← db_read (λ s, ok_or (get_roots (st_forest s) (AccountHeader_id init_account_state))
    (Store_AccountDataNotFound (AccountHeader_id init_account_state)));
  updated_storage_slots ← on_forest (λ f, apply_account_storage_delta f old_map_roots delta);
  on_db (λ db, Ok (write_storage_delta account_id (AccountHeader_nonce final_account_state)
    updated_storage_slots delta db));;
  on_forest (λ f, (stage_roots f (AccountHeader_id final_account_state)
    (final_roots init_roots (AccountHeader_vault_root final_account_state) old_map_roots
       updated_storage_slots), Ok ())).

(** ** Undoing discarded states *)

Definition restore_old_values_for_nonce (account_id_hex : string) (nonce_val : Z) (db : Db) : Db :=
  let db := set_latest_account_storage (restore_nonce account_id_hex nonce_val
    (historical_account_storage db) (latest_account_storage db)) db in
  let db := set_latest_storage_map_entries (restore_nonce account_id_hex nonce_val
    (historical_storage_map_entries db) (latest_storage_map_entries db)) db in
  set_latest_account_assets (restore_nonce account_id_hex nonce_val
    (historical_account_assets db) (latest_account_assets db)) db.

(** The historical headers of an account replaced at a nonce. *)
Definition headers_replaced_at (account_id_hex : string) (nonce_val : Z) (db : Db) :
    list (string * HistoricalHeaderRow) :=
  select_where (λ _ row, bool_decide (hr_id (hh_header row) = account_id_hex) &&
    (hh_replaced_at_nonce row =? nonce_val)) (historical_account_headers db).

(** Step 4: [INSERT OR REPLACE INTO latest ... SELECT] the old header, or the account
    is deleted. *)
Definition restore_header (account_id_hex : string) (nonce_val : Z) (db : Db) : result StoreError Db :=
  match headers_replaced_at account_id_hex nonce_val db with
  | [] =>
      let db := set_latest_account_headers
        (base.delete account_id_hex (latest_account_headers db)) db in
      let db := set_latest_account_storage
        (clear_latest account_id_hex (latest_account_storage db)) db in
      let db := set_latest_storage_map_entries
        (clear_latest account_id_hex (latest_storage_map_entries db)) db in
      Ok (set_latest_account_assets (clear_latest account_id_hex (latest_account_assets db)) db)
  | rows => try_fold (λ db row, replace_latest_header (hh_header row.2) db) rows db
  end.

(** Step 5: the history of the discarded nonces is deleted. *)
Definition delete_history (account_id_hex : string) (nonces : list Z) (db : Db) : Db :=
  let db := set_historical_account_storage
    (forget_nonces account_id_hex nonces (historical_account_storage db)) db in
  let db := set_historical_storage_map_entries
    (forget_nonces account_id_hex nonces (historical_storage_map_entries db)) db in
  let db := set_historical_account_assets
    (forget_nonces account_id_hex nonces (historical_account_assets db)) db in
  set_historical_account_headers
    (delete_where (λ _ row, bool_decide (hr_id (hh_header row) = account_id_hex) &&
       bool_decide (hh_replaced_at_nonce row ∈ nonces)) (historical_account_headers db)) db.

(** The nonces come in descending order; [last().unwrap()] of none is a panic. *)
Definition undo_account_nonces (account_id_hex : string) (nonces : list u64) : store_m () :=
  on_db (λ db, Ok (foldl (λ db nonce,
    restore_old_values_for_nonce account_id_hex (u64_to_value nonce) db) db nonces));;
  match last nonces with
  | None => db_panic
  | Some min_nonce =>
      on_db (restore_header account_id_hex (u64_to_value min_nonce));;
      on_db (λ db, Ok (delete_history account_id_hex (u64_to_value <$> nonces) db))
  end.

(** [Vec::dedup]: runs of equal elements become one. *)
Fixpoint vec_dedup (l : list Z) : list Z :=
  match l with
  | [] => []
  | a :: l =>
      match vec_dedup l with
      | b :: l' => if a =? b then b :: l' else a :: b :: l'
      | [] => [a]
      end
  end.

(** Sorted, without repetitions, in descending order. *)
Definition descending (nonces : list Z) : list Z := reverse (vec_dedup (merge_sort Z.le nonces)).

(** Step 1: the states with the given commitments, as account and nonce. *)
Definition id_nonce_pairs (commitments : list string) (db : Db) : list (string * u64) :=
  ((λ row : string * HeaderRow, (hr_id row.2, column_value_as_u64 (hr_nonce row.2))) <$>
    select_where (λ _ row, bool_decide (hr_account_commitment row ∈ commitments))
      (latest_account_headers db)) ++
  ((λ row : string * HistoricalHeaderRow,
      (hr_id (hh_header row.2), column_value_as_u64 (hr_nonce (hh_header row.2)))) <$>
    select_where (λ commitment _, bool_decide (commitment ∈ commitments))
      (historical_account_headers db)).

(** Step 2: the nonces of each account.  The accounts are taken in the order of a
    [BTreeMap]; the statements for different accounts touch different rows. *)
Definition nonces_by_account (pairs : list (string * u64)) : gmap string (list u64) :=
  descending <$> foldl (λ m pair,
    <[pair.1 := default [] (m !! pair.1) ++ [pair.2]]> m) (∅ : gmap string (list u64)) pairs.

Definition undo_account_state (discarded_states : list (AccountId * Word)) : store_m () :=
  if bool_decide (discarded_states = []) then mret ()
  else
    pairs ← db_read (λ s, Ok (id_nonce_pairs ((λ d, Word_to_hex d.2) <$> discarded_states) (st_db s)));
    db_each (λ entry, undo_account_nonces entry.1 entry.2) (map_to_list (nonces_by_account pairs));;
    on_forest (λ f, (foldl (λ f d, discard_roots f d.1) f discarded_states, Ok ())).

(** ** Replacing an account by a new state *)

(** Archive, clear, write the new values, mark what is new. *)
Definition replace_account_values (account : Account) (nonce_val : Z) (db : Db) : Db :=
  let account_id := Account_id account in
  let a := AccountId_to_hex account_id in
  let db := set_historical_account_storage (archive_latest a nonce_val
    (latest_account_storage db) (historical_account_storage db)) db in
  let db := set_historical_storage_map_entries (archive_latest a nonce_val
    (latest_storage_map_entries db) (historical_storage_map_entries db)) db in
  let db := set_historical_account_assets (archive_latest a nonce_val
    (latest_account_assets db) (historical_account_assets db)) db in
  let db := set_latest_account_storage (clear_latest a (latest_account_storage db)) db in
  let db := set_latest_storage_map_entries (clear_latest a (latest_storage_map_entries db)) db in
  let db := set_latest_account_assets (clear_latest a (latest_account_assets db)) db in
  let db := insert_storage_slots account_id (AccountStorage_slots (Account_storage account)) db in
  let db := insert_assets account_id (AssetVault_assets (Account_vault account)) db in
  let db := set_historical_account_storage (mark_created a nonce_val
    (latest_account_storage db) (historical_account_storage db)) db in
  let db := set_historical_storage_map_entries (mark_created a nonce_val
    (latest_storage_map_entries db) (historical_storage_map_entries db)) db in
  set_historical_account_assets (mark_created a nonce_val
    (latest_account_assets db) (historical_account_assets db)) db.

(** A computation of the model that can panic, on the forest. *)
Definition on_forest_panics
    (f : AccountSmtForest → loop_result (AccountSmtForest * result StoreError ())) : store_m () :=
  λ s,
  match f (st_forest s) with
  | Finished (forest, r) => Finished (set_st_forest forest s, r)
  | Panicked => Panicked
  | OutOfFuel => OutOfFuel
  end.

(** A reader that can panic. *)
Definition db_read_panics {A} (f : StoreState → eff StoreError A) : store_m A := λ s,
  match f s with
  | Finished r => Finished (s, r)
  | Panicked => Panicked
  | OutOfFuel => OutOfFuel
  end.

Definition update_account_state (new_account_state : Account) : store_m () :=
  let account_id := Account_id new_account_state in
  let nonce_val := u64_to_value (Account_nonce new_account_state) in
  on_forest_panics (λ f, insert_and_register_account_state f account_id
    (Account_vault new_account_state) (Account_storage new_account_state));;
  old_header ← db_read_panics (λ s, get_account_header (st_db s) account_id);
  on_db (λ db, Ok (replace_account_values new_account_state nonce_val db));;
  on_db (insert_account_header (Account_to_header new_account_state) None (fst <$> old_header)).

Definition update_account (new_account_state : Account) : store_m () :=
  db_read (λ s,
    match latest_account_headers (st_db s) !! AccountId_to_hex (Account_id new_account_state) with
    | Some row => Ok ()
    | None => Err (Store_AccountDataNotFound (Account_id new_account_state))
    end);;
  in_transaction (update_account_state new_account_state).

(** ** Locking and pruning *)

Definition lock (row : HeaderRow) : HeaderRow := {|
  hr_id := hr_id row; hr_account_commitment := hr_account_commitment row;
  hr_code_commitment := hr_code_commitment row;
  hr_storage_commitment := hr_storage_commitment row; hr_vault_root := hr_vault_root row;
  hr_nonce := hr_nonce row; hr_account_seed := hr_account_seed row; hr_locked := true |}.

Definition lock_historical (row : HistoricalHeaderRow) : HistoricalHeaderRow :=
  {| hh_header := lock (hh_header row); hh_replaced_at_nonce := hh_replaced_at_nonce row |}.

Definition lock_account_on_unexpected_commitment (account_id : AccountId) (mismatched_digest : Word)
    (db : Db) : Db :=
  let account_id_hex := AccountId_to_hex account_id in
  let known :=
    match historical_account_headers db !! Word_to_string mismatched_digest with
    | Some row => bool_decide (hr_id (hh_header row) = account_id_hex)
    | None => false
    end in
  let db := set_latest_account_headers
    (update_where (λ id _, bool_decide (id = account_id_hex) && negb known) lock
      (latest_account_headers db)) db in
  set_historical_account_headers
    (update_where (λ _ row, bool_decide (hr_id (hh_header row) = account_id_hex) && negb known)
      lock_historical (historical_account_headers db)) db.

(** The number of rows a deletion removes. *)
Definition deleted_rows {K V} `{Countable K} (before after : gmap K V) : Z :=
  Z.of_nat (size before) - Z.of_nat (size after).

(** One candidate: its code is deleted when nothing refers to it any more. *)
Definition delete_orphaned_code (acc : Db * Z) (commitment : string) : Db * Z :=
  let '(db, total_deleted) := acc in
  let still_referenced :=
    negb (bool_decide (select_where (λ _ row, bool_decide (hr_code_commitment row = commitment))
      (latest_account_headers db) = [])) ||
    negb (bool_decide (select_where (λ _ row,
      bool_decide (hr_code_commitment (hh_header row) = commitment))
      (historical_account_headers db) = [])) ||
    negb (bool_decide (select_where (λ _ code, bool_decide (code = commitment))
      (foreign_account_code db) = [])) in
  if still_referenced then (db, total_deleted)
  else
    let code := base.delete commitment (account_code db) in
    (set_account_code code db, total_deleted + deleted_rows (account_code db) code).

Definition prune_history (account_id_hex : string) (boundary_val : Z) (db : Db) : Db * Z :=
  let old (row : HistoricalHeaderRow) :=
    bool_decide (hr_id (hh_header row) = account_id_hex) && (hh_replaced_at_nonce row <=? boundary_val) in
  let candidates := remove_dups ((λ row : string * HistoricalHeaderRow,
      hr_code_commitment (hh_header row.2)) <$>
    select_where (λ _ row, old row) (historical_account_headers db)) in
  let headers := delete_where (λ _ row, old row) (historical_account_headers db) in
  let storage := forget_up_to account_id_hex boundary_val (historical_account_storage db) in
  let entries := forget_up_to account_id_hex boundary_val (historical_storage_map_entries db) in
  let assets := forget_up_to account_id_hex boundary_val (historical_account_assets db) in
  let total_deleted :=
    deleted_rows (historical_account_headers db) headers +
    deleted_rows (historical_account_storage db) storage +
    deleted_rows (historical_storage_map_entries db) entries +
    deleted_rows (historical_account_assets db) assets in
  let db := set_historical_account_headers headers db in
  let db := set_historical_account_storage storage db in
  let db := set_historical_storage_map_entries entries db in
  let db := set_historical_account_assets assets db in
  foldl delete_orphaned_code (db, total_deleted) candidates.

Definition prune_account_history (account_id : AccountId) (up_to_nonce : u64) : store_m Z :=
  in_transaction (λ s,
    let '(db, total_deleted) :=
      prune_history (AccountId_to_hex account_id) (u64_to_value up_to_nonce) (st_db s) in
    Finished (set_db db s, Ok total_deleted)).
End accounts.
