(* ===== verification/AccountHistory.v ===== *)
(** * The history of accounts can be undone

    What [AccountDb] does to the tables when transactions are applied and when they
    are discarded: a transaction records everything it changes at the nonce it
    reaches, so discarding the transactions of an account brings the tables back to
    what they were before them ([sqlite-store/DESIGN.md]). *)

From S2P Require Import Prelude Protocol Serde Model NoteStates Errors AccountTypes SmtForest.
From S2P Require Import Sql Versioned Db AccountDb.
From Stdlib Require Import ZArith Lia Ascii.
From stdpp Require Import base gmap list strings sorting.

Open Scope Z_scope.

(** ** The six tables of values *)

(** [db] with the values, and their history, of [db']. *)
Definition with_values_of (db' db : Db) : Db :=
  set_latest_account_storage (latest_account_storage db')
    (set_historical_account_storage (historical_account_storage db')
      (set_latest_storage_map_entries (latest_storage_map_entries db')
        (set_historical_storage_map_entries (historical_storage_map_entries db')
          (set_latest_account_assets (latest_account_assets db')
            (set_historical_account_assets (historical_account_assets db') db))))).

(** Nothing is recorded at a nonce of an account yet. *)
Record unrecorded (a : string) (n : Z) (db : Db) : Prop := {
  un_storage k : historical_account_storage db !! (a, n, k) = None;
  un_entries k : historical_storage_map_entries db !! (a, n, k) = None;
  un_assets k : historical_account_assets db !! (a, n, k) = None
}.

(** The values change from [db] to [db'], with everything recorded at the nonce. *)
Record values_recorded (a : string) (n : Z) (db db' : Db) : Prop := {
  vr_storage : recorded a n (latest_account_storage db) (historical_account_storage db)
    (latest_account_storage db') (historical_account_storage db');
  vr_entries : recorded a n (latest_storage_map_entries db) (historical_storage_map_entries db)
    (latest_storage_map_entries db') (historical_storage_map_entries db');
  vr_assets : recorded a n (latest_account_assets db) (historical_account_assets db)
    (latest_account_assets db') (historical_account_assets db');
  vr_rest : db' = with_values_of db' db
}.

Lemma values_recorded_refl a n db : unrecorded a n db → values_recorded a n db db.
Proof. intros [Hs He Ha]. split; [by apply recorded_refl..|by destruct db]. Qed.

Section history.
Context `{SmtForestLib, !AccountLaws}.

(** ** The vault *)

Lemma archive_assets a n db keys :
  foldl (λ db vault_key, archive_asset a n vault_key db) db keys =
    set_historical_account_assets
      (foldl (λ hist k, <[(a, n, k) := latest_account_assets db !! (a, k)]> hist)
        (historical_account_assets db) (AssetVaultKey_to_string <$> keys)) db.
Proof.
  revert db. induction keys as [|k keys IH]; intros db; [by destruct db|].
  cbn [foldl fmap list_fmap]. rewrite IH. reflexivity.
Qed.

(** The text of the keys of the changed assets. *)
Definition changed_keys (removed : list AssetVaultKey) (updated : list Asset) : list string :=
  (AssetVaultKey_to_string <$> removed) ++
  ((λ asset, AssetVaultKey_to_string (Asset_vault_key asset)) <$> updated).

Lemma update_assets_recorded a n db updated : ∀ db1,
  values_recorded a n db db1 →
  NoDup ((λ asset, AssetVaultKey_to_string (Asset_vault_key asset)) <$> updated) →
  (∀ asset, asset ∈ updated →
    historical_account_assets db1 !! (a, n, AssetVaultKey_to_string (Asset_vault_key asset)) = None) →
  values_recorded a n db (foldl (λ db asset,
    let db := archive_asset a n (Asset_vault_key asset) db in
    set_latest_account_assets
      (<[(a, AssetVaultKey_to_string (Asset_vault_key asset)) := asset_hex asset]>
        (latest_account_assets db)) db) db1 updated).
Proof.
  induction updated as [|asset updated IH]; intros db1 Hdb Hnd Hfresh; [done|].
  rewrite fmap_cons in Hnd. apply NoDup_cons in Hnd as [Hni Hnd]. cbn [foldl].
  apply IH; [|done|].
  - destruct Hdb as [Hs He Ha Hr]. split; [done..| |].
    + apply (recorded_set _ _ _ _ _ _ _ _ (Some (asset_hex asset)) Ha); [|done]. apply Hfresh. left.
    + rewrite Hr. by destruct db, db1.
  - intros asset' Hin. cbn. rewrite lookup_insert_ne; [apply Hfresh; by right|].
    intros [= Heq]. apply Hni. rewrite Heq. by apply (list_elem_of_fmap_2' _ _ asset').
Qed.

Lemma persist_vault_recorded a n db removed updated :
  unrecorded a n db → NoDup (changed_keys removed updated) →
  values_recorded a n db (persist_vault_delta a n removed updated db).
Proof.
  intros Hun Hnd. unfold changed_keys in Hnd. apply NoDup_app in Hnd as (_ & Hdisj & Hnd).
  unfold persist_vault_delta. rewrite archive_assets.
  set (keys := AssetVaultKey_to_string <$> removed) in *.
  set (db1 := set_historical_account_assets _ db).
  assert (values_recorded a n db
    (if bool_decide (removed = []) then db1
     else set_latest_account_assets
       (delete_where (λ key _, bool_decide (key.1 = a) && bool_decide (key.2 ∈ keys))
         (latest_account_assets db1)) db1)) as Hdb1.
  { destruct Hun as [Hs He Ha].
    assert (recorded a n (latest_account_assets db) (historical_account_assets db)
      (delete_where (λ key _, bool_decide (key.1 = a) && bool_decide (key.2 ∈ keys))
         (latest_account_assets db)) (historical_account_assets db1)) as Hrec
      by by apply (recorded_remove (H:=option string) a n).
    case_bool_decide as Hrem.
    - subst removed. replace db1 with db by (unfold db1; by destruct db).
      by apply values_recorded_refl.
    - split; [by apply recorded_refl..|done|]. by destruct db. }
  apply update_assets_recorded; [done..|]. intros asset Hin.
  assert (historical_account_assets (if bool_decide (removed = []) then db1
    else set_latest_account_assets
       (delete_where (λ key _, bool_decide (key.1 = a) && bool_decide (key.2 ∈ keys))
         (latest_account_assets db1)) db1) = historical_account_assets db1) as ->
    by by case_bool_decide.
  cbn. rewrite lookup_archive_list, decide_False; [apply (un_assets _ _ _ Hun)|].
  intros (_ & _ & Hk). apply (Hdisj _ Hk). by apply (list_elem_of_fmap_2' _ _ asset).
Qed.

(** ** Storage *)

(** Nothing is recorded for a slot yet. *)
Definition slot_unrecorded a n (db : Db) (name : string) : Prop :=
  historical_account_storage db !! (a, n, name) = None ∧
  ∀ key, historical_storage_map_entries db !! (a, n, (name, key)) = None.

Lemma write_map_entries_recorded a n db name entries : ∀ db1,
  values_recorded a n db db1 →
  NoDup ((λ kv : Word * Word, Word_to_hex kv.1) <$> entries) →
  (∀ kv, kv ∈ entries →
    historical_storage_map_entries db1 !! (a, n, (name, Word_to_hex kv.1)) = None) →
  let db2 := write_map_entry_delta a n name entries db1 in
  values_recorded a n db db2 ∧
  latest_account_storage db2 = latest_account_storage db1 ∧
  historical_account_storage db2 = historical_account_storage db1 ∧
  ∀ name' key, name' ≠ name → historical_storage_map_entries db2 !! (a, n, (name', key)) =
    historical_storage_map_entries db1 !! (a, n, (name', key)).
Proof.
  unfold write_map_entry_delta.
  induction entries as [|kv entries IH]; intros db1 Hdb Hnd Hfresh; [done|].
  rewrite fmap_cons in Hnd. apply NoDup_cons in Hnd as [Hni Hnd]. cbn [foldl].
  set (dbk := write_map_entry a n name kv db1).
  assert (historical_storage_map_entries dbk =
    <[(a, n, (name, Word_to_hex kv.1)) :=
      latest_storage_map_entries db1 !! (a, (name, Word_to_hex kv.1))]>
    (historical_storage_map_entries db1)) as Hh
    by (unfold dbk, write_map_entry; by case_decide).
  assert (latest_storage_map_entries dbk = set_latest a (name, Word_to_hex kv.1)
    (if decide (kv.2 = EMPTY_WORD) then None else Some (Word_to_hex kv.2))
    (latest_storage_map_entries db1)) as Hl
    by (unfold dbk, write_map_entry; by case_decide).
  assert (latest_account_storage dbk = latest_account_storage db1 ∧
    historical_account_storage dbk = historical_account_storage db1 ∧
    latest_account_assets dbk = latest_account_assets db1 ∧
    historical_account_assets dbk = historical_account_assets db1 ∧
    dbk = with_values_of dbk db1) as (Hls & Hhs & Hla & Hha & Hrest).
  { unfold dbk, write_map_entry. case_decide; destruct db1; split_and!; reflexivity. }
  destruct (IH dbk) as (H1' & H2' & H3' & H4').
  - destruct Hdb as [Hs He Ha Hr]. split; rewrite ?Hls, ?Hhs, ?Hla, ?Hha; [done| |done|].
    + rewrite Hh, Hl. apply recorded_set; [done| |done]. apply Hfresh. left.
    + rewrite Hrest at 1. rewrite Hr. by destruct db.
  - done.
  - intros kv' Hin. rewrite Hh, lookup_insert_ne; [apply Hfresh; by right|].
    intros [= Heq]. apply Hni. rewrite Heq.
    by apply (list_elem_of_fmap_2' (λ kv : Word * Word, Word_to_hex kv.1) _ kv').
  - split_and!; [done|by rewrite H2'|by rewrite H3'|].
    intros name' key Hne. rewrite H4', Hh, lookup_insert_ne by congruence. done.
Qed.

(** The rows of a slot have the type that is written now. *)
Definition slot_type_kept a (db : Db) (name : string) (t : StorageSlotType) : Prop :=
  ∀ v t', latest_account_storage db !! (a, name) = Some (v, t') → t' = StorageSlotType_as_u8 t.

Lemma write_slot_recorded a n db db1 name slot :
  values_recorded a n db db1 → slot_unrecorded a n db1 name → slot_type_kept a db1 name slot.2 →
  let db2 := write_slot a n name slot db1 in
  values_recorded a n db db2 ∧
  (∀ key, historical_storage_map_entries db2 !! key = historical_storage_map_entries db1 !! key) ∧
  (∀ name', name' ≠ name →
    historical_account_storage db2 !! (a, n, name') = historical_account_storage db1 !! (a, n, name') ∧
    latest_account_storage db2 !! (a, name') = latest_account_storage db1 !! (a, name')).
Proof.
  intros [Hs He Ha Hr] [Hun _] Ht db2. split_and!.
  - split; [|done..|].
    + apply (recorded_set _ _ _ _ _ _ _ _
        (Some (Word_to_hex slot.1, StorageSlotType_as_u8 slot.2)) Hs); [done|].
      cbn. unfold pair_old. cbn. unfold slot_type_kept in Ht.
      destruct (latest_account_storage db1 !! (a, name)) as [[v t]|]; [|done]. simpl.
      by rewrite (Ht v t eq_refl).
    + subst db2. rewrite Hr. by destruct db, db1.
  - done.
  - intros name' Hne. cbn. by rewrite !lookup_insert_ne by congruence.
Qed.

Lemma write_slots_recorded a n db (changed : StorageSlotName → option (list (Word * Word))) l :
  ∀ db1, values_recorded a n db db1 →
  NoDup ((λ s, StorageSlotName_to_string s.1) <$> l) →
  (∀ s, s ∈ l → slot_unrecorded a n db1 (StorageSlotName_to_string s.1) ∧
    slot_type_kept a db1 (StorageSlotName_to_string s.1) s.2.2) →
  (∀ name es, changed name = Some es → NoDup ((λ kv, Word_to_hex kv.1) <$> es)) →
  values_recorded a n db (foldl (λ db (slot : StorageSlotName * (Word * StorageSlotType)),
    let slot_name_str := StorageSlotName_to_string slot.1 in
    let db := write_slot a n slot_name_str slot.2 db in
    match changed slot.1 with
    | Some changed_entries => write_map_entry_delta a n slot_name_str changed_entries db
    | None => db
    end) db1 l).
Proof.
  induction l as [|slot l IH]; intros db1 Hdb Hnd Hl Hch; [done|].
  rewrite fmap_cons in Hnd. apply NoDup_cons in Hnd as [Hni Hnd]. cbn [foldl]. cbv zeta.
  set (name := StorageSlotName_to_string slot.1) in *.
  destruct (Hl slot ltac:(left)) as [Hun Ht].
  destruct (write_slot_recorded a n db db1 name slot.2 Hdb Hun Ht) as (Hw & Hwe & Hws).
  set (db2 := write_slot a n name slot.2 db1) in *.
  assert (values_recorded a n db (match changed slot.1 with
      | Some es => write_map_entry_delta a n name es db2 | None => db2 end) ∧
    ∀ name', name' ≠ name →
      let db3 := match changed slot.1 with
        | Some es => write_map_entry_delta a n name es db2 | None => db2 end in
      latest_account_storage db3 !! (a, name') = latest_account_storage db1 !! (a, name') ∧
      historical_account_storage db3 !! (a, n, name') = historical_account_storage db1 !! (a, n, name') ∧
      ∀ key, historical_storage_map_entries db3 !! (a, n, (name', key)) =
        historical_storage_map_entries db1 !! (a, n, (name', key))) as [H3 Hother].
  { destruct (changed slot.1) as [es|] eqn:Ees.
    - destruct (write_map_entries_recorded a n db name es db2 Hw (Hch _ _ Ees)) as (Hr & Hr2 & Hr3 & Hr4).
      { intros kv _. rewrite Hwe. apply Hun. }
      split; [done|]. intros name' Hne. cbv zeta. rewrite Hr2, Hr3.
      destruct (Hws _ Hne) as [-> ->]. split_and!; [done..|]. intros key. by rewrite Hr4, Hwe.
    - split; [done|]. intros name' Hne. cbv zeta. destruct (Hws _ Hne) as [-> ->].
      split_and!; [done..|]. intros key. apply Hwe. }
  apply IH; [done..| |done].
  intros s Hs. assert (StorageSlotName_to_string s.1 ≠ name) as Hne.
  { intros Heq. apply Hni. rewrite <-Heq.
    by apply (list_elem_of_fmap_2' (λ s : StorageSlotName * (Word * StorageSlotType),
      StorageSlotName_to_string s.1) _ s). }
  destruct (Hl s ltac:(by right)) as [[Hsu Hse] Hst]. destruct (Hother _ Hne) as (Ho1 & Ho2 & Ho3).
  split; [split|].
  - by rewrite Ho2.
  - intros key. by rewrite Ho3.
  - unfold slot_type_kept. by rewrite Ho1.
Qed.

Lemma NoDup_fmap_compose {A B C} (f : A → B) (g : B → C) l :
  Inj (=) (=) g → NoDup (f <$> l) → NoDup ((λ x, g (f x)) <$> l).
Proof. intros Hg Hl. by rewrite (list_fmap_compose f g), (NoDup_fmap g). Qed.

#[local] Instance StorageSlotName_to_string_inj : Inj (=) (=) StorageSlotName_to_string.
Proof.
  intros x y Hxy. apply (f_equal StorageSlotName_new) in Hxy. rewrite !StorageSlotName_roundtrip in Hxy.
  congruence.
Qed.

(** The keys of every map delta are distinct. *)
Definition distinct_map_keys (delta : AccountDelta) : Prop :=
  ∀ name entries, (name, entries) ∈ delta_maps delta →
  NoDup ((λ kv, StorageMapKey_as_word kv.1) <$> entries).

Lemma write_storage_recorded account_id nonce db db1 slots delta :
  let a := AccountId_to_hex account_id in
  let n := u64_to_value nonce in
  values_recorded a n db db1 →
  (∀ name, slot_unrecorded a n db1 name) →
  (∀ name slot, slots !! name = Some slot →
    slot_type_kept a db1 (StorageSlotName_to_string name) slot.2) →
  distinct_map_keys delta →
  values_recorded a n db (write_storage_delta account_id nonce slots delta db1).
Proof.
  intros a n Hdb Hun Ht Hkeys. unfold write_storage_delta. fold a n.
  apply (write_slots_recorded a n db (λ name, btree_collect
    ((λ m : StorageSlotName * list (StorageMapKey * Word),
      (m.1, (λ kv, (StorageMapKey_as_word kv.1, kv.2)) <$> m.2)) <$> delta_maps delta) !! name)); [done|..].
  - apply (NoDup_fmap_compose fst); [apply _|]. apply NoDup_btree_keys.
  - intros [name slot] Hin. apply elem_of_btree_to_list in Hin. split; [apply Hun|]. by apply Ht.
  - intros name es Hes. apply lookup_btree_collect_Some in Hes.
    apply list_elem_of_fmap in Hes as ([name' entries] & [= -> ->] & Hin).
    rewrite <-list_fmap_compose.
    apply (NoDup_fmap_compose (λ kv : StorageMapKey * Word, StorageMapKey_as_word kv.1)); [apply _|].
    by eapply Hkeys.
Qed.

(** The type of the slots of an account does not change. *)
Definition slots_typed (a : string) (ty : string → StorageSlotType) (db : Db) : Prop :=
  ∀ name v t, latest_account_storage db !! (a, name) = Some (v, t) → t = StorageSlotType_as_u8 (ty name).

Definition delta_typed (ty : string → StorageSlotType) (delta : AccountDelta) : Prop :=
  (∀ v, v ∈ delta_values delta → ty (StorageSlotName_to_string v.1) = SlotType_Value) ∧
  (∀ m, m ∈ delta_maps delta → ty (StorageSlotName_to_string m.1) = SlotType_Map).

Lemma apply_storage_delta_slots forest old_map_roots delta forest' slots ty :
  apply_account_storage_delta forest old_map_roots delta = (forest', Ok slots) →
  delta_typed ty delta →
  ∀ name slot, slots !! name = Some slot → slot.2 = ty (StorageSlotName_to_string name).
Proof.
  intros Happly [Hv Hm]. unfold apply_account_storage_delta in Happly. cbv zeta in Happly.
  set (slots0 := btree_collect _ : gmap StorageSlotName (Word * StorageSlotType)) in Happly.
  assert (∀ name slot, slots0 !! name = Some slot → slot.2 = ty (StorageSlotName_to_string name)) as Hs.
  { intros name slot Hin. apply lookup_btree_collect_Some in Hin.
    apply list_elem_of_fmap in Hin as (v & [= -> ->] & Hin). simpl. by rewrite Hv. }
  clear Hv. revert Hm Hs Happly. generalize slots0. clear slots0. revert forest.
  induction (delta_maps delta) as [|[m entries] maps IH]; intros forest slots0 Hm Hs Happly.
  { simpl in Happly. naive_solver. }
  cbn [foldl] in Happly.
  destruct (update_storage_map_nodes _ _ _) as [forest1 [root|e]]; simpl in Happly.
  - eapply (IH forest1); [..|exact Happly]; [intros; apply Hm; by right|].
    intros name slot. rewrite lookup_insert. case_decide as Hd; [|apply Hs].
    intros [= <-]. subst m. simpl. symmetry. apply (Hm (name, entries)). left.
  - exfalso. clear -Happly. induction maps; simpl in Happly; [naive_solver|done].
Qed.

(** ** One transaction *)

(** The state of an account changes: the row of the old state goes to the history, and
    the values change as recorded. *)
Inductive state_change (a : string) (c : string) (n : u64) (db db' : Db) : Prop :=
| state_changed old new :
    latest_account_headers db !! a = Some old →
    hr_id old = a →
    historical_account_headers db !! hr_account_commitment old = None →
    hr_id new = a → hr_account_commitment new = c → hr_nonce new = u64_to_value n →
    (∀ c' row, historical_account_headers db !! c' = Some row → hr_id (hh_header row) = a →
      hh_replaced_at_nonce row ≠ u64_to_value n) →
    values_recorded a (u64_to_value n)
      (set_latest_account_headers (<[a := new]> (latest_account_headers db))
        (set_historical_account_headers
          (<[hr_account_commitment old := {| hh_header := old; hh_replaced_at_nonce := u64_to_value n |}]>
            (historical_account_headers db)) db)) db' →
    state_change a c n db db'.

Lemma on_db_Ok (f : Db → result StoreError Db) s s' u :
  on_db f s = Finished (s', Ok u) → ∃ db, f (st_db s) = Ok db ∧ s' = set_db db s.
Proof.
  unfold on_db, zoom, db_exec. destruct u. destruct (f (st_db s)) as [db|]; [|done].
  intros [= <-]. by exists db.
Qed.

Lemma on_forest_Ok {A} (f : AccountSmtForest → AccountSmtForest * result StoreError A) s s' a :
  on_forest f s = Finished (s', Ok a) →
  f (st_forest s) = (st_forest s', Ok a) ∧ st_db s' = st_db s.
Proof. unfold on_forest. destruct (f (st_forest s)) as [forest r]. by intros [= <- ->]. Qed.

Lemma db_read_Ok {E S A} (f : S → result E A) s s' a :
  db_read f s = Finished (s', Ok a) → f s = Ok a ∧ s' = s.
Proof. unfold db_read. by intros [= -> ->]. Qed.

(** What a successful delta does to the tables. *)
Lemma apply_account_delta_tables init final fungible old_map_roots delta s s' :
  apply_account_delta init final fungible old_map_roots delta s = Finished (s', Ok ()) →
  ∃ db1 removed updated slots f f',
    insert_account_header final None (Some init) (st_db s) = Ok db1 ∧
    vault_changes fungible delta = Ok (removed, updated) ∧
    apply_account_storage_delta f old_map_roots delta = (f', Ok slots) ∧
    st_db s' = write_storage_delta (AccountHeader_id final) (AccountHeader_nonce final) slots delta
      (persist_vault_delta (AccountId_to_hex (AccountHeader_id final))
        (u64_to_value (AccountHeader_nonce final)) removed updated db1).
Proof.
  unfold apply_account_delta, apply_account_vault_delta. intros Hrun.
  apply dbm_bind_Ok in Hrun as (s1 & [] & Hheader & Hrun).
  apply dbm_bind_Ok in Hrun as (s2 & [] & Hvault & Hrun).
  apply dbm_bind_Ok in Hrun as (s3 & roots & Hroots & Hrun).
  apply dbm_bind_Ok in Hrun as (s4 & slots & Hslots & Hrun).
  apply dbm_bind_Ok in Hrun as (s5 & [] & Hwrite & Hstage).
  apply dbm_bind_Ok in Hvault as (s11 & [removed updated] & Hchanges & Hvault).
  apply dbm_bind_Ok in Hvault as (s12 & [] & Hpersist & Hvault).
  apply dbm_bind_Ok in Hvault as (s13 & root & Hnodes & Hroot).
  apply on_db_Ok in Hheader as (db1 & Hheader & ->).
  apply db_read_Ok in Hchanges as [Hchanges ->].
  apply on_db_Ok in Hpersist as (db2 & [= <-] & ->).
  apply on_forest_Ok in Hnodes as [_ Hnodes].
  assert (s2 = s13) as -> by (revert Hroot; case_decide; [by intros [= ->]|done]).
  apply db_read_Ok in Hroots as [_ ->].
  apply on_forest_Ok in Hslots as [Hslots Hdb4].
  apply on_db_Ok in Hwrite as (db5 & [= <-] & ->).
  apply on_forest_Ok in Hstage as [_ Hdb5].
  exists db1, removed, updated, slots, (st_forest s13), (st_forest s4). split_and!; [done..|].
  rewrite Hdb5. cbn [st_db set_db]. rewrite Hdb4, Hnodes. done.
Qed.

(** What the schema keeps: the rows are under their keys and commitments are unique
    among the latest headers, whose code is stored. *)
Record headers_wf (db : Db) : Prop := {
  hw_latest k row : latest_account_headers db !! k = Some row → hr_id row = k;
  hw_unique k1 k2 row1 row2 :
    latest_account_headers db !! k1 = Some row1 → latest_account_headers db !! k2 = Some row2 →
    hr_account_commitment row1 = hr_account_commitment row2 → k1 = k2;
  hw_code k row :
    latest_account_headers db !! k = Some row → code_exists db (hr_code_commitment row) = true;
  hw_historical c row :
    historical_account_headers db !! c = Some row → hr_account_commitment (hh_header row) = c
}.

(** The commitment of a state that is not in the tables. *)
Definition commitment_fresh (c : string) (db : Db) : Prop :=
  (∀ k row, latest_account_headers db !! k = Some row → hr_account_commitment row ≠ c) ∧
  historical_account_headers db !! c = None.

Lemma insert_account_header_tables final init seed locked db db1 :
  AccountHeader_id init = AccountHeader_id final →
  latest_account_headers db !! AccountId_to_hex (AccountHeader_id final) =
    Some (header_row init seed locked) →
  (∀ k row, latest_account_headers db !! k = Some row →
    hr_account_commitment row ≠ Word_to_string (AccountHeader_to_commitment final)) →
  insert_account_header final None (Some init) db = Ok db1 →
  db1 = set_latest_account_headers
    (<[AccountId_to_hex (AccountHeader_id final) := header_row final None false]>
      (latest_account_headers db))
    (set_historical_account_headers
      (<[Word_to_string (AccountHeader_to_commitment init) :=
        {| hh_header := header_row init seed locked;
           hh_replaced_at_nonce := u64_to_value (AccountHeader_nonce final) |}]>
        (historical_account_headers db)) db) ∧
  code_exists db (Word_to_string (AccountHeader_code_commitment final)) = true.
Proof.
  intros Hid Hold Hfresh. unfold insert_account_header. rewrite Hid, Hold.
  cbn [hr_account_seed hr_locked header_row]. unfold replace_historical_header.
  cbn [hh_header header_row hr_code_commitment hr_nonce hr_account_seed hr_account_commitment].
  destruct (code_exists db _) eqn:Hc; cbn [negb]; [|done].
  destruct (_ && _); [done|]. simpl. unfold replace_latest_header, code_exists.
  cbn [hr_code_commitment header_row hr_account_commitment hr_id account_code
    set_historical_account_headers latest_account_headers].
  case_bool_decide as Hcode; [|done]. intros [= <-]. split; [|done].
  f_equal. f_equal. apply map_eq. intros k. rewrite lookup_delete_where.
  destruct (latest_account_headers db !! k) as [row|] eqn:Hk; [|done]. simpl.
  rewrite bool_decide_false by (by eapply Hfresh). done.
Qed.

(** The delta of a transaction from [init] to [final] fits the account. *)
Record delta_fits (ty : string → StorageSlotType) (init final : AccountHeader)
    (fungible : gmap AssetVaultKey FungibleAsset) (delta : AccountDelta) : Prop := {
  df_account : AccountHeader_id init = AccountHeader_id final;
  df_assets removed updated : vault_changes fungible delta = Ok (removed, updated) →
    NoDup (changed_keys removed updated);
  df_types : delta_typed ty delta;
  df_keys : distinct_map_keys delta
}.

Lemma with_values_of_fields db' db :
  latest_account_headers (with_values_of db' db) = latest_account_headers db ∧
  historical_account_headers (with_values_of db' db) = historical_account_headers db ∧
  account_code (with_values_of db' db) = account_code db.
Proof. done. Qed.

Lemma persist_vault_other a n removed updated db :
  let db' := persist_vault_delta a n removed updated db in
  latest_account_storage db' = latest_account_storage db ∧
  historical_account_storage db' = historical_account_storage db ∧
  historical_storage_map_entries db' = historical_storage_map_entries db.
Proof.
  unfold persist_vault_delta. rewrite archive_assets. cbv zeta.
  set (db1 := if bool_decide (removed = []) then _ else _).
  assert (latest_account_storage db1 = latest_account_storage db ∧
    historical_account_storage db1 = historical_account_storage db ∧
    historical_storage_map_entries db1 = historical_storage_map_entries db) as (<- & <- & <-)
    by (unfold db1; by case_bool_decide).
  generalize db1. clear. induction updated as [|asset updated IH]; intros db1; [done|].
  cbn [foldl]. destruct (IH (set_latest_account_assets
    (<[(a, AssetVaultKey_to_string (Asset_vault_key asset)) := asset_hex asset]>
      (latest_account_assets (archive_asset a n (Asset_vault_key asset) db1)))
    (archive_asset a n (Asset_vault_key asset) db1))) as (-> & -> & ->). done.
Qed.

Lemma write_map_entry_delta_slots a n name entries db :
  latest_account_storage (write_map_entry_delta a n name entries db) = latest_account_storage db.
Proof.
  unfold write_map_entry_delta. revert db.
  induction entries as [|kv entries IH]; intros db; [done|]. cbn [foldl]. rewrite IH.
  unfold write_map_entry. by case_decide.
Qed.

Lemma write_storage_typed account_id nonce slots delta ty db :
  slots_typed (AccountId_to_hex account_id) ty db →
  (∀ name slot, slots !! name = Some slot → slot.2 = ty (StorageSlotName_to_string name)) →
  slots_typed (AccountId_to_hex account_id) ty (write_storage_delta account_id nonce slots delta db).
Proof.
  intros Hdb Hslots. unfold write_storage_delta. set (a := AccountId_to_hex account_id) in *.
  assert (∀ s, s ∈ btree_to_list slots → s.2.2 = ty (StorageSlotName_to_string s.1)) as Hl.
  { intros [name slot] Hin. apply elem_of_btree_to_list in Hin. by apply Hslots. }
  revert db Hdb Hl. generalize (btree_to_list slots). clear Hslots.
  induction l as [|s l IH]; intros db Hdb Hl; [done|]. cbn [foldl]. cbv zeta.
  apply IH; [|intros; apply Hl; by right].
  set (db1 := write_slot a (u64_to_value nonce) (StorageSlotName_to_string s.1) s.2 db).
  assert (slots_typed a ty db1) as Hdb1.
  { intros name v t. cbn. rewrite lookup_insert. case_decide as Hd; [|apply Hdb].
    injection Hd as Hd. intros [= _ <-]. subst name. by rewrite (Hl s) by left. }
  destruct (_ !! s.1) as [entries|]; [|done].
  intros name v t. rewrite write_map_entry_delta_slots. apply Hdb1.
Qed.

(** A successful delta is a recorded change of the state. *)
Lemma apply_account_delta_change ty init final fungible old_map_roots delta seed locked s s' :
  let a := AccountId_to_hex (AccountHeader_id final) in
  let n := u64_to_value (AccountHeader_nonce final) in
  let c := Word_to_string (AccountHeader_to_commitment final) in
  delta_fits ty init final fungible delta →
  latest_account_headers (st_db s) !! a = Some (header_row init seed locked) →
  historical_account_headers (st_db s) !! Word_to_string (AccountHeader_to_commitment init) = None →
  commitment_fresh c (st_db s) → unrecorded a n (st_db s) →
  (∀ c' row, historical_account_headers (st_db s) !! c' = Some row →
    hr_id (hh_header row) = a → hh_replaced_at_nonce row ≠ n) →
  slots_typed a ty (st_db s) →
  apply_account_delta init final fungible old_map_roots delta s = Finished (s', Ok ()) →
  state_change a c (AccountHeader_nonce final) (st_db s) (st_db s') ∧
  slots_typed a ty (st_db s') ∧
  latest_account_headers (st_db s') !! a = Some (header_row final None false).
Proof.
  intros a n c [Hid Hassets Htypes Hkeys] Hold Harch [Hfresh _] Hun Hnonce Hty Hrun.
  apply apply_account_delta_tables in Hrun as (db1 & removed & updated & slots & f & f' &
    Hheader & Hvault & Hslots & Hs').
  destruct (insert_account_header_tables _ _ _ _ _ _ Hid Hold Hfresh Hheader) as [Hdb1 Hcode].
  fold a n c in Hdb1, Hs'.
  assert (∀ name slot, slots !! name = Some slot →
    slot.2 = ty (StorageSlotName_to_string name)) as Hst
    by (by eapply apply_storage_delta_slots).
  assert (unrecorded a n db1) as Hun1 by (subst db1; by destruct Hun).
  pose proof (persist_vault_recorded a n db1 removed updated Hun1 (Hassets _ _ Hvault)) as Hrec.
  set (db2 := persist_vault_delta a n removed updated db1) in *.
  destruct (persist_vault_other a n removed updated db1) as (Ho1 & Ho2 & Ho3).
  fold db2 in Ho1, Ho2, Ho3.
  assert (slots_typed a ty db2) as Hty2
    by (intros name v t; rewrite Ho1, Hdb1; apply Hty).
  assert (values_recorded a n db1 (st_db s')) as Hrec'.
  { rewrite Hs'. apply write_storage_recorded; [done|..|done].
    - intros name. split; [rewrite Ho2; apply Hun1|]. intros key. rewrite Ho3. apply Hun1.
    - intros name slot Hn v t Hv. rewrite (Hst _ _ Hn). by eapply Hty2. }
  split_and!.
  - apply (state_changed _ _ _ _ _ (header_row init seed locked) (header_row final None false)); try done.
    + cbn. by rewrite Hid.
    + subst db1. exact Hrec'.
  - rewrite Hs'. by apply write_storage_typed.
  - rewrite (vr_rest _ _ _ _ Hrec'), (proj1 (with_values_of_fields _ _)), Hdb1. cbn.
    by rewrite lookup_insert_eq.
Qed.
End history.
