(* ===== verification/AccountUndo.v ===== *)
(** * Discarded states are undone

    The states that a sequence of transactions of an account made are discarded
    together, when the first of them is: [undo_account_state] brings the tables back
    to what they were before the transactions. *)

From S2P Require Import Prelude Protocol Serde Model NoteStates Errors AccountTypes SmtForest.
From S2P Require Import Sql Versioned Db AccountDb AccountHistory.
From Stdlib Require Import ZArith Lia Ascii.
From stdpp Require Import base gmap list strings sorting.

Open Scope Z_scope.

(** ** Sorting nonces *)

Lemma elem_of_vec_dedup x l : x ∈ vec_dedup l ↔ x ∈ l.
Proof.
  revert x. induction l as [|a l IH]; intros x; [done|]. cbn [vec_dedup].
  rewrite elem_of_cons, <-IH. destruct (vec_dedup l) as [|b l']; [by rewrite elem_of_cons|].
  destruct (Z.eqb_spec a b) as [->|Hne]; rewrite ?elem_of_cons; tauto.
Qed.

Lemma vec_dedup_sorted l : StronglySorted Z.le l → StronglySorted Z.lt (vec_dedup l).
Proof.
  induction 1 as [|a l Hl IH Ha]; [constructor|]. cbn [vec_dedup].
  destruct (vec_dedup l) as [|b l'] eqn:El; [by repeat constructor|].
  destruct (Z.eqb_spec a b) as [->|Hne]; [done|]. constructor; [done|].
  rewrite Forall_forall in Ha. apply Forall_forall. intros x Hx. rewrite <-El, elem_of_vec_dedup in Hx.
  specialize (Ha _ Hx) as Hax. enough (a ≠ x) by lia. intros ->.
  assert (b ∈ l) as Hb by (rewrite <-elem_of_vec_dedup, El; left). specialize (Ha _ Hb).
  rewrite <-elem_of_vec_dedup, El in Hx. apply StronglySorted_inv in IH as [_ IH].
  apply elem_of_cons in Hx as [->|Hx]; [done|]. rewrite Forall_forall in IH.
  specialize (IH _ Hx). lia.
Qed.

Lemma strictly_sorted_unique (R : relation Z) l1 l2 :
  Irreflexive R → Transitive R → StronglySorted R l1 → StronglySorted R l2 →
  (∀ x, x ∈ l1 ↔ x ∈ l2) → l1 = l2.
Proof.
  intros Hirr Htrans H1. revert l2. induction H1 as [|a l1 H1 IH Ha]; intros l2 H2 Hin.
  - destruct l2 as [|b l2]; [done|]. exfalso. by apply (not_elem_of_nil b), Hin; left.
  - destruct H2 as [|b l2 H2 Hb]; [exfalso; by apply (not_elem_of_nil a), Hin; left|].
    rewrite Forall_forall in Ha, Hb.
    assert (a = b) as ->.
    { assert (a ∈ b :: l2) as [|Hab]%elem_of_cons by (apply Hin; left); [done|].
      assert (b ∈ a :: l1) as [|Hba]%elem_of_cons by (apply Hin; left); [done|].
      exfalso. apply (Hirr a). etrans; [by apply Ha|by apply Hb]. }
    f_equal. apply IH; [done|]. intros x. specialize (Hin x). rewrite !elem_of_cons in Hin.
    split; intros Hx; [destruct (proj1 Hin (or_intror Hx)) as [->|]|
      destruct (proj2 Hin (or_intror Hx)) as [->|]]; try done; exfalso.
    + apply (Hirr b). by apply Ha.
    + apply (Hirr b). by apply Hb.
Qed.

Lemma StronglySorted_reverse {A} (R : relation A) l :
  StronglySorted R l → StronglySorted (flip R) (reverse l).
Proof.
  induction 1 as [|a l Hl IH Ha]; [constructor|]. rewrite reverse_cons.
  apply StronglySorted_app_2; [|done|repeat constructor].
  intros x1 x2 Hx1 Hx2%list_elem_of_singleton. subst x2. rewrite elem_of_reverse in Hx1.
  rewrite Forall_forall in Ha. by apply Ha.
Qed.

(** [descending] is the descending list of the same nonces. *)
Lemma descending_unique l ns :
  StronglySorted (flip Z.lt) ns → (∀ x, x ∈ l ↔ x ∈ ns) → descending l = ns.
Proof.
  intros Hns Hin. apply (strictly_sorted_unique (flip Z.lt)).
  - intros x. unfold complement, flip. lia.
  - intros x y z. unfold flip. lia.
  - apply StronglySorted_reverse, vec_dedup_sorted, StronglySorted_merge_sort; apply _.
  - done.
  - intros x. unfold descending. rewrite elem_of_reverse, elem_of_vec_dedup, merge_sort_Permutation.
    apply Hin.
Qed.

Section undo.
Context `{SmtForestLib, !AccountLaws}.

(** The states an account went through, the latest one first. *)
Inductive executed (a : string) : list (string * u64) → Db → Db → Prop :=
| executed_nil db : executed a [] db db
| executed_snoc c n l db db1 db2 :
    executed a l db db1 → state_change a c n db1 db2 → in_range U64_MAX n →
    (∀ m, m ∈ l.*2 → m < n) → executed a ((c, n) :: l) db db2.

(** *** Which nonces are found *)

Lemma elem_of_id_nonce_pairs cs db p :
  p ∈ id_nonce_pairs cs db ↔
    (∃ k row, latest_account_headers db !! k = Some row ∧ hr_account_commitment row ∈ cs ∧
       p = (hr_id row, column_value_as_u64 (hr_nonce row))) ∨
    (∃ c row, historical_account_headers db !! c = Some row ∧ c ∈ cs ∧
       p = (hr_id (hh_header row), column_value_as_u64 (hr_nonce (hh_header row)))).
Proof.
  unfold id_nonce_pairs. rewrite elem_of_app, !list_elem_of_fmap. f_equiv.
  - split.
    + intros ([k row] & -> & [Hk Hc]%elem_of_select_where). exists k, row.
      by apply bool_decide_eq_true in Hc.
    + intros (k & row & Hk & Hc & ->). exists (k, row). split; [done|].
      apply elem_of_select_where. split; [done|]. by apply bool_decide_eq_true.
  - split.
    + intros ([k row] & -> & [Hk Hc]%elem_of_select_where). exists k, row.
      by apply bool_decide_eq_true in Hc.
    + intros (k & row & Hk & Hc & ->). exists (k, row). split; [done|].
      apply elem_of_select_where. split; [done|]. by apply bool_decide_eq_true.
Qed.

Lemma state_change_pairs a c n cs db db' p :
  in_range U64_MAX n → state_change a c n db db' →
  p ∈ id_nonce_pairs cs db' ↔ p ∈ id_nonce_pairs cs db ∨ (c ∈ cs ∧ p = (a, n)).
Proof.
  intros Hn [old new Hold Hoid Harch Hnid Hnc Hnn Hnonce Hrec].
  pose proof (vr_rest _ _ _ _ Hrec) as Hrest.
  rewrite !elem_of_id_nonce_pairs. rewrite Hrest. cbn.
  setoid_rewrite lookup_insert_Some. split.
  - intros [(k & row & [[<- <-]|[Hk Hrow]] & Hc & ->)|(k & row & [[<- <-]|[Hk Hrow]] & Hc & ->)].
    + right. rewrite Hnc in Hc. split; [done|]. by rewrite Hnid, Hnn, u64_value_roundtrip.
    + left; left. by exists k, row.
    + left; left. by exists a, old.
    + left; right. by exists k, row.
  - intros [[(k & row & Hk & Hc & ->)|(k & row & Hk & Hc & ->)]|[Hc ->]].
    + destruct (decide (a = k)) as [->|Hne].
      * simplify_eq. right. eexists _, _. split; [by left|done].
      * left. exists k, row. split; [by right|done].
    + right. exists k, row. split; [|done]. right. split; [congruence|done].
    + left. exists a, new. rewrite Hnc, Hnid, Hnn, u64_value_roundtrip by done. split; [by left|done].
Qed.

Lemma executed_pairs a l cs db db' p :
  executed a l db db' →
  p ∈ id_nonce_pairs cs db' ↔
    p ∈ id_nonce_pairs cs db ∨ ∃ c n, (c, n) ∈ l ∧ c ∈ cs ∧ p = (a, n).
Proof.
  induction 1 as [db|c n l db db1 db2 Hex IH Hsc Hn Hlt].
  - split; [by left|]. intros [|(c & n & Hin & _)]; [done|]. by apply not_elem_of_nil in Hin.
  - rewrite (state_change_pairs _ _ _ _ _ _ _ Hn Hsc), IH. split.
    + intros [[Hp|(c' & n' & Hin & Hc & ->)]|[Hc ->]]; [by left|right..].
      * exists c', n'. split; [by right|done].
      * exists c, n. split; [by left|done].
    + intros [Hp|(c' & n' & [[= -> ->]|Hin]%elem_of_cons & Hc & ->)]; [by left; left| |].
      * by right.
      * left. right. by exists c', n'.
Qed.

Lemma executed_sorted a l db db' : executed a l db db' → StronglySorted (flip Z.lt) l.*2.
Proof.
  induction 1 as [db|c n l db db1 db2 Hex IH Hsc Hn Hlt]; [constructor|].
  constructor; [done|]. by apply Forall_forall.
Qed.

Lemma nonces_by_one_account a pairs ns :
  pairs ≠ [] → (∀ p, p ∈ pairs → p.1 = a) → StronglySorted (flip Z.lt) ns →
  (∀ n, n ∈ pairs.*2 ↔ n ∈ ns) → nonces_by_account pairs = {[a := ns]}.
Proof.
  intros Hne Ha Hns Hin. unfold nonces_by_account.
  assert (∀ m : gmap string (list u64),
    foldl (λ m pair, <[pair.1 := default [] (m !! pair.1) ++ [pair.2]]> m) m pairs =
    <[a := default [] (m !! a) ++ pairs.*2]> m) as Hfold.
  { clear Hin. induction pairs as [|[a' n] pairs IH]; intros m; [done|]. cbn [foldl fmap list_fmap fst snd].
    assert (a' = a) as -> by (apply (Ha (a', n)); left).
    destruct pairs as [|p pairs]; [done|]. rewrite IH; [|done|intros; apply Ha; by right].
    rewrite lookup_insert_eq, insert_insert_eq. simpl. by rewrite <-app_assoc. }
  rewrite Hfold, lookup_empty. cbn [default]. rewrite app_nil_l, insert_empty, map_fmap_singleton.
  by rewrite (descending_unique _ ns).
Qed.

(** *** The values *)

Lemma executed_recorded a l db db' :
  executed a l db db' →
  let ns := u64_to_value <$> l.*2 in
  recorded_all a ns (latest_account_storage db) (historical_account_storage db)
    (latest_account_storage db') (historical_account_storage db') ∧
  recorded_all a ns (latest_storage_map_entries db) (historical_storage_map_entries db)
    (latest_storage_map_entries db') (historical_storage_map_entries db') ∧
  recorded_all a ns (latest_account_assets db) (historical_account_assets db)
    (latest_account_assets db') (historical_account_assets db') ∧
  ∀ n, n ∈ l.*2 → in_range U64_MAX n.
Proof.
  induction 1 as [db|c n l db db1 db2 Hex IH [old new _ _ _ _ _ _ _ Hrec] Hn Hlt].
  { split_and!; [constructor..|]. intros n Hn. by apply not_elem_of_nil in Hn. }
  destruct IH as (IH1 & IH2 & IH3 & IH4). destruct Hrec as [Hs He Ha _].
  assert (u64_to_value n ∉ (u64_to_value <$> l.*2)) as Hni.
  { intros (m & Heq & Hm)%list_elem_of_fmap. specialize (Hlt _ Hm).
    apply u64_to_value_inj in Heq; [lia|done|by apply IH4]. }
  cbn [fmap list_fmap fst snd]. split_and!; [by eapply recorded_snoc..|].
  intros m [->|Hm]%elem_of_cons; [done|by apply IH4].
Qed.

Lemma restore_all_nonces a ns db :
  foldl (λ db n, restore_old_values_for_nonce a (u64_to_value n) db) db ns =
  set_latest_account_storage (foldl (λ latest n,
      restore_nonce a n (historical_account_storage db) latest)
    (latest_account_storage db) (u64_to_value <$> ns))
    (set_latest_storage_map_entries (foldl (λ latest n,
        restore_nonce a n (historical_storage_map_entries db) latest)
      (latest_storage_map_entries db) (u64_to_value <$> ns))
      (set_latest_account_assets (foldl (λ latest n,
          restore_nonce a n (historical_account_assets db) latest)
        (latest_account_assets db) (u64_to_value <$> ns)) db)).
Proof.
  revert db. induction ns as [|n ns IH]; intros db; [by destruct db|].
  cbn [foldl fmap list_fmap]. rewrite IH. reflexivity.
Qed.

(** *** The headers *)

(** The tables that do not belong to the values and headers of accounts are the same. *)
Record same_rest (db db' : Db) : Prop := {
  sr_code : account_code db' = account_code db;
  sr_foreign : foreign_account_code db' = foreign_account_code db;
  sr_transactions : transactions db' = transactions db;
  sr_scripts : transaction_scripts db' = transaction_scripts db;
  sr_input : input_notes db' = input_notes db;
  sr_output : output_notes db' = output_notes db;
  sr_note_scripts : notes_scripts db' = notes_scripts db;
  sr_sync : state_sync db' = state_sync db;
  sr_tags : tags db' = tags db;
  sr_headers : block_headers db' = block_headers db;
  sr_nodes : partial_blockchain_nodes db' = partial_blockchain_nodes db;
  sr_addresses : addresses db' = addresses db;
  sr_settings : settings db' = settings db
}.

Lemma executed_rest a l db db' : executed a l db db' → same_rest db db'.
Proof.
  induction 1 as [db|c n l db db1 db2 Hex IH [old new _ _ _ _ _ _ _ Hrec] Hn Hlt]; [done|].
  destruct IH. split; by rewrite (vr_rest _ _ _ _ Hrec).
Qed.

Lemma Db_eq db db' :
  same_rest db db' →
  latest_account_headers db' = latest_account_headers db →
  historical_account_headers db' = historical_account_headers db →
  latest_account_storage db' = latest_account_storage db →
  historical_account_storage db' = historical_account_storage db →
  latest_storage_map_entries db' = latest_storage_map_entries db →
  historical_storage_map_entries db' = historical_storage_map_entries db →
  latest_account_assets db' = latest_account_assets db →
  historical_account_assets db' = historical_account_assets db → db' = db.
Proof. destruct db, db'. intros []. simpl in *. intros. by subst. Qed.

Lemma elem_of_headers_replaced_at a n db c row :
  (c, row) ∈ headers_replaced_at a n db ↔
    historical_account_headers db !! c = Some row ∧ hr_id (hh_header row) = a ∧
    hh_replaced_at_nonce row = n.
Proof.
  unfold headers_replaced_at. rewrite elem_of_select_where.
  rewrite andb_true_iff, bool_decide_eq_true, Z.eqb_eq. done.
Qed.

(** The header tables after a change. *)
Lemma state_change_headers a c n db db' :
  state_change a c n db db' →
  ∃ old new, latest_account_headers db !! a = Some old ∧ hr_id old = a ∧
    historical_account_headers db !! hr_account_commitment old = None ∧
    latest_account_headers db' = <[a := new]> (latest_account_headers db) ∧
    historical_account_headers db' =
      <[hr_account_commitment old := {| hh_header := old; hh_replaced_at_nonce := u64_to_value n |}]>
        (historical_account_headers db) ∧
    hr_account_commitment new = c ∧
    ∀ c' row, (c', row) ∉ headers_replaced_at a (u64_to_value n) db.
Proof.
  intros [old new Hold Hid Harch _ Hc _ Hnonce Hrec]. exists old, new.
  rewrite (vr_rest _ _ _ _ Hrec). split_and!; [done..|].
  intros c' row (Hrow & Hrid & Hr)%elem_of_headers_replaced_at. by eapply Hnonce.
Qed.

(** The first old state. *)
Lemma executed_headers a l db db' :
  executed a l db db' → l ≠ [] →
  ∃ old n new,
    last l.*2 = Some n ∧ latest_account_headers db !! a = Some old ∧ hr_id old = a ∧
    latest_account_headers db' = <[a := new]> (latest_account_headers db) ∧
    headers_replaced_at a (u64_to_value n) db' =
      [(hr_account_commitment old,
        {| hh_header := old; hh_replaced_at_nonce := u64_to_value n |})].
Proof.
  intros Hex Hne.
  enough (∃ old n new,
    last l.*2 = Some n ∧ latest_account_headers db !! a = Some old ∧ hr_id old = a ∧
    latest_account_headers db' = <[a := new]> (latest_account_headers db) ∧
    ∀ x, x ∈ headers_replaced_at a (u64_to_value n) db' ↔
      x = (hr_account_commitment old,
        {| hh_header := old; hh_replaced_at_nonce := u64_to_value n |})) as
    (old & n & new & H1' & H2' & H3' & H4' & Hin).
  { exists old, n, new. split_and!; [done..|]. apply Permutation_singleton_r.
    apply NoDup_Permutation; [|apply NoDup_singleton|].
    - apply NoDup_filter, NoDup_map_to_list.
    - intros x. by rewrite Hin, list_elem_of_singleton. }
  revert Hne. induction Hex as [db|c n l db db1 db2 Hex IH Hsc Hn Hlt]; intros Hne; [done|].
  destruct (state_change_headers _ _ _ _ _ Hsc) as (old & new & Hold & Hid & Harch & Hlatest & Hhist & _ & Hno).
  destruct l as [|x l].
  - inversion Hex; subst. exists old, n, new. split_and!; [done..|].
    intros [c' row]. rewrite elem_of_headers_replaced_at, Hhist, lookup_insert_Some. split.
    + intros ([[<- <-]|[_ Hrow]] & Hr); [done|]. exfalso. apply (Hno c' row).
      by apply elem_of_headers_replaced_at.
    + intros [= -> ->]. split; [by left|done].
  - destruct (IH ltac:(done)) as (old1 & n1 & new1 & Hlast & Hold1 & Hid1 & Hl1 & Hin).
    exists old1, n1, new. split_and!; [done..| |].
    + by rewrite Hlatest, Hl1, insert_insert_eq.
    + intros [c' row]. rewrite <-Hin, !elem_of_headers_replaced_at, Hhist, lookup_insert_Some.
      assert (u64_to_value n ≠ u64_to_value n1) as Hne1.
      { apply last_Some_elem_of in Hlast. specialize (Hlt _ Hlast). intros Heq.
        apply u64_to_value_inj in Heq; [lia|done|]. by eapply executed_recorded. }
      split.
      * intros ([[<- <-]|[_ Hrow]] & Hr1 & Hr2); [by simplify_eq/=|done].
      * intros (Hrow & Hr). split; [|done]. right. split; [congruence|done].
Qed.

Lemma executed_archive a l db db' :
  executed a l db db' →
  historical_account_headers db ⊆ historical_account_headers db' ∧
  (∀ c row, historical_account_headers db !! c = Some row → hr_id (hh_header row) = a →
    hh_replaced_at_nonce row ∉ (u64_to_value <$> l.*2)).
Proof.
  induction 1 as [db|c n l db db1 db2 Hex [IH1 IH2] Hsc Hn Hlt].
  { split; [done|]. intros c row _ _ Hin. by apply not_elem_of_nil in Hin. }
  destruct (state_change_headers _ _ _ _ _ Hsc) as (old & new & Hold & Hid & Harch & Hlatest & Hhist & _ & Hno).
  split.
  - rewrite Hhist. etrans; [exact IH1|]. by apply insert_subseteq.
  - intros c' row Hrow Hrid [Heq|Hin]%elem_of_cons; [|by eapply IH2].
    eapply (Hno c' row). apply elem_of_headers_replaced_at. split_and!; [|done..].
    by eapply lookup_weaken.
Qed.

Lemma executed_forget a l db db' (ns : list Z) :
  executed a l db db' → (∀ n, n ∈ l.*2 → u64_to_value n ∈ ns) →
  let forget (m : gmap string HistoricalHeaderRow) :=
    delete_where (λ _ row, bool_decide (hr_id (hh_header row) = a) &&
      bool_decide (hh_replaced_at_nonce row ∈ ns)) m in
  forget (historical_account_headers db') = forget (historical_account_headers db).
Proof.
  intros Hex Hns forget. induction Hex as [db|c n l db db1 db2 Hex IH Hsc Hn Hlt]; [done|].
  destruct (state_change_headers _ _ _ _ _ Hsc) as (old & new & Hold & Hid & Harch & Hlatest & Hhist & _ & Hno).
  rewrite <-IH by (intros; apply Hns; by right). rewrite Hhist. apply map_eq. intros c'.
  unfold forget. rewrite !lookup_delete_where, lookup_insert. case_decide as Hc; [|done].
  subst c'. rewrite Harch. simpl. rewrite !bool_decide_true; [done|apply Hns; left|done].
Qed.

(** ** The undoing *)

(** All that happens to the tables of one account. *)
Lemma undo_one_account a l db db' forest :
  executed a l db db' → l ≠ [] → headers_wf db →
  undo_account_nonces a l.*2 {| st_db := db'; st_forest := forest |} =
    Finished ({| st_db := db; st_forest := forest |}, Ok ()).
Proof.
  intros Hex Hne Hwf.
  destruct (executed_headers _ _ _ _ Hex Hne) as (old & n & new & Hlast & Hold & Hid & Hlatest & Hrep).
  destruct (executed_recorded _ _ _ _ Hex) as (Hr1 & Hr2 & Hr3 & _).
  pose proof (executed_rest _ _ _ _ Hex) as Hrest.
  unfold undo_account_nonces. rewrite Hlast.
  unfold mbind, dbm_bind, on_db, zoom, db_exec. cbn [st_db set_db]. rewrite restore_all_nonces.
  rewrite (recorded_all_restore _ _ _ _ _ _ Hr1), (recorded_all_restore _ _ _ _ _ _ Hr2),
    (recorded_all_restore _ _ _ _ _ _ Hr3).
  set (db1 := set_latest_account_storage _ _). cbn [st_db st_forest].
  unfold restore_header. change (headers_replaced_at a (u64_to_value n) db1) with
    (headers_replaced_at a (u64_to_value n) db'). rewrite Hrep.
  cbn [try_fold snd hh_header]. unfold replace_latest_header, code_exists.
  change (account_code db1) with (account_code db'). rewrite (sr_code _ _ Hrest).
  rewrite (hw_code _ Hwf _ _ Hold : bool_decide _ = true). cbn.
  f_equal. f_equal. unfold set_db. cbn. f_equal. apply Db_eq; cbn; try done.
  - destruct Hrest. by split.
  - rewrite Hid, Hlatest. apply map_eq. intros k. rewrite lookup_insert.
    case_decide as Hk; [by subst|]. rewrite lookup_delete_where, lookup_insert_ne by done.
    destruct (latest_account_headers db !! k) as [row|] eqn:Hrow; [|done]. simpl.
    rewrite bool_decide_false; [done|]. intros Heq. apply Hk.
    by eapply (hw_unique _ Hwf _ _ _ _ Hold Hrow).
  - rewrite (executed_forget _ _ _ _ _ Hex) by (intros m Hm; by apply list_elem_of_fmap_2).
    apply map_eq. intros c. rewrite lookup_delete_where.
    destruct (historical_account_headers db !! c) as [row|] eqn:Hrow; [|done]. simpl.
    case_bool_decide as Ha; [|done]. rewrite bool_decide_false; [done|].
    by eapply executed_archive.
  - apply (recorded_all_forget _ _ _ _ _ _ Hr1).
  - apply (recorded_all_forget _ _ _ _ _ _ Hr2).
  - apply (recorded_all_forget _ _ _ _ _ _ Hr3).
Qed.

(** The states of the account that are undone are those of [l], and no state from
    before is among them. *)
Lemma undo_executed a l db db' (discarded : list (AccountId * Word)) forest :
  executed a l db db' → l ≠ [] → headers_wf db →
  (∀ c, c ∈ l.*1 → commitment_fresh c db) →
  (∀ c, c ∈ ((λ d, Word_to_hex d.2) <$> discarded) ↔ c ∈ l.*1) →
  undo_account_state discarded {| st_db := db'; st_forest := forest |} =
    Finished ({| st_db := db; st_forest := foldl (λ f d, discard_roots f d.1) forest discarded |}, Ok ()).
Proof.
  intros Hex Hne Hwf Hfresh Hcs. unfold undo_account_state.
  assert (∃ x l', l = x :: l') as (x & l' & Hl) by (destruct l; [done|by eexists _, _]).
  rewrite bool_decide_false.
  2:{ intros ->. apply (not_elem_of_nil x.1), Hcs. rewrite Hl. left. }
  set (cs := (λ d, Word_to_hex d.2) <$> discarded) in *.
  assert (∀ p, p ∈ id_nonce_pairs cs db' ↔ p.1 = a ∧ p.2 ∈ l.*2) as Hpairs.
  { intros p. rewrite (executed_pairs _ _ _ _ _ _ Hex). split.
    - intros [Hp|(c & n & Hin & _ & ->)]; [|split; [done|by apply (list_elem_of_fmap_2 snd _ (c, n))]].
      exfalso. apply elem_of_id_nonce_pairs in Hp as [(k & row & Hk & Hc & _)|(c & row & Hk & Hc & _)].
      + apply Hcs, Hfresh in Hc as [Hc _]. by apply (Hc _ _ Hk).
      + apply Hcs, Hfresh in Hc as [_ Hc]. by simplify_eq.
    - destruct p as [a' n]. cbn. intros [-> Hn]. right.
      apply list_elem_of_fmap in Hn as ([c n'] & -> & Hin). exists c, n'.
      split_and!; [done| |done]. apply Hcs. by apply (list_elem_of_fmap_2 fst _ (c, n')). }
  unfold mbind, dbm_bind at 1, db_read. cbn [st_db].
  rewrite (nonces_by_one_account a _ l.*2).
  - rewrite map_to_list_singleton. cbn [db_each fst snd].
    unfold mbind, dbm_bind. rewrite (undo_one_account _ _ _ _ _ Hex Hne Hwf). done.
  - intros Hnil. apply (not_elem_of_nil (a, x.2)). rewrite <-Hnil. apply Hpairs. split; [done|].
    rewrite Hl. left.
  - intros p Hp. by apply Hpairs.
  - by eapply executed_sorted.
  - intros n. rewrite list_elem_of_fmap. split.
    + intros (p & -> & Hp). by apply Hpairs.
    + intros Hn. exists (a, n). split; [done|]. by apply Hpairs.
Qed.

(** ** Transactions and their undoing *)

(** A transaction of an account, as [apply_account_delta] gets it. *)
Record AppliedTx := {
  tx_init : AccountHeader;
  tx_final : AccountHeader;
  tx_fungible : gmap AssetVaultKey FungibleAsset;
  tx_roots : gmap StorageSlotName Word;
  tx_delta : AccountDelta
}.

Definition final_commitment (t : AppliedTx) : string :=
  Word_to_string (AccountHeader_to_commitment (tx_final t)).
Definition final_nonce (t : AppliedTx) : u64 := AccountHeader_nonce (tx_final t).

Definition apply_all (txs : list AppliedTx) : store_m () :=
  db_each (λ t, apply_account_delta (tx_init t) (tx_final t) (tx_fungible t) (tx_roots t) (tx_delta t))
    txs.

(** Each transaction starts from the state the previous one left, and increments the
    nonce. *)
Inductive chained (ty : string → StorageSlotType) : AccountHeader → list AppliedTx → Prop :=
| chained_nil h : chained ty h []
| chained_cons h t txs :
    tx_init t = h → delta_fits ty h (tx_final t) (tx_fungible t) (tx_delta t) →
    in_range U64_MAX (final_nonce t) → (∀ t', t' ∈ txs → final_nonce t < final_nonce t') →
    chained ty (tx_final t) txs → chained ty h (t :: txs).

(** The tables before the transactions: the account is in its first state, and there
    is no trace of the later ones. *)
Record ready (ty : string → StorageSlotType) (a : string) (h : AccountHeader) (txs : list AppliedTx)
    (db : Db) : Prop := {
  rd_id : AccountId_to_hex (AccountHeader_id h) = a;
  rd_row : ∃ seed locked, latest_account_headers db !! a = Some (header_row h seed locked);
  rd_types : slots_typed a ty db;
  rd_archived : historical_account_headers db !! Word_to_string (AccountHeader_to_commitment h) = None;
  rd_distinct : NoDup (final_commitment <$> txs);
  rd_fresh t : t ∈ txs → commitment_fresh (final_commitment t) db;
  rd_unrecorded t : t ∈ txs → unrecorded a (u64_to_value (final_nonce t)) db;
  rd_unreplaced t : t ∈ txs → headers_replaced_at a (u64_to_value (final_nonce t)) db = []
}.

Lemma not_replaced_at a n db c row :
  headers_replaced_at a n db = [] → historical_account_headers db !! c = Some row →
  hr_id (hh_header row) = a → hh_replaced_at_nonce row ≠ n.
Proof.
  intros Hnil Hrow Hid Hn. apply (not_elem_of_nil (c, row)). rewrite <-Hnil.
  by apply elem_of_headers_replaced_at.
Qed.

(** After the first transaction the tables are ready for the others. *)
Lemma ready_step ty a h t txs db db' :
  ready ty a h (t :: txs) db → chained ty h (t :: txs) →
  state_change a (final_commitment t) (final_nonce t) db db' →
  slots_typed a ty db' →
  latest_account_headers db' !! a = Some (header_row (tx_final t) None false) →
  ready ty a (tx_final t) txs db'.
Proof.
  intros [Hid (seed & locked & Hrow) Hty Harch Hnd Hfresh Hun Hunr] Hch Hsc Hty' Hrow'.
  inversion Hch as [|? ? ? Hinit Hfits Hrange Hlt Hch']; subst.
  destruct Hsc as [old new Hold Hoid _ Hnid Hnc Hnn _ Hrec].
  pose proof (vr_rest _ _ _ _ Hrec) as Hrest. rewrite Hrow in Hold. injection Hold as <-.
  assert (∀ t', t' ∈ txs → u64_to_value (final_nonce t') ≠ u64_to_value (final_nonce t)) as Hne.
  { intros t' Hin Heq. apply u64_to_value_inj in Heq; [specialize (Hlt _ Hin); lia| |done].
    clear -Hch' Hin. revert Hch' Hin. generalize (tx_final t). induction txs as [|t1 txs IH]; intros h.
    - intros _ Hin. by apply not_elem_of_nil in Hin.
    - inversion 1; subst. intros [->|Hin]%elem_of_cons; [done|]. by eapply IH. }
  assert (∀ t', t' ∈ t :: txs →
    final_commitment t' ≠ Word_to_string (AccountHeader_to_commitment (tx_init t))) as Hold.
  { intros t' Hin Heq. destruct (Hfresh _ Hin) as [Hf _]. by apply (Hf _ _ Hrow). }
  apply NoDup_cons in Hnd as [Hni Hnd].
  assert (historical_account_headers db' = <[Word_to_string (AccountHeader_to_commitment (tx_init t)) :=
    {| hh_header := header_row (tx_init t) seed locked;
       hh_replaced_at_nonce := u64_to_value (final_nonce t) |}]> (historical_account_headers db)) as Hhist
    by by rewrite Hrest.
  split; [| |done| |done|..].
  2: by eauto.
  - f_equal. symmetry. apply Hfits.
  - rewrite Hhist. rewrite lookup_insert_ne; [apply (Hfresh t); left|].
    intros Heq. apply (Hold t); [left|done].
  - intros t' Hin. split.
    + rewrite Hrest. cbn. intros k row. rewrite lookup_insert_Some. intros [[<- <-]|[_ Hk]].
      * intros Heq. apply Hni. rewrite <-Hnc, Heq. by apply list_elem_of_fmap_2.
      * eapply (Hfresh t'); [by right|done].
    + rewrite Hhist. rewrite lookup_insert_ne; [apply (Hfresh t'); by right|].
      intros Heq. apply (Hold t'); [by right|done].
  - intros t' Hin. destruct (Hun t' ltac:(by right)) as [H1' H2' H3'].
    destruct Hrec as [[_ _ Hs _] [_ _ He _] [_ _ Ha _] _].
    assert (∀ n, n ≠ u64_to_value (final_nonce t) → ∀ x : string, (x, n) ≠ (x, u64_to_value (final_nonce t)))
      as Hp by naive_solver.
    split; intros k; [rewrite Hs|rewrite He|rewrite Ha];
      try done; apply Hp; by apply Hne.
  - intros t' Hin. destruct (headers_replaced_at _ _ db') as [|[c row] l] eqn:Hl; [done|]. exfalso.
    assert ((c, row) ∈ (c, row) :: l) as Hin' by left. rewrite <-Hl in Hin'.
    apply elem_of_headers_replaced_at in Hin' as (Hc & Hcid & Hcn).
    rewrite Hhist, lookup_insert_Some in Hc. destruct Hc as [[<- <-]|[_ Hc]].
    + cbn in Hcn. by apply (Hne t').
    + eapply not_replaced_at; [apply (Hunr t'); by right|done..].
Qed.

Lemma executed_cons a c n l db db1 db2 :
  state_change a c n db db1 → in_range U64_MAX n → (∀ m, m ∈ l.*2 → n < m) →
  executed a l db1 db2 → executed a (l ++ [(c, n)]) db db2.
Proof.
  intros Hsc Hn Hlt Hex. induction Hex as [db1|c' n' l db1 db2 db3 Hex IH Hsc' Hn' Hlt'].
  - eapply executed_snoc; [constructor|done|done|]. intros m Hm. by apply not_elem_of_nil in Hm.
  - cbn [app]. eapply executed_snoc; [apply IH; [done|]|done|done|].
    + intros m Hm. apply Hlt. by right.
    + intros m. rewrite fmap_app, elem_of_app. intros [Hm|Hm%list_elem_of_singleton]; [by apply Hlt'|].
      subst m. apply Hlt. left.
Qed.

Lemma apply_all_executed ty a txs : ∀ h s s',
  ready ty a h txs (st_db s) → chained ty h txs → apply_all txs s = Finished (s', Ok ()) →
  executed a (reverse ((λ t, (final_commitment t, final_nonce t)) <$> txs)) (st_db s) (st_db s').
Proof.
  induction txs as [|t txs IH]; intros h s s' Hready Hch Hrun.
  { injection Hrun as <-. constructor. }
  cbn [apply_all db_each] in Hrun. apply dbm_bind_Ok in Hrun as (s1 & [] & Ht & Hrun).
  inversion Hch as [|? ? ? Hinit Hfits Hrange Hlt Hch']; subst.
  pose proof Hready as [Hid (seed & locked & Hrow) Hty Harch Hnd Hfresh Hun Hunr].
  assert (AccountId_to_hex (AccountHeader_id (tx_final t)) = a) as Hfid
    by (rewrite <-Hid; f_equal; symmetry; apply Hfits).
  subst a. destruct (apply_account_delta_change ty (tx_init t) (tx_final t) (tx_fungible t) (tx_roots t)
    (tx_delta t) seed locked s s1) as (Hsc & Hty1 & Hrow1); rewrite ?Hfid; try done.
  - apply (Hfresh t). left.
  - apply (Hun t). left.
  - intros c' row. apply not_replaced_at, (Hunr t). left.
  - rewrite Hfid in *. cbn [fmap list_fmap]. rewrite reverse_cons. eapply executed_cons; [done|done| |].
    + intros m Hm. rewrite fmap_reverse, elem_of_reverse, <-list_fmap_compose in Hm.
      apply list_elem_of_fmap in Hm as (t' & -> & Hin). by apply Hlt.
    + apply (IH (tx_final t)); [|done|done]. by eapply ready_step.
Qed.

End undo.

(** ** Witnesses *)

(** Account 1 with ten units of faucet 3 and a storage slot; the first transaction
    adds five units and changes the slot, the second one spends everything and writes
    to a storage map. *)
Definition toy_header (vault_root nonce : Z) : @AccountHeader toy_protocol := (1, vault_root, nonce).

Definition toy_tables : Db :=
  set_account_code {[ z_to_text 0 := [0] ]}
    (set_latest_account_headers
      {[ toy_account_hex 1 := header_row (toy_header 610 1) None false ]}
      (set_latest_account_assets {[ (toy_account_hex 1, z_to_text 6) := z_to_text 10 ]}
        (set_latest_account_storage {[ (toy_account_hex 1, z_to_text 4) := (z_to_text 9, 0) ]} Db_new))).

Definition toy_store : StoreState := {|
  st_db := toy_tables;
  st_forest := stage_roots (set_forest {[ 0 := ∅; 610 := {[ 6 := 10 ]} ]} AccountSmtForest_new)
    (toy_account 1) [610]
|}.

Definition toy_txs : list AppliedTx := [
  {| tx_init := toy_header 610 1; tx_final := toy_header 615 2;
     tx_fungible := {[ 6 := (3, 10) ]}; tx_roots := ∅;
     tx_delta := ([(6, 5)], [], [(4, 8)], []) |};
  {| tx_init := toy_header 615 2; tx_final := toy_header 0 3;
     tx_fungible := {[ 6 := (3, 15) ]}; tx_roots := ∅;
     tx_delta := ([(6, -15)], [], [], [(5, [(1, 2)])]) |} ].

Definition toy_slot_types (name : string) : StorageSlotType :=
  if decide (name = z_to_text 5) then SlotType_Map else SlotType_Value.

Definition toy_store_after : StoreState :=
  match apply_all toy_txs toy_store with Finished (s, Ok ()) => s | _ => toy_store end.

Lemma row_of_singleton {K V} `{Countable K} (m : gmap K V) k k' v v' :
  m = {[ k := v ]} → m !! k' = Some v' → k = k' ∧ v = v'.
Proof. intros ->. apply lookup_singleton_Some. Qed.

Lemma toy_headers_wf : headers_wf toy_tables.
Proof.
  split.
  - by intros k row [<- <-]%(row_of_singleton _ _ _ _ _ eq_refl).
  - by intros k1 k2 row1 row2 [<- _]%(row_of_singleton _ _ _ _ _ eq_refl) [<- _]%(row_of_singleton _ _ _ _ _ eq_refl).
  - by intros k row [_ <-]%(row_of_singleton _ _ _ _ _ eq_refl).
  - intros c row Hrow. discriminate Hrow.
Qed.

Lemma toy_ready : ready toy_slot_types (toy_account_hex 1) (toy_header 610 1) toy_txs toy_tables.
Proof.
  split.
  - reflexivity.
  - by exists None, false.
  - by intros name v t [[= <-] [= _ <-]]%(row_of_singleton _ _ _ _ _ eq_refl).
  - reflexivity.
  - apply (bool_decide_unpack _). by vm_compute.
  - intros t Ht. unfold toy_txs in Ht. decompose_list_elem_of; subst; (split; [|reflexivity]);
      by intros k row [_ <-]%(row_of_singleton _ _ _ _ _ eq_refl).
  - intros t Ht. by split.
  - intros t Ht. reflexivity.
Qed.

Lemma toy_changes :
  vault_changes {[ 6 := (3, 10) ]} (([(6, 5)], [], [(4, 8)], []) : @AccountDelta _ toy_account_lib) =
    Ok ([], [@Asset_Fungible toy_protocol (3, 15)]) ∧
  vault_changes {[ 6 := (3, 15) ]} (([(6, -15)], [], [], [(5, [(1, 2)])]) : @AccountDelta _ toy_account_lib) =
    Ok ([6], []).
Proof.
  split; [vm_cast_no_check (eq_refl (A := result StoreError (list AssetVaultKey * list Asset))
      (Ok ([], [@Asset_Fungible toy_protocol (3, 15)])))
    |vm_cast_no_check (eq_refl (A := result StoreError (list AssetVaultKey * list Asset)) (Ok ([6], [])))].
Qed.

Lemma toy_fits : Forall (λ t, delta_fits toy_slot_types (tx_init t) (tx_final t)
  (tx_fungible t) (tx_delta t)) toy_txs.
Proof.
  destruct toy_changes as [H1 H2]. apply Forall_cons; split; [|apply Forall_singleton]; split.
  - reflexivity.
  - intros removed updated. cbn [tx_fungible tx_delta] in *. rewrite H1. intros [= <- <-].
    apply NoDup_singleton.
  - split; intros v Hv; cbn in Hv; by decompose_list_elem_of; subst.
  - intros name entries Hin. cbn in Hin. by decompose_list_elem_of.
  - reflexivity.
  - intros removed updated. cbn [tx_fungible tx_delta] in *. rewrite H2. intros [= <- <-].
    apply NoDup_singleton.
  - split; intros v Hv; cbn in Hv; by decompose_list_elem_of; subst.
  - intros name entries Hin. cbn in Hin. decompose_list_elem_of. simplify_eq. apply NoDup_singleton.
Qed.

Lemma toy_chained : chained toy_slot_types (toy_header 610 1) toy_txs.
Proof.
  pose proof toy_fits as [H1 [H2 _]%Forall_cons_1]%Forall_cons_1.
  apply chained_cons; [done|exact H1|by vm_compute| |].
  - intros t Ht. decompose_list_elem_of. by subst.
  - apply chained_cons; [done|exact H2|by vm_compute| |constructor].
    intros t Ht. decompose_list_elem_of.
Qed.

Lemma toy_run : apply_all toy_txs toy_store = Finished (toy_store_after, Ok ()).
Proof.
  assert (match apply_all toy_txs toy_store with Finished (_, Ok ()) => true | _ => false end = true)
    as Hrun by by vm_compute.
  unfold toy_store_after. by destruct (apply_all toy_txs toy_store) as [[s [[]|]]| |].
Qed.

