(* ===== verification/AccountReplace.v ===== *)
(** * Accounts replaced by the state of the network

    [update_account_state] replaces the whole state of an account, as a sync does for
    a public account that changed elsewhere.  The replaced state is recorded like the
    changes of a transaction, so it can be undone as well; the forest on the other hand
    refuses the new roots while transactions of the account are pending. *)

From S2P Require Import Prelude Protocol Serde Model NoteStates Errors AccountTypes SmtForest.
From S2P Require Import Sql Versioned Db AccountDb AccountHistory AccountUndo.
From Stdlib Require Import ZArith Lia Ascii.
From stdpp Require Import base gmap list strings sorting.

Open Scope Z_scope.

Section replace.
Context `{SmtForestLib, !AccountLaws}.

(** ** Writing the values of an account *)

(** [db'] differs from [db] in the latest values of account [a] only. *)
Record writes_account (a : string) (db db' : Db) : Prop := {
  wa_storage a' k : a' ≠ a → latest_account_storage db' !! (a', k) = latest_account_storage db !! (a', k);
  wa_entries a' k :
    a' ≠ a → latest_storage_map_entries db' !! (a', k) = latest_storage_map_entries db !! (a', k);
  wa_assets a' k : a' ≠ a → latest_account_assets db' !! (a', k) = latest_account_assets db !! (a', k);
  wa_rest : db' = set_latest_account_storage (latest_account_storage db')
    (set_latest_storage_map_entries (latest_storage_map_entries db')
      (set_latest_account_assets (latest_account_assets db') db))
}.

Lemma writes_account_refl a db : writes_account a db db.
Proof. split; [done..|by destruct db]. Qed.

Lemma writes_account_trans a db1 db2 db3 :
  writes_account a db1 db2 → writes_account a db2 db3 → writes_account a db1 db3.
Proof.
  intros [Hs He Ha Hr] [Hs' He' Ha' Hr']. split; intros.
  - by rewrite Hs', Hs.
  - by rewrite He', He.
  - by rewrite Ha', Ha.
  - rewrite Hr' at 1. rewrite Hr. reflexivity.
Qed.

Lemma writes_account_foldl {A} a (f : Db → A → Db) l db :
  (∀ db x, writes_account a db (f db x)) → writes_account a db (foldl f db l).
Proof.
  intros Hf. revert db. induction l as [|x l IH]; intros db; [apply writes_account_refl|].
  cbn [foldl]. eapply writes_account_trans; [apply Hf|apply IH].
Qed.

Lemma insert_storage_slots_writes id slots db :
  writes_account (AccountId_to_hex id) db (insert_storage_slots id slots db).
Proof.
  unfold insert_storage_slots. apply writes_account_foldl. clear db. intros db slot. cbv zeta.
  assert (∀ v, writes_account (AccountId_to_hex id) db (set_latest_account_storage
    (<[(AccountId_to_hex id, StorageSlotName_to_string slot.1) := v]> (latest_account_storage db)) db))
    as Hslot.
  { intros v. split; [|done..|by destruct db]. intros a' k Hne.
    cbn. rewrite lookup_insert_ne; [done|]. congruence. }
  destruct slot.2 as [w|map]; (eapply writes_account_trans; [apply Hslot|]).
  - apply writes_account_refl.
  - apply writes_account_foldl.
    clear. intros db kv. split; [done| |done|by destruct db].
    intros a' k Hne. cbn. rewrite lookup_insert_ne; [done|]. congruence.
Qed.

Lemma insert_assets_writes id assets db :
  writes_account (AccountId_to_hex id) db (insert_assets id assets db).
Proof.
  unfold insert_assets. apply writes_account_foldl. clear db. intros db asset.
  split; [done..| |by destruct db]. intros a' k Hne. cbn. rewrite lookup_insert_ne; [done|]. congruence.
Qed.

(** ** The replacement is recorded *)

Lemma replace_account_values_recorded account n db :
  let a := AccountId_to_hex (Account_id account) in
  unrecorded a n db → values_recorded a n db (replace_account_values account n db).
Proof.
  intros a [Hs He Ha]. unfold replace_account_values. fold a. cbv zeta.
  set (db1 := set_latest_account_assets _ _).
  set (db2 := insert_assets _ _ _).
  assert (writes_account a db1 db2) as [Hw1 Hw2 Hw3 Hw4].
  { eapply writes_account_trans; [apply insert_storage_slots_writes|apply insert_assets_writes]. }
  assert (historical_account_storage db2 = archive_latest a n (latest_account_storage db)
    (historical_account_storage db)) as Hh1 by (by rewrite Hw4).
  assert (historical_storage_map_entries db2 = archive_latest a n (latest_storage_map_entries db)
    (historical_storage_map_entries db)) as Hh2 by (by rewrite Hw4).
  assert (historical_account_assets db2 = archive_latest a n (latest_account_assets db)
    (historical_account_assets db)) as Hh3 by (by rewrite Hw4).
  split; cbn.
  - rewrite Hh1. apply (recorded_replace (H:=option string * Z)); [done|]. intros. by apply Hw1.
  - rewrite Hh2. apply (recorded_replace (H:=option string)); [done|]. intros. by apply Hw2.
  - rewrite Hh3. apply (recorded_replace (H:=option string)); [done|]. intros. by apply Hw3.
  - rewrite Hw4. reflexivity.
Qed.

(** The stored header is read back. *)
Lemma parse_header_row h seed locked :
  in_range U64_MAX (AccountHeader_nonce h) →
  ∃ st, parse_accounts (header_row h (Word_to_bytes <$> seed) locked) = Finished (Ok (h, st)).
Proof.
  intros Hn. unfold parse_accounts. cbn [header_row hr_account_seed hr_id hr_vault_root
    hr_storage_commitment hr_code_commitment hr_nonce hr_locked].
  rewrite !Word_display, !Word_hex_roundtrip, AccountId_hex_roundtrip, u64_value_roundtrip by done.
  destruct seed as [seed|]; eexists; cbn -[AccountHeader_new];
    rewrite ?Word_bytes_roundtrip; cbn -[AccountHeader_new]; rewrite AccountHeader_new_eta; reflexivity.
Qed.

Lemma on_forest_panics_Ok f s s' u :
  on_forest_panics f s = Finished (s', Ok u) → st_db s' = st_db s.
Proof.
  unfold on_forest_panics. destruct (f (st_forest s)) as [[forest r]| |]; [|done..].
  by intros [= <- _].
Qed.

(** Headers and values are in different tables. *)
Lemma values_recorded_headers a n latest historical db db' :
  values_recorded a n db db' →
  values_recorded a n
    (set_latest_account_headers latest (set_historical_account_headers historical db))
    (set_latest_account_headers latest (set_historical_account_headers historical db')).
Proof.
  intros [Hs He Ha Hr]. split; [exact Hs|exact He|exact Ha|]. rewrite Hr. reflexivity.
Qed.

(** A successful replacement is a recorded change of the state. *)
Lemma update_account_state_change account h seed locked s s' :
  let new := Account_to_header account in
  let a := AccountId_to_hex (Account_id account) in
  let n := u64_to_value (Account_nonce account) in
  let c := Word_to_string (AccountHeader_to_commitment new) in
  AccountHeader_id new = Account_id account → AccountHeader_nonce new = Account_nonce account →
  AccountHeader_id h = Account_id account → in_range U64_MAX (AccountHeader_nonce h) →
  latest_account_headers (st_db s) !! a = Some (header_row h (Word_to_bytes <$> seed) locked) →
  historical_account_headers (st_db s) !! Word_to_string (AccountHeader_to_commitment h) = None →
  commitment_fresh c (st_db s) → unrecorded a n (st_db s) →
  headers_replaced_at a n (st_db s) = [] →
  update_account_state account s = Finished (s', Ok ()) →
  state_change a c (Account_nonce account) (st_db s) (st_db s').
Proof.
  intros new a n c Hnid Hnn Hid Hrange Hrow Harch [Hfresh _] Hun Hrep Hrun.
  unfold update_account_state in Hrun.
  apply dbm_bind_Ok in Hrun as (s1 & [] & Hforest & Hrun).
  apply dbm_bind_Ok in Hrun as (s2 & old & Hread & Hrun).
  apply dbm_bind_Ok in Hrun as (s3 & [] & Hreplace & Hheader).
  apply on_forest_panics_Ok in Hforest.
  unfold db_read_panics, get_account_header in Hread. fold a in Hread. rewrite Hforest, Hrow in Hread.
  destruct (parse_header_row h seed locked Hrange) as [st Hparse].
  cbn [mbind] in Hread. unfold mbind, eff_bind in Hread. rewrite Hparse in Hread.
  injection Hread as <- <-.
  apply on_db_Ok in Hreplace as (db1 & [= <-] & ->).
  apply on_db_Ok in Hheader as (db2 & Hheader & ->). cbn [st_db set_db fmap option_fmap option_map fst] in *.
  rewrite Hforest in Hheader. fold n new in Hheader.
  pose proof (replace_account_values_recorded account n (st_db s) Hun) as Hrec.
  revert Hheader Hrec. generalize (replace_account_values account n (st_db s)). intros db1 Hheader Hrec.
  pose proof (vr_rest _ _ _ _ Hrec) as Hrest. fold a in Hrest.
  assert (latest_account_headers db1 = latest_account_headers (st_db s)) as Hl1 by by rewrite Hrest.
  assert (historical_account_headers db1 = historical_account_headers (st_db s)) as Hh1 by by rewrite Hrest.
  apply (insert_account_header_tables _ _ (Word_to_bytes <$> seed) locked) in Hheader as [Hdb2 _].
  - apply (state_changed _ _ _ _ _ (header_row h (Word_to_bytes <$> seed) locked)
      (header_row new None false)); try done.
    + cbn. by rewrite Hid.
    + cbn. by rewrite Hnid.
    + cbn. by rewrite Hnn.
    + intros c' row. by apply not_replaced_at.
    + rewrite Hdb2, Hl1, Hh1. rewrite Hnid, Hnn. fold a n.
      by apply values_recorded_headers.
  - by rewrite Hid, Hnid.
  - by rewrite Hl1, Hnid.
  - rewrite Hl1. exact Hfresh.
Qed.
End replace.
