(* ===== verification/Store.v ===== *)
(** * What the client asks of a store

    [store/mod.rs]: the filters of queries, the [Store] interface with its default
    methods, and the note tags of [sync/tag.rs] as records of the store.  The client's
    code is written against the interface ([StoreOps]); the SQLite store is an instance.
    The encodings of protocol types that stores rely on are parameters ([StoreLib]). *)

From S2P Require Import Prelude Protocol Serde Model NoteStates InputNote OutputNote TxRecord.
From S2P Require Import TxTracker Errors NoteTracker Rpc Grpc SyncUpdate AccountTypes SmtForest Sql.
From Stdlib Require Import ZArith Lia Ascii.
From stdpp Require Import base gmap list strings.

Open Scope Z_scope.

(** [T::read_from_bytes]: what is left in the source is not looked at. *)
Definition read_from_bytes {A} (c : codec A) (b : bytes) : result DeserializationError A :=
  match read_from c b with Ok (a, _) => Ok a | Err e => Err e end.

Lemma read_from_bytes_ok {A} (c : codec A) wf `{!CodecOk c wf} a :
  wf a → read_from_bytes c (write_into c a) = Ok a.
Proof.
  intros Ha. unfold read_from_bytes. rewrite <-(app_nil_r (write_into c a)).
  by rewrite (codec_ok _ _ Ha).
Qed.

#[export] Instance write_into_inj {A} (c : codec A) `{!CodecOk c any} : Inj (=) (=) (write_into c).
Proof.
  intros a b Hab. apply (f_equal (read_from_bytes c)) in Hab.
  rewrite !(read_from_bytes_ok c any) in Hab by exact I. congruence.
Qed.

(** Encodings and parts of protocol types that stores use. *)
Class StoreLib `{AccountLib} `{!SerdeLib} `{!MmrLib} := {
  NoteId_as_word : NoteId → Word;
  NoteId_from_raw : Word → NoteId;
  Nullifier_to_hex : Nullifier → string;
  Nullifier_to_string : Nullifier → string;
  Nullifier_from_hex : string → result foreign Nullifier;
  NoteAssets_codec : codec NoteAssets;
  NoteStorage : Type;
  NoteStorage_codec : codec NoteStorage;
  NoteScript_codec : codec NoteScript;
  NoteScript_from_bytes : bytes → result DeserializationError NoteScript;
  NoteScript_root : NoteScript → Word;
  NoteRecipient_new : Word → NoteScript → NoteStorage → NoteRecipient;
  NoteRecipient_script : NoteRecipient → NoteScript;
  NoteRecipient_storage : NoteRecipient → NoteStorage;
  TransactionId_to_hex : TransactionId → string;
  TransactionId_to_string : TransactionId → string;
  TransactionId_from_raw : Word → TransactionId;
  TransactionScript_codec : codec TransactionScript;
  TransactionScript_root : TransactionScript → Word;
  BlockHeader_codec : codec BlockHeader;
  (* A forest is its number of leaves. *)
  MmrPeaks_forest : MmrPeaks → Z;
  MmrPeaks_peaks : MmrPeaks → list Word;
  MmrPeaks_new : Z → list Word → result foreign MmrPeaks;
  InOrderIndex_inner : InOrderIndex → Z;
  InOrderIndex_new : Z → InOrderIndex;
  Forest_rightmost_in_order_index : Z → InOrderIndex;
  Forest_has_single_leaf_tree : Z → bool;
  PartialMmr_from_peaks : MmrPeaks → PartialMmr;
  PartialMmr_from_parts :
    MmrPeaks → gmap InOrderIndex Word → gset Z → result foreign PartialMmr;
  NoteTag_with_account_target : AccountId → NoteTag
}.

(** Encodings are read back. *)
Class StoreLaws `{StoreLib} : Prop := {
  NoteId_word_inj n m : NoteId_as_word n = NoteId_as_word m → n = m;
  Nullifier_display n : Nullifier_to_string n = Nullifier_to_hex n;
  Nullifier_hex_roundtrip n : Nullifier_from_hex (Nullifier_to_hex n) = Ok n;
  NoteAssets_codec_ok :: CodecOk NoteAssets_codec any;
  NoteStorage_codec_ok :: CodecOk NoteStorage_codec any;
  NoteScript_codec_ok :: CodecOk NoteScript_codec any;
  NoteScript_bytes_roundtrip s : NoteScript_from_bytes (write_into NoteScript_codec s) = Ok s;
  NoteRecipient_rebuild r :
    NoteRecipient_new (NoteRecipient_serial_num r) (NoteRecipient_script r) (NoteRecipient_storage r) = r;
  TransactionId_hex w t : TransactionId_to_hex t = Word_to_hex w → TransactionId_from_raw w = t;
  TransactionId_hex_word t : ∃ w, TransactionId_to_hex t = Word_to_hex w;
  TransactionId_display t : TransactionId_to_string t = TransactionId_to_hex t;
  TransactionScript_codec_ok :: CodecOk TransactionScript_codec any;
  TransactionScript_root_inj s s' : TransactionScript_root s = TransactionScript_root s' → s = s';
  NoteScript_root_inj s s' : NoteScript_root s = NoteScript_root s' → s = s';
  BlockHeader_codec_ok :: CodecOk BlockHeader_codec any;
  MmrPeaks_rebuild p : MmrPeaks_new (MmrPeaks_forest p) (MmrPeaks_peaks p) = Ok p;
  InOrderIndex_new_inner i : InOrderIndex_new (InOrderIndex_inner i) = i
}.

Section store.
Context `{StoreLib}.

(** ** Filters *)

Inductive PartialBlockchainFilter :=
| PartialBlockchain_All
| PartialBlockchain_List (ids : list InOrderIndex)
| PartialBlockchain_Forest (forest : Z).

Inductive TransactionFilter :=
| TransactionFilter_All
| TransactionFilter_Uncommitted
| TransactionFilter_Ids (ids : list TransactionId)
| TransactionFilter_ExpiredBefore (block_num : BlockNumber).

Inductive NoteFilter :=
| NoteFilter_All
| NoteFilter_Committed
| NoteFilter_Consumed
| NoteFilter_Expected
| NoteFilter_List (ids : list NoteId)
| NoteFilter_Nullifiers (nullifiers : list Nullifier)
| NoteFilter_Processing
| NoteFilter_Unique (id : NoteId)
| NoteFilter_Unspent
| NoteFilter_Unverified.

Inductive BlockRelevance := HasNotes | Irrelevant.

Definition BlockRelevance_to_bool (val : BlockRelevance) : bool :=
  match val with HasNotes => true | Irrelevant => false end.
Definition BlockRelevance_from_bool (has_notes : bool) : BlockRelevance :=
  if has_notes then HasNotes else Irrelevant.

Inductive AccountStorageFilter :=
| StorageFilter_All
| StorageFilter_Root (root : Word)
| StorageFilter_SlotName (name : StorageSlotName).

(** ** Note tags ([sync/tag.rs]) *)

Inductive NoteTagSource :=
| NoteTagSource_Account (account_id : AccountId)
| NoteTagSource_Note (note_id : NoteId)
| NoteTagSource_User.

#[export] Instance NoteTagSource_eq_dec : EqDecision NoteTagSource.
Proof. solve_decision. Defined.

Record NoteTagRecord := {
  ntr_tag : NoteTag;
  ntr_source : NoteTagSource
}.

#[export] Instance NoteTagRecord_eq_dec : EqDecision NoteTagRecord.
Proof. solve_decision. Defined.

Definition with_note_source (tag : NoteTag) (note_id : NoteId) : NoteTagRecord :=
  {| ntr_tag := tag; ntr_source := NoteTagSource_Note note_id |}.
Definition with_account_source (tag : NoteTag) (account_id : AccountId) : NoteTagRecord :=
  {| ntr_tag := tag; ntr_source := NoteTagSource_Account account_id |}.

Definition NoteTagSource_codec : codec NoteTagSource := Codec
  (λ self,
    match self with
    | NoteTagSource_Account account_id => write_u8 0 ++ write_into AccountId_codec account_id
    | NoteTagSource_Note note_id => write_u8 1 ++ write_into NoteId_codec note_id
    | NoteTagSource_User => write_u8 2
    end)
  (tag <~ read_u8 ;;
   if tag =? 0 then account_id <~ read_from AccountId_codec ;; rret (NoteTagSource_Account account_id)
   else if tag =? 1 then note_id <~ read_from NoteId_codec ;; rret (NoteTagSource_Note note_id)
   else if tag =? 2 then rret NoteTagSource_User
   else rerr (InvalidValue "Invalid tag source")).

(** [From<&Account>] and [TryInto] of an input note record. *)
Definition NoteTagRecord_of_account (account : Account) : NoteTagRecord :=
  with_account_source (NoteTag_with_account_target (Account_id account)) (Account_id account).
Definition NoteTagRecord_of_note (note : InputNoteRecord) : result NoteRecordError NoteTagRecord :=
  match InputNoteRecord_metadata note with
  | Some metadata => Ok (with_note_source (NoteMetadata_tag metadata) (InputNoteRecord_id note))
  | None => Err (ConversionError "Input Note Record does not contain tag")
  end.

(** ** Settings *)

(** [u64::to_be_bytes] and [from_be_bytes]. *)
Fixpoint be_bytes (n : nat) (z : Z) : bytes :=
  match n with O => [] | S n => be_bytes n (z / 256) ++ [z mod 256] end.
Definition to_be_bytes (z : u64) : bytes := be_bytes 8 z.
Definition from_be_bytes (b : bytes) : u64 := foldl (λ acc x, acc * 256 + x) 0 b.

Definition NOTE_TRANSPORT_CURSOR_STORE_SETTING : string := "note_transport_cursor".
Definition RPC_LIMITS_STORE_SETTING : string := "rpc_limits".

(** ** The interface

    The methods of [Store] that have no default implementation, as computations on the
    state [S] of the store. *)
Class StoreOps (S : Type) := {
  get_transactions : TransactionFilter → dbm StoreError S (list TransactionRecord);
  get_input_notes : NoteFilter → dbm StoreError S (list InputNoteRecord);
  get_output_notes : NoteFilter → dbm StoreError S (list OutputNoteRecord);
  upsert_input_notes : list InputNoteRecord → dbm StoreError S ();
  get_block_headers : gset BlockNumber → dbm StoreError S (list (BlockHeader * BlockRelevance));
  get_tracked_block_header_numbers : dbm StoreError S (gset Z);
  get_partial_blockchain_nodes : PartialBlockchainFilter → dbm StoreError S (gmap InOrderIndex Word);
  insert_partial_blockchain_nodes : list (InOrderIndex * Word) → dbm StoreError S ();
  get_partial_blockchain_peaks_by_block_num : BlockNumber → dbm StoreError S MmrPeaks;
  insert_block_header : BlockHeader → MmrPeaks → bool → dbm StoreError S ();
  prune_irrelevant_blocks : dbm StoreError S ();
  get_account_headers : dbm StoreError S (list (AccountHeader * AccountStatus));
  get_account_vault : AccountId → dbm StoreError S AssetVault;
  get_account_storage : AccountId → AccountStorageFilter → dbm StoreError S AccountStorage;
  set_setting : string → bytes → dbm StoreError S ();
  get_setting : string → dbm StoreError S (option bytes);
  get_note_tags : dbm StoreError S (list NoteTagRecord);
  get_unique_note_tags : dbm StoreError S (gset NoteTag);
  add_note_tag : NoteTagRecord → dbm StoreError S bool;
  remove_note_tag : NoteTagRecord → dbm StoreError S Z;
  get_sync_height : dbm StoreError S BlockNumber;
  apply_state_sync : StateSyncUpdate → dbm StoreError S ()
}.

Section defaults.
Context {St : Type} `{!StoreOps St}.

(** *** Default methods *)

(** The list that comes back is popped from the end. *)
Definition get_block_header_by_num (block_number : BlockNumber) :
    dbm StoreError St (option (BlockHeader * BlockRelevance)) :=
  block_headers_list ← get_block_headers {[ block_number ]};
  mret (last block_headers_list).

Definition default_get_unique_note_tags : dbm StoreError St (gset NoteTag) :=
  tags ← get_note_tags; mret (list_to_set (ntr_tag <$> tags)).

Definition default_get_unspent_input_note_nullifiers : dbm StoreError St (list Nullifier) :=
  notes ← get_input_notes NoteFilter_Unspent; mret (InputNoteRecord_nullifier <$> notes).

Definition get_note_transport_cursor : dbm StoreError St u64 :=
  stored ← get_setting NOTE_TRANSPORT_CURSOR_STORE_SETTING;
  cursor_bytes ← match stored with
    | Some bytes => mret bytes
    | None =>
        let initial := to_be_bytes 0 in
        set_setting NOTE_TRANSPORT_CURSOR_STORE_SETTING initial;; mret initial
    end;
  if bool_decide (length cursor_bytes = 8%nat) then mret (from_be_bytes cursor_bytes)
  else db_fail (Store_ParsingError "could not convert slice to array").

Definition update_note_transport_cursor (cursor : u64) : dbm StoreError St () :=
  set_setting NOTE_TRANSPORT_CURSOR_STORE_SETTING (to_be_bytes cursor).

Definition store_get_rpc_limits : dbm StoreError St (option RpcLimits) :=
  stored ← get_setting RPC_LIMITS_STORE_SETTING;
  match stored with
  | None => mret None
  | Some bytes =>
      match read_from_bytes RpcLimits_codec bytes with
      | Ok limits => mret (Some limits)
      | Err e => db_fail (Store_DataDeserializationError e)
      end
  end.

Definition set_rpc_limits (limits : RpcLimits) : dbm StoreError St () :=
  set_setting RPC_LIMITS_STORE_SETTING (write_into RpcLimits_codec limits).

(** The forest of a partial MMR is its number of leaves. *)
Definition get_current_partial_mmr : dbm StoreError St PartialMmr :=
  current_block_num ← get_sync_height;
  current_peaks ← get_partial_blockchain_peaks_by_block_num current_block_num;
  current ← get_block_header_by_num current_block_num;
  match current with
  | None => db_fail (Store_BlockHeaderNotFound current_block_num)
  | Some (current_block, relevance) =>
      let has_client_notes := BlockRelevance_to_bool relevance in
      let current_partial_mmr :=
        (mmr_add (PartialMmr_from_peaks current_peaks) (BlockHeader_commitment current_block)
          has_client_notes).1 in
      let forest := mmr_num_leaves current_partial_mmr in
      tracked_leaves ← get_tracked_block_header_numbers;
      let tracked_leaves :=
        if has_client_notes && Forest_has_single_leaf_tree forest
        then tracked_leaves ∪ {[ Z.max 0 (forest - 1) ]} else tracked_leaves in
      tracked_nodes ← get_partial_blockchain_nodes (PartialBlockchain_Forest forest);
      match PartialMmr_from_parts (mmr_peaks current_partial_mmr) tracked_nodes tracked_leaves with
      | Ok mmr => mret mmr
      | Err e => db_fail (Store_MmrError e)
      end
  end.
End defaults.
End store.

Section laws.
Context `{StoreLaws} `{!SerdeLaws}.

#[export] Instance NoteTagSource_codec_ok : CodecOk NoteTagSource_codec any.
Proof. intros s rest _. destruct s; unfold NoteTagSource_codec; simpl; roundtrip. Qed.

(** ** Big-endian integers *)

Lemma be_bytes_length n z : length (be_bytes n z) = n.
Proof. revert z. induction n as [|n IH]; intros z; [done|]. cbn. rewrite length_app, IH. simpl. lia. Qed.

Lemma be_bytes_roundtrip n z : 0 ≤ z < 256 ^ Z.of_nat n → from_be_bytes (be_bytes n z) = z.
Proof.
  unfold from_be_bytes. revert z. induction n as [|n IH]; intros z Hz.
  - cbn in *. lia.
  - rewrite Nat2Z.inj_succ, Z.pow_succ_r in Hz by lia.
    cbn [be_bytes]. rewrite foldl_app. cbn [foldl]. rewrite IH.
    + rewrite (Z_div_mod_eq_full z 256) at 3. lia.
    + split; [apply Z.div_pos; lia|]. apply Z.div_lt_upper_bound; lia.
Qed.

Lemma cursor_bytes_roundtrip z : in_range U64_MAX z → from_be_bytes (to_be_bytes z) = z.
Proof. intros [Hl Hu]. apply be_bytes_roundtrip. unfold U64_MAX in Hu. simpl. lia. Qed.
End laws.

(** ** A concrete encoding *)

Definition toy_noteid_of (w : Z) : Z * Z := default (0, 0) (decode (Z.to_pos w)).
Definition toy_noteid_word (n : Z * Z) : Z := Zpos (encode n).
Definition toy_nullifier_word (n : (Z * Z) * (Z * Z)) : Z := Zpos (encode n).
Definition toy_nullifier_text (n : (Z * Z) * (Z * Z)) : string := z_to_text (toy_nullifier_word n).
Definition toy_nullifier_of (s : string) : result foreign ((Z * Z) * (Z * Z)) :=
  z ← ok_or (text_to_z s) "hex"%string; ok_or (decode (Z.to_pos z)) "nullifier"%string.

#[export] Instance toy_store_lib : @StoreLib toy_protocol toy_account_lib toy_serde toy_mmr := {|
  NoteId_as_word := toy_noteid_word;
  NoteId_from_raw := toy_noteid_of;
  Nullifier_to_hex := toy_nullifier_text;
  Nullifier_to_string := toy_nullifier_text;
  Nullifier_from_hex := toy_nullifier_of;
  NoteAssets_codec := toy_assets_codec;
  NoteStorage := unit;
  NoteStorage_codec := iso_codec cell_codec (λ _, ()) (λ _, 0);
  NoteScript_codec := cell_codec;
  NoteScript_from_bytes := λ b, read_from_bytes cell_codec b;
  NoteScript_root := λ s, (s : @Word toy_protocol);
  NoteRecipient_new := λ w _ _, (w : @NoteRecipient toy_protocol);
  NoteRecipient_script := λ r, (r : @NoteScript toy_protocol);
  NoteRecipient_storage := λ _, ();
  TransactionId_to_hex := z_to_text;
  TransactionId_to_string := z_to_text;
  TransactionId_from_raw := λ w, (w : @TransactionId toy_protocol);
  TransactionScript_codec := cell_codec;
  TransactionScript_root := λ s, (s : @Word toy_protocol);
  BlockHeader_codec := le_pair_codec cell_codec cell_codec;
  MmrPeaks_forest := λ p, p;
  MmrPeaks_peaks := λ p, [(p : @Word toy_protocol)];
  MmrPeaks_new := λ forest l, match l with [p] => Ok p | _ => Ok 0 end;
  InOrderIndex_inner := λ i, i;
  InOrderIndex_new := λ i, i;
  Forest_rightmost_in_order_index := λ forest, 2 * forest - 1;
  Forest_has_single_leaf_tree := λ forest, Z.odd forest;
  PartialMmr_from_peaks := λ p, (p, []);
  PartialMmr_from_parts := λ p nodes leaves,
    Ok (p, (λ i, (i, default 0 (nodes !! i))) <$> elements leaves);
  NoteTag_with_account_target := λ a, a
|}.

#[export] Instance toy_store_laws : StoreLaws.
Proof.
  split; simpl; try done.
  - intros n m [= Hnm]. by apply (inj encode) in Hnm.
  - intros n. unfold toy_nullifier_of, toy_nullifier_text. rewrite text_roundtrip. simpl. by rewrite decode_encode.
  - apply toy_assets_codec_ok.
  - eapply (iso_codec_ok _ _ _ any); [by intros []|intros; apply any_intro|apply cell_codec_ok].
  - intros w t Hwt. apply (f_equal text_to_z) in Hwt. rewrite !text_roundtrip in Hwt. congruence.
  - intros t. by exists t.
  - apply pair_any_ok; apply cell_codec_ok.
Qed.
