(* ===== verification/ChainDb.v ===== *)
(** * Block headers and the partial chain in the SQLite store

    [sqlite-store/src/chain_data.rs]: block headers with the peaks at their height and
    whether the client has notes in them, and the nodes of the partial MMR. *)

From S2P Require Import Prelude Protocol Serde Model NoteStates InputNote OutputNote TxRecord.
From S2P Require Import TxTracker Errors NoteTracker Rpc SyncUpdate AccountTypes SmtForest Sql Store Db.
From Stdlib Require Import ZArith Lia Ascii.
From stdpp Require Import base gmap list strings sorting.

Open Scope Z_scope.

Section chain.
Context `{StoreLib}.

(** Computations on the tables. *)
Definition db_m (A : Type) : Type := dbm StoreError Db A.
Definition db_do (f : Db → Db) : db_m () := db_exec (λ db, Ok (f db)).
Lemma db_do_Ok f db db' u : db_do f db = Finished (db', Ok u) ↔ db' = f db.
Proof. unfold db_do, db_exec. destruct u. naive_solver. Qed.
(** [conn.transaction()] on the tables alone. *)
Definition db_transaction {A} (m : db_m A) : db_m A := with_transaction id (λ db _, db) m.

Definition deserialization {A} (m : result DeserializationError A) : result StoreError A :=
  map_err Store_DataDeserializationError m.

(** ** Writing *)

(** Only a row with [FALSE] is updated. *)
Definition set_block_header_has_client_notes (block_num : u64) (has_client_notes : bool) (db : Db) : Db :=
  set_block_headers (update_where (λ n row, (n =? block_num) && negb (bhr_has_client_notes row))
    (λ row, {| bhr_header := bhr_header row;
               bhr_partial_blockchain_peaks := bhr_partial_blockchain_peaks row;
               bhr_has_client_notes := has_client_notes |}) (block_headers db)) db.

Definition serialize_block_header (block_header : BlockHeader) (partial_blockchain_peaks : list Word)
    (has_client_notes : bool) : BlockHeaderRow := {|
  bhr_header := write_into BlockHeader_codec block_header;
  bhr_partial_blockchain_peaks := write_into (vec_codec Word_codec) partial_blockchain_peaks;
  bhr_has_client_notes := has_client_notes
|}.

Definition insert_block_header_tx (block_header : BlockHeader) (partial_blockchain_peaks : MmrPeaks)
    (has_client_notes : bool) (db : Db) : Db :=
  let row := serialize_block_header block_header (MmrPeaks_peaks partial_blockchain_peaks)
    has_client_notes in
  let block_num := BlockHeader_block_num block_header in
  let db := set_block_headers (insert_ignore block_num row (block_headers db)) db in
  set_block_header_has_client_notes block_num has_client_notes db.

Definition sqlite_insert_block_header (block_header : BlockHeader) (partial_blockchain_peaks : MmrPeaks)
    (has_client_notes : bool) : db_m () :=
  db_transaction (db_do (insert_block_header_tx block_header partial_blockchain_peaks has_client_notes)).

(** [i64::try_from(id.inner()).expect("id is a valid i64")]. *)
Definition node_id (id : InOrderIndex) : option Z :=
  if InOrderIndex_inner id <=? I64_MAX then Some (InOrderIndex_inner id) else None.

Definition insert_partial_blockchain_node (entry : InOrderIndex * Word) : db_m () :=
  match node_id entry.1 with
  | Some id => db_do (λ db, set_partial_blockchain_nodes
      (insert_ignore id (Word_to_hex entry.2) (partial_blockchain_nodes db)) db)
  | None => db_panic
  end.

Definition insert_partial_blockchain_nodes_tx (nodes : list (InOrderIndex * Word)) : db_m () :=
  db_each insert_partial_blockchain_node nodes.

Definition sqlite_insert_partial_blockchain_nodes (nodes : list (InOrderIndex * Word)) : db_m () :=
  db_transaction (insert_partial_blockchain_nodes_tx nodes).

(** [BlockNumber::GENESIS] is 0. *)
Definition prune_blocks (db : Db) : Db :=
  match head (state_sync db) with
  | Some sync_height =>
      set_block_headers (delete_where (λ block_num row,
        negb (bhr_has_client_notes row) && (0 <? block_num) && (block_num <? sync_height))
        (block_headers db)) db
  | None => db
  end.
Definition sqlite_prune_irrelevant_blocks : db_m () := db_transaction (db_do prune_blocks).

(** ** Reading *)

Definition parse_block_header (row : BlockHeaderRow) : result StoreError (BlockHeader * BlockRelevance) :=
  header ← deserialization (read_from_bytes BlockHeader_codec (bhr_header row));
  Ok (header, BlockRelevance_from_bool (bhr_has_client_notes row)).

Definition sqlite_get_block_headers (block_numbers : gset BlockNumber) :
    db_m (list (BlockHeader * BlockRelevance)) :=
  db_read (λ db, try_map (λ row, parse_block_header row.2)
    (select_where (λ block_num _, bool_decide (block_num ∈ block_numbers)) (block_headers db))).

Definition sqlite_get_tracked_block_headers : db_m (list BlockHeader) :=
  db_read (λ db, try_map (λ row, fst <$> parse_block_header row.2)
    (select_where (λ _ row, bhr_has_client_notes row) (block_headers db))).

Definition sqlite_get_tracked_block_header_numbers : db_m (gset Z) :=
  db_read (λ db, Ok (list_to_set
    ((select_where (λ _ row, bhr_has_client_notes row) (block_headers db)).*1))).

(** A row of the nodes table; [NonZeroUsize::new(..).unwrap()] panics on zero. *)
Definition parse_partial_blockchain_nodes (row : Z * string) : eff StoreError (InOrderIndex * Word) :=
  _ ← (if row.1 <? 0 then lift (Err (Store_ParsingError "integer out of range")) else mret ());
  if row.1 =? 0 then Panicked
  else lift (node ← ok_or (Word_try_from row.2) Store_WordError; Ok (InOrderIndex_new row.1, node)).

Definition query_partial_blockchain_nodes (p : Z → bool) (db : Db) :
    eff StoreError (gmap InOrderIndex Word) :=
  foldl (λ acc row, m ← acc; entry ← parse_partial_blockchain_nodes row; mret (<[entry.1 := entry.2]> m))
    (mret ∅) (select_where (λ id _, p id) (partial_blockchain_nodes db)).

Definition db_get {A} (f : Db → eff StoreError A) : db_m A := λ db,
  match f db with
  | Finished r => Finished (db, r)
  | Panicked => Panicked
  | OutOfFuel => OutOfFuel
  end.

Definition sqlite_get_partial_blockchain_nodes (filter : PartialBlockchainFilter) :
    db_m (gmap InOrderIndex Word) :=
  match filter with
  | PartialBlockchain_All => db_get (query_partial_blockchain_nodes (λ _, true))
  | PartialBlockchain_List [] => mret ∅
  | PartialBlockchain_List ids =>
      match mapM node_id ids with
      | Some id_values => db_get (query_partial_blockchain_nodes (λ id, bool_decide (id ∈ id_values)))
      | None => db_panic
      end
  | PartialBlockchain_Forest forest =>
      if forest =? 0 then mret ∅
      else match node_id (Forest_rightmost_in_order_index forest) with
        | Some max_index => db_get (query_partial_blockchain_nodes (λ id, id <=? max_index))
        | None => db_panic
        end
  end.

Definition parse_partial_blockchain_peaks (forest : u32) (peaks_nodes : bytes) : result StoreError MmrPeaks :=
  mmr_peaks_nodes ← deserialization (read_from_bytes (vec_codec Word_codec) peaks_nodes);
  map_err Store_MmrError (MmrPeaks_new forest mmr_peaks_nodes).

Definition sqlite_get_partial_blockchain_peaks_by_block_num (block_num : BlockNumber) : db_m MmrPeaks :=
  db_read (λ db,
    match block_headers db !! block_num with
    | Some row => parse_partial_blockchain_peaks block_num (bhr_partial_blockchain_peaks row)
    | None => map_err Store_MmrError (MmrPeaks_new 0 [])
    end).

(** [sync.rs]: [get_sync_height]; [u32::try_from(v).expect(..)] and the [expect] on a
    missing row panic. *)
Definition sqlite_get_sync_height : db_m BlockNumber :=
  db_get (λ db, v ← expect (head (state_sync db)); expect (try_from U32_MAX v)).
End chain.
