(* ===== verification/AccountReaders.v ===== *)
(** * Reading and adding accounts in the SQLite store

    [sqlite-store/src/account]: the queries of [accounts.rs] and [helpers.rs] that build
    account records, storage and vaults from the tables, the witnesses that come from
    the forest, and the insertion of a new account with its first address. *)

From S2P Require Import Prelude Stable Protocol Serde Model NoteStates Errors.
From S2P Require Import InputNote OutputNote TxRecord TxTracker NoteTracker Rpc SyncUpdate.
From S2P Require Import AccountTypes SmtForest Sql Versioned Store Db AccountDb ChainDb.
From Stdlib Require Import ZArith Lia Ascii.
From stdpp Require Import base gmap list strings sorting.

Open Scope Z_scope.

(** Constructors of partial accounts, which check what they are given: the header of a
    storage sorted by slot identifier, and the maps of the slots. *)
Class PartialAccountLib `{AccountLib} := {
  StorageSlotId : Type;
  StorageSlotId_key :: KeyType StorageSlotId;
  StorageSlotName_id : StorageSlotName → StorageSlotId;
  AccountStorageHeader_new :
    list (StorageSlotName * StorageSlotType * Word) →
    result foreign (list (StorageSlotName * StorageSlotType * Word));
  PartialStorage_new :
    list (StorageSlotName * StorageSlotType * Word) → list PartialStorageMap → result foreign ();
  PartialAccount_new : PartialAccount → result foreign PartialAccount
}.

Section readers.
Context `{StoreLib} `{!SmtForestLib} `{!PartialAccountLib}.

(** ** Headers *)

Definition get_account_ids (db : Db) : eff StoreError (list AccountId) :=
  foldr (λ row acc, id ← expect (AccountId_from_hex row.1); ids ← acc; mret (id :: ids))
    (mret []) (map_to_list (latest_account_headers db)).

(** [SELECT ... ORDER BY id]. *)
Definition sqlite_get_account_headers (db : Db) : eff StoreError (list (AccountHeader * AccountStatus)) :=
  foldr (λ row acc, header ← parse_accounts row.2; headers ← acc; mret (header :: headers))
    (mret []) (order_by (KeyType0 := string_key) fst (map_to_list (latest_account_headers db))).

Definition get_account_code_by_id (db : Db) (account_id : AccountId) :
    eff StoreError (option AccountCode) :=
  header ← get_account_header db account_id;
  match header with
  | Some (header, _) => lift (query_account_code db (AccountHeader_code_commitment header))
  | None => mret None
  end.

(** ** Addresses and foreign code *)

Definition query_account_addresses (db : Db) (account_id : AccountId) :
    result StoreError (list Address) :=
  try_map (λ row, ok_or (Address_from_bytes row.1)
      (Store_DataDeserializationError (InvalidValue "Address")))
    (select_where (λ _ id, bool_decide (id = AccountId_to_hex account_id)) (addresses db)).

(** The join with the table of codes, collected by account. *)
Definition get_foreign_account_code (db : Db) (account_ids : list AccountId) :
    result StoreError (gmap AccountId AccountCode) :=
  rows ← try_map (λ row : string * bytes,
      account_id ← ok_or (AccountId_from_hex row.1) (Store_AccountError "account id");
      code ← map_err Store_AccountError (AccountCode_from_bytes row.2);
      Ok (account_id, code))
    (omap (λ row : string * string, code ← account_code db !! row.2; Some (row.1, code))
      (select_where (λ id _, bool_decide (id ∈ AccountId_to_hex <$> account_ids))
        (foreign_account_code db)));
  Ok (list_to_map (reverse rows)).

(** ** Storage *)

(** A row of the table of slots. *)
Definition parse_slot (row : (string * string) * (string * Z)) :
    result StoreError (StorageSlotName * Word * StorageSlotType) :=
  slot_name ← ok_or (StorageSlotName_new row.1.2) (Store_ParsingError "slot name");
  slot_type ← ok_or (StorageSlotType_try_from row.2.2) (Store_ParsingError "slot type");
  value ← ok_or (Word_try_from row.2.1) Store_WordError;
  Ok (slot_name, value, slot_type).

Definition query_storage_values (db : Db) (account_id : AccountId) :
    result StoreError (gmap StorageSlotName (StorageSlotType * Word)) :=
  rows ← try_map parse_slot
    (select_where (λ key _, bool_decide (key.1 = AccountId_to_hex account_id))
      (latest_account_storage db));
  Ok (btree_collect ((λ r : StorageSlotName * Word * StorageSlotType, (r.1.1, (r.2, r.1.2))) <$> rows)).

(** A row of the table of map entries. *)
Definition parse_map_entry (row : (string * (string * string)) * string) :
    result StoreError (StorageSlotName * StorageMapKey * Word) :=
  slot_name ← ok_or (StorageSlotName_new row.1.2.1) (Store_ParsingError "slot name");
  key ← ok_or (Word_try_from row.1.2.2) Store_WordError;
  value ← ok_or (Word_try_from row.2) Store_WordError;
  Ok (slot_name, StorageMapKey_new key, value).

Definition query_storage_maps (db : Db) (account_id : AccountId) (slot_name_filter : option string) :
    result StoreError (gmap StorageSlotName StorageMap) :=
  map_entries ← try_map parse_map_entry
    (select_where (λ key _, bool_decide (key.1 = AccountId_to_hex account_id) &&
        match slot_name_filter with Some name => bool_decide (key.2.1 = name) | None => true end)
      (latest_storage_map_entries db));
  try_fold (λ (maps : gmap StorageSlotName StorageMap) entry,
    let '(slot_name, key, value) := entry in
    map ← map_err Store_StorageMapError
      (StorageMap_insert (default StorageMap_default (maps !! slot_name)) key value);
    Ok (<[slot_name := map]> maps)) map_entries ∅.

(** The condition of an [AccountStorageFilter] on a slot. *)
Definition slot_condition (filter : AccountStorageFilter) (slot_name slot_value : string) : bool :=
  match filter with
  | StorageFilter_All => true
  | StorageFilter_SlotName name => bool_decide (slot_name = StorageSlotName_to_string name)
  | StorageFilter_Root root => bool_decide (slot_value = Word_to_hex root)
  end.

(** [storage_maps.remove(&slot_name)] takes the map out. *)
Definition query_storage_slots (db : Db) (account_id : AccountId) (filter : AccountStorageFilter) :
    result StoreError (gmap StorageSlotName (Word + StorageMap)) :=
  storage_values ← try_map parse_slot
    (select_where (λ key row, bool_decide (key.1 = AccountId_to_hex account_id) &&
        slot_condition filter key.2 row.1) (latest_account_storage db));
  let map_filter := match filter with
    | StorageFilter_SlotName name => Some (StorageSlotName_to_string name) | _ => None end in
  let has_map_slots := existsb (λ r, bool_decide (r.2 = SlotType_Map)) storage_values in
  storage_maps ← (if has_map_slots then query_storage_maps db account_id map_filter else Ok ∅);
  Ok (foldl (λ acc (r : StorageSlotName * Word * StorageSlotType),
    let '(slots, storage_maps) := acc in
    let '(slot_name, value, slot_type) := r in
    match slot_type with
    | SlotType_Value => (<[slot_name := inl value]> slots, storage_maps)
    | SlotType_Map =>
        (<[slot_name := inr (default StorageMap_default (storage_maps !! slot_name))]> slots,
         base.delete slot_name storage_maps)
    end) ((∅ : gmap StorageSlotName (Word + StorageMap)), storage_maps) storage_values).1.

Definition sqlite_get_account_storage (db : Db) (account_id : AccountId) (filter : AccountStorageFilter) :
    result StoreError AccountStorage :=
  slots ← query_storage_slots db account_id filter;
  map_err Store_AccountError (AccountStorage_new (btree_to_list slots)).

Definition sqlite_get_account_vault (db : Db) (account_id : AccountId) : result StoreError AssetVault :=
  assets ← query_vault_assets db account_id;
  map_err Store_AssetVaultError (AssetVault_new assets).

(** ** Accounts *)

Definition get_account (db : Db) (account_id : AccountId) : eff StoreError (option AccountRecord) :=
  found ← get_account_header db account_id;
  match found with
  | None => mret None
  | Some (header, status) =>
      vault ← lift (sqlite_get_account_vault db account_id);
      storage ← lift (sqlite_get_account_storage db account_id StorageFilter_All);
      code ← lift (query_account_code db (AccountHeader_code_commitment header));
      match code with
      | None => mret None
      | Some account_code =>
          let account := Account_new_unchecked (AccountHeader_id header) vault storage account_code
            (AccountHeader_nonce header) (AccountStatus_seed status) in
          mret (Some (AccountRecord_new (AccountRecordData_Full account) status))
      end
  end.

Definition get_minimal_partial_account (db : Db) (account_id : AccountId) :
    eff StoreError (option AccountRecord) :=
  found ← get_account_header db account_id;
  match found with
  | None => mret None
  | Some (header, status) =>
      storage_values ← lift (query_storage_values db account_id);
      let slots := (λ s : StorageSlotName * (StorageSlotType * Word), (s.1, s.2.1, s.2.2)) <$>
        btree_to_list storage_values in
      let maps := (λ s, PartialStorageMap_new s.2) <$> filter (λ s, s.1.2 = SlotType_Map) slots in
      storage_header ← lift (map_err Store_AccountError (AccountStorageHeader_new
        (sort_by_key (λ s, StorageSlotName_id s.1.1) slots)));
      _ ← lift (map_err Store_AccountError (PartialStorage_new storage_header maps));
      code ← lift (query_account_code db (AccountHeader_code_commitment header));
      match code with
      | None => mret None
      | Some account_code =>
          partial_account ← lift (map_err Store_AccountError (PartialAccount_new {|
            partial_id := AccountHeader_id header;
            partial_nonce := AccountHeader_nonce header;
            partial_code := account_code;
            partial_storage_header := storage_header;
            partial_maps := maps;
            partial_vault := PartialVault_new (AccountHeader_vault_root header);
            partial_seed := AccountStatus_seed status |}));
          mret (Some (AccountRecord_new (AccountRecordData_Partial partial_account) status))
      end
  end.

(** ** Witnesses from the forest *)

(** The header of an account that must be there. *)
Definition tracked_header (db : Db) (account_id : AccountId) : eff StoreError AccountHeader :=
  found ← get_account_header db account_id;
  lift (fst <$> ok_or found (Store_AccountDataNotFound account_id)).

Definition get_account_asset (s : StoreState) (account_id : AccountId) (vault_key : AssetVaultKey) :
    eff StoreError (option (Asset * AssetWitness)) :=
  header ← tracked_header (st_db s) account_id;
  lift match get_asset_and_witness (st_forest s) (AccountHeader_vault_root header) vault_key with
    | Ok found => Ok (Some found)
    | Err (Store_MerkleStoreError (Merkle_UntrackedKey _)) => Ok None
    | Err err => Err err
    end.

Definition get_account_map_item (s : StoreState) (account_id : AccountId)
    (slot_name : StorageSlotName) (key : StorageMapKey) :
    eff StoreError (Word * StorageMapWitness) :=
  header ← tracked_header (st_db s) account_id;
  lift (
    storage_values ← query_storage_values (st_db s) account_id;
    '(slot_type, map_root) ← ok_or (storage_values !! slot_name)
      (Store_AccountStorageRootNotFound (AccountHeader_storage_commitment header));
    if bool_decide (slot_type = SlotType_Map) then
      witness ← get_storage_map_item_witness (st_forest s) map_root key;
      Ok (default EMPTY_WORD (StorageMapWitness_get witness key), witness)
    else Err (Store_AccountError "storage slot is not a map")).

(** ** Tags and addresses *)

Definition add_note_tag_tx (tag : NoteTagRecord) (db : Db) : Db :=
  set_tags (tags db ++
    [(write_into NoteTag_codec (ntr_tag tag), write_into NoteTagSource_codec (ntr_source tag))]) db.

(** The rows of a tag. *)
Definition is_tag (tag : NoteTagRecord) (row : bytes * bytes) : bool :=
  bool_decide (row.1 = write_into NoteTag_codec (ntr_tag tag)) &&
  bool_decide (row.2 = write_into NoteTagSource_codec (ntr_source tag)).

(** The number of rows that were deleted comes back. *)
Definition remove_note_tag_tx (tag : NoteTagRecord) (db : Db) : Db * Z :=
  (set_tags (filter (λ row, is_tag tag row = false) (tags db)) db,
   Z.of_nat (length (filter (λ row, is_tag tag row = true) (tags db)))).

Definition insert_address (address : Address) (account_id : AccountId) (db : Db) : Db :=
  let derived_note_tag := Address_to_note_tag address in
  let note_tag_record := with_account_source derived_note_tag account_id in
  insert_address_internal address account_id (add_note_tag_tx note_tag_record db).

(** [remove_address] and [insert_address] of the store, in a transaction. *)
Definition remove_address (address : Address) (account_id : AccountId) : store_m () :=
  let note_tag_record := with_account_source (Address_to_note_tag address) account_id in
  in_transaction (
    on_db (λ db, Ok (remove_note_tag_tx note_tag_record db).1);;
    on_db (λ db, Ok (remove_address_internal address db))).

Definition store_insert_address (address : Address) (account_id : AccountId) : store_m () :=
  in_transaction (on_db (λ db, Ok (insert_address address account_id db))).

(** ** A new account *)

(** The tables are committed before the forest is changed. *)
Definition insert_account (account : Account) (initial_address : Address) : store_m () :=
  in_transaction (
    on_db (insert_account_code (Account_code account));;
    on_db (λ db, Ok (insert_storage_slots (Account_id account)
      (AccountStorage_slots (Account_storage account)) db));;
    on_db (λ db, Ok (insert_assets (Account_id account)
      (AssetVault_assets (Account_vault account)) db));;
    on_db (insert_account_header (Account_to_header account) (Account_seed account) None);;
    on_db (λ db, Ok (insert_address initial_address (Account_id account) db)));;
  on_forest_panics (λ f, insert_and_register_account_state f (Account_id account)
    (Account_vault account) (Account_storage account)).
End readers.
