(* ===== verification/NoteDb.v ===== *)
(** * Notes in the SQLite store

    [sqlite-store/src/note]: the rows of input and output notes, the queries of
    [filters.rs] and the batched writes of the changes of a sync or a transaction. *)

From S2P Require Import Prelude Protocol Serde Model NoteStates InputNote OutputNote TxRecord.
From S2P Require Import TxTracker Errors NoteTracker Rpc SyncUpdate AccountTypes SmtForest Sql Store Db.
From S2P Require Import ChainDb.
From Stdlib Require Import ZArith Lia Ascii.
From stdpp Require Import base gmap list strings sorting.

Open Scope Z_scope.

Section notes.
Context `{StoreLib}.

Definition INPUT_NOTE_BATCH_SIZE : nat := 50.
Definition OUTPUT_NOTE_BATCH_SIZE : nat := 80.
Definition SCRIPT_BATCH_SIZE : nat := 200.

(** ** Serialized notes *)

(** A row with its key and the script that goes to the table of scripts. *)
Record SerializedInputNoteData := {
  sin_id : string;
  sin_script : bytes;
  sin_row : InputNoteRow
}.

Definition serialize_input_note (note : InputNoteRecord) : SerializedInputNoteData :=
  let details := in_details note in
  let recipient := NoteDetails_recipient details in
  {| sin_id := Word_to_string (NoteId_as_word (InputNoteRecord_id note));
     sin_script := write_into NoteScript_codec (NoteRecipient_script recipient);
     sin_row := {|
       inr_assets := write_into NoteAssets_codec (NoteDetails_assets details);
       inr_serial_number := write_into Word_codec (NoteRecipient_serial_num recipient);
       inr_inputs := write_into NoteStorage_codec (NoteRecipient_storage recipient);
       inr_script_root := Word_to_hex (NoteScript_root (NoteRecipient_script recipient));
       inr_nullifier := Nullifier_to_hex (InputNoteRecord_nullifier note);
       inr_state_discriminant := InputNoteState_discriminant (in_state note);
       inr_state := write_into InputNoteState_codec (in_state note);
       inr_created_at := default 0 (in_created_at note);
       inr_consumed_block_height := consumed_block_height (in_state note);
       inr_consumed_tx_order := consumed_tx_order (in_state note);
       inr_consumer_account_id := AccountId_to_hex <$> InputNoteRecord_consumer_account note
     |} |}.

(** The columns a change of state touches. *)
Record SerializedInputNoteStateUpdate := {
  sis_id : string;
  sis_state_discriminant : u8;
  sis_state : bytes;
  sis_consumed_block_height : option u32;
  sis_consumed_tx_order : option u32;
  sis_consumer_account_id : option string
}.

Definition serialize_input_note_state (note : InputNoteRecord) : SerializedInputNoteStateUpdate := {|
  sis_id := Word_to_string (NoteId_as_word (InputNoteRecord_id note));
  sis_state_discriminant := InputNoteState_discriminant (in_state note);
  sis_state := write_into InputNoteState_codec (in_state note);
  sis_consumed_block_height := consumed_block_height (in_state note);
  sis_consumed_tx_order := consumed_tx_order (in_state note);
  sis_consumer_account_id := AccountId_to_hex <$> InputNoteRecord_consumer_account note
|}.

Definition serialize_output_note (note : OutputNoteRecord) : string * OutputNoteRow :=
  (Word_to_string (NoteId_as_word (OutputNoteRecord_id note)),
   {| onr_recipient_digest := Word_to_hex (out_recipient_digest note);
      onr_assets := write_into NoteAssets_codec (out_assets note);
      onr_metadata := write_into NoteMetadata_codec (out_metadata note);
      onr_nullifier := Nullifier_to_hex <$> OutputNoteRecord_nullifier note;
      onr_expected_height := out_expected_height note;
      onr_state_discriminant := OutputNoteState_discriminant (out_state note);
      onr_state := write_into OutputNoteState_codec (out_state note) |}).

Record SerializedOutputNoteStateUpdate := {
  sos_id : string;
  sos_state_discriminant : u8;
  sos_state : bytes
}.

Definition serialize_output_note_state (note : OutputNoteRecord) : SerializedOutputNoteStateUpdate := {|
  sos_id := Word_to_string (NoteId_as_word (OutputNoteRecord_id note));
  sos_state_discriminant := OutputNoteState_discriminant (out_state note);
  sos_state := write_into OutputNoteState_codec (out_state note)
|}.

(** ** Parsing *)

(** The columns of the join with the table of scripts; NULL is not a blob, and a
    negative integer not a [u64]. *)
Definition parse_input_note (db : Db) (row : InputNoteRow) : result StoreError InputNoteRecord :=
  script_bytes ← ok_or (notes_scripts db !! inr_script_root row)
    (Store_ParsingError "invalid column type Null");
  created_at ← ok_or (try_from U64_MAX (inr_created_at row))
    (Store_ParsingError "integer out of range");
  assets ← deserialization (read_from_bytes NoteAssets_codec (inr_assets row));
  serial_number ← deserialization (read_from_bytes Word_codec (inr_serial_number row));
  script ← deserialization (read_from_bytes NoteScript_codec script_bytes);
  inputs ← deserialization (read_from_bytes NoteStorage_codec (inr_inputs row));
  let recipient := NoteRecipient_new serial_number script inputs in
  let details := NoteDetails_new assets recipient in
  state ← deserialization (read_from_bytes InputNoteState_codec (inr_state row));
  Ok {| in_details := details; in_created_at := Some created_at; in_state := state |}.

Definition parse_output_note (row : OutputNoteRow) : result StoreError OutputNoteRecord :=
  recipient_digest ← ok_or (Word_try_from (onr_recipient_digest row)) Store_WordError;
  assets ← deserialization (read_from_bytes NoteAssets_codec (onr_assets row));
  metadata ← deserialization (read_from_bytes NoteMetadata_codec (onr_metadata row));
  state ← deserialization (read_from_bytes OutputNoteState_codec (onr_state row));
  Ok {| out_assets := assets; out_metadata := metadata; out_recipient_digest := recipient_digest;
        out_state := state; out_expected_height := onr_expected_height row |}.

(** ** Filters ([filters.rs]) *)

(** [x IN rarray(?)] on a column with NULLs. *)
Definition in_text (ids : list string) (column : option string) : bool :=
  match column with Some v => bool_decide (v ∈ ids) | None => false end.

Definition note_filter_input_notes_condition (filter : NoteFilter) (note_id : string)
    (note : InputNoteRow) : bool :=
  let state_discriminant := inr_state_discriminant note in
  match filter with
  | NoteFilter_All => true
  | NoteFilter_Committed => state_discriminant =? STATE_COMMITTED
  | NoteFilter_Consumed =>
      bool_decide (state_discriminant ∈ [STATE_CONSUMED_AUTHENTICATED_LOCAL;
        STATE_CONSUMED_UNAUTHENTICATED_LOCAL; STATE_CONSUMED_EXTERNAL])
  | NoteFilter_Expected => state_discriminant =? STATE_EXPECTED
  | NoteFilter_Processing =>
      bool_decide (state_discriminant ∈
        [STATE_PROCESSING_AUTHENTICATED; STATE_PROCESSING_UNAUTHENTICATED])
  | NoteFilter_Unique id => in_text [Word_to_string (NoteId_as_word id)] (Some note_id)
  | NoteFilter_List ids =>
      in_text ((λ id, Word_to_string (NoteId_as_word id)) <$> ids) (Some note_id)
  | NoteFilter_Nullifiers nullifiers =>
      in_text (Nullifier_to_string <$> nullifiers) (Some (inr_nullifier note))
  | NoteFilter_Unverified => state_discriminant =? STATE_UNVERIFIED
  | NoteFilter_Unspent =>
      bool_decide (state_discriminant ∈ [STATE_EXPECTED; STATE_PROCESSING_AUTHENTICATED;
        STATE_PROCESSING_UNAUTHENTICATED; STATE_UNVERIFIED; STATE_COMMITTED])
  end.

Definition note_filter_output_notes_condition (filter : NoteFilter) (note_id : string)
    (note : OutputNoteRow) : bool :=
  let state_discriminant := onr_state_discriminant note in
  match filter with
  | NoteFilter_All => true
  | NoteFilter_Committed =>
      bool_decide (state_discriminant ∈ [STATE_COMMITTED_PARTIAL; STATE_COMMITTED_FULL])
  | NoteFilter_Consumed => state_discriminant =? STATE_CONSUMED
  | NoteFilter_Expected =>
      bool_decide (state_discriminant ∈ [STATE_EXPECTED_PARTIAL; STATE_EXPECTED_FULL])
  | NoteFilter_Processing | NoteFilter_Unverified => false
  | NoteFilter_Unique id => in_text [Word_to_string (NoteId_as_word id)] (Some note_id)
  | NoteFilter_List ids =>
      in_text ((λ id, Word_to_string (NoteId_as_word id)) <$> ids) (Some note_id)
  | NoteFilter_Nullifiers nullifiers =>
      in_text (Nullifier_to_string <$> nullifiers) (onr_nullifier note)
  | NoteFilter_Unspent =>
      bool_decide (state_discriminant ∈ [STATE_EXPECTED_PARTIAL; STATE_EXPECTED_FULL;
        STATE_COMMITTED_PARTIAL; STATE_COMMITTED_FULL])
  end.

(** [ORDER BY consumed_block_height, consumed_tx_order IS NULL, consumed_tx_order,
    note_id]: NULL comes before every integer, so a height of NULL is [-1]. *)
Definition execution_order (row : string * InputNoteRow) : Z * (Z * (Z * string)) :=
  (default (-1) (inr_consumed_block_height row.2),
   (match inr_consumed_tx_order row.2 with None => 1 | Some _ => 0 end,
    (default (-1) (inr_consumed_tx_order row.2), row.1))).

Definition execution_order_key : KeyType (Z * (Z * (Z * string))) :=
  pair_key (KeyType1 := pair_key (KeyType1 := pair_key (KeyType1 := string_key))).

Definition sqlite_get_input_notes (filter : NoteFilter) : db_m (list InputNoteRecord) :=
  db_read (λ db,
    let rows := select_where (note_filter_input_notes_condition filter) (input_notes db) in
    let rows := match filter with
      | NoteFilter_Consumed => order_by (KeyType0 := execution_order_key) execution_order rows
      | _ => rows
      end in
    try_map (λ row, parse_input_note db row.2) rows).

Definition sqlite_get_output_notes (filter : NoteFilter) : db_m (list OutputNoteRecord) :=
  db_read (λ db, try_map (λ row, parse_output_note row.2)
    (select_where (note_filter_output_notes_condition filter) (output_notes db))).

(** The rows of a consumer in a range of blocks; comparing NULL is never true. *)
Definition by_offset_condition (filter : NoteFilter) (consumer : string)
    (block_start block_end : option BlockNumber) (note_id : string) (note : InputNoteRow) : bool :=
  note_filter_input_notes_condition filter note_id note &&
  in_text [consumer] (inr_consumer_account_id note) &&
  bool_decide (is_Some (inr_consumed_tx_order note)) &&
  match block_start, inr_consumed_block_height note with
  | Some start, Some height => start <=? height
  | Some _, None => false
  | None, _ => true
  end &&
  match block_end, inr_consumed_block_height note with
  | Some end_, Some height => height <=? end_
  | Some _, None => false
  | None, _ => true
  end.

Definition sqlite_get_input_note_by_offset (filter : NoteFilter) (consumer : AccountId)
    (block_start block_end : option BlockNumber) (offset : u32) : db_m (option InputNoteRecord) :=
  db_read (λ db,
    match order_by (KeyType0 := execution_order_key) execution_order
      (select_where (by_offset_condition filter (AccountId_to_hex consumer) block_start block_end)
        (input_notes db)) !! Z.to_nat offset with
    | Some row => Some <$> parse_input_note db row.2
    | None => Ok None
    end).

Definition sqlite_get_unspent_input_note_nullifiers : db_m (list Nullifier) :=
  db_read (λ db, try_map (λ row, map_err Store_HexParseError (Nullifier_from_hex (inr_nullifier row.2)))
    (select_where (λ _ note, negb (bool_decide (inr_state_discriminant note ∈
      [STATE_CONSUMED_AUTHENTICATED_LOCAL; STATE_CONSUMED_UNAUTHENTICATED_LOCAL;
       STATE_CONSUMED_EXTERNAL]))) (input_notes db))).

(** ** Writes *)

Definition put_script (root : string) (script : bytes) (db : Db) : Db :=
  set_notes_scripts (<[root := script]> (notes_scripts db)) db.
Definition put_input_note (id : string) (row : InputNoteRow) (db : Db) : Db :=
  set_input_notes (<[id := row]> (input_notes db)) db.

(** [created_at] is bound as a [u64], which fails when it is not an [i64]. *)
Definition upsert_input_note_tx (note : InputNoteRecord) : db_m () :=
  let serialized := serialize_input_note note in
  let row := sin_row serialized in
  db_do (put_script (inr_script_root row) (sin_script serialized));;
  if inr_created_at row <=? I64_MAX then db_do (put_input_note (sin_id serialized) row)
  else db_fail (Store_DatabaseError "integer out of range").

Definition sqlite_upsert_input_notes (notes : list InputNoteRecord) : db_m () :=
  db_transaction (db_each (λ note,
    upsert_input_note_tx note;;
    match InputNoteRecord_inclusion_proof note with
    | Some inclusion_proof =>
        db_do (set_block_header_has_client_notes (proof_block_num inclusion_proof) true)
    | None => mret ()
    end) notes).

Definition upsert_note_script_tx (note_script : NoteScript) : db_m () :=
  db_do (put_script (Word_to_hex (NoteScript_root note_script))
    (write_into NoteScript_codec note_script)).

Definition sqlite_upsert_note_scripts (note_scripts : list NoteScript) : db_m () :=
  db_transaction (db_each upsert_note_script_tx note_scripts).

Definition sqlite_get_note_script (script_root : Word) : db_m NoteScript :=
  let script_root := Word_to_hex script_root in
  db_read (λ db,
    match notes_scripts db !! script_root with
    | Some script => deserialization (NoteScript_from_bytes script)
    | None => Err (Store_NoteScriptNotFound script_root)
    end).

(** [slice::chunks]; the fuel is the length of the list. *)
Fixpoint chunks_fuel {A} (fuel n : nat) (l : list A) : list (list A) :=
  match fuel, l with
  | S fuel, _ :: _ => take n l :: chunks_fuel fuel n (drop n l)
  | _, _ => []
  end.
Definition chunks {A} (n : nat) (l : list A) : list (list A) := chunks_fuel (length l) n l.

(** A multi-row [INSERT OR REPLACE] inserts its rows in order. *)
Definition batch_upsert_scripts (scripts : gmap string bytes) (db : Db) : Db :=
  foldl (foldl (λ db entry, put_script entry.1 entry.2 db)) db
    (chunks SCRIPT_BATCH_SIZE (btree_to_list (KeyType0 := string_key) scripts)).

Definition batch_insert_input_notes (notes : list SerializedInputNoteData) (db : Db) : Db :=
  foldl (foldl (λ db note,
    let row := sin_row note in
    put_input_note (sin_id note) {|
      inr_assets := inr_assets row; inr_serial_number := inr_serial_number row;
      inr_inputs := inr_inputs row; inr_script_root := inr_script_root row;
      inr_nullifier := inr_nullifier row; inr_state_discriminant := inr_state_discriminant row;
      inr_state := inr_state row; inr_created_at := u64_as_i64 (inr_created_at row);
      inr_consumed_block_height := inr_consumed_block_height row;
      inr_consumed_tx_order := inr_consumed_tx_order row;
      inr_consumer_account_id := inr_consumer_account_id row |} db)) db
    (chunks INPUT_NOTE_BATCH_SIZE notes).

Definition update_input_row (update : SerializedInputNoteStateUpdate) (row : InputNoteRow) : InputNoteRow := {|
  inr_assets := inr_assets row; inr_serial_number := inr_serial_number row;
  inr_inputs := inr_inputs row; inr_script_root := inr_script_root row;
  inr_nullifier := inr_nullifier row;
  inr_state_discriminant := sis_state_discriminant update;
  inr_state := sis_state update; inr_created_at := inr_created_at row;
  inr_consumed_block_height := sis_consumed_block_height update;
  inr_consumed_tx_order := sis_consumed_tx_order update;
  inr_consumer_account_id := sis_consumer_account_id update |}.

(** [UPDATE ... WHERE note_id = ?]. *)
Definition batch_update_input_note_states (updates : list SerializedInputNoteStateUpdate) (db : Db) : Db :=
  foldl (λ db update,
    set_input_notes (update_where (λ id _, bool_decide (id = sis_id update))
      (update_input_row update) (input_notes db)) db) db updates.

Definition batch_insert_output_notes (notes : list (string * OutputNoteRow)) (db : Db) : Db :=
  foldl (foldl (λ db note, set_output_notes (<[note.1 := note.2]> (output_notes db)) db)) db
    (chunks OUTPUT_NOTE_BATCH_SIZE notes).

Definition update_output_row (update : SerializedOutputNoteStateUpdate) (row : OutputNoteRow) :
    OutputNoteRow := {|
  onr_recipient_digest := onr_recipient_digest row; onr_assets := onr_assets row;
  onr_metadata := onr_metadata row; onr_nullifier := onr_nullifier row;
  onr_expected_height := onr_expected_height row;
  onr_state_discriminant := sos_state_discriminant update; onr_state := sos_state update |}.

Definition batch_update_output_note_states (updates : list SerializedOutputNoteStateUpdate) (db : Db) : Db :=
  foldl (λ db update,
    set_output_notes (update_where (λ id _, bool_decide (id = sos_id update))
      (update_output_row update) (output_notes db)) db) db updates.

(** The scripts of new notes, by their root. *)
Definition collect_scripts (input_inserts : list SerializedInputNoteData) : gmap string bytes :=
  btree_collect (KeyType0 := string_key)
    ((λ s, (inr_script_root (sin_row s), sin_script s)) <$> input_inserts).

Definition apply_note_updates_tx (note_updates : NoteUpdateTracker) (db : Db) : Db :=
  let updates := updated_input_notes note_updates in
  let inserted := iu_note <$> filter (λ u, is_insert (iu_update_type u) = true) updates in
  let input_inserts := serialize_input_note <$> inserted in
  let scripts := collect_scripts input_inserts in
  let input_updates := serialize_input_note_state <$>
    (iu_note <$> filter (λ u, is_update (iu_update_type u) = true) updates) in
  let db := batch_upsert_scripts scripts db in
  let db := batch_insert_input_notes input_inserts db in
  let db := batch_update_input_note_states input_updates db in
  let updates := updated_output_notes note_updates in
  let output_inserts := serialize_output_note <$>
    (ou_note <$> filter (λ u, is_insert (ou_update_type u) = true) updates) in
  let output_updates := serialize_output_note_state <$>
    (ou_note <$> filter (λ u, is_update (ou_update_type u) = true) updates) in
  let db := batch_insert_output_notes output_inserts db in
  batch_update_output_note_states output_updates db.
End notes.
