(* ===== verification/NoteSpec.v ===== *)
(** * The note tables store the notes

    The contract of the note tables: they represent a map from identifiers to records.
    Queries return the records that a filter selects, and the changes of a tracker
    change the map as they say, in whatever batches they are written. *)

From S2P Require Import Prelude Protocol Serde Model NoteStates InputNote OutputNote TxRecord.
From S2P Require Import TxTracker Errors NoteTracker Rpc SyncUpdate AccountTypes SmtForest Sql Store Db.
From S2P Require Import ChainDb NoteDb.
From Stdlib Require Import ZArith Lia Ascii.
From stdpp Require Import base gmap list strings sorting.

Open Scope Z_scope.

(** ** Batches *)

Lemma chunks_fuel_concat {A} fuel n (l : list A) :
  (0 < n)%nat → (length l ≤ fuel)%nat → concat (chunks_fuel fuel n l) = l.
Proof.
  intros Hn. revert l. induction fuel as [|fuel IH]; intros l Hl.
  - destruct l; [done|simpl in Hl; lia].
  - destruct l as [|a l]; [done|]. cbn [chunks_fuel concat].
    rewrite IH; [by rewrite take_drop|]. rewrite length_drop. simpl in *. lia.
Qed.

Lemma batches_concat {A} n (l : list A) : (0 < n)%nat → concat (chunks n l) = l.
Proof. intros Hn. by apply chunks_fuel_concat. Qed.

(** Writing in batches is writing one row after the other. *)
Lemma foldl_chunks {A B} (f : B → A → B) n l b :
  (0 < n)%nat → foldl (foldl f) b (chunks n l) = foldl f b l.
Proof.
  intros Hn. rewrite <-(batches_concat n l Hn) at 2. generalize (chunks n l). intros ls.
  revert b. induction ls as [|x ls IH]; intros b; [done|]. simpl. by rewrite IH, foldl_app.
Qed.

(** A batch stays below the 999 parameters of a statement. *)
Lemma chunks_fuel_bound {A} fuel n (l : list A) c : c ∈ chunks_fuel fuel n l → (length c ≤ n)%nat.
Proof.
  revert l. induction fuel as [|fuel IH]; intros l; [intros Hc; by apply not_elem_of_nil in Hc|].
  destruct l as [|a l]; [intros Hc; by apply not_elem_of_nil in Hc|].
  intros [->|Hc]%elem_of_cons; [rewrite length_take; lia|by eapply IH].
Qed.

Section spec.
Context `{StoreLaws} `{!ProtocolLaws} `{!SerdeLaws} `{!AccountLaws}.

Definition note_key (id : NoteId) : string := Word_to_string (NoteId_as_word id).

#[export] Instance note_key_inj : Inj (=) (=) note_key.
Proof.
  intros a b. unfold note_key. rewrite !Word_display. intros Hab%(inj Word_to_hex).
  by apply NoteId_word_inj.
Qed.

(** *** The contract *)

Definition input_row (r : InputNoteRecord) : InputNoteRow := sin_row (serialize_input_note r).

(** What can be stored: the integers fit, and the creation time is known. *)
Record storable (id : NoteId) (r : InputNoteRecord) : Prop := {
  st_id : InputNoteRecord_id r = id;
  st_state : InputNoteState_wf (in_state r);
  st_created : ∃ c, in_created_at r = Some c ∧ 0 ≤ c ≤ I64_MAX
}.

(** A script is stored under its root. *)
Definition script_stored (db : Db) (script : NoteScript) : Prop :=
  notes_scripts db !! Word_to_hex (NoteScript_root script) =
    Some (write_into NoteScript_codec script).

Definition record_script (r : InputNoteRecord) : NoteScript :=
  NoteRecipient_script (NoteDetails_recipient (in_details r)).

(** The tables represent the records. *)
Record notes_stored (recs : gmap NoteId InputNoteRecord) (db : Db) : Prop := {
  ns_rows : represents note_key input_row recs (input_notes db);
  ns_storable id r : recs !! id = Some r → storable id r;
  ns_script id r : recs !! id = Some r → script_stored db (record_script r)
}.

(** What a filter selects. *)
Definition note_matches (filter : NoteFilter) (r : InputNoteRecord) : bool :=
  match filter with
  | NoteFilter_All => true
  | NoteFilter_Committed => InputNoteRecord_is_committed r
  | NoteFilter_Consumed => InputNoteRecord_is_consumed r
  | NoteFilter_Expected => match in_state r with Expected _ => true | _ => false end
  | NoteFilter_List ids => bool_decide (InputNoteRecord_id r ∈ ids)
  | NoteFilter_Nullifiers nullifiers => bool_decide (InputNoteRecord_nullifier r ∈ nullifiers)
  | NoteFilter_Processing => InputNoteRecord_is_processing r
  | NoteFilter_Unique id => bool_decide (InputNoteRecord_id r = id)
  | NoteFilter_Unspent =>
      negb (InputNoteRecord_is_consumed r) &&
      match in_state r with Invalid _ => false | _ => true end
  | NoteFilter_Unverified => match in_state r with Unverified _ => true | _ => false end
  end.

(** *** Queries *)

Lemma parse_input_row db id r :
  storable id r → script_stored db (record_script r) → parse_input_note db (input_row r) = Ok r.
Proof.
  intros [_ Hwf (c & Hc & Hrange)] Hscript. unfold parse_input_note, input_row, serialize_input_note.
  cbn [sin_row inr_script_root inr_created_at inr_assets inr_serial_number inr_inputs inr_state].
  rewrite Hscript, Hc. cbn [default from_option].
  rewrite (read_from_bytes_ok InputNoteState_codec InputNoteState_wf) by done.
  rewrite (read_from_bytes_ok NoteAssets_codec any) by exact I.
  rewrite (read_from_bytes_ok Word_codec any) by exact I.
  rewrite (read_from_bytes_ok NoteStorage_codec any) by exact I.
  unfold try_from, in_rangeb, Datatypes.id. rewrite (proj2 (Z.leb_le 0 c)) by lia.
  rewrite (proj2 (Z.leb_le c U64_MAX)) by (unfold U64_MAX, I64_MAX in *; lia). simpl.
  unfold record_script. rewrite (read_from_bytes_ok NoteScript_codec any) by exact I. simpl.
  rewrite NoteRecipient_rebuild, NoteDetails_eta. destruct r. simpl in *. by subst.
Qed.

Lemma in_text_fmap {A} (f : A → string) (l : list A) a `{!Inj (=) (=) f} `{!EqDecision A} :
  in_text (f <$> l) (Some (f a)) = bool_decide (a ∈ l).
Proof. unfold in_text. apply bool_decide_ext. by rewrite list_elem_of_fmap_inj. Qed.

#[export] Instance Nullifier_to_string_inj : Inj (=) (=) Nullifier_to_string.
Proof.
  intros n m. rewrite !Nullifier_display. intros Hnm.
  apply (f_equal Nullifier_from_hex) in Hnm. rewrite !Nullifier_hex_roundtrip in Hnm. congruence.
Qed.

(** The condition of a query on the row of a record. *)
Lemma input_condition filter id r :
  storable id r →
  note_filter_input_notes_condition filter (note_key id) (input_row r) = note_matches filter r.
Proof.
  intros [Hid _ _]. unfold input_row, serialize_input_note.
  destruct filter as [| | | |ids|nullifiers| |id'| |]; simpl;
    try (destruct r as [? ? []]; reflexivity).
  - rewrite <-Hid. apply (in_text_fmap note_key ids (InputNoteRecord_id r)).
  - rewrite <-Nullifier_display.
    apply (in_text_fmap Nullifier_to_string nullifiers (InputNoteRecord_nullifier r)).
  - rewrite <-Hid. apply bool_decide_ext. rewrite list_elem_of_singleton. split.
    + apply (inj note_key).
    + by intros ->.
Qed.

(** The rows a query returns are those of the selected records. *)
Lemma input_rows recs db filter :
  notes_stored recs db →
  ∃ l, Permutation l (base.filter (λ ir, note_matches filter ir.2 = true) (map_to_list recs)) ∧
    (let rows := select_where (note_filter_input_notes_condition filter) (input_notes db) in
     match filter with
     | NoteFilter_Consumed => order_by (KeyType0 := execution_order_key) execution_order rows
     | _ => rows
     end) = (λ ir, (note_key ir.1, input_row ir.2)) <$> l.
Proof.
  intros [Hrows Hst _].
  pose proof (represents_select note_key input_row recs (input_notes db)
    (note_filter_input_notes_condition filter) (note_matches filter) Hrows
    (λ id r Hr, input_condition filter id r (Hst id r Hr))) as Hperm.
  cbv zeta. set (rows := select_where _ _) in *.
  assert (∃ rows', rows' = match filter with
    | NoteFilter_Consumed => order_by (KeyType0 := execution_order_key) execution_order rows
    | _ => rows end ∧ Permutation rows' rows) as (rows' & <- & Hp).
  { eexists. split; [done|]. destruct filter; try done. apply order_by_perm. }
  rewrite Hperm in Hp. apply Permutation_map_inv in Hp as (l & -> & Hp).
  by exists l; split; [symmetry|].
Qed.

(** The position of a record in the order of execution. *)
Definition record_order (r : InputNoteRecord) : Z * (Z * (Z * string)) :=
  execution_order (note_key (InputNoteRecord_id r), input_row r).

Lemma rows_sorted recs db (l : list (NoteId * InputNoteRecord)) :
  notes_stored recs db → (∀ ir, ir ∈ l → recs !! ir.1 = Some ir.2) →
  StronglySorted (order_le (KeyType0 := execution_order_key) execution_order)
    ((λ ir, (note_key ir.1, input_row ir.2)) <$> l) →
  StronglySorted (order_le (KeyType0 := execution_order_key) record_order) l.*2.
Proof.
  intros Hdb. induction l as [|[id r] l IH]; intros Hin Hs; [constructor|].
  cbn [fmap list_fmap] in *. apply StronglySorted_inv in Hs as [Hs Hall]. constructor.
  - apply IH; [intros; apply Hin; by right|done].
  - rewrite Forall_forall in Hall. apply Forall_forall. intros r' (ir & -> & Hir)%list_elem_of_fmap.
    specialize (Hall _ (list_elem_of_fmap_2 (λ ir, (note_key ir.1, input_row ir.2)) _ _ Hir)).
    unfold order_le, record_order in *.
    rewrite (st_id _ _ (ns_storable _ _ Hdb _ _ (Hin (id, r) ltac:(left)))).
    by rewrite (st_id _ _ (ns_storable _ _ Hdb _ _ (Hin ir ltac:(by right)))).
Qed.

(** The query finds the selected records. *)
Lemma input_notes_query recs db filter :
  notes_stored recs db →
  ∃ notes, sqlite_get_input_notes filter db = Finished (db, Ok notes) ∧
    Permutation notes (snd <$> base.filter (λ ir, note_matches filter ir.2 = true) (map_to_list recs)) ∧
    (filter = NoteFilter_Consumed →
     StronglySorted (order_le (KeyType0 := execution_order_key) record_order) notes).
Proof.
  intros Hdb. destruct (input_rows recs db filter Hdb) as (l & Hl & Hrows).
  assert (∀ ir, ir ∈ l → recs !! ir.1 = Some ir.2) as Hin.
  { intros [id r] Hir. rewrite Hl in Hir. by apply list_elem_of_filter in Hir as [_ Hir%elem_of_map_to_list]. }
  exists l.*2. unfold sqlite_get_input_notes, db_read. cbv zeta in Hrows |- *. rewrite Hrows. split_and!.
  - f_equal. f_equal. apply try_map_encode. intros ir Hir. specialize (Hin _ Hir).
    eapply parse_input_row; [by eapply ns_storable|by eapply ns_script].
  - by rewrite Hl.
  - intros ->. pose proof (order_by_sorted (KeyType0 := execution_order_key) execution_order
      (select_where (note_filter_input_notes_condition NoteFilter_Consumed) (input_notes db))) as Hs.
    rewrite Hrows in Hs. by apply (rows_sorted recs db).
Qed.

(** Queries for input notes refine the contract: for a table that stores a map of
    records, the query for a filter succeeds, does not change anything and returns
    exactly the records the filter describes, each one once; consumed notes come in the
    order of their execution (block, position in the block, then those without a known
    position). *)
Theorem get_input_notes_refines recs db filter :
  notes_stored recs db →
  ∃ notes, sqlite_get_input_notes filter db = Finished (db, Ok notes) ∧
    Permutation notes (snd <$> base.filter (λ ir, note_matches filter ir.2 = true) (map_to_list recs)) ∧
    (filter = NoteFilter_Consumed →
     StronglySorted (order_le (KeyType0 := execution_order_key) record_order) notes).
Proof. apply input_notes_query. Qed.

(** *** Changes *)

(** A new note is stored with the creation time 0 when it has none. *)
Definition stored_note (r : InputNoteRecord) : InputNoteRecord :=
  {| in_details := in_details r; in_created_at := Some (default 0 (in_created_at r)); in_state := in_state r |}.

(** An insertion stores the note, an update the new state of a stored note. *)
Definition insert_note (recs : gmap NoteId InputNoteRecord) (r : InputNoteRecord) :
    gmap NoteId InputNoteRecord := <[InputNoteRecord_id r := stored_note r]> recs.
Definition update_note (recs : gmap NoteId InputNoteRecord) (r : InputNoteRecord) :
    gmap NoteId InputNoteRecord :=
  alter (λ r0, with_state r0 (in_state r)) (InputNoteRecord_id r) recs.

Definition insertable (r : InputNoteRecord) : Prop :=
  InputNoteState_wf (in_state r) ∧ 0 ≤ default 0 (in_created_at r) ≤ I64_MAX.

Lemma stored_note_storable r : insertable r → storable (InputNoteRecord_id r) (stored_note r).
Proof. intros [Hwf Hc]. split; [done|done|]. by eexists. Qed.

Lemma with_state_storable id r0 r :
  storable id r0 → InputNoteState_wf (in_state r) → storable id (with_state r0 (in_state r)).
Proof. intros [Hid _ Hc] Hwf. by split. Qed.

Lemma input_row_stored r : insertable r →
  input_row (stored_note r) = {|
      inr_assets := inr_assets (input_row r); inr_serial_number := inr_serial_number (input_row r);
      inr_inputs := inr_inputs (input_row r); inr_script_root := inr_script_root (input_row r);
      inr_nullifier := inr_nullifier (input_row r);
      inr_state_discriminant := inr_state_discriminant (input_row r);
      inr_state := inr_state (input_row r);
      inr_created_at := u64_as_i64 (inr_created_at (input_row r));
      inr_consumed_block_height := inr_consumed_block_height (input_row r);
      inr_consumed_tx_order := inr_consumed_tx_order (input_row r);
      inr_consumer_account_id := inr_consumer_account_id (input_row r) |}.
Proof.
  intros [_ [_ Hc]]. unfold input_row, serialize_input_note, stored_note. cbn.
  f_equal. unfold u64_as_i64, Datatypes.id. by rewrite (proj2 (Z.leb_le _ _)).
Qed.

(** The table of scripts only matters for the scripts that are looked up. *)
Lemma notes_stored_scripts recs db scripts :
  notes_stored recs db →
  (∀ id r, recs !! id = Some r →
    scripts !! Word_to_hex (NoteScript_root (record_script r)) =
      Some (write_into NoteScript_codec (record_script r))) →
  notes_stored recs (set_notes_scripts scripts db).
Proof. intros [Hr Hs _] Hscripts. split; [exact Hr|exact Hs|]. intros id r Hin. by eapply Hscripts. Qed.

Lemma batch_upsert_scripts_eq scripts db :
  batch_upsert_scripts scripts db = set_notes_scripts (scripts ∪ notes_scripts db) db.
Proof.
  unfold batch_upsert_scripts. rewrite foldl_chunks by (unfold SCRIPT_BATCH_SIZE; lia).
  assert (∀ l db, foldl (λ db (entry : string * bytes), put_script entry.1 entry.2 db) db l =
    set_notes_scripts (foldl (λ m e, <[e.1 := e.2]> m) (notes_scripts db) l) db) as ->.
  { clear. induction l as [|e l IH]; intros db; [by destruct db|]. cbn [foldl]. by rewrite IH. }
  f_equal. apply map_eq. intros k. rewrite lookup_union.
  assert (∀ l (m : gmap string bytes), NoDup l.*1 →
    foldl (λ m e, <[e.1 := e.2]> m) m l !! k =
      match (list_to_map l : gmap string bytes) !! k with Some v => Some v | None => m !! k end) as ->.
  { clear. induction l as [|[k' v] l IH]; intros m Hnd; [done|]. cbn [foldl fst snd]. rewrite list_to_map_cons.
    apply NoDup_cons in Hnd as [Hni Hnd]. rewrite IH by done. rewrite !lookup_insert.
    case_decide as Hd; [|done]. subst k'.
    by rewrite (not_elem_of_list_to_map_1 (M := gmap string) l k Hni). }
  2:{ apply (NoDup_btree_keys (KeyType0 := string_key)). }
  rewrite (list_to_map_proper _ (map_to_list scripts)), list_to_map_to_list.
  - by destruct (scripts !! k), (notes_scripts db !! k).
  - apply (NoDup_btree_keys (KeyType0 := string_key)).
  - apply (btree_to_list_perm (KeyType0 := string_key) scripts).
Qed.

Lemma notes_stored_ext recs db db' :
  notes_stored recs db → input_notes db' = input_notes db → notes_scripts db' = notes_scripts db →
  notes_stored recs db'.
Proof.
  intros [Hr Hs Hsc] Hi Hn. split; [by rewrite Hi|done|]. intros id r Hin. unfold script_stored.
  rewrite Hn. by eapply Hsc.
Qed.

Lemma insert_note_stored recs db r :
  notes_stored recs db → insertable r → script_stored db (record_script r) →
  notes_stored (insert_note recs r)
    (set_input_notes (<[note_key (InputNoteRecord_id r) := input_row (stored_note r)]> (input_notes db)) db).
Proof.
  intros [Hr Hs Hsc] Hins Hscript. split.
  - apply (represents_insert note_key input_row recs (input_notes db)). exact Hr.
  - intros id r'. unfold insert_note. rewrite lookup_insert. case_decide as Hd; [|apply Hs].
    intros [= <-]. subst id. by apply stored_note_storable.
  - intros id r'. unfold insert_note. rewrite lookup_insert. case_decide as Hd; [|by apply Hsc].
    by intros [= <-].
Qed.

Lemma batch_insert_refines inserts : ∀ recs db,
  notes_stored recs db → (∀ r, r ∈ inserts → insertable r ∧ script_stored db (record_script r)) →
  let db' := batch_insert_input_notes (serialize_input_note <$> inserts) db in
  notes_stored (foldl insert_note recs inserts) db' ∧ notes_scripts db' = notes_scripts db.
Proof.
  intros recs db. unfold batch_insert_input_notes.
  rewrite foldl_chunks by (unfold INPUT_NOTE_BATCH_SIZE; lia). revert recs db.
  induction inserts as [|r inserts IH]; intros recs db Hdb Hins; [done|]. cbn [fmap list_fmap foldl].
  destruct (Hins r ltac:(left)) as [Hr Hscript].
  pose proof (insert_note_stored recs db r Hdb Hr Hscript) as Hdb'.
  rewrite input_row_stored in Hdb' by done.
  specialize (IH (insert_note recs r) _ Hdb'). cbv zeta in IH.
  destruct IH as [IH1 IH2]; [intros r' Hin; by apply Hins; right|].
  split; [exact IH1|exact IH2].
Qed.

Lemma update_note_stored recs db r :
  notes_stored recs db → InputNoteState_wf (in_state r) →
  notes_stored (update_note recs r) (set_input_notes
    (update_where (λ id _, bool_decide (id = sis_id (serialize_input_note_state r)))
      (update_input_row (serialize_input_note_state r)) (input_notes db)) db).
Proof.
  intros [Hr Hs Hsc] Hwf. split.
  - apply (represents_update note_key input_row recs (input_notes db)); [by intros|exact Hr].
  - intros id r'. unfold update_note. rewrite lookup_alter_Some.
    intros [(<- & r0 & Hr0 & ->)|[_ Hr']]; [|by apply Hs]. apply with_state_storable; [by apply Hs|done].
  - intros id r'. unfold update_note. rewrite lookup_alter_Some.
    intros [(<- & r0 & Hr0 & ->)|[_ Hr']]; [|by eapply Hsc]. by apply (Hsc _ _ Hr0).
Qed.

Lemma batch_update_refines updates : ∀ recs db,
  notes_stored recs db → (∀ r, r ∈ updates → InputNoteState_wf (in_state r)) →
  notes_stored (foldl update_note recs updates)
    (batch_update_input_note_states (serialize_input_note_state <$> updates) db).
Proof.
  unfold batch_update_input_note_states.
  induction updates as [|r updates IH]; intros recs db Hdb Hwf; [done|]. cbn [fmap list_fmap foldl].
  apply IH; [|intros; apply Hwf; by right]. apply update_note_stored; [done|]. apply Hwf. left.
Qed.

Lemma batch_output_notes_input inserts updates db :
  let db' := batch_update_output_note_states updates (batch_insert_output_notes inserts db) in
  input_notes db' = input_notes db ∧ notes_scripts db' = notes_scripts db.
Proof.
  cbv zeta. unfold batch_update_output_note_states, batch_insert_output_notes.
  rewrite foldl_chunks by (unfold OUTPUT_NOTE_BATCH_SIZE; lia).
  assert (∀ l db, let db' := foldl (λ db (note : string * OutputNoteRow),
      set_output_notes (<[note.1 := note.2]> (output_notes db)) db) db l in
    input_notes db' = input_notes db ∧ notes_scripts db' = notes_scripts db) as Hi.
  { clear. induction l as [|x l IH]; intros db; [done|]. exact (IH _). }
  assert (∀ l db, let db' := foldl (λ db (update : SerializedOutputNoteStateUpdate),
      set_output_notes (update_where (λ id _, bool_decide (id = sos_id update))
        (update_output_row update) (output_notes db)) db) db l in
    input_notes db' = input_notes db ∧ notes_scripts db' = notes_scripts db) as Hu.
  { clear. induction l as [|x l IH]; intros db; [done|]. exact (IH _). }
  cbv zeta in *. destruct (Hu updates (foldl (λ db (note : string * OutputNoteRow),
      set_output_notes (<[note.1 := note.2]> (output_notes db)) db) db inserts)) as [-> ->].
  apply Hi.
Qed.

(** The new and the changed input notes of a tracker. *)
Definition inserted_notes (t : NoteUpdateTracker) : list InputNoteRecord :=
  iu_note <$> base.filter (λ u, is_insert (iu_update_type u) = true) (updated_input_notes t).
Definition changed_notes (t : NoteUpdateTracker) : list InputNoteRecord :=
  iu_note <$> base.filter (λ u, is_update (iu_update_type u) = true) (updated_input_notes t).

Lemma apply_note_updates_input recs db t :
  notes_stored recs db →
  (∀ r, r ∈ inserted_notes t → insertable r) →
  (∀ r, r ∈ changed_notes t → InputNoteState_wf (in_state r)) →
  notes_stored (foldl update_note (foldl insert_note recs (inserted_notes t)) (changed_notes t))
    (apply_note_updates_tx t db).
Proof.
  intros Hdb Hins Hupd. unfold apply_note_updates_tx. cbv zeta.
  change (iu_note <$> base.filter (λ u, is_insert (iu_update_type u) = true) (updated_input_notes t))
    with (inserted_notes t).
  change (iu_note <$> base.filter (λ u, is_update (iu_update_type u) = true) (updated_input_notes t))
    with (changed_notes t).
  eapply notes_stored_ext; [|apply batch_output_notes_input..].
  apply batch_update_refines; [|done]. rewrite batch_upsert_scripts_eq.
  set (scripts := collect_scripts _).
  assert (∀ root script, scripts !! root = Some script → ∃ r, r ∈ inserted_notes t ∧
    root = Word_to_hex (NoteScript_root (record_script r)) ∧
    script = write_into NoteScript_codec (record_script r)) as Hscripts.
  { intros root script Hin. apply (lookup_btree_collect_Some (KeyType0 := string_key)) in Hin.
    rewrite <-list_fmap_compose in Hin. apply list_elem_of_fmap in Hin as (r & [= -> ->] & Hr).
    by exists r. }
  assert (∀ s, (∃ b, (scripts ∪ notes_scripts db) !! Word_to_hex (NoteScript_root s) = Some b ∧
      (scripts !! Word_to_hex (NoteScript_root s) = Some b ∨ b = write_into NoteScript_codec s)) →
    script_stored (set_notes_scripts (scripts ∪ notes_scripts db) db) s) as Hstored.
  { intros s (b & Hb & Hor). unfold script_stored.
    etrans; [exact Hb|]. f_equal.
    destruct Hor as [Hs|Hs]; [|done].
    apply Hscripts in Hs as (r & _ & Hroot & ->). apply (inj Word_to_hex) in Hroot.
    apply NoteScript_root_inj in Hroot. by rewrite Hroot. }
  apply batch_insert_refines.
  - apply notes_stored_scripts; [done|]. intros id r Hr. apply Hstored.
    pose proof (ns_script _ _ Hdb _ _ Hr) as Hsc. unfold script_stored in Hsc.
    rewrite lookup_union, Hsc. destruct (scripts !! _) as [b|] eqn:Eb; eexists; split; eauto.
  - intros r Hr. split; [by apply Hins|]. apply Hstored.
    assert (is_Some (scripts !! Word_to_hex (NoteScript_root (record_script r)))) as [b Hb].
    { destruct (scripts !! _) as [b|] eqn:Eb; [by eexists|].
      apply (lookup_btree_collect_None (KeyType0 := string_key)) in Eb. exfalso. apply Eb.
      rewrite <-!list_fmap_compose. apply list_elem_of_fmap. by exists r. }
    rewrite lookup_union, Hb. exists b. split; [by destruct (notes_scripts db !! _)|by left].
Qed.

(** *** Nullifiers *)

(** The SQLite store's own query for the nullifiers of unspent notes returns the
    nullifier of every stored note that is not consumed.  When no stored note is invalid,
    this is what the default method of the interface computes from the unspent notes; the
    nullifiers of invalid notes are in it as well, which the default leaves out. *)
Theorem unspent_nullifiers_equivalent recs db :
  notes_stored recs db →
  ∃ nullifiers notes,
    sqlite_get_unspent_input_note_nullifiers db = Finished (db, Ok nullifiers) ∧
    sqlite_get_input_notes NoteFilter_Unspent db = Finished (db, Ok notes) ∧
    Permutation nullifiers (InputNoteRecord_nullifier <$> (snd <$> base.filter
      (λ ir, negb (InputNoteRecord_is_consumed ir.2) = true) (map_to_list recs))) ∧
    ((∀ id r s, recs !! id = Some r → in_state r ≠ Invalid s) →
     Permutation nullifiers (InputNoteRecord_nullifier <$> notes)).
Proof.
  intros Hdb. destruct (input_rows recs db NoteFilter_Unspent Hdb) as (notes & Hnotes & Hrows).
  pose proof (represents_select note_key input_row recs (input_notes db)
    (λ _ note, negb (bool_decide (inr_state_discriminant note ∈
      [STATE_CONSUMED_AUTHENTICATED_LOCAL; STATE_CONSUMED_UNAUTHENTICATED_LOCAL;
       STATE_CONSUMED_EXTERNAL]))) (λ r, negb (InputNoteRecord_is_consumed r)) (ns_rows _ _ Hdb)
    (λ id r _, ltac:(by destruct r as [? ? []]))) as Hsel.
  apply Permutation_map_inv in Hsel as (l & Hl & Hp).
  assert (∀ ir, ir ∈ notes → recs !! ir.1 = Some ir.2) as Hin.
  { intros [id r] Hir. rewrite Hnotes in Hir.
    by apply list_elem_of_filter in Hir as [_ Hir%elem_of_map_to_list]. }
  exists (InputNoteRecord_nullifier <$> l.*2), notes.*2. split_and!.
  - unfold sqlite_get_unspent_input_note_nullifiers, db_read. rewrite Hl. f_equal. f_equal.
    rewrite <-list_fmap_compose. apply (try_map_encode _ (λ ir, (note_key ir.1, input_row ir.2))).
    intros ir _. unfold input_row, serialize_input_note. cbn [snd sin_row inr_nullifier].
    rewrite Nullifier_hex_roundtrip. done.
  - unfold sqlite_get_input_notes, db_read. cbv zeta in Hrows |- *. rewrite Hrows. f_equal. f_equal.
    apply (try_map_encode _ (λ ir, (note_key ir.1, input_row ir.2))). intros ir Hir.
    specialize (Hin _ Hir). eapply parse_input_row; [by eapply ns_storable|by eapply ns_script].
  - by rewrite Hp.
  - intros Hinv. rewrite <-Hp, Hnotes. do 2 f_equiv.
    apply (filter_map_to_list_ext recs (λ r, negb (InputNoteRecord_is_consumed r))
      (note_matches NoteFilter_Unspent)).
    intros id r Hr. unfold note_matches. destruct (in_state r) eqn:Es; rewrite ?andb_true_r; try done.
    by destruct (Hinv id r s).
Qed.

(** *** One note at a time *)

(** The notes of a consumer with a known position, in a range of blocks. *)
Definition consumed_in (filter : NoteFilter) (consumer : AccountId)
    (block_start block_end : option BlockNumber) (r : InputNoteRecord) : bool :=
  note_matches filter r &&
  bool_decide (InputNoteRecord_consumer_account r = Some consumer) &&
  bool_decide (is_Some (consumed_tx_order (in_state r))) &&
  match block_start, consumed_block_height (in_state r) with
  | Some start, Some height => start <=? height
  | Some _, None => false
  | None, _ => true
  end &&
  match block_end, consumed_block_height (in_state r) with
  | Some end_, Some height => height <=? end_
  | Some _, None => false
  | None, _ => true
  end.

Lemma by_offset_matches filter consumer block_start block_end id r :
  storable id r →
  by_offset_condition filter (AccountId_to_hex consumer) block_start block_end (note_key id) (input_row r) =
    consumed_in filter consumer block_start block_end r.
Proof.
  intros Hst. unfold by_offset_condition, consumed_in. rewrite (input_condition _ _ _ Hst).
  unfold input_row at 1, serialize_input_note. cbn [sin_row inr_consumer_account_id]. f_equal. f_equal.
  f_equal. f_equal. destruct (InputNoteRecord_consumer_account r) as [a|]; [|by rewrite bool_decide_false].
  unfold in_text. simpl. apply bool_decide_ext. rewrite list_elem_of_singleton. split.
  - by intros ->%(inj AccountId_to_hex).
  - by intros [= ->].
Qed.

(** Reading the consumed notes of an account one by one: the notes at the offsets 0,
    1, 2, ... are the matching notes in the order of their execution, each exactly once,
    and the first offset past them gives none. *)
Theorem notes_by_offset_enumerate recs db filter consumer block_start block_end :
  notes_stored recs db →
  ∃ notes,
    Permutation notes (snd <$> base.filter
      (λ ir, consumed_in filter consumer block_start block_end ir.2 = true) (map_to_list recs)) ∧
    StronglySorted (order_le (KeyType0 := execution_order_key) record_order) notes ∧
    ∀ offset, 0 ≤ offset →
      sqlite_get_input_note_by_offset filter consumer block_start block_end offset db =
        Finished (db, Ok (notes !! Z.to_nat offset)).
Proof.
  intros Hdb.
  pose proof (represents_select note_key input_row recs (input_notes db)
    (by_offset_condition filter (AccountId_to_hex consumer) block_start block_end)
    (consumed_in filter consumer block_start block_end) (ns_rows _ _ Hdb)
    (λ id r Hr, by_offset_matches filter consumer block_start block_end id r (ns_storable _ _ Hdb id r Hr)))
    as Hperm.
  pose proof (order_by_sorted (KeyType0 := execution_order_key) execution_order
    (select_where (by_offset_condition filter (AccountId_to_hex consumer) block_start block_end)
       (input_notes db))) as Hs.
  unfold sqlite_get_input_note_by_offset, db_read.
  rewrite <-(order_by_perm (KeyType0 := execution_order_key) execution_order) in Hperm.
  revert Hs Hperm. generalize (order_by (KeyType0 := execution_order_key) execution_order
    (select_where (by_offset_condition filter (AccountId_to_hex consumer) block_start block_end)
       (input_notes db))). intros rows Hs Hperm.
  apply Permutation_map_inv in Hperm as (l & -> & Hl).
  assert (∀ ir, ir ∈ l → recs !! ir.1 = Some ir.2) as Hin.
  { intros [id r] Hir. rewrite <-Hl in Hir.
    by apply list_elem_of_filter in Hir as [_ Hir%elem_of_map_to_list]. }
  exists l.*2. split_and!.
  - by rewrite Hl.
  - by apply (rows_sorted recs db).
  - intros offset _. rewrite !list_lookup_fmap. destruct (l !! Z.to_nat offset) as [ir|] eqn:Eir; [|done].
    apply list_elem_of_lookup_2 in Eir. specialize (Hin _ Eir). cbn [fmap option_fmap option_map snd].
    rewrite (parse_input_row db ir.1) by (by (eapply ns_storable || eapply ns_script)). done.
Qed.

(** *** Output notes *)

Definition output_row (r : OutputNoteRecord) : OutputNoteRow := (serialize_output_note r).2.

Record outputs_stored (recs : gmap NoteId OutputNoteRecord) (db : Db) : Prop := {
  os_rows : represents note_key output_row recs (output_notes db);
  os_id id r : recs !! id = Some r → OutputNoteRecord_id r = id;
  os_wf id r : recs !! id = Some r → OutputNoteState_wf (out_state r)
}.

Definition output_matches (filter : NoteFilter) (r : OutputNoteRecord) : bool :=
  match filter with
  | NoteFilter_All => true
  | NoteFilter_Committed => OutputNoteRecord_is_committed r
  | NoteFilter_Consumed => OutputNoteRecord_is_consumed r
  | NoteFilter_Expected =>
      match out_state r with ExpectedPartial | ExpectedFull _ => true | _ => false end
  | NoteFilter_List ids => bool_decide (OutputNoteRecord_id r ∈ ids)
  | NoteFilter_Nullifiers nullifiers =>
      match OutputNoteRecord_nullifier r with Some n => bool_decide (n ∈ nullifiers) | None => false end
  | NoteFilter_Processing | NoteFilter_Unverified => false
  | NoteFilter_Unique id => bool_decide (OutputNoteRecord_id r = id)
  | NoteFilter_Unspent => negb (OutputNoteRecord_is_consumed r)
  end.

Lemma output_condition filter id r :
  OutputNoteRecord_id r = id →
  note_filter_output_notes_condition filter (note_key id) (output_row r) = output_matches filter r.
Proof.
  intros Hid. unfold output_row, serialize_output_note.
  destruct filter as [| | | |ids|nullifiers| |id'| |]; cbn [note_filter_output_notes_condition snd
    onr_nullifier onr_state_discriminant output_matches];
    try (destruct r as [? ? ? [] ?]; reflexivity).
  - rewrite <-Hid. apply (in_text_fmap note_key ids (OutputNoteRecord_id r)).
  - destruct (OutputNoteRecord_nullifier r) as [n|]; [|done]. simpl. rewrite <-Nullifier_display.
    apply (in_text_fmap Nullifier_to_string nullifiers n).
  - rewrite <-Hid. apply bool_decide_ext. rewrite list_elem_of_singleton. split.
    + apply (inj note_key).
    + by intros ->.
Qed.

#[export] Instance OutputNoteState_codec_ok : CodecOk OutputNoteState_codec OutputNoteState_wf.
Proof. intros s rest Hwf. destruct s; simpl in *; roundtrip. Qed.

Lemma parse_output_row id recs db r :
  outputs_stored recs db → recs !! id = Some r → parse_output_note (output_row r) = Ok r.
Proof.
  intros Hdb Hr. unfold parse_output_note, output_row, serialize_output_note.
  cbn [snd onr_recipient_digest onr_assets onr_metadata onr_state onr_expected_height].
  rewrite Word_hex_roundtrip.
  rewrite (read_from_bytes_ok OutputNoteState_codec OutputNoteState_wf) by (by eapply os_wf).
  rewrite (read_from_bytes_ok NoteAssets_codec any) by exact I.
  rewrite (read_from_bytes_ok NoteMetadata_codec any) by exact I. simpl. by destruct r.
Qed.

(** The new and the changed output notes of a tracker. *)
Definition inserted_outputs (t : NoteUpdateTracker) : list OutputNoteRecord :=
  ou_note <$> base.filter (λ u, is_insert (ou_update_type u) = true) (updated_output_notes t).
Definition changed_outputs (t : NoteUpdateTracker) : list OutputNoteRecord :=
  ou_note <$> base.filter (λ u, is_update (ou_update_type u) = true) (updated_output_notes t).

Definition with_out_state (r : OutputNoteRecord) (s : OutputNoteState) : OutputNoteRecord :=
  {| out_assets := out_assets r; out_metadata := out_metadata r;
     out_recipient_digest := out_recipient_digest r; out_state := s;
     out_expected_height := out_expected_height r |}.

Definition insert_output (recs : gmap NoteId OutputNoteRecord) (r : OutputNoteRecord) :
    gmap NoteId OutputNoteRecord := <[OutputNoteRecord_id r := r]> recs.
Definition update_output (recs : gmap NoteId OutputNoteRecord) (r : OutputNoteRecord) :
    gmap NoteId OutputNoteRecord :=
  alter (λ r0, with_out_state r0 (out_state r)) (OutputNoteRecord_id r) recs.

(** The nullifier column is not written again: the nullifier is that of the stored note. *)
Definition same_nullifier (recs : gmap NoteId OutputNoteRecord) (r : OutputNoteRecord) : Prop :=
  ∀ r0, recs !! OutputNoteRecord_id r = Some r0 →
    OutputNoteRecord_nullifier r0 = OutputNoteRecord_nullifier r.

Lemma with_out_state_nullifier r0 r :
  OutputNoteRecord_id r0 = OutputNoteRecord_id r →
  OutputNoteRecord_nullifier (with_out_state r0 (out_state r)) = OutputNoteRecord_nullifier r.
Proof.
  unfold OutputNoteRecord_id, OutputNoteRecord_nullifier, OutputNoteRecord_recipient.
  intros [_ Ha]%NoteId_new_inj. cbn. by rewrite Ha.
Qed.

Lemma update_output_stored recs db r :
  outputs_stored recs db → OutputNoteState_wf (out_state r) → same_nullifier recs r →
  outputs_stored (update_output recs r)
    (set_output_notes (update_where (λ id _, bool_decide (id = note_key (OutputNoteRecord_id r)))
      (update_output_row (serialize_output_note_state r)) (output_notes db)) db).
Proof.
  intros [Hrows Hid Hwf] Hr Hn. split.
  - apply (represents_update note_key output_row); [|done]. intros r0 Hr0.
    unfold output_row, serialize_output_note, update_output_row. cbn.
    rewrite with_out_state_nullifier by (by apply Hid). by rewrite (Hn _ Hr0).
  - intros id r0. unfold update_output. rewrite lookup_alter_Some.
    intros [(<- & r1 & Hr1 & ->)|[_ Hr0]]; [|by apply Hid]. exact (Hid _ _ Hr1).
  - intros id r0. unfold update_output. rewrite lookup_alter_Some.
    intros [(<- & r1 & Hr1 & ->)|[_ Hr0]]; [done|by eapply Hwf].
Qed.

Lemma batch_update_outputs updates : ∀ recs db,
  outputs_stored recs db →
  (∀ r, r ∈ updates → OutputNoteState_wf (out_state r) ∧ same_nullifier recs r) →
  outputs_stored (foldl update_output recs updates)
    (batch_update_output_note_states (serialize_output_note_state <$> updates) db).
Proof.
  unfold batch_update_output_note_states.
  induction updates as [|r updates IH]; intros recs db Hdb Hu; [done|]. cbn [fmap list_fmap foldl].
  destruct (Hu r) as [Hwf Hn]; [left|]. apply IH; [by apply update_output_stored|].
  intros r' Hr'. destruct (Hu r') as [Hwf' Hn']; [by right|]. split; [done|].
  intros r0. unfold update_output. rewrite lookup_alter_Some.
  intros [(Heq & r1 & Hr1 & ->)|[_ Hr0]]; [|by apply Hn'].
  rewrite with_out_state_nullifier.
  - rewrite <-(Hn' _ Hr1). symmetry. apply Hn. by rewrite Heq.
  - rewrite Heq. by apply (os_id _ _ Hdb).
Qed.

Lemma batch_insert_outputs inserts : ∀ recs db,
  outputs_stored recs db → (∀ r, r ∈ inserts → OutputNoteState_wf (out_state r)) →
  outputs_stored (foldl insert_output recs inserts)
    (batch_insert_output_notes (serialize_output_note <$> inserts) db).
Proof.
  unfold batch_insert_output_notes. intros recs db.
  rewrite foldl_chunks by (unfold OUTPUT_NOTE_BATCH_SIZE; lia). revert recs db.
  induction inserts as [|r inserts IH]; intros recs db [Hrows Hid Hwf] Hi; [done|].
  cbn [fmap list_fmap foldl]. apply IH; [|intros; apply Hi; by right]. split.
  - by apply (represents_insert note_key output_row).
  - intros id r0. unfold insert_output. rewrite lookup_insert_Some.
    intros [[<- <-]|[_ Hr0]]; [done|by apply Hid].
  - intros id r0. unfold insert_output. rewrite lookup_insert_Some.
    intros [[<- <-]|[_ Hr0]]; [apply Hi; left|by eapply Hwf].
Qed.

Lemma batch_input_notes_output scripts inserts updates db :
  output_notes (batch_update_input_note_states updates
    (batch_insert_input_notes inserts (batch_upsert_scripts scripts db))) = output_notes db.
Proof.
  rewrite batch_upsert_scripts_eq.
  unfold batch_update_input_note_states, batch_insert_input_notes.
  rewrite foldl_chunks by (unfold INPUT_NOTE_BATCH_SIZE; lia).
  rewrite (foldl_keeps output_notes) by done. by rewrite (foldl_keeps output_notes) by done.
Qed.

Lemma apply_note_updates_output recs db t :
  outputs_stored recs db →
  (∀ r, r ∈ inserted_outputs t → OutputNoteState_wf (out_state r)) →
  (∀ r, r ∈ changed_outputs t → OutputNoteState_wf (out_state r) ∧
    same_nullifier (foldl insert_output recs (inserted_outputs t)) r) →
  outputs_stored (foldl update_output (foldl insert_output recs (inserted_outputs t)) (changed_outputs t))
    (apply_note_updates_tx t db).
Proof.
  intros [Hrows Hid Hwf] Hins Hupd. unfold apply_note_updates_tx. cbv zeta.
  apply batch_update_outputs; [|done]. apply batch_insert_outputs; [|done].
  split; [|done..]. by rewrite batch_input_notes_output.
Qed.

(** *** Changes of both tables *)

(** What a tracker asks of the tables it is written to. *)
Record changes_fit (outs : gmap NoteId OutputNoteRecord) (t : NoteUpdateTracker) : Prop := {
  cf_inserted r : r ∈ inserted_notes t → insertable r;
  cf_changed r : r ∈ changed_notes t → InputNoteState_wf (in_state r);
  cf_out_inserted r : r ∈ inserted_outputs t → OutputNoteState_wf (out_state r);
  cf_out_changed r : r ∈ changed_outputs t → OutputNoteState_wf (out_state r) ∧
    same_nullifier (foldl insert_output outs (inserted_outputs t)) r
}.

Definition changed_input_records (recs : gmap NoteId InputNoteRecord) (t : NoteUpdateTracker) :
    gmap NoteId InputNoteRecord :=
  foldl update_note (foldl insert_note recs (inserted_notes t)) (changed_notes t).
Definition changed_output_records (outs : gmap NoteId OutputNoteRecord) (t : NoteUpdateTracker) :
    gmap NoteId OutputNoteRecord :=
  foldl update_output (foldl insert_output outs (inserted_outputs t)) (changed_outputs t).

Lemma apply_note_updates_stored recs outs db t :
  notes_stored recs db → outputs_stored outs db → changes_fit outs t →
  notes_stored (changed_input_records recs t) (apply_note_updates_tx t db) ∧
  outputs_stored (changed_output_records outs t) (apply_note_updates_tx t db).
Proof.
  intros Hdb Hout [Hi Hc Hoi Hoc]. split; [by apply apply_note_updates_input|].
  by apply apply_note_updates_output.
Qed.

Lemma output_notes_query recs db filter :
  outputs_stored recs db →
  ∃ notes, sqlite_get_output_notes filter db = Finished (db, Ok notes) ∧
    Permutation notes (snd <$> base.filter (λ ir, output_matches filter ir.2 = true) (map_to_list recs)).
Proof.
  intros Hdb.
  pose proof (represents_select note_key output_row recs (output_notes db)
    (note_filter_output_notes_condition filter) (output_matches filter) (os_rows _ _ Hdb)
    (λ id r Hr, output_condition filter id r (os_id _ _ Hdb id r Hr))) as Hperm.
  apply Permutation_map_inv in Hperm as (l & Hl & Hp).
  exists l.*2. split; [|by rewrite Hp]. unfold sqlite_get_output_notes, db_read. rewrite Hl.
  f_equal. f_equal. apply (try_map_encode _ (λ ir, (note_key ir.1, output_row ir.2))).
  intros [id r] Hir. rewrite <-Hp in Hir.
  apply list_elem_of_filter in Hir as [_ Hir%elem_of_map_to_list]. by eapply parse_output_row.
Qed.

(** Queries for output notes refine their contract in the same way: they return
    exactly the stored records that the filter describes. *)
Theorem get_output_notes_refines recs db filter :
  outputs_stored recs db →
  ∃ notes, sqlite_get_output_notes filter db = Finished (db, Ok notes) ∧
    Permutation notes (snd <$> base.filter (λ ir, output_matches filter ir.2 = true) (map_to_list recs)).
Proof. apply output_notes_query. Qed.
(** C31: The changes of a sync or of a transaction reach the note tables: after
    [apply_note_updates_tx] they store the maps in which the new notes were added and
    the changed notes, if they are stored, got their new state, while everything else is
    as before; the batches (50 and 80 rows, 200 scripts) make no difference. *)
Theorem apply_note_updates_refines recs outs db t :
  notes_stored recs db → outputs_stored outs db → changes_fit outs t →
  notes_stored (foldl update_note (foldl insert_note recs (inserted_notes t)) (changed_notes t))
    (apply_note_updates_tx t db) ∧
  outputs_stored (foldl update_output (foldl insert_output outs (inserted_outputs t)) (changed_outputs t))
    (apply_note_updates_tx t db).
Proof. intros Hdb Hout Hfit. by apply apply_note_updates_stored. Qed.
End spec.

(** ** Witnesses *)

Definition toy_input_record (s : InputNoteState) : InputNoteRecord :=
  {| in_details := Note_into_details toy_note; in_created_at := Some 7; in_state := s |}.

Definition toy_expected : InputNoteState :=
  Expected {| Expected_metadata := None; Expected_after_block_num := 3; Expected_tag := Some 1 |}.
Definition toy_consumed : InputNoteState :=
  ConsumedExternal {| ConsumedExternal_nullifier_block_height := 9; ConsumedExternal_consumed_tx_order := None |}.

(** The tables with one note. *)
Definition toy_note_tables : Db :=
  set_input_notes {[ note_key (toy_noteid 3 5) := input_row (toy_input_record toy_expected) ]}
    (put_script (Word_to_hex (NoteScript_root (3 : @NoteScript toy_protocol))) [3] Db_new).

Lemma toy_notes_stored : notes_stored {[ toy_noteid 3 5 := toy_input_record toy_expected ]} toy_note_tables.
Proof.
  split.
  - apply (represents_insert note_key input_row ∅ ∅). apply represents_empty.
  - intros id r. rewrite lookup_singleton_Some. intros [<- <-]. split; [done| |by exists 7].
    vm_compute. repeat split; congruence.
  - intros id r. rewrite lookup_singleton_Some. by intros [<- <-].
Qed.

Lemma get_input_notes_refines_witness :
  notes_stored {[ toy_noteid 3 5 := toy_input_record toy_expected ]} toy_note_tables ∧
  ∃ notes, sqlite_get_input_notes NoteFilter_Unspent toy_note_tables = Finished (toy_note_tables, Ok notes) ∧
    Permutation notes [toy_input_record toy_expected].
Proof.
  split; [apply toy_notes_stored|].
  destruct (get_input_notes_refines _ _ NoteFilter_Unspent toy_notes_stored) as (notes & Hrun & Hp & _).
  exists notes. split; [exact Hrun|]. rewrite Hp, map_to_list_singleton. reflexivity.
Defined.

(** A sync in which the note was consumed. *)
Definition toy_note_changes : NoteUpdateTracker :=
  NoteTracker.set_input_notes NoteUpdateTracker_default
    {[ toy_noteid 3 5 := {| iu_note := toy_input_record toy_consumed; iu_update_type := UpdateUpdate |} ]}.

Lemma toy_changed : inserted_notes toy_note_changes = [] ∧
  changed_notes toy_note_changes = [toy_input_record toy_consumed].
Proof. split; reflexivity. Qed.

Lemma toy_changes_fit : changes_fit ∅ toy_note_changes.
Proof.
  split.
  - intros r Hr. rewrite (proj1 toy_changed) in Hr. by apply not_elem_of_nil in Hr.
  - intros r Hr. rewrite (proj2 toy_changed) in Hr. apply list_elem_of_singleton in Hr as ->.
    vm_compute. repeat split; congruence.
  - intros r Hr. by apply not_elem_of_nil in Hr.
  - intros r Hr. by apply not_elem_of_nil in Hr.
Qed.

Lemma apply_note_updates_refines_witness :
  changed_notes toy_note_changes = [toy_input_record toy_consumed] ∧
  notes_stored (update_note {[ toy_noteid 3 5 := toy_input_record toy_expected ]}
    (toy_input_record toy_consumed)) (apply_note_updates_tx toy_note_changes toy_note_tables).
Proof.
  split; [apply toy_changed|].
  apply (apply_note_updates_refines _ ∅ _ toy_note_changes toy_notes_stored).
  - split; [apply represents_empty|done..].
  - apply toy_changes_fit.
Defined.

Lemma unspent_nullifiers_equivalent_witness :
  notes_stored {[ toy_noteid 3 5 := toy_input_record toy_expected ]} toy_note_tables ∧
  ∃ nullifiers, sqlite_get_unspent_input_note_nullifiers toy_note_tables =
      Finished (toy_note_tables, Ok nullifiers) ∧
    Permutation nullifiers [toy_nullifier 3 5].
Proof.
  split; [apply toy_notes_stored|].
  destruct (unspent_nullifiers_equivalent _ _ toy_notes_stored) as (ns & notes & Hrun & _ & Hp & _).
  exists ns. split; [exact Hrun|]. rewrite Hp, map_to_list_singleton. reflexivity.
Defined.

Definition toy_local : InputNoteState :=
  ConsumedUnauthenticatedLocal {|
    ConsumedUnauthenticatedLocal_metadata := (1, true, 7) : @NoteMetadata toy_protocol;
    ConsumedUnauthenticatedLocal_nullifier_block_height := 9;
    ConsumedUnauthenticatedLocal_submission_data := {| submitted_at := None;
      consumer_account := toy_account 4; consumer_transaction := toy_txid 8 |};
    ConsumedUnauthenticatedLocal_consumed_tx_order := Some 2 |}.

Definition toy_local_tables : Db :=
  set_input_notes {[ note_key (toy_noteid 3 5) := input_row (toy_input_record toy_local) ]}
    (put_script (Word_to_hex (NoteScript_root (3 : @NoteScript toy_protocol))) [3] Db_new).

Lemma toy_local_stored : notes_stored {[ toy_noteid 3 5 := toy_input_record toy_local ]} toy_local_tables.
Proof.
  split.
  - apply (represents_insert note_key input_row ∅ ∅). apply represents_empty.
  - intros id r. rewrite lookup_singleton_Some. intros [<- <-]. split; [done| |by exists 7].
    vm_compute. repeat split; congruence.
  - intros id r. rewrite lookup_singleton_Some. by intros [<- <-].
Qed.

(** The note is at offset 0 for the account that consumed it. *)
Lemma notes_by_offset_enumerate_witness :
  sqlite_get_input_note_by_offset NoteFilter_Consumed (toy_account 4) (Some 5) None 0 toy_local_tables =
    Finished (toy_local_tables, Ok (Some (toy_input_record toy_local))).
Proof.
  destruct (notes_by_offset_enumerate _ _ NoteFilter_Consumed (toy_account 4) (Some 5) None
    toy_local_stored) as (notes & Hp & _ & Hrun).
  rewrite (Hrun 0) by done. rewrite map_to_list_singleton in Hp.
  change (Permutation notes [toy_input_record toy_local]) in Hp.
  apply Permutation_singleton_r in Hp as ->. reflexivity.
Defined.

Definition toy_output_tables : Db :=
  set_output_notes {[ note_key (toy_noteid 3 5) := output_row toy_output ]} Db_new.

Lemma toy_outputs_stored : outputs_stored {[ toy_noteid 3 5 := toy_output ]} toy_output_tables.
Proof.
  split.
  - apply (represents_insert note_key output_row ∅ ∅). apply represents_empty.
  - intros id r. rewrite lookup_singleton_Some. by intros [<- <-].
  - intros id r. rewrite lookup_singleton_Some. by intros [<- <-].
Qed.

Lemma get_output_notes_refines_witness :
  outputs_stored {[ toy_noteid 3 5 := toy_output ]} toy_output_tables ∧
  ∃ notes, sqlite_get_output_notes NoteFilter_Expected toy_output_tables =
    Finished (toy_output_tables, Ok notes) ∧ Permutation notes [toy_output].
Proof.
  split; [apply toy_outputs_stored|].
  destruct (get_output_notes_refines _ _ NoteFilter_Expected toy_outputs_stored) as (notes & Hrun & Hp).
  exists notes. split; [exact Hrun|]. rewrite Hp, map_to_list_singleton. reflexivity.
Defined.
