(* ===== verification/TxDb.v ===== *)
(** * Transactions in the SQLite store

    [sqlite-store/src/transaction.rs]: the rows of transactions and their scripts, the
    queries of [TransactionFilter::to_query], and from the client the result of an
    execution ([transaction/result.rs]) and the changes it makes to the store
    ([transaction/store_update.rs]).  The tables of transactions represent a map from
    identifiers to records ([txs_stored]). *)

From S2P Require Import Prelude Protocol Serde Model NoteStates InputNote OutputNote TxRecord.
From S2P Require Import TxTracker Errors NoteTracker Rpc SyncUpdate AccountTypes SmtForest Sql Store Db.
From S2P Require Import ChainDb.
From Stdlib Require Import ZArith Lia Ascii.
From stdpp Require Import base gmap list strings sorting.

Open Scope Z_scope.

(** [ExecutedTransaction] of the protocol crate, as far as the client reads it. *)
Class ExecutedLib `{AccountLib} := {
  ExecutedTransaction : Type;
  executed_id : ExecutedTransaction → TransactionId;
  executed_account_id : ExecutedTransaction → AccountId;
  executed_account_delta : ExecutedTransaction → AccountDelta;
  executed_input_notes : ExecutedTransaction → list InputNote;
  executed_output_notes : ExecutedTransaction → RawOutputNotes;
  executed_initial_header : ExecutedTransaction → AccountHeader;
  executed_initial_commitment : ExecutedTransaction → Word;
  executed_final_account : ExecutedTransaction → AccountHeader;
  executed_block_num : ExecutedTransaction → BlockNumber;
  executed_expiration_block_num : ExecutedTransaction → BlockNumber;
  executed_tx_script : ExecutedTransaction → option TransactionScript;
  ExecutedTransaction_codec : codec ExecutedTransaction;
  (* [output_notes().iter()]. *)
  executed_output_note_iter : ExecutedTransaction → list RawOutputNote
}.

Section execution.
Context `{StoreLib} `{!ExecutedLib}.

(** *** [transaction/result.rs] *)

Record TransactionResult := {
  tres_transaction : ExecutedTransaction;
  tres_future_notes : list (NoteDetails * NoteTag)
}.

Definition TransactionResult_new {E} (transaction : ExecutedTransaction)
    (future_notes : list (NoteDetails * NoteTag)) : result E TransactionResult :=
  Ok {| tres_transaction := transaction; tres_future_notes := future_notes |}.

Definition TransactionResult_codec : codec TransactionResult := Codec
  (λ self,
    write_into ExecutedTransaction_codec (tres_transaction self) ++
    write_into (vec_codec (pair_codec NoteDetails_codec NoteTag_codec)) (tres_future_notes self))
  (transaction <~ read_from ExecutedTransaction_codec ;;
   future_notes <~ read_from (vec_codec (pair_codec NoteDetails_codec NoteTag_codec)) ;;
   rret {| tres_transaction := transaction; tres_future_notes := future_notes |}).

(** *** [transaction/store_update.rs] *)

Record TransactionStoreUpdate := {
  tsu_executed_transaction : ExecutedTransaction;
  tsu_submission_height : BlockNumber;
  tsu_future_notes : list (NoteDetails * NoteTag);
  tsu_note_updates : NoteUpdateTracker;
  tsu_new_tags : list NoteTagRecord
}.

(** The changes of notes and tags are not encoded. *)
Definition TransactionStoreUpdate_codec : codec TransactionStoreUpdate := Codec
  (λ self,
    write_into ExecutedTransaction_codec (tsu_executed_transaction self) ++
    write_into BlockNumber_codec (tsu_submission_height self) ++
    write_into (vec_codec (pair_codec NoteDetails_codec NoteTag_codec)) (tsu_future_notes self))
  (executed_transaction <~ read_from ExecutedTransaction_codec ;;
   submission_height <~ read_from BlockNumber_codec ;;
   future_notes <~ read_from (vec_codec (pair_codec NoteDetails_codec NoteTag_codec)) ;;
   rret {| tsu_executed_transaction := executed_transaction;
           tsu_submission_height := submission_height; tsu_future_notes := future_notes;
           tsu_note_updates := NoteUpdateTracker_default; tsu_new_tags := [] |}).

(** The record of an executed transaction, as [apply_transaction] builds it. *)
Definition executed_record (tx_update : TransactionStoreUpdate) (creation_timestamp : u64) :
    TransactionRecord :=
  let executed_transaction := tsu_executed_transaction tx_update in
  {| tx_id := executed_id executed_transaction;
     tx_details := {|
       tx_account_id := executed_account_id executed_transaction;
       tx_init_account_state := executed_initial_commitment executed_transaction;
       tx_final_account_state :=
         AccountHeader_to_commitment (executed_final_account executed_transaction);
       tx_input_note_nullifiers :=
         (λ x, Nullifier_as_word (Note_nullifier (InputNote_note x))) <$>
           executed_input_notes executed_transaction;
       tx_output_notes := executed_output_notes executed_transaction;
       tx_block_num := executed_block_num executed_transaction;
       tx_submission_height := tsu_submission_height tx_update;
       tx_expiration_block_num := executed_expiration_block_num executed_transaction;
       tx_creation_timestamp := creation_timestamp |};
     tx_script := executed_tx_script executed_transaction;
     tx_status := Pending |}.
End execution.

Section transactions.
Context `{StoreLib}.

(** ** Rows *)

(** The columns of a transaction, its script apart. *)
Definition serialize_transaction_data (transaction_record : TransactionRecord) :
    string * TransactionRow * option (bytes * bytes) :=
  let script_root := (λ script, write_into Word_codec (TransactionScript_root script)) <$>
    tx_script transaction_record in
  (TransactionId_to_hex (tx_id transaction_record),
   {| tr_details := write_into TransactionDetails_codec (tx_details transaction_record);
      tr_script_root := script_root;
      tr_block_num := tx_block_num (tx_details transaction_record);
      tr_status_variant := TransactionStatus_variant (tx_status transaction_record);
      tr_status := write_into TransactionStatus_codec (tx_status transaction_record) |},
   (λ script, (write_into Word_codec (TransactionScript_root script),
      write_into TransactionScript_codec script)) <$> tx_script transaction_record).

(** The script goes in first, as the row refers to it; a stored script is kept. *)
Definition upsert_transaction_record (transaction : TransactionRecord) (db : Db) : Db :=
  let '(id, row, script) := serialize_transaction_data transaction in
  let db := match script with
    | Some (root, tx_script) =>
        set_transaction_scripts (insert_ignore root tx_script (transaction_scripts db)) db
    | None => db
    end in
  set_transactions (<[id := row]> (transactions db)) db.

Definition parse_transaction (db : Db) (id : string) (row : TransactionRow) :
    result StoreError TransactionRecord :=
  let tx_script := root ← tr_script_root row; transaction_scripts db !! root in
  id ← ok_or (Word_try_from id) Store_WordError;
  script ← match tx_script with
    | Some script => Some <$> deserialization (read_from_bytes TransactionScript_codec script)
    | None => Ok None
    end;
  details ← deserialization (read_from_bytes TransactionDetails_codec (tr_details row));
  status ← deserialization (read_from_bytes TransactionStatus_codec (tr_status row));
  Ok {| tx_id := TransactionId_from_raw id; tx_details := details; TxRecord.tx_script := script;
        tx_status := status |}.

(** [TransactionFilter::to_query]; the variants of pending, committed and discarded
    transactions are 0, 1 and 2. *)
Definition transaction_condition (filter : TransactionFilter) (id : string) (row : TransactionRow) : bool :=
  match filter with
  | TransactionFilter_All => true
  | TransactionFilter_Uncommitted => tr_status_variant row =? 0
  | TransactionFilter_Ids ids => bool_decide (id ∈ TransactionId_to_string <$> ids)
  | TransactionFilter_ExpiredBefore block_num =>
      (tr_block_num row <? block_num) && negb (tr_status_variant row =? 2) &&
      negb (tr_status_variant row =? 1)
  end.

Definition sqlite_get_transactions (filter : TransactionFilter) : db_m (list TransactionRecord) :=
  db_read (λ db, try_map (λ row, parse_transaction db row.1 row.2)
    (select_where (transaction_condition filter) (transactions db))).
End transactions.

(** ** The contract *)

Section contract.
Context `{StoreLaws} `{!ProtocolLaws} `{!SerdeLaws} `{!AccountLaws}.

#[export] Instance TransactionId_to_hex_inj : Inj (=) (=) TransactionId_to_hex.
Proof.
  intros t t' Ht. destruct (TransactionId_hex_word t) as [w Hw].
  by rewrite <-(TransactionId_hex w t), <-(TransactionId_hex w t') by congruence.
Qed.

Definition transaction_row (t : TransactionRecord) : TransactionRow :=
  (serialize_transaction_data t).1.2.

Definition script_root_bytes (s : TransactionScript) : bytes :=
  write_into Word_codec (TransactionScript_root s).

Record txs_stored (recs : gmap TransactionId TransactionRecord) (db : Db) : Prop := {
  ts_rows : represents TransactionId_to_hex transaction_row recs (transactions db);
  ts_id id t : recs !! id = Some t → tx_id t = id;
  ts_details id t : recs !! id = Some t → TransactionDetails_wf (tx_details t);
  ts_status id t : recs !! id = Some t → TransactionStatus_wf (tx_status t);
  ts_script id t s : recs !! id = Some t → tx_script t = Some s →
    transaction_scripts db !! script_root_bytes s = Some (write_into TransactionScript_codec s);
  (* A stored script is found under its own root. *)
  ts_scripts root script : transaction_scripts db !! root = Some script →
    ∃ s, root = script_root_bytes s ∧ script = write_into TransactionScript_codec s
}.

Lemma script_root_bytes_inj s s' : script_root_bytes s = script_root_bytes s' → s = s'.
Proof.
  unfold script_root_bytes. intros Hss. apply TransactionScript_root_inj.
  assert (Ok (E:=DeserializationError) (TransactionScript_root s) = Ok (TransactionScript_root s')) as [= ->]; [|done].
  rewrite <-(read_from_bytes_ok Word_codec any (TransactionScript_root s)) by exact I.
  rewrite <-(read_from_bytes_ok Word_codec any (TransactionScript_root s')) by exact I. by rewrite Hss.
Qed.

(** What a filter selects. *)
Definition transaction_matches (filter : TransactionFilter) (t : TransactionRecord) : bool :=
  match filter with
  | TransactionFilter_All => true
  | TransactionFilter_Uncommitted => is_pending (tx_status t)
  | TransactionFilter_Ids ids => bool_decide (tx_id t ∈ ids)
  | TransactionFilter_ExpiredBefore block_num =>
      (tx_block_num (tx_details t) <? block_num) && is_pending (tx_status t)
  end.

Lemma transaction_condition_matches filter t :
  transaction_condition filter (TransactionId_to_hex (tx_id t)) (transaction_row t) =
    transaction_matches filter t.
Proof.
  destruct filter as [| |ids|block_num]; simpl; [done|by destruct (tx_status t)| |].
  - apply bool_decide_ext. rewrite list_elem_of_fmap. split.
    + intros (id & Hid & Hin). rewrite TransactionId_display in Hid. by apply (inj _) in Hid as ->.
    + intros Hin. exists (tx_id t). by rewrite TransactionId_display.
  - destruct (_ <? _); [|done]. by destruct (tx_status t).
Qed.

Lemma parse_transaction_row recs db id t :
  txs_stored recs db → recs !! id = Some t →
  parse_transaction db (TransactionId_to_hex id) (transaction_row t) = Ok t.
Proof.
  intros Hdb Ht. unfold parse_transaction, transaction_row, serialize_transaction_data.
  cbn [fst snd tr_script_root tr_details tr_status].
  destruct (TransactionId_hex_word id) as [w Hw]. rewrite Hw, Word_hex_roundtrip.
  rewrite (read_from_bytes_ok TransactionDetails_codec TransactionDetails_wf)
    by (by eapply ts_details).
  rewrite (read_from_bytes_ok TransactionStatus_codec TransactionStatus_wf) by (by eapply ts_status).
  cbn [ok_or mbind result_bind deserialization map_err].
  rewrite (TransactionId_hex w id Hw), <-(ts_id _ _ Hdb _ _ Ht).
  destruct (tx_script t) as [s|] eqn:Es; simpl; [|destruct t; simpl in *; by subst].
  pose proof (ts_script _ _ Hdb _ _ _ Ht Es) as Hs. unfold script_root_bytes in Hs. rewrite Hs.
  rewrite (read_from_bytes_ok TransactionScript_codec any) by exact I. simpl.
  destruct t; simpl in *; by subst.
Qed.

(** Storing a record adds it to what the tables represent. *)
Lemma upsert_transaction_stored recs db t :
  txs_stored recs db → TransactionDetails_wf (tx_details t) → TransactionStatus_wf (tx_status t) →
  txs_stored (<[tx_id t := t]> recs) (upsert_transaction_record t db).
Proof.
  intros Hdb Hd Hs. unfold upsert_transaction_record. cbn [serialize_transaction_data].
  set (db1 := match _ with Some _ => _ | None => _ end).
  assert (transactions db1 = transactions db) as Htx by (unfold db1; by destruct (tx_script t)).
  assert (∀ root script, transaction_scripts db !! root = Some script →
    transaction_scripts db1 !! root = Some script) as Hkeep.
  { intros root script Hr. unfold db1. destruct (tx_script t); simpl; [|done].
    by rewrite lookup_insert_ignore, Hr. }
  split; cbn [transactions set_transactions transaction_scripts].
  - rewrite Htx. by apply (represents_insert TransactionId_to_hex transaction_row), ts_rows.
  - intros id t'. rewrite lookup_insert_Some. intros [[<- <-]|[_ Ht']]; [done|by eapply ts_id].
  - intros id t'. rewrite lookup_insert_Some. intros [[<- <-]|[_ Ht']]; [done|by eapply ts_details].
  - intros id t'. rewrite lookup_insert_Some. intros [[<- <-]|[_ Ht']]; [done|by eapply ts_status].
  - intros id t' s. rewrite lookup_insert_Some. intros [[<- <-]|[_ Ht']] Es.
    + unfold db1. rewrite Es. simpl. rewrite lookup_insert_ignore. fold (script_root_bytes s).
      destruct (transaction_scripts db !! script_root_bytes s) as [b|] eqn:Eb;
        [|by rewrite decide_True].
      apply (ts_scripts _ _ Hdb) in Eb as (s' & Hr & ->). by apply script_root_bytes_inj in Hr as ->.
    + apply Hkeep. by eapply ts_script.
  - intros root script. unfold db1. destruct (tx_script t) as [s|]; simpl; [|apply (ts_scripts _ _ Hdb)].
    rewrite lookup_insert_ignore. destruct (transaction_scripts db !! root) eqn:Er.
    + intros [= ->]. by eapply ts_scripts.
    + case_decide; [|done]. intros [= <-]. by exists s.
Qed.

Lemma txs_stored_new : txs_stored ∅ Db_new.
Proof. by split. Qed.

Lemma transactions_query recs db filter :
  txs_stored recs db →
  ∃ found, sqlite_get_transactions filter db = Finished (db, Ok found) ∧
    Permutation found (snd <$> base.filter (λ it, transaction_matches filter it.2 = true) (map_to_list recs)).
Proof.
  intros Hdb.
  assert (∀ id t', recs !! id = Some t' →
    transaction_condition filter (TransactionId_to_hex id) (transaction_row t') = transaction_matches filter t')
    as Hcond.
  { intros id t' Ht'. rewrite <-(ts_id _ _ Hdb _ _ Ht'). apply transaction_condition_matches. }
  pose proof (represents_select _ _ _ _ _ _ (ts_rows _ _ Hdb) Hcond) as Hp.
  apply Permutation_map_inv in Hp as (l & Hl & Hp).
  exists l.*2. unfold sqlite_get_transactions, db_read. rewrite Hl. split; [|by rewrite <-Hp].
  f_equal. f_equal. apply (try_map_encode (λ row, parse_transaction db row.1 row.2)). intros [id t'] Hin.
  rewrite <-Hp in Hin. apply list_elem_of_filter in Hin as [_ Hin%elem_of_map_to_list].
  by eapply parse_transaction_row.
Qed.

(** The tables of transactions refine a map from identifiers to records: recording a
    transaction in tables that store such a map leaves tables that store the updated
    map, and every query on them returns exactly the records the filter describes,
    scripts included; expired transactions are the pending ones that were executed
    below the block. *)
Theorem transaction_tables_refine recs db t filter :
  txs_stored recs db → TransactionDetails_wf (tx_details t) → TransactionStatus_wf (tx_status t) →
  let recs' := <[tx_id t := t]> recs in
  let db' := upsert_transaction_record t db in
  txs_stored recs' db' ∧
  ∃ found, sqlite_get_transactions filter db' = Finished (db', Ok found) ∧
    Permutation found (snd <$> base.filter (λ it, transaction_matches filter it.2 = true) (map_to_list recs')).
Proof.
  intros Hdb Hd Hs recs' db'. pose proof (upsert_transaction_stored _ _ _ Hdb Hd Hs) as Hdb'.
  split; [done|]. by apply transactions_query.
Qed.
End contract.

(** ** A concrete execution *)

(** An executed transaction of the toy model: what [apply_transaction] reads of it. *)
Record ToyExecuted := {
  toy_ex_id : Z;
  toy_ex_delta : @AccountDelta toy_protocol toy_account_lib;
  toy_ex_inputs : list (@InputNote toy_protocol);
  toy_ex_outputs : list (@RawOutputNote toy_protocol);
  toy_ex_initial : @AccountHeader toy_protocol;
  toy_ex_final : @AccountHeader toy_protocol;
  toy_ex_block : Z;
  toy_ex_expiration : Z
}.

#[export] Instance toy_executed_lib : ExecutedLib := {|
  ExecutedTransaction := ToyExecuted;
  executed_id := toy_ex_id;
  executed_account_id := λ t, AccountHeader_id (toy_ex_initial t);
  executed_account_delta := toy_ex_delta;
  executed_input_notes := toy_ex_inputs;
  executed_output_notes := λ t, ([] : @RawOutputNotes toy_protocol);
  executed_initial_header := toy_ex_initial;
  executed_initial_commitment := λ t, AccountHeader_to_commitment (toy_ex_initial t);
  executed_final_account := toy_ex_final;
  executed_block_num := toy_ex_block;
  executed_expiration_block_num := toy_ex_expiration;
  executed_tx_script := λ _, None;
  ExecutedTransaction_codec := Codec (λ _, []) (rerr (InvalidValue "ExecutedTransaction"));
  executed_output_note_iter := toy_ex_outputs
|}.

(** A pending transaction is found among the uncommitted ones. *)
Lemma transaction_tables_refine_witness :
  let db' := upsert_transaction_record (toy_tx 70 100 101 20) Db_new in
  ∃ found, sqlite_get_transactions TransactionFilter_Uncommitted db' = Finished (db', Ok found) ∧
    Permutation found [toy_tx 70 100 101 20].
Proof.
  destruct (transaction_tables_refine ∅ Db_new (toy_tx 70 100 101 20) TransactionFilter_Uncommitted
    txs_stored_new) as (_ & found & Hrun & Hp); [repeat split; discriminate..|].
  exists found. split; [exact Hrun|]. rewrite Hp.
  change (<[?k := ?v]> ∅) with ({[ k := v ]} : gmap (@TransactionId toy_protocol) TransactionRecord).
  rewrite map_to_list_singleton. reflexivity.
Defined.
