(* ===== verification/SqliteStore.v ===== *)
(** * The SQLite store

    [sqlite-store/src/sync.rs], [transaction.rs], [lib.rs] and the settings of
    [db_management/utils.rs]: note tags, settings, the application of an executed
    transaction and of a sync, and opening a store, which rebuilds the forest.  The
    store is an instance of the interface the client uses ([sqlite_store_ops]). *)

From S2P Require Import Prelude Protocol Serde Model NoteStates InputNote OutputNote TxRecord.
From S2P Require Import TxTracker Errors NoteTracker Rpc SyncUpdate AccountTypes SmtForest Sql.
From S2P Require Import Versioned Db AccountDb Store ChainDb AccountReaders NoteDb TxDb.
From Stdlib Require Import ZArith Lia Ascii.
From stdpp Require Import base gmap list strings sorting.

Open Scope Z_scope.

Section sqlite.
Context `{StoreLib} `{!SmtForestLib} `{!PartialAccountLib} `{!ExecutedLib}.

(** ** Note tags *)

Definition parse_tag (row : bytes * bytes) : result StoreError NoteTagRecord :=
  tag ← deserialization (read_from_bytes NoteTag_codec row.1);
  source ← deserialization (read_from_bytes NoteTagSource_codec row.2);
  Ok {| ntr_tag := tag; ntr_source := source |}.

Definition sqlite_get_note_tags : db_m (list NoteTagRecord) :=
  db_read (λ db, try_map parse_tag (tags db)).

Definition sqlite_get_unique_note_tags : db_m (gset NoteTag) :=
  db_read (λ db, list_to_set <$>
    try_map (λ tag, deserialization (read_from_bytes NoteTag_codec tag)) (remove_dups (tags db).*1)).

Definition sqlite_add_note_tag (tag : NoteTagRecord) : db_m bool :=
  note_tags ← sqlite_get_note_tags;
  if bool_decide (tag ∈ note_tags) then mret false
  else db_transaction (db_do (add_note_tag_tx tag));; mret true.

(** The number of removed rows comes back. *)
Definition sqlite_remove_note_tag (tag : NoteTagRecord) : db_m Z := λ db,
  let '(db, removed_tags) := remove_note_tag_tx tag db in Finished (db, Ok removed_tags).

(** ** Settings *)

(** [CHECK (length(name) > 0)]. *)
Definition sqlite_set_setting (name : string) (value : bytes) : db_m () :=
  if bool_decide (name = EmptyString) then db_fail (Store_DatabaseError "constraint failed")
  else db_do (λ db, set_settings (<[name := value]> (settings db)) db).
Definition sqlite_get_setting (name : string) : db_m (option bytes) :=
  db_read (λ db, Ok (settings db !! name)).
Definition sqlite_remove_setting (name : string) : db_m () :=
  db_do (λ db, set_settings (base.delete name (settings db)) db).
Definition sqlite_list_setting_keys : db_m (list string) :=
  db_read (λ db, Ok (map_to_list (settings db)).*1).

(** ** Applying a transaction *)

(** A computation on the tables. *)
Definition on_tables {A} (m : db_m A) : store_m A := zoom st_db set_db m.

(** What the delta changes is read before the database transaction is opened. *)
Definition sqlite_apply_transaction (current_timestamp : u64) (tx_update : TransactionStoreUpdate) :
    store_m () :=
  let executed_transaction := tsu_executed_transaction tx_update in
  let account_id := executed_account_id executed_transaction in
  let delta := executed_account_delta executed_transaction in
  updated_fungible_assets ← db_read_panics (λ s,
    get_account_fungible_assets_for_delta (st_db s) account_id delta);
  old_map_roots ← db_read (λ s, get_storage_map_roots_for_delta (st_db s) account_id delta);
  in_transaction (
    on_tables (db_do (upsert_transaction_record (executed_record tx_update current_timestamp)));;
    apply_account_delta (executed_initial_header executed_transaction)
      (executed_final_account executed_transaction) updated_fungible_assets old_map_roots delta;;
    on_tables (db_do (apply_note_updates_tx (tsu_note_updates tx_update)));;
    on_tables (db_do (λ db, foldl (λ db tag_record, add_note_tag_tx tag_record db) db
      (tsu_new_tags tx_update)))).

(** ** Applying a sync *)

(** [UPDATE state_sync SET block_num = ? WHERE block_num < ?]. *)
Definition advance_sync_height (block_num : BlockNumber) (db : Db) : Db :=
  set_state_sync ((λ n, if n <? block_num then block_num else n) <$> state_sync db) db.

Definition insert_block_updates (block_headers : list (BlockHeader * bool * MmrPeaks)) (db : Db) : Db :=
  foldl (λ db b, insert_block_header_tx b.1.1 b.2 b.1.2 db) db block_headers.

(** The tags of the notes that got committed; a committed note has metadata. *)
Definition tags_to_remove (note_updates : NoteUpdateTracker) : eff StoreError (list NoteTagRecord) :=
  foldr (λ note_update acc,
    let note := iu_note note_update in
    if InputNoteRecord_is_committed note then
      metadata ← expect (InputNoteRecord_metadata note);
      tags ← acc;
      mret ({| ntr_tag := NoteMetadata_tag metadata;
               ntr_source := NoteTagSource_Note (InputNoteRecord_id note) |} :: tags)
    else acc) (mret []) (updated_input_notes note_updates).

Definition remove_tags (tags : list NoteTagRecord) (db : Db) : Db :=
  foldl (λ db tag, (remove_note_tag_tx tag db).1) db tags.

Definition upsert_transactions (transactions : list TransactionRecord) (db : Db) : Db :=
  foldl (λ db transaction_record, upsert_transaction_record transaction_record db) db transactions.

(** The states that discarded transactions left. *)
Definition discarded_account_states (transaction_updates : TransactionUpdateTracker) :
    list (AccountId * Word) :=
  (λ tx, (tx_account_id (tx_details tx), tx_final_account_state (tx_details tx))) <$>
    discarded_transactions transaction_updates.

(** For committed transactions the old staged roots are released. *)
Definition commit_transaction_roots (transactions : list TransactionRecord)
    (smt_forest : AccountSmtForest) : AccountSmtForest :=
  foldl (λ f tx, commit_roots f (tx_account_id (tx_details tx))) smt_forest transactions.

(** The part on the tables that comes before the accounts. *)
Definition apply_sync_tables (update : StateSyncUpdate) : db_m () :=
  let note_updates := ssu_note_updates update in
  let transaction_updates := ssu_transaction_updates update in
  db_do (advance_sync_height (ssu_block_num update));;
  db_do (insert_block_updates (BlockUpdates_block_headers (ssu_block_updates update)));;
  insert_partial_blockchain_nodes_tx (bu_new_authentication_nodes (ssu_block_updates update));;
  db_do (apply_note_updates_tx note_updates);;
  tags ← db_get (λ _, tags_to_remove note_updates);
  db_do (remove_tags tags);;
  db_do (upsert_transactions
    (committed_transactions transaction_updates ++ discarded_transactions transaction_updates)).

(** The part on the accounts: the order of these steps matters. *)
Definition apply_sync_accounts (update : StateSyncUpdate) : store_m () :=
  let transaction_updates := ssu_transaction_updates update in
  let account_updates := ssu_account_updates update in
  undo_account_state (discarded_account_states transaction_updates);;
  on_forest (λ f, (commit_transaction_roots (committed_transactions transaction_updates) f, Ok ()));;
  db_each update_account_state (au_updated_public_accounts account_updates);;
  db_each (λ account, on_db (λ db, Ok (lock_account_on_unexpected_commitment account.1 account.2 db)))
    (au_mismatched_private_accounts account_updates).

Definition sqlite_apply_state_sync (state_sync_update : StateSyncUpdate) : store_m () :=
  in_transaction (
    on_tables (apply_sync_tables state_sync_update);;
    apply_sync_accounts state_sync_update).

(** ** Opening a store *)

(** The loop of [SqliteStore::new]: the state of each account goes into the forest. *)
Definition load_account (id : AccountId) : store_m () :=
  vault ← db_read (λ s, sqlite_get_account_vault (st_db s) id);
  storage ← db_read (λ s, sqlite_get_account_storage (st_db s) id StorageFilter_All);
  header ← db_read_panics (λ s, get_account_header (st_db s) id);
  match header with
  | Some _ => on_forest_panics (λ f, insert_and_register_account_state f id vault storage)
  | None => on_forest (λ f, insert_account_state f vault storage)
  end.

(** The tables are those of the file. *)
Definition SqliteStore_new (db : Db) : loop_result (StoreState * result StoreError ()) :=
  (ids ← db_read_panics (λ s, get_account_ids (st_db s)); db_each load_account ids)
    {| st_db := db; st_forest := AccountSmtForest_new |}.

(** ** The interface *)

#[export] Instance sqlite_store_ops : StoreOps StoreState := {|
  get_transactions := λ filter, on_tables (sqlite_get_transactions filter);
  get_input_notes := λ filter, on_tables (sqlite_get_input_notes filter);
  get_output_notes := λ filter, on_tables (sqlite_get_output_notes filter);
  upsert_input_notes := λ notes, on_tables (sqlite_upsert_input_notes notes);
  get_block_headers := λ block_numbers, on_tables (sqlite_get_block_headers block_numbers);
  get_tracked_block_header_numbers := on_tables sqlite_get_tracked_block_header_numbers;
  get_partial_blockchain_nodes := λ filter, on_tables (sqlite_get_partial_blockchain_nodes filter);
  insert_partial_blockchain_nodes := λ nodes, on_tables (sqlite_insert_partial_blockchain_nodes nodes);
  get_partial_blockchain_peaks_by_block_num := λ block_num,
    on_tables (sqlite_get_partial_blockchain_peaks_by_block_num block_num);
  insert_block_header := λ header peaks has_client_notes,
    on_tables (sqlite_insert_block_header header peaks has_client_notes);
  prune_irrelevant_blocks := on_tables sqlite_prune_irrelevant_blocks;
  get_account_headers := db_read_panics (λ s, sqlite_get_account_headers (st_db s));
  get_account_vault := λ id, db_read (λ s, sqlite_get_account_vault (st_db s) id);
  get_account_storage := λ id filter, db_read (λ s, sqlite_get_account_storage (st_db s) id filter);
  set_setting := λ name value, on_tables (sqlite_set_setting name value);
  get_setting := λ name, on_tables (sqlite_get_setting name);
  get_note_tags := on_tables sqlite_get_note_tags;
  get_unique_note_tags := on_tables sqlite_get_unique_note_tags;
  add_note_tag := λ tag, on_tables (sqlite_add_note_tag tag);
  remove_note_tag := λ tag, on_tables (sqlite_remove_note_tag tag);
  get_sync_height := on_tables sqlite_get_sync_height;
  apply_state_sync := sqlite_apply_state_sync
|}.
End sqlite.
