(* ===== verification/SqliteSync.v ===== *)
(** * Syncs and transactions in the SQLite store

    What the store promises to a sync: its tables represent the client's data (sync
    height, notes, transactions, tags), and applying an update changes the data as the
    update says, or changes no table. *)

From S2P Require Import Prelude Protocol Serde Model NoteStates InputNote OutputNote TxRecord.
From S2P Require Import TxTracker Errors NoteTracker Rpc SyncUpdate AccountTypes SmtForest Sql.
From S2P Require Import Versioned Db AccountDb AccountHistory AccountUndo AccountReplace Store.
From S2P Require Import ChainDb AccountReaders NoteDb NoteSpec TxDb SqliteStore.
From Stdlib Require Import ZArith Lia Ascii.
From stdpp Require Import base gmap list strings sorting.

Open Scope Z_scope.

(** ** What the account statements leave alone *)

#[export] Instance same_rest_preorder : PreOrder same_rest.
Proof.
  split.
  - by intros db.
  - intros db1 db2 db3 [] []. split; congruence.
Qed.

Section accounts.
Context `{SmtForestLib, !AccountLaws}.

Definition accounts_only (s s' : StoreState) : Prop := same_rest (st_db s) (st_db s').

#[export] Instance accounts_only_preorder : PreOrder accounts_only.
Proof. split; [by intros s|]. intros s1 s2 s3 H12 H23. unfold accounts_only in *. by etrans. Qed.

Lemma preserves_on_db (f : Db → result StoreError Db) :
  (∀ db db', f db = Ok db' → same_rest db db') → preserves accounts_only (on_db f).
Proof.
  intros Hf s s' r. unfold on_db, zoom, db_exec, accounts_only.
  destruct (f (st_db s)) as [db|e] eqn:Ef; intros [= <- _]; [|done]. cbn. by apply Hf.
Qed.

Lemma preserves_on_forest {A} (f : AccountSmtForest → AccountSmtForest * result StoreError A) :
  preserves accounts_only (on_forest f).
Proof. intros s s' r. unfold on_forest. destruct (f _). by intros [= <- _]. Qed.

Lemma preserves_on_forest_panics f : preserves accounts_only (on_forest_panics f).
Proof. intros s s' r. unfold on_forest_panics. destruct (f _) as [[]| |]; [|done..]. by intros [= <- _]. Qed.

Lemma preserves_read_panics {A} (f : StoreState → eff StoreError A) :
  preserves accounts_only (db_read_panics f).
Proof. intros s s' r. unfold db_read_panics. destruct (f s); [|done..]. by intros [= <- _]. Qed.

Lemma restore_header_rest a n db db' : restore_header a n db = Ok db' → same_rest db db'.
Proof.
  unfold restore_header. destruct (headers_replaced_at a n db) as [|row rows].
  - by intros [= <-].
  - intros Hrun. apply (try_fold_inv (same_rest db) _ _ _ _ (reflexivity db)) in Hrun; [done|].
    intros db1 row' db2 _ Hdb1. unfold replace_latest_header, constraint_failed.
    destruct (code_exists _ _); [|done]. intros [= <-]. etrans; [done|]. by split.
Qed.

Lemma restore_values_rest a ns db :
  same_rest db (foldl (λ db nonce, restore_old_values_for_nonce a (u64_to_value nonce) db) db ns).
Proof.
  revert db. induction ns as [|n ns IH]; intros db; [done|]. cbn [foldl].
  transitivity (restore_old_values_for_nonce a (u64_to_value n) db); [by split|apply IH].
Qed.

Lemma undo_account_nonces_preserves a ns : preserves accounts_only (undo_account_nonces a ns).
Proof.
  apply preserves_bind; [apply _|..].
  - apply preserves_on_db. intros db db' [= <-]. apply restore_values_rest.
  - intros _. destruct (last ns); [|apply preserves_panic].
    apply preserves_bind; [apply _|..].
    + apply preserves_on_db. apply restore_header_rest.
    + intros _. apply preserves_on_db. by intros db db' [= <-].
Qed.

Lemma undo_account_state_preserves ds : preserves accounts_only (undo_account_state ds).
Proof.
  unfold undo_account_state. destruct (bool_decide _); [apply preserves_ret, _|].
  apply preserves_bind; [apply _|apply preserves_read, _|]. intros pairs.
  apply preserves_bind; [apply _| |intros _; apply preserves_on_forest].
  apply preserves_each; [apply _|]. intros entry. apply undo_account_nonces_preserves.
Qed.

Lemma insert_account_header_rest h seed old db db' :
  insert_account_header h seed old db = Ok db' → same_rest db db'.
Proof.
  unfold insert_account_header. intros Hrun. apply bind_Ok in Hrun as (db1 & Hold & Hnew).
  assert (same_rest db db1) as Hrest.
  { destruct old as [old|]; [|by injection Hold as <-].
    destruct (match _ with Some _ => _ | None => _ end) as [seed' locked'].
    unfold replace_historical_header, constraint_failed in Hold.
    destruct (negb _); [done|]. destruct (_ && _); [done|]. by injection Hold as <-. }
  etrans; [done|]. unfold replace_latest_header, constraint_failed in Hnew.
  destruct (code_exists _ _); [|done]. by injection Hnew as <-.
Qed.

Lemma writes_account_rest a db db' : writes_account a db db' → same_rest db db'.
Proof. intros [_ _ _ ->]. by split. Qed.

Lemma update_account_state_preserves account : preserves accounts_only (update_account_state account).
Proof.
  apply preserves_bind; [apply _|apply preserves_on_forest_panics|]. intros _.
  apply preserves_bind; [apply _|apply preserves_read_panics|]. intros old.
  apply preserves_bind; [apply _| |intros _; apply preserves_on_db, insert_account_header_rest].
  apply preserves_on_db. intros db db' [= <-]. unfold replace_account_values.
  set (db1 := set_latest_account_assets _ _). set (db2 := insert_assets _ _ _).
  transitivity db1; [by split|]. transitivity db2; [|by split].
  eapply writes_account_rest, writes_account_trans; [apply insert_storage_slots_writes|apply insert_assets_writes].
Qed.

(** *** The delta of a transaction *)

Lemma foldl_rest {A} (f : Db → A → Db) l db :
  (∀ db x, same_rest db (f db x)) → same_rest db (foldl f db l).
Proof.
  intros Hf. revert db. induction l as [|x l IH]; intros db; [done|]. cbn [foldl].
  etrans; [apply Hf|apply IH].
Qed.

Lemma persist_vault_delta_rest a n removed updated db :
  same_rest db (persist_vault_delta a n removed updated db).
Proof.
  unfold persist_vault_delta. cbv zeta. etrans; [|apply foldl_rest; by intros].
  transitivity (foldl (λ db vault_key, archive_asset a n vault_key db) db removed).
  - apply foldl_rest. by intros.
  - by destruct (bool_decide _).
Qed.

Lemma write_storage_delta_rest id nonce slots delta db :
  same_rest db (write_storage_delta id nonce slots delta db).
Proof.
  unfold write_storage_delta. cbv zeta. apply foldl_rest. clear db. intros db slot. cbv zeta.
  transitivity (write_slot (AccountId_to_hex id) (u64_to_value nonce) (StorageSlotName_to_string slot.1) slot.2 db);
    [by split|].
  destruct (_ !! slot.1) as [entries|]; [|done]. unfold write_map_entry_delta. apply foldl_rest.
  intros db' kv. unfold write_map_entry. cbv zeta. by destruct (decide _).
Qed.

Lemma apply_account_delta_preserves init final fungible roots delta :
  preserves accounts_only (apply_account_delta init final fungible roots delta).
Proof.
  apply preserves_bind; [apply _|apply preserves_on_db, insert_account_header_rest|]. intros _.
  apply preserves_bind; [apply _| |].
  { apply preserves_bind; [apply _|apply preserves_read, _|]. intros [removed updated].
    apply preserves_bind; [apply _| |].
    - apply preserves_on_db. intros db db' [= <-]. apply persist_vault_delta_rest.
    - intros _. apply preserves_bind; [apply _|apply preserves_on_forest|]. intros root.
      destruct (decide _); [apply preserves_ret, _|apply preserves_fail, _]. }
  intros _. apply preserves_bind; [apply _|apply preserves_read, _|]. intros init_roots.
  apply preserves_bind; [apply _|apply preserves_on_forest|]. intros slots.
  apply preserves_bind; [apply _| |intros _; apply preserves_on_forest].
  apply preserves_on_db. intros db db' [= <-]. apply write_storage_delta_rest.
Qed.
End accounts.

(** ** The data of the client *)

Section data.
Context `{StoreLaws} `{!ProtocolLaws} `{!SerdeLaws} `{!AccountLaws}.
Context `{!SmtForestLib} `{!PartialAccountLib} `{!ExecutedLib}.

(** *** Tags *)

Definition tag_row (t : NoteTagRecord) : bytes * bytes :=
  (write_into NoteTag_codec (ntr_tag t), write_into NoteTagSource_codec (ntr_source t)).

Lemma parse_tag_row t : parse_tag (tag_row t) = Ok t.
Proof.
  unfold parse_tag, tag_row. cbn [fst snd]. rewrite (read_from_bytes_ok NoteTag_codec any) by exact I.
  rewrite (read_from_bytes_ok NoteTagSource_codec any) by exact I. by destruct t.
Qed.

#[export] Instance tag_row_inj : Inj (=) (=) tag_row.
Proof. intros t t' Ht. apply (f_equal parse_tag) in Ht. rewrite !parse_tag_row in Ht. congruence. Qed.

Lemma is_tag_row t t' : is_tag t (tag_row t') = bool_decide (t' = t).
Proof.
  unfold is_tag. rewrite <-bool_decide_and. apply bool_decide_ext. split; [|by intros ->].
  intros [Ht Hs]. apply (inj tag_row). unfold tag_row in *. cbn in *. congruence.
Qed.

(** The table of tags, which has no key, represents a list. *)
Definition tags_stored (l : list NoteTagRecord) (db : Db) : Prop := tags db = tag_row <$> l.

Lemma filter_tag_rows (b : bool) t (l : list NoteTagRecord) :
  filter (λ row, is_tag t row = b) (tag_row <$> l) = tag_row <$> filter (λ t', bool_decide (t' = t) = b) l.
Proof.
  induction l as [|t' l IH]; [done|]. cbn [fmap list_fmap]. rewrite !filter_cons, IH.
  rewrite is_tag_row. by destruct (decide (bool_decide (t' = t) = b)).
Qed.

Lemma add_tag_stored t l db : tags_stored l db → tags_stored (l ++ [t]) (add_note_tag_tx t db).
Proof. unfold tags_stored. intros Hl. cbn. by rewrite Hl, fmap_app. Qed.

Lemma remove_tag_stored t l db :
  tags_stored l db →
  tags_stored (filter (λ t', bool_decide (t' = t) = false) l) (remove_note_tag_tx t db).1 ∧
  (remove_note_tag_tx t db).2 = Z.of_nat (length (filter (λ t', bool_decide (t' = t) = true) l)).
Proof.
  unfold tags_stored. intros Hl. cbn. by rewrite Hl, !filter_tag_rows, length_fmap.
Qed.

Lemma remove_tags_stored ts : ∀ l db,
  tags_stored l db → tags_stored (filter (λ t, t ∉ ts) l) (remove_tags ts db).
Proof.
  unfold remove_tags. induction ts as [|t ts IH]; intros l db Hl.
  - cbn. unfold tags_stored in *. rewrite Hl. f_equal. clear. induction l as [|t l IH]; [done|].
    rewrite filter_cons_True by apply not_elem_of_nil. by rewrite <-IH.
  - cbn [foldl]. destruct (remove_tag_stored t l db Hl) as [Hr _]. specialize (IH _ _ Hr).
    rewrite list_filter_filter in IH. erewrite list_filter_iff; [exact IH|].
    intros t'. rewrite not_elem_of_cons, bool_decide_eq_false. tauto.
Qed.

Lemma get_tags_stored l db : tags_stored l db → sqlite_get_note_tags db = Finished (db, Ok l).
Proof.
  intros Hl. unfold sqlite_get_note_tags, db_read. rewrite Hl.
  rewrite (try_map_encode parse_tag tag_row id) by (intros; apply parse_tag_row). by rewrite list_fmap_id.
Qed.

Lemma unique_tags_stored l db :
  tags_stored l db →
  sqlite_get_unique_note_tags db = Finished (db, Ok (list_to_set (ntr_tag <$> l))).
Proof.
  intros Hl. unfold sqlite_get_unique_note_tags, db_read. f_equal. f_equal.
  rewrite Hl, <-list_fmap_compose.
  set (enc := fst ∘ tag_row). set (rows := remove_dups (enc <$> l)).
  assert (∃ ts, rows = write_into NoteTag_codec <$> ts) as [ts Hd].
  { assert (∀ b, b ∈ rows → ∃ tag, b = write_into NoteTag_codec tag) as Hin.
    { intros b. unfold rows. rewrite elem_of_remove_dups, list_elem_of_fmap.
      intros (t & -> & _). by exists (ntr_tag t). }
    induction rows as [|b rows IH]; [by exists []|]. destruct (Hin b) as [tag ->]; [left|].
    destruct IH as [ts ->]; [intros; apply Hin; by right|]. by exists (tag :: ts). }
  rewrite Hd, (try_map_encode _ _ id).
  2:{ intros tag _. by rewrite (read_from_bytes_ok NoteTag_codec any) by exact I. }
  rewrite list_fmap_id. cbn [fmap result_fmap]. f_equal. apply set_eq. intros tag.
  rewrite !elem_of_list_to_set, list_elem_of_fmap.
  rewrite <-(list_elem_of_fmap_inj (write_into NoteTag_codec) ts tag), <-Hd. unfold rows.
  rewrite elem_of_remove_dups, list_elem_of_fmap. unfold enc, compose, tag_row. cbn.
  split; intros (t & Heq & Hin); exists t; (split; [|done]); [|by rewrite Heq].
  by apply (inj (write_into NoteTag_codec)).
Qed.

Lemma add_tag_run t l db :
  tags_stored l db →
  ∃ db', sqlite_add_note_tag t db = Finished (db', Ok (bool_decide (t ∉ l))) ∧
    tags_stored (if bool_decide (t ∈ l) then l else l ++ [t]) db' ∧ db' = set_tags (tags db') db.
Proof.
  intros Hl. unfold sqlite_add_note_tag. unfold mbind at 1, dbm_bind at 1.
  rewrite (get_tags_stored _ _ Hl). destruct (decide (t ∈ l)) as [Hin|Hin].
  - rewrite bool_decide_true, (bool_decide_false (t ∉ l)) by tauto. exists db. by destruct db.
  - rewrite (bool_decide_false (t ∈ l)), (bool_decide_true (t ∉ l)) by done. eexists.
    split_and!; [done|by apply add_tag_stored|done].
Qed.

(** The note tags of the store are the list of those that were added: adding a tag
    that is there changes nothing and says so, removing one removes every copy and
    says how many there were, and the tags of a sync request are those of the list. *)
Theorem note_tags_exact l t db :
  tags_stored l db →
  sqlite_get_note_tags db = Finished (db, Ok l) ∧
  sqlite_get_unique_note_tags db = Finished (db, Ok (list_to_set (ntr_tag <$> l))) ∧
  (∃ db', sqlite_add_note_tag t db = Finished (db', Ok (bool_decide (t ∉ l))) ∧
    tags_stored (if bool_decide (t ∈ l) then l else l ++ [t]) db') ∧
  ∃ db', sqlite_remove_note_tag t db =
      Finished (db', Ok (Z.of_nat (length (filter (λ t', bool_decide (t' = t) = true) l)))) ∧
    tags_stored (filter (λ t', bool_decide (t' = t) = false) l) db'.
Proof.
  intros Hl. split_and!; [by apply get_tags_stored|by apply unique_tags_stored|..].
  - destruct (add_tag_run t l db Hl) as (db' & Hrun & Hdb' & _). by exists db'.
  - destruct (remove_tag_stored t l db Hl) as [Hr Hn]. unfold sqlite_remove_note_tag.
    destruct (remove_note_tag_tx t db) as [db' n]. cbn in *. exists db'. by rewrite Hn.
Qed.

(** *** The contract *)

Record ClientData := {
  cd_height : BlockNumber;
  cd_notes : gmap NoteId InputNoteRecord;
  cd_outputs : gmap NoteId OutputNoteRecord;
  cd_txs : gmap TransactionId TransactionRecord;
  cd_tags : list NoteTagRecord
}.

(** The tables store the data; [state_sync] has one row. *)
Record data_stored (d : ClientData) (db : Db) : Prop := {
  ds_height : state_sync db = [cd_height d];
  ds_notes : notes_stored (cd_notes d) db;
  ds_outputs : outputs_stored (cd_outputs d) db;
  ds_txs : txs_stored (cd_txs d) db;
  ds_tags : tags_stored (cd_tags d) db
}.

(** Tables that are the same in everything the data depends on. *)
Record same_data (db db' : Db) : Prop := {
  sd_sync : state_sync db' = state_sync db;
  sd_input : input_notes db' = input_notes db;
  sd_scripts : notes_scripts db' = notes_scripts db;
  sd_output : output_notes db' = output_notes db;
  sd_txs : transactions db' = transactions db;
  sd_tx_scripts : transaction_scripts db' = transaction_scripts db;
  sd_tags : tags db' = tags db
}.

#[export] Instance same_data_preorder : PreOrder same_data.
Proof. split; [by intros db|]. intros db1 db2 db3 [] []. split; congruence. Qed.

Lemma txs_stored_ext txs db db' :
  transactions db' = transactions db → transaction_scripts db' = transaction_scripts db →
  txs_stored txs db → txs_stored txs db'.
Proof. intros Ht Hs []. split; [by rewrite Ht|done..| |]; by rewrite Hs. Qed.

Lemma outputs_stored_ext outs db db' :
  output_notes db' = output_notes db → outputs_stored outs db → outputs_stored outs db'.
Proof. intros Ho []. split; [by rewrite Ho|done..]. Qed.

Lemma same_data_stored d db db' : same_data db db' → data_stored d db → data_stored d db'.
Proof.
  intros [] []. split; [congruence| | | |].
  - by eapply notes_stored_ext.
  - by eapply outputs_stored_ext.
  - by eapply txs_stored_ext.
  - unfold tags_stored in *. congruence.
Qed.

Lemma same_rest_data db db' : same_rest db db' → same_data db db'.
Proof. by intros []. Qed.

(** *** The steps of a sync *)

(** The tags of the notes that got committed. *)
Definition committed_note_tags (t : NoteUpdateTracker) : list NoteTagRecord :=
  omap (λ u,
    let note := iu_note u in
    if InputNoteRecord_is_committed note then
      metadata ← InputNoteRecord_metadata note;
      Some (with_note_source (NoteMetadata_tag metadata) (InputNoteRecord_id note))
    else None) (updated_input_notes t).

(** A committed note has metadata: the [expect] does not panic. *)
Lemma tags_to_remove_spec t : tags_to_remove t = Finished (Ok (committed_note_tags t)).
Proof.
  unfold tags_to_remove, committed_note_tags.
  induction (updated_input_notes t) as [|u us IH]; [done|]. cbn [foldr omap list_omap].
  rewrite IH. unfold InputNoteRecord_is_committed, InputNoteRecord_metadata.
  by destruct (in_state (iu_note u)).
Qed.

Lemma apply_note_updates_keeps {C} (g : Db → C) t db :
  (∀ x db, g (set_input_notes x db) = g db) → (∀ x db, g (set_output_notes x db) = g db) →
  (∀ x db, g (set_notes_scripts x db) = g db) → g (apply_note_updates_tx t db) = g db.
Proof.
  intros Hi Ho Hs. unfold apply_note_updates_tx. cbv zeta.
  unfold batch_update_output_note_states, batch_insert_output_notes, batch_update_input_note_states,
    batch_insert_input_notes.
  rewrite !foldl_chunks by (unfold OUTPUT_NOTE_BATCH_SIZE, INPUT_NOTE_BATCH_SIZE; lia).
  rewrite batch_upsert_scripts_eq.
  repeat (rewrite (foldl_keeps g); [|intros ? ?; cbv zeta; solve [apply Ho|apply Hi]]). apply Hs.
Qed.

Definition synced_height (d : ClientData) (block_num : BlockNumber) : BlockNumber :=
  Z.max (cd_height d) block_num.

(** The data after a sync. *)
Definition synced_data (d : ClientData) (u : StateSyncUpdate) : ClientData :=
  let txs := committed_transactions (ssu_transaction_updates u) ++
    discarded_transactions (ssu_transaction_updates u) in
  {| cd_height := synced_height d (ssu_block_num u);
     cd_notes := changed_input_records (cd_notes d) (ssu_note_updates u);
     cd_outputs := changed_output_records (cd_outputs d) (ssu_note_updates u);
     cd_txs := foldl (λ m t, <[tx_id t := t]> m) (cd_txs d) txs;
     cd_tags := filter (λ t, t ∉ committed_note_tags (ssu_note_updates u)) (cd_tags d) |}.

Definition update_fits (d : ClientData) (u : StateSyncUpdate) : Prop :=
  changes_fit (cd_outputs d) (ssu_note_updates u) ∧
  ∀ t, t ∈ committed_transactions (ssu_transaction_updates u) ++
      discarded_transactions (ssu_transaction_updates u) →
    TransactionDetails_wf (tx_details t) ∧ TransactionStatus_wf (tx_status t).

Lemma insert_block_updates_data bs db : same_data db (insert_block_updates bs db).
Proof.
  unfold insert_block_updates. revert db. induction bs as [|b bs IH]; intros db; [done|]. cbn [foldl].
  etrans; [|apply IH]. by split.
Qed.

Lemma insert_nodes_data nodes : preserves same_data (insert_partial_blockchain_nodes_tx nodes).
Proof.
  apply preserves_each; [apply _|]. intros entry. unfold insert_partial_blockchain_node.
  destruct (node_id entry.1); [|apply preserves_panic]. apply preserves_exec; [apply _|].
  by intros db db' [= <-].
Qed.

Lemma upsert_transactions_stored ts : ∀ txs db,
  txs_stored txs db → (∀ t, t ∈ ts → TransactionDetails_wf (tx_details t) ∧ TransactionStatus_wf (tx_status t)) →
  txs_stored (foldl (λ m t, <[tx_id t := t]> m) txs ts) (upsert_transactions ts db).
Proof.
  unfold upsert_transactions. induction ts as [|t ts IH]; intros txs db Hdb Hwf; [done|]. cbn [foldl].
  apply IH; [|intros; apply Hwf; by right]. destruct (Hwf t) as [Hd Hs]; [left|].
  by apply upsert_transaction_stored.
Qed.

Lemma upsert_transactions_keeps {C} (g : Db → C) ts db :
  (∀ x db, g (set_transactions x db) = g db) → (∀ x db, g (set_transaction_scripts x db) = g db) →
  g (upsert_transactions ts db) = g db.
Proof.
  intros Ht Hs. unfold upsert_transactions. apply foldl_keeps. intros db' t.
  unfold upsert_transaction_record. cbn [serialize_transaction_data]. rewrite Ht.
  destruct (tx_script t); [apply Hs|done].
Qed.

Lemma remove_tags_keeps {C} (g : Db → C) ts db :
  (∀ x db, g (set_tags x db) = g db) → g (remove_tags ts db) = g db.
Proof. intros Hg. unfold remove_tags. apply foldl_keeps. intros db' t. apply Hg. Qed.

(** The tables before the accounts are touched. *)
Lemma apply_sync_tables_stored d u db db' :
  data_stored d db → update_fits d u → apply_sync_tables u db = Finished (db', Ok ()) →
  data_stored (synced_data d u) db'.
Proof.
  intros Hd [Hfit Htxs] Hrun. unfold apply_sync_tables in Hrun.
  apply dbm_bind_Ok in Hrun as (db1 & [] & Hs1%db_do_Ok & Hrun). subst db1.
  apply dbm_bind_Ok in Hrun as (db2 & [] & Hs2%db_do_Ok & Hrun). subst db2.
  apply dbm_bind_Ok in Hrun as (db3 & [] & Hs3%insert_nodes_data & Hrun).
  apply dbm_bind_Ok in Hrun as (db4 & [] & Hs4%db_do_Ok & Hrun). subst db4.
  apply dbm_bind_Ok in Hrun as (db5 & tags & Hs5 & Hrun).
  unfold db_get in Hs5. rewrite tags_to_remove_spec in Hs5. injection Hs5 as <- <-.
  apply dbm_bind_Ok in Hrun as (db6 & [] & Hs6%db_do_Ok & Hrun). subst db6.
  apply db_do_Ok in Hrun. subst db'.
  set (db0 := advance_sync_height (ssu_block_num u) db) in *.
  assert (same_data db0 db3) as Hsame by (etrans; [apply insert_block_updates_data|exact Hs3]).
  destruct d as [height notes outs txs tags]. destruct Hd as [Hh Hn Ho Ht Htg]. cbn in *.
  assert (data_stored {| cd_height := Z.max height (ssu_block_num u); cd_notes := notes;
    cd_outputs := outs; cd_txs := txs; cd_tags := tags |} db3) as Hd3.
  { eapply same_data_stored; [exact Hsame|]. split; cbn.
    - rewrite Hh. cbn. f_equal. destruct (Z.ltb_spec height (ssu_block_num u)); lia.
    - eapply notes_stored_ext; [exact Hn|done..].
    - eapply outputs_stored_ext; [|exact Ho]. done.
    - eapply txs_stored_ext; [| |exact Ht]; done.
    - exact Htg. }
  clear Hsame Hs3 db0 Hh Hn Ho Ht Htg. destruct Hd3 as [Hh Hn Ho Ht Htg]. cbn in *.
  destruct (apply_note_updates_stored _ _ _ _ Hn Ho Hfit) as [Hn' Ho'].
  split; cbn [synced_data cd_height cd_notes cd_outputs cd_txs cd_tags].
  - rewrite (upsert_transactions_keeps state_sync), (remove_tags_keeps state_sync),
      (apply_note_updates_keeps state_sync) by done. exact Hh.
  - eapply notes_stored_ext; [exact Hn'|..].
    + by rewrite (upsert_transactions_keeps input_notes), (remove_tags_keeps input_notes) by done.
    + by rewrite (upsert_transactions_keeps notes_scripts), (remove_tags_keeps notes_scripts) by done.
  - eapply outputs_stored_ext; [|exact Ho'].
    by rewrite (upsert_transactions_keeps output_notes), (remove_tags_keeps output_notes) by done.
  - apply upsert_transactions_stored; [|exact Htxs]. eapply txs_stored_ext; [| |exact Ht].
    + by rewrite (remove_tags_keeps transactions), (apply_note_updates_keeps transactions) by done.
    + by rewrite (remove_tags_keeps transaction_scripts), (apply_note_updates_keeps transaction_scripts) by done.
  - unfold tags_stored. rewrite (upsert_transactions_keeps Db.tags) by done.
    apply remove_tags_stored. unfold tags_stored. by rewrite (apply_note_updates_keeps Db.tags).
Qed.

Lemma apply_sync_accounts_preserves u : preserves accounts_only (apply_sync_accounts u).
Proof.
  apply preserves_bind; [apply _|apply undo_account_state_preserves|]. intros _.
  apply preserves_bind; [apply _|apply preserves_on_forest|]. intros _.
  apply preserves_bind; [apply _| |].
  - apply preserves_each; [apply _|]. intros account. apply update_account_state_preserves.
  - intros _. apply preserves_each; [apply _|]. intros account. apply preserves_on_db.
    intros db db' [= <-]. by split.
Qed.

Lemma apply_state_sync_stored d u s s' r :
  data_stored d (st_db s) → update_fits d u →
  sqlite_apply_state_sync u s = Finished (s', r) →
  match r with
  | Ok _ => data_stored (synced_data d u) (st_db s')
  | Err _ => data_stored d (st_db s')
  end.
Proof.
  intros Hd Hfit. unfold sqlite_apply_state_sync, in_transaction, with_transaction.
  destruct ((on_tables (apply_sync_tables u);; apply_sync_accounts u) s) as [[s1 [[]|e]]| |] eqn:Erun;
    intros [= <- <-]; [|done].
  apply dbm_bind_Ok in Erun as (s2 & [] & Htables & Hacc).
  apply (apply_sync_accounts_preserves u) in Hacc.
  eapply same_data_stored; [by apply same_rest_data|].
  unfold on_tables, zoom in Htables. destruct (apply_sync_tables u (st_db s)) as [[db r']| |] eqn:Et; [|done..].
  injection Htables as <- ->. by eapply apply_sync_tables_stored.
Qed.

(** C4: Applying a sync refines the contract of the store: the sync height becomes the
    greater of the two heights, the notes and output notes change as the tracker says,
    the committed and discarded transactions are recorded, and the tags of the notes
    that got committed are gone; the account part of the update touches none of this.
    An update that fails leaves all of the data as it was. *)
Theorem apply_state_sync_refines d u s s' r :
  data_stored d (st_db s) → update_fits d u →
  sqlite_apply_state_sync u s = Finished (s', r) →
  match r with
  | Ok _ => data_stored (synced_data d u) (st_db s')
  | Err _ => data_stored d (st_db s')
  end.
Proof. apply apply_state_sync_stored. Qed.

(** *** A transaction *)

Definition transacted_data (d : ClientData) (now : u64) (u : TransactionStoreUpdate) : ClientData := {|
  cd_height := cd_height d;
  cd_notes := changed_input_records (cd_notes d) (tsu_note_updates u);
  cd_outputs := changed_output_records (cd_outputs d) (tsu_note_updates u);
  cd_txs := <[executed_id (tsu_executed_transaction u) := executed_record u now]> (cd_txs d);
  cd_tags := cd_tags d ++ tsu_new_tags u
|}.

Lemma add_tags_stored ts : ∀ l db,
  tags_stored l db → tags_stored (l ++ ts) (foldl (λ db t, add_note_tag_tx t db) db ts).
Proof.
  induction ts as [|t ts IH]; intros l db Hl; [by rewrite app_nil_r|]. cbn [foldl].
  rewrite cons_middle, app_assoc. by apply IH, add_tag_stored.
Qed.

Lemma on_tables_do f s s' u :
  on_tables (db_do f) s = Finished (s', Ok u) ↔ s' = set_db (f (st_db s)) s.
Proof. unfold on_tables, zoom, db_do, db_exec. destruct u. naive_solver. Qed.

Lemma apply_transaction_stored d now u s s' r :
  data_stored d (st_db s) → changes_fit (cd_outputs d) (tsu_note_updates u) →
  TransactionDetails_wf (tx_details (executed_record u now)) →
  sqlite_apply_transaction now u s = Finished (s', r) →
  match r with
  | Ok _ => data_stored (transacted_data d now u) (st_db s')
  | Err _ => data_stored d (st_db s')
  end.
Proof.
  intros Hd Hfit Hwf. unfold sqlite_apply_transaction. cbv zeta.
  unfold mbind at 1, dbm_bind at 1, db_read_panics at 1.
  destruct (get_account_fungible_assets_for_delta _ _ _) as [[assets|e]| |]; [|by intros [= <- <-]|done..].
  unfold mbind at 1, dbm_bind at 1, db_read at 1.
  destruct (get_storage_map_roots_for_delta _ _ _) as [roots|e]; [|by intros [= <- <-]].
  unfold in_transaction, with_transaction.
  match goal with |- context [match ?m s with _ => _ end] => destruct (m s) as [[s4 [[]|e]]| |] eqn:Erun end;
    [|by intros [= <- <-]|done..]. intros [= <- <-].
  apply dbm_bind_Ok in Erun as (s1 & [] & ->%on_tables_do & Erun).
  apply dbm_bind_Ok in Erun as (s2 & [] & Hacc & Erun).
  apply apply_account_delta_preserves, same_rest_data in Hacc.
  apply dbm_bind_Ok in Erun as (s3 & [] & ->%on_tables_do & ->%on_tables_do).
  cbn [st_db set_db] in *. destruct Hd as [Hh Hn Ho Ht Htg].
  assert (data_stored {| cd_height := cd_height d; cd_notes := cd_notes d; cd_outputs := cd_outputs d;
    cd_txs := <[executed_id (tsu_executed_transaction u) := executed_record u now]> (cd_txs d);
    cd_tags := cd_tags d |} (st_db s2)) as [Hh2 Hn2 Ho2 Ht2 Htg2].
  { eapply same_data_stored; [exact Hacc|].
    pose proof (upsert_transaction_stored _ _ (executed_record u now) Ht Hwf I) as Ht'.
    change (upsert_transaction_record (executed_record u now) (st_db s))
      with (upsert_transactions [executed_record u now] (st_db s)) in *.
    split; cbn [cd_height cd_notes cd_outputs cd_txs cd_tags].
    - by rewrite (upsert_transactions_keeps state_sync).
    - eapply notes_stored_ext; [exact Hn|by rewrite (upsert_transactions_keeps input_notes)|].
      by rewrite (upsert_transactions_keeps notes_scripts).
    - eapply outputs_stored_ext; [|exact Ho]. by rewrite (upsert_transactions_keeps output_notes).
    - exact Ht'.
    - unfold tags_stored. by rewrite (upsert_transactions_keeps Db.tags). }
  cbn [cd_height cd_notes cd_outputs cd_txs cd_tags] in *.
  destruct (apply_note_updates_stored _ _ _ _ Hn2 Ho2 Hfit) as [Hn3 Ho3].
  set (db3 := apply_note_updates_tx (tsu_note_updates u) (st_db s2)) in *.
  assert (tags_stored (cd_tags d) db3) as Htg3.
  { unfold tags_stored, db3. by rewrite (apply_note_updates_keeps Db.tags). }
  split; cbn [transacted_data cd_height cd_notes cd_outputs cd_txs cd_tags].
  - rewrite (foldl_keeps state_sync) by done. unfold db3. by rewrite (apply_note_updates_keeps state_sync).
  - eapply notes_stored_ext; [exact Hn3|by rewrite (foldl_keeps input_notes)|].
    by rewrite (foldl_keeps notes_scripts).
  - eapply outputs_stored_ext; [|exact Ho3]. by rewrite (foldl_keeps output_notes).
  - eapply txs_stored_ext; [| |exact Ht2].
    + rewrite (foldl_keeps transactions) by done. unfold db3. by rewrite (apply_note_updates_keeps transactions).
    + rewrite (foldl_keeps transaction_scripts) by done. unfold db3.
      by rewrite (apply_note_updates_keeps transaction_scripts).
  - by apply add_tags_stored.
Qed.

Lemma failed_transaction_stored d now u s s' e :
  data_stored d (st_db s) → sqlite_apply_transaction now u s = Finished (s', Err e) → data_stored d (st_db s').
Proof.
  intros Hd. unfold sqlite_apply_transaction. cbv zeta.
  unfold mbind at 1, dbm_bind at 1, db_read_panics at 1.
  destruct (get_account_fungible_assets_for_delta _ _ _) as [[assets|e']| |]; [|by intros [= <- <-]|done..].
  unfold mbind at 1, dbm_bind at 1, db_read at 1.
  destruct (get_storage_map_roots_for_delta _ _ _) as [roots|e']; [|by intros [= <- <-]].
  unfold in_transaction, with_transaction.
  match goal with |- context [match ?m s with _ => _ end] => destruct (m s) as [[s4 [[]|e']]| |] eqn:Erun end;
    [done|by intros [= <- _]|done..].
Qed.

(** C33: Applying an executed transaction refines the contract of the store: it is recorded
    as pending with what was executed, the notes and output notes change as the tracker
    says and the new tags are tracked, with whatever the delta does to the tables of the
    account; when the delta does not fit the account, all of the data is as it was. *)
Theorem apply_transaction_refines d now u s s' r :
  data_stored d (st_db s) → changes_fit (cd_outputs d) (tsu_note_updates u) →
  TransactionDetails_wf (tx_details (executed_record u now)) →
  sqlite_apply_transaction now u s = Finished (s', r) →
  match r with
  | Ok _ => data_stored (transacted_data d now u) (st_db s')
  | Err _ => data_stored d (st_db s')
  end.
Proof. apply apply_transaction_stored. Qed.

(** *** Panics *)

(** A public account cannot be updated while one of its transactions is pending: when
    the network reports a newer state of a tracked public account and the update neither
    commits nor discards a transaction, but a transaction that was applied to the account
    is still staged in the forest, applying the update panics, although the rest of the
    update goes through. *)
Theorem staged_public_account_panics u s account accounts stack forest db :
  committed_transactions (ssu_transaction_updates u) = [] →
  discarded_transactions (ssu_transaction_updates u) = [] →
  au_updated_public_accounts (ssu_account_updates u) = account :: accounts →
  apply_sync_tables u (st_db s) = Finished (db, Ok ()) →
  pending_old_roots (st_forest s) !! Account_id account = Some stack →
  insert_account_state (st_forest s) (Account_vault account) (Account_storage account) = (forest, Ok ()) →
  pending_old_roots forest = pending_old_roots (st_forest s) →
  sqlite_apply_state_sync u s = Panicked.
Proof.
  intros Hc Hd Hacc Htables Hpending Hinsert Hsame.
  assert (apply_sync_accounts u (set_db db s) = Panicked) as Hpanic.
  { unfold apply_sync_accounts, discarded_account_states. rewrite Hc, Hd, Hacc. cbn [fmap list_fmap db_each].
    unfold mbind, dbm_bind, undo_account_state. cbn [bool_decide decide_rel mret dbm_ret].
    rewrite bool_decide_true by done. unfold mret, dbm_ret, on_forest at 1. cbn [commit_transaction_roots foldl].
    unfold update_account_state, mbind, dbm_bind, on_forest_panics at 1, insert_and_register_account_state.
    destruct s as [db0 f]. cbn in *. rewrite Hinsert. unfold replace_roots. by rewrite Hsame, Hpending. }
  unfold sqlite_apply_state_sync, in_transaction, with_transaction.
  unfold mbind, dbm_bind, on_tables, zoom at 1. by rewrite Htables, Hpanic.
Qed.
End data.

(** ** Witnesses *)

(** A sync to block 9 in which the stored note was consumed and a transaction committed. *)
Definition toy_data : ClientData := {|
  cd_height := 0;
  cd_notes := {[ toy_noteid 3 5 := toy_input_record toy_expected ]};
  cd_outputs := ∅;
  cd_txs := ∅;
  cd_tags := []
|}.

Definition toy_committed : TransactionRecord := tx_with_status (toy_tx 70 100 101 20) (CommittedTx 9 6).

Definition toy_update : StateSyncUpdate := {|
  ssu_block_num := 9;
  ssu_block_updates := BlockUpdates_default;
  ssu_note_updates := toy_note_changes;
  ssu_transaction_updates := TransactionUpdateTracker_new [toy_committed];
  ssu_account_updates := AccountUpdates_default
|}.

Definition toy_synced : StoreState :=
  match sqlite_apply_state_sync toy_update {| st_db := toy_note_tables; st_forest := AccountSmtForest_new |} with
  | Finished (s, Ok _) => s
  | _ => {| st_db := toy_note_tables; st_forest := AccountSmtForest_new |}
  end.

Lemma toy_data_stored : data_stored toy_data toy_note_tables.
Proof.
  split; cbn.
  - reflexivity.
  - apply toy_notes_stored.
  - split; [apply represents_empty|done..].
  - by split.
  - done.
Qed.

Lemma toy_update_fits : update_fits toy_data toy_update.
Proof.
  split; [apply toy_changes_fit|]. intros t Ht.
  assert (t ∈ [toy_committed]) as Ht' by exact Ht.
  apply list_elem_of_singleton in Ht' as ->. repeat split; discriminate.
Qed.

Lemma toy_sync_run :
  sqlite_apply_state_sync toy_update {| st_db := toy_note_tables; st_forest := AccountSmtForest_new |} =
    Finished (toy_synced, Ok ()).
Proof.
  assert (match sqlite_apply_state_sync toy_update
      {| st_db := toy_note_tables; st_forest := AccountSmtForest_new |} with
    | Finished (_, Ok ()) => true | _ => false end = true) as Hrun by by vm_compute.
  unfold toy_synced. by destruct (sqlite_apply_state_sync _ _) as [[s [[]|]]| |].
Qed.

Lemma apply_state_sync_refines_witness :
  cd_height (synced_data toy_data toy_update) = 9 ∧
  data_stored (synced_data toy_data toy_update) (st_db toy_synced).
Proof.
  split; [reflexivity|].
  apply (apply_state_sync_refines toy_data toy_update
    {| st_db := toy_note_tables; st_forest := AccountSmtForest_new |} toy_synced (Ok ())
    toy_data_stored toy_update_fits toy_sync_run).
Defined.

Definition toy_tag : @NoteTagRecord toy_protocol :=
  {| ntr_tag := (5 : @NoteTag toy_protocol); ntr_source := NoteTagSource_User |}.

(** The same tag twice, as a user and an address may add it. *)
Lemma note_tags_exact_witness :
  ∃ db', sqlite_remove_note_tag toy_tag (set_tags [tag_row toy_tag; tag_row toy_tag] Db_new) =
      Finished (db', Ok 2) ∧ tags_stored [] db'.
Proof.
  exact (proj2 (proj2 (proj2 (note_tags_exact [toy_tag; toy_tag] toy_tag
    (set_tags [tag_row toy_tag; tag_row toy_tag] Db_new) eq_refl)))).
Defined.

(** The first transaction of [AccountUndo.toy_txs], which is tracked with a new tag. *)
Definition toy_executed : TransactionStoreUpdate := {|
  tsu_executed_transaction := {|
    toy_ex_id := 70; toy_ex_delta := ([(6, 5)], [], [(4, 8)], []);
    toy_ex_inputs := []; toy_ex_outputs := [];
    toy_ex_initial := toy_header 610 1; toy_ex_final := toy_header 615 2;
    toy_ex_block := 9; toy_ex_expiration := 20 |};
  tsu_submission_height := 10;
  tsu_future_notes := [];
  tsu_note_updates := NoteUpdateTracker_default;
  tsu_new_tags := [toy_tag]
|}.

Definition toy_account_data : ClientData :=
  {| cd_height := 0; cd_notes := ∅; cd_outputs := ∅; cd_txs := ∅; cd_tags := [] |}.

Definition toy_transacted : StoreState :=
  match sqlite_apply_transaction 5 toy_executed toy_store with Finished (s, Ok _) => s | _ => toy_store end.

Lemma toy_transaction_run :
  sqlite_apply_transaction 5 toy_executed toy_store = Finished (toy_transacted, Ok ()).
Proof.
  assert (match sqlite_apply_transaction 5 toy_executed toy_store with
    | Finished (_, Ok ()) => true | _ => false end = true) as Hrun by by vm_compute.
  unfold toy_transacted. by destruct (sqlite_apply_transaction _ _ _) as [[s [[]|]]| |].
Qed.

Lemma apply_transaction_refines_witness :
  latest_account_storage (st_db toy_transacted) = {[ (toy_account_hex 1, z_to_text 4) := (z_to_text 8, 0) ]} ∧
  data_stored (transacted_data toy_account_data 5 toy_executed) (st_db toy_transacted).
Proof.
  split; [by vm_compute|].
  apply (apply_transaction_refines toy_account_data 5 toy_executed toy_store toy_transacted (Ok ())).
  - split; [reflexivity| | |by split|reflexivity].
    + split; [apply represents_empty|done..].
    + split; [apply represents_empty|done..].
  - split; intros r Hr; by apply not_elem_of_nil in Hr.
  - repeat split; discriminate.
  - apply toy_transaction_run.
Defined.

(** Account 1 has a transaction pending when its state at nonce 5 comes in. *)
Definition toy_newer : @Account toy_protocol := ((1, 5), [(3, 20)]).

Definition toy_public_update : StateSyncUpdate := {|
  ssu_block_num := 9;
  ssu_block_updates := BlockUpdates_default;
  ssu_note_updates := NoteUpdateTracker_default;
  ssu_transaction_updates := TransactionUpdateTracker_new [];
  ssu_account_updates :=
    {| au_updated_public_accounts := [toy_newer]; au_mismatched_private_accounts := [] |}
|}.

Definition toy_public_tables : Db :=
  match apply_sync_tables toy_public_update (st_db toy_transacted) with Finished (db, Ok _) => db | _ => Db_new end.
Definition toy_public_forest : AccountSmtForest * result StoreError () :=
  insert_account_state (st_forest toy_transacted) (Account_vault toy_newer) (Account_storage toy_newer).

Lemma toy_public_steps :
  apply_sync_tables toy_public_update (st_db toy_transacted) = Finished (toy_public_tables, Ok ()) ∧
  is_Some (pending_old_roots (st_forest toy_transacted) !! Account_id toy_newer) ∧
  toy_public_forest.2 = Ok () ∧
  pending_old_roots toy_public_forest.1 = pending_old_roots (st_forest toy_transacted).
Proof.
  split_and!.
  - assert (match apply_sync_tables toy_public_update (st_db toy_transacted) with
      | Finished (_, Ok ()) => true | _ => false end = true) as Hrun by by vm_compute.
    unfold toy_public_tables. by destruct (apply_sync_tables _ _) as [[db [[]|]]| |].
  - apply (bool_decide_unpack _). by vm_compute.
  - assert (match toy_public_forest.2 with Ok () => true | _ => false end = true) as Hrun by by vm_compute.
    by destruct toy_public_forest.2 as [[]|].
  - apply (bool_decide_unpack _). by vm_compute.
Qed.

Lemma staged_public_account_panics_witness :
  sqlite_apply_state_sync toy_public_update toy_transacted = Panicked.
Proof.
  destruct toy_public_steps as (Htables & [stack Hstack] & Hinsert & Hsame).
  eapply (staged_public_account_panics toy_public_update toy_transacted toy_newer []
    stack toy_public_forest.1 toy_public_tables).
  - reflexivity.
  - reflexivity.
  - reflexivity.
  - exact Htables.
  - exact Hstack.
  - rewrite <-Hinsert. apply surjective_pairing.
  - exact Hsame.
Defined.
