(* ===== verification/ChainSpec.v ===== *)
(** * The chain tables store block headers

    The contract of the table of block headers: it represents a map from block numbers
    to headers with their peaks and relevance.  Insertions never replace a header and
    never make a relevant block irrelevant, and pruning keeps all that the current
    partial MMR is rebuilt from. *)

From S2P Require Import Prelude Protocol Serde Model NoteStates InputNote OutputNote TxRecord.
From S2P Require Import TxTracker Errors NoteTracker Rpc SyncUpdate AccountTypes SmtForest Sql.
From S2P Require Import Versioned Db AccountDb Store ChainDb AccountReaders NoteDb NoteSpec TxDb SqliteStore.
From Stdlib Require Import ZArith Lia Ascii.
From stdpp Require Import base gmap list strings sorting.

Open Scope Z_scope.

(** A query for one key finds its row. *)
Lemma select_one {K V} `{Countable K} (m : gmap K V) k :
  select_where (λ k' _, bool_decide (k' ∈ ({[ k ]} : gset K))) m =
    match m !! k with Some v => [(k, v)] | None => [] end.
Proof.
  set (l := select_where _ m).
  assert (∀ kv, kv ∈ l ↔ m !! kv.1 = Some kv.2 ∧ kv.1 = k) as Hl.
  { intros [k' v]. unfold l. rewrite elem_of_select_where. cbn.
    by rewrite bool_decide_eq_true, elem_of_singleton. }
  assert (NoDup l) as Hnd by (apply NoDup_filter, NoDup_map_to_list).
  destruct (m !! k) as [v|] eqn:Hk.
  - apply Permutation_singleton_r, NoDup_Permutation; [done|apply NoDup_singleton|].
    intros [k' v']. rewrite Hl, list_elem_of_singleton. simpl. naive_solver.
  - destruct l as [|[k' v] l]; [done|]. exfalso. destruct (proj1 (Hl (k', v))) as [Hm Hk']; [left|].
    simpl in *. congruence.
Qed.

Section chain_spec.
Context `{StoreLaws} `{!SerdeLaws}.

(** ** The contract *)

Record StoredBlock := {
  sb_header : BlockHeader;
  sb_peaks : list Word;
  sb_relevant : bool
}.

Definition block_row (b : StoredBlock) : BlockHeaderRow :=
  serialize_block_header (sb_header b) (sb_peaks b) (sb_relevant b).

Record blocks_stored (m : gmap Z StoredBlock) (db : Db) : Prop := {
  bs_rows : block_headers db = block_row <$> m;
  bs_num n b : m !! n = Some b → BlockHeader_block_num (sb_header b) = n
}.

Lemma parse_block_row b :
  parse_block_header (block_row b) = Ok (sb_header b, BlockRelevance_from_bool (sb_relevant b)).
Proof.
  unfold parse_block_header, block_row, serialize_block_header. cbn [bhr_header bhr_has_client_notes].
  by rewrite (read_from_bytes_ok BlockHeader_codec any) by exact I.
Qed.

(** What inserting a header does: a stored header stays, its relevance can only grow. *)
Definition insert_block (header : BlockHeader) (peaks : list Word) (relevant : bool)
    (m : gmap Z StoredBlock) : gmap Z StoredBlock :=
  let n := BlockHeader_block_num header in
  <[n := match m !! n with
    | Some b => {| sb_header := sb_header b; sb_peaks := sb_peaks b;
                   sb_relevant := sb_relevant b || relevant |}
    | None => {| sb_header := header; sb_peaks := peaks; sb_relevant := relevant |}
    end]> m.

Lemma insert_block_header_stored header peaks relevant m db :
  blocks_stored m db →
  blocks_stored (insert_block header (MmrPeaks_peaks peaks) relevant m)
    (insert_block_header_tx header peaks relevant db).
Proof.
  intros [Hrows Hnum]. split.
  - unfold insert_block_header_tx, set_block_header_has_client_notes, insert_block. cbn.
    apply map_eq. intros n. rewrite lookup_update_where, lookup_insert_ignore, Hrows, !lookup_fmap.
    destruct (decide (BlockHeader_block_num header = n)) as [<-|Hne].
    + rewrite lookup_insert_eq, Z.eqb_refl. destruct (m !! _) as [b|]; cbn; f_equal; unfold block_row.
      * destruct b as [h p []]; reflexivity.
      * by destruct relevant.
    + rewrite lookup_insert_ne by done. destruct (m !! n) as [b|]; cbn; [|done].
      by rewrite (proj2 (Z.eqb_neq n _)) by congruence.
  - intros n b. unfold insert_block. rewrite lookup_insert_Some. intros [[<- <-]|[_ Hb]]; [|by eapply Hnum].
    destruct (m !! _) as [b|] eqn:Eb; [|done]. cbn. by eapply Hnum.
Qed.

Context `{Forest : !SmtForestLib} `{!PartialAccountLib}.

Implicit Types (s : @StoreState _ _ Forest).

Lemma on_tables_read {A} (f : Db → result StoreError A) s :
  on_tables (db_read f) s = Finished (s, f (st_db s)).
Proof. by destruct s. Qed.

Lemma on_tables_get {A} (f : Db → eff StoreError A) s :
  on_tables (db_get f) s =
    match f (st_db s) with Finished r => Finished (s, r) | Panicked => Panicked | OutOfFuel => OutOfFuel end.
Proof. destruct s. unfold on_tables, zoom, db_get. cbn. by destruct (f _). Qed.

Lemma get_block_headers_one n s :
  on_tables (sqlite_get_block_headers {[ n ]}) s = Finished (s,
    match block_headers (st_db s) !! n with
    | Some row => header ← parse_block_header row; Ok [header]
    | None => Ok []
    end).
Proof.
  unfold sqlite_get_block_headers. rewrite on_tables_read, select_one.
  destruct (block_headers (st_db s) !! n) as [row|]; [|done]. cbn. by destruct (parse_block_header row).
Qed.

Definition stored_header (row : option BlockHeaderRow) :
    result StoreError (option (BlockHeader * BlockRelevance)) :=
  match row with
  | Some row => header ← parse_block_header row; Ok (Some header)
  | None => Ok None
  end.

Lemma get_one_block n s :
  get_block_header_by_num n s = Finished (s, stored_header (block_headers (st_db s) !! n)).
Proof.
  unfold get_block_header_by_num, mbind, dbm_bind. cbn [get_block_headers sqlite_store_ops].
  rewrite get_block_headers_one. destruct (block_headers (st_db s) !! n) as [row|]; [|done].
  cbn. by destruct (parse_block_header row).
Qed.

(** C34: The table of block headers refines a map: for tables that store a map of
    headers, storing a header adds it under its number or, when the number is taken,
    keeps the stored header and peaks and only adds relevance; a query by number
    returns the header with its relevance, and the tracked blocks are exactly the
    relevant ones. *)
Theorem block_headers_refine m s header peaks relevant n :
  blocks_stored m (st_db s) →
  let m' := insert_block header (MmrPeaks_peaks peaks) relevant m in
  ∃ s', on_tables (sqlite_insert_block_header header peaks relevant) s = Finished (s', Ok ()) ∧
    blocks_stored m' (st_db s') ∧
    get_block_header_by_num n s' = Finished (s', Ok
      ((λ b, (sb_header b, BlockRelevance_from_bool (sb_relevant b))) <$> m' !! n)) ∧
    get_tracked_block_header_numbers s' = Finished (s', Ok
      (dom (base.filter (λ nb : Z * StoredBlock, sb_relevant nb.2 = true) m'))).
Proof.
  intros Hm m'. pose proof (insert_block_header_stored header peaks relevant _ _ Hm) as Hm'. fold m' in Hm'.
  exists (set_db (insert_block_header_tx header peaks relevant (st_db s)) s). split_and!; [done|done|..].
  - rewrite get_one_block. cbn [st_db set_db]. rewrite (bs_rows _ _ Hm'), lookup_fmap. destruct (m' !! n) as [b|]; [|done]. cbn.
    by rewrite parse_block_row.
  - cbn [get_tracked_block_header_numbers sqlite_store_ops].
    unfold sqlite_get_tracked_block_header_numbers. rewrite on_tables_read. f_equal. f_equal. f_equal.
    cbn [st_db set_db]. apply set_eq. intros k. rewrite elem_of_list_to_set, list_elem_of_fmap, elem_of_dom.
    rewrite (bs_rows _ _ Hm'). split.
    + intros ([k' row] & -> & Hin). apply elem_of_select_where in Hin as [Hk Hrel].
      rewrite lookup_fmap_Some in Hk. destruct Hk as (b & <- & Hb). exists b.
      by apply map_lookup_filter_Some.
    + intros [b [Hb Hrel]%map_lookup_filter_Some]. exists (k, block_row b). split; [done|].
      apply elem_of_select_where. rewrite lookup_fmap, Hb. done.
Qed.

(** ** Pruning *)

(** The rows that pruning keeps: those with notes, genesis, and those from the sync
    height on. *)
Lemma lookup_prune_blocks db height n :
  state_sync db = [height] →
  block_headers (prune_blocks db) !! n =
    (row ← block_headers db !! n;
     if negb (bhr_has_client_notes row) && (0 <? n) && (n <? height) then None else Some row).
Proof. intros Hs. unfold prune_blocks. rewrite Hs. cbn. by rewrite lookup_delete_where. Qed.

Lemma prune_tracked db height :
  state_sync db = [height] →
  list_to_set (C := gset Z)
      ((select_where (λ _ row, bhr_has_client_notes row) (block_headers (prune_blocks db))).*1) =
    list_to_set ((select_where (λ _ row, bhr_has_client_notes row) (block_headers db)).*1).
Proof.
  intros Hs. apply set_eq. intros k. rewrite !elem_of_list_to_set, !list_elem_of_fmap.
  split; intros ([k' row] & -> & [Hk Hrel]%elem_of_select_where);
    exists (k', row); (split; [done|]); apply elem_of_select_where; (split; [|done]).
  - rewrite (lookup_prune_blocks _ _ _ Hs) in Hk. destruct (block_headers db !! k') as [row'|]; [|done].
    cbn in Hk. destruct (_ && _); [done|]. congruence.
  - rewrite (lookup_prune_blocks _ _ _ Hs), Hk. cbn. by rewrite Hrel.
Qed.

(** Readers agree on two states of the store: same results, each state unchanged. *)
Definition agree {A} (m : store_m A) (s s' : StoreState) : Prop :=
  ∀ r, m s = Finished (s, r) ↔ m s' = Finished (s', r).
Definition reader {A} (m : store_m A) : Prop := ∀ s t r, m s = Finished (t, r) → t = s.

Lemma agree_bind {A B} (m : store_m A) (f : A → store_m B) s s' :
  reader m → agree m s s' → (∀ a, m s = Finished (s, Ok a) → agree (f a) s s') →
  agree (m ≫= f) s s'.
Proof.
  intros Hm Ha Hf r. unfold agree in *. unfold mbind, dbm_bind.
  destruct (m s) as [[t ra]| |] eqn:Em.
  - pose proof (Hm _ _ _ Em) as ->. rewrite (proj1 (Ha ra) eq_refl).
    destruct ra as [a|e]; [by apply Hf|]. by split; intros [= <-].
  - destruct (m s') as [[t' ra']| |] eqn:Em'; [|done..]. pose proof (Hm _ _ _ Em') as ->.
    by pose proof (proj2 (Ha ra') eq_refl).
  - destruct (m s') as [[t' ra']| |] eqn:Em'; [|done..]. pose proof (Hm _ _ _ Em') as ->.
    by pose proof (proj2 (Ha ra') eq_refl).
Qed.

Lemma reader_read {A} (f : Db → result StoreError A) : reader (on_tables (db_read f)).
Proof. intros s t r. rewrite on_tables_read. by intros [= <- _]. Qed.
Lemma reader_get {A} (f : Db → eff StoreError A) : reader (on_tables (db_get f)).
Proof. intros s t r. rewrite on_tables_get. destruct (f _); [|done..]. by intros [= <- _]. Qed.
Lemma agree_read {A} (f : Db → result StoreError A) s s' :
  f (st_db s) = f (st_db s') → agree (on_tables (db_read f)) s s'.
Proof. intros Hf r. rewrite !on_tables_read, Hf. split; intros [= <-]; done. Qed.
Lemma agree_get {A} (f : Db → eff StoreError A) s s' :
  f (st_db s) = f (st_db s') → agree (on_tables (db_get f)) s s'.
Proof. intros Hf r. rewrite !on_tables_get, Hf. by destruct (f (st_db s')); split; intros [=]; subst. Qed.
Lemma agree_ret {A} (a : A) s s' : agree (mret a) s s'.
Proof. intros r. split; intros [= <-]; done. Qed.
Lemma agree_fail {A} e s s' : agree (db_fail (A:=A) e) s s'.
Proof. intros r. split; intros [= <-]; done. Qed.
Lemma agree_panic {A} s s' : agree (db_panic (A:=A)) s s'.
Proof. intros r. by split. Qed.

Lemma reader_fixed {A} (m : store_m A) (f : StoreState → result StoreError A) :
  (∀ s, m s = Finished (s, f s)) → reader m.
Proof. intros Hm s t r. rewrite Hm. by intros [= <- _]. Qed.

Lemma sync_height_value s height h :
  state_sync (st_db s) = [height] → on_tables sqlite_get_sync_height s = Finished (s, Ok h) → h = height.
Proof.
  intros Hs. unfold sqlite_get_sync_height. rewrite on_tables_get, Hs. cbn. unfold try_from.
  by destruct (in_rangeb _ _); intros [=].
Qed.

Lemma reader_nodes filter : reader (on_tables (sqlite_get_partial_blockchain_nodes filter)).
Proof.
  intros s t r. unfold sqlite_get_partial_blockchain_nodes. destruct filter as [|[|id ids]|forest].
  - by apply reader_get.
  - destruct s. by intros [= <- _].
  - destruct (mapM node_id (id :: ids)); [by apply reader_get|done].
  - destruct (forest =? 0); [destruct s; by intros [= <- _]|].
    destruct (node_id _); [by apply reader_get|done].
Qed.

Lemma agree_nodes filter s s' :
  partial_blockchain_nodes (st_db s') = partial_blockchain_nodes (st_db s) →
  agree (on_tables (sqlite_get_partial_blockchain_nodes filter)) s s'.
Proof.
  intros Hn. assert (∀ p, query_partial_blockchain_nodes p (st_db s) =
    query_partial_blockchain_nodes p (st_db s')) as Hq.
  { intros p. unfold query_partial_blockchain_nodes. by rewrite Hn. }
  assert (∀ A (a : A), agree (on_tables (mret a)) s s') as Hret.
  { intros A a r. destruct s, s'. by split; intros [= <-]. }
  unfold sqlite_get_partial_blockchain_nodes. destruct filter as [|[|id ids]|forest].
  - by apply agree_get.
  - apply Hret.
  - destruct (mapM node_id (id :: ids)); [by apply agree_get|by split].
  - destruct (forest =? 0); [apply Hret|]. destruct (node_id _); [by apply agree_get|by split].
Qed.

(** C35: Pruning irrelevant blocks removes exactly the headers without notes of the client
    strictly between genesis and the sync height, and does not change the current
    partial MMR: it is rebuilt from the pruned tables with the same result as before,
    errors included. *)
Theorem prune_keeps_partial_mmr s height :
  state_sync (st_db s) = [height] →
  ∃ s', prune_irrelevant_blocks s = Finished (s', Ok ()) ∧
    (∀ n row, block_headers (st_db s') !! n = Some row ↔
      block_headers (st_db s) !! n = Some row ∧
      ¬ (bhr_has_client_notes row = false ∧ 0 < n < height)) ∧
    ∀ r, get_current_partial_mmr s = Finished (s, r) ↔ get_current_partial_mmr s' = Finished (s', r).
Proof.
  intros Hs. set (s' := set_db (prune_blocks (st_db s)) s). exists s'.
  assert (state_sync (st_db s') = state_sync (st_db s) ∧
    partial_blockchain_nodes (st_db s') = partial_blockchain_nodes (st_db s)) as [Hsync Hnodes].
  { cbn. unfold prune_blocks. by rewrite Hs. }
  assert (block_headers (st_db s) !! height = block_headers (st_db s') !! height) as Hheight.
  { cbn. rewrite (lookup_prune_blocks _ _ _ Hs). destruct (block_headers (st_db s) !! height); [|done].
    cbn. by rewrite Z.ltb_irrefl, andb_false_r. }
  split_and!; [done| |].
  - intros n row. cbn. rewrite (lookup_prune_blocks _ _ _ Hs).
    destruct (block_headers (st_db s) !! n) as [row'|]; [|naive_solver]. cbn.
    destruct (bhr_has_client_notes row') eqn:Er, (Z.ltb_spec 0 n), (Z.ltb_spec n height); cbn;
      split; try intros [= <-]; try (intros [[= <-] Hnot]); try done; try (split; [done|]);
      try (intros [? ?]; congruence || lia). by destruct Hnot.
  - unfold get_current_partial_mmr. cbn [get_sync_height get_partial_blockchain_peaks_by_block_num
      get_tracked_block_header_numbers get_partial_blockchain_nodes sqlite_store_ops].
    apply agree_bind; [apply reader_get|apply agree_get; by rewrite Hsync|]. intros h Hh.
    assert (h = height) as -> by (by apply (sync_height_value s)).
    apply agree_bind; [apply reader_read|apply agree_read; by rewrite Hheight|]. intros peaks _.
    apply agree_bind; [by eapply (reader_fixed _ _ (get_one_block height))| |].
    { intros r. rewrite !get_one_block, Hheight. by split; intros [= <-]. }
    intros [[block relevance]|] _; [|apply agree_fail].
    apply agree_bind; [apply reader_read|apply agree_read; f_equal; symmetry; by eapply prune_tracked|].
    intros leaves _. cbv zeta.
    apply agree_bind; [apply reader_nodes|by apply agree_nodes|]. intros nodes _.
    destruct (PartialMmr_from_parts _ _ _); [apply agree_ret|apply agree_fail].
Qed.
End chain_spec.

(** ** Witnesses *)

#[export] Instance toy_partial_account : @PartialAccountLib toy_protocol toy_account_lib := {|
  StorageSlotId := Z;
  StorageSlotName_id := λ name, name;
  AccountStorageHeader_new := λ slots, Ok slots;
  PartialStorage_new := λ _ _, Ok ();
  PartialAccount_new := λ account, Ok account
|}.

Definition toy_stored (header : @BlockHeader toy_protocol) (relevant : bool) : StoredBlock :=
  {| sb_header := header; sb_peaks := [7 : @Word toy_protocol]; sb_relevant := relevant |}.

Definition toy_blocks (blocks : gmap Z StoredBlock) (height : Z) : StoreState :=
  {| st_db := set_state_sync [height] (set_block_headers (block_row <$> blocks) Db_new);
     st_forest := AccountSmtForest_new |}.

(** Block 3 is stored without notes; it is seen again with notes, and other peaks. *)
Lemma block_headers_refine_witness :
  ∃ s', get_block_header_by_num 3 s' = Finished (s', Ok (Some ((3, 8), HasNotes))).
Proof.
  destruct (block_headers_refine {[ 3 := toy_stored (3, 8) false ]}
    (toy_blocks {[ 3 := toy_stored (3, 8) false ]} 4) (3, 8) (9 : @MmrPeaks toy_protocol toy_mmr) true 3)
    as (s' & _ & _ & Hget & _).
  - split; [reflexivity|]. intros n b. rewrite lookup_singleton_Some. by intros [<- <-].
  - exists s'. rewrite Hget. reflexivity.
Defined.

(** Block 2 is pruned, block 3 has notes, and the client is at block 4. *)
Definition toy_pruned : StoreState := toy_blocks
  {[ 0 := toy_stored (0, 1) false; 2 := toy_stored (2, 5) false; 3 := toy_stored (3, 8) true;
     4 := toy_stored (4, 6) false ]} 4.

Lemma prune_keeps_partial_mmr_witness :
  ∃ s', prune_irrelevant_blocks toy_pruned = Finished (s', Ok ()) ∧
    (∀ r, get_current_partial_mmr toy_pruned = Finished (toy_pruned, r) ↔
      get_current_partial_mmr s' = Finished (s', r)).
Proof.
  destruct (prune_keeps_partial_mmr toy_pruned 4 eq_refl) as (s' & Hrun & _ & Hmmr).
  exists s'. split; [exact Hrun|exact Hmmr].
Defined.
