(* ===== verification/ForeignKeys.v ===== *)
(** * The foreign keys of the SQLite store

    [store.sql] declares that headers and foreign accounts refer to stored code, that
    transactions refer to stored scripts, and input notes to stored note scripts.
    Every operation of the store keeps these references, so the deletions of the code
    (replaced rows, pruned account code) never run into a constraint. *)

From S2P Require Import Prelude Protocol Serde Model NoteStates InputNote OutputNote TxRecord.
From S2P Require Import TxTracker Errors NoteTracker Rpc SyncUpdate AccountTypes SmtForest Sql.
From S2P Require Import Versioned Db AccountDb AccountHistory AccountUndo AccountReplace Store.
From S2P Require Import ChainDb AccountReaders NoteDb NoteSpec TxDb SqliteStore SqliteSync.
From Stdlib Require Import ZArith Lia Ascii.
From stdpp Require Import base gmap list strings sorting.

Open Scope Z_scope.

Record fk_ok (db : Db) : Prop := {
  fk_latest id row : latest_account_headers db !! id = Some row →
    is_Some (account_code db !! hr_code_commitment row);
  fk_historical c row : historical_account_headers db !! c = Some row →
    is_Some (account_code db !! hr_code_commitment (hh_header row));
  fk_foreign a c : foreign_account_code db !! a = Some c → is_Some (account_code db !! c);
  fk_transaction id row root : transactions db !! id = Some row → tr_script_root row = Some root →
    is_Some (transaction_scripts db !! root);
  fk_note id row : input_notes db !! id = Some row → is_Some (notes_scripts db !! inr_script_root row)
}.

Definition keeps_fk (db db' : Db) : Prop := fk_ok db → fk_ok db'.

#[export] Instance keeps_fk_preorder : PreOrder keeps_fk.
Proof. split; unfold keeps_fk; [by intros db|]. intros db1 db2 db3. tauto. Qed.

(** The tables that are referred to, or refer to others. *)
Definition accounts_part (db : Db) :=
  (account_code db, latest_account_headers db, historical_account_headers db, foreign_account_code db).
Definition scripts_part (db : Db) :=
  (transactions db, transaction_scripts db, input_notes db, notes_scripts db).

Lemma keeps_same db db' :
  accounts_part db' = accounts_part db → scripts_part db' = scripts_part db → keeps_fk db db'.
Proof.
  unfold accounts_part, scripts_part. intros [= Hc Hl Hh Hf] [= Ht Hts Hi Hs] [Fl Fh Ff Ft Fn].
  split; rewrite ?Hc, ?Hl, ?Hh, ?Hf, ?Ht, ?Hts, ?Hi, ?Hs; done.
Qed.

Lemma keeps_foldl {A} (f : Db → A → Db) l db :
  (∀ db a, keeps_fk db (f db a)) → keeps_fk db (foldl f db l).
Proof.
  intros Hf. revert db. induction l as [|a l IH]; intros db; [reflexivity|]. simpl.
  etrans; [apply Hf|apply IH].
Qed.

Section fk.
Context `{StoreLib} `{!AccountLaws} `{Forest : !SmtForestLib} `{!PartialAccountLib} `{!ExecutedLib}.

(** ** Headers *)

Lemma replace_latest_header_fk row db db' : replace_latest_header row db = Ok db' → keeps_fk db db'.
Proof.
  unfold replace_latest_header, constraint_failed, code_exists. case_bool_decide as Hcode; [|done].
  intros [= <-] [Fl Fh Ff Ft Fn]. split; try done. cbn. intros id row'. rewrite lookup_insert_Some.
  intros [[<- <-]|[_ Hrow]]; [done|]. rewrite lookup_delete_where in Hrow.
  destruct (latest_account_headers db !! id) as [row0|] eqn:E; [|done]. cbn in Hrow.
  destruct (bool_decide _); [done|]. injection Hrow as <-. by eapply Fl.
Qed.

Lemma replace_historical_header_fk row db db' :
  replace_historical_header row db = Ok db' → keeps_fk db db'.
Proof.
  unfold replace_historical_header, constraint_failed, code_exists. case_bool_decide as Hcode; [|done].
  cbn [negb]. destruct (_ && _); [done|]. intros [= <-] [Fl Fh Ff Ft Fn]. split; try done. cbn.
  intros c row'. rewrite lookup_insert_Some. intros [[<- <-]|[_ Hrow]]; [done|by eapply Fh].
Qed.

Lemma insert_account_header_fk h seed old db db' :
  insert_account_header h seed old db = Ok db' → keeps_fk db db'.
Proof.
  unfold insert_account_header. intros (db1 & Hold & Hnew)%bind_Ok.
  transitivity db1; [|by eapply replace_latest_header_fk].
  destruct old as [old|]; [|injection Hold as <-; reflexivity].
  destruct (match _ with Some _ => _ | None => _ end) as [seed' locked'].
  by eapply replace_historical_header_fk.
Qed.

(** Rows that are left were there before. *)
Lemma keeps_fewer_headers db latest historical :
  (∀ k row, latest !! k = Some row → ∃ row0, latest_account_headers db !! k = Some row0 ∧
    hr_code_commitment row0 = hr_code_commitment row) →
  (∀ k row, historical !! k = Some row → ∃ row0, historical_account_headers db !! k = Some row0 ∧
    hr_code_commitment (hh_header row0) = hr_code_commitment (hh_header row)) →
  keeps_fk db (set_latest_account_headers latest (set_historical_account_headers historical db)).
Proof.
  intros Hl Hh [Fl Fh Ff Ft Fn]. split; try done; cbn.
  - intros k row (row0 & Hrow & <-)%Hl. by eapply Fl.
  - intros k row (row0 & Hrow & <-)%Hh. by eapply Fh.
Qed.

Lemma restore_header_fk a n db db' : restore_header a n db = Ok db' → keeps_fk db db'.
Proof.
  unfold restore_header. destruct (headers_replaced_at a n db) as [|row rows].
  - intros [= <-]. etrans; [apply (keeps_fewer_headers db
      (base.delete a (latest_account_headers db)) (historical_account_headers db))|by apply keeps_same].
    + intros k row [_ Hrow]%lookup_delete_Some. by exists row.
    + intros k row Hrow. by exists row.
  - intros Hrun. apply (try_fold_inv (keeps_fk db) _ _ _ _ (reflexivity db)) in Hrun; [done|].
    intros db1 row' db2 _ Hdb1 Hr. etrans; [exact Hdb1|by eapply replace_latest_header_fk].
Qed.

Lemma delete_history_fk a ns db : keeps_fk db (delete_history a ns db).
Proof.
  unfold delete_history. cbv zeta.
  set (db1 := set_historical_account_assets _ _).
  transitivity db1; [by apply keeps_same|].
  assert (∀ p, keeps_fk db1 (set_historical_account_headers (delete_where p (historical_account_headers db1)) db1))
    as Hdel; [|apply Hdel].
  intros p [Fl Fh Ff Ft Fn]. split; try done. intros c row.
  cbn [historical_account_headers set_historical_account_headers account_code]. rewrite lookup_delete_where.
  destruct (historical_account_headers db1 !! c) as [row0|] eqn:E; [|done]. cbn.
  destruct (p c row0); [done|]. intros [= <-]. by eapply Fh.
Qed.

(** ** Computations *)

Definition fk_kept (s s' : StoreState) : Prop := keeps_fk (st_db s) (st_db s').

#[export] Instance fk_kept_preorder : PreOrder fk_kept.
Proof. split; unfold fk_kept; [intros s; reflexivity|]. intros s1 s2 s3 H12 H23. by etrans. Qed.

Lemma fk_on_db (f : Db → result StoreError Db) :
  (∀ db db', f db = Ok db' → keeps_fk db db') → preserves fk_kept (on_db f).
Proof.
  intros Hf s s' r. unfold on_db, zoom, db_exec, fk_kept.
  destruct (f (st_db s)) as [db|e] eqn:Ef; intros [= <- _]; cbn; [by apply Hf|reflexivity].
Qed.

Lemma fk_on_db_pure (f : Db → Db) :
  (∀ db, keeps_fk db (f db)) → preserves fk_kept (on_db (λ db, Ok (f db))).
Proof. intros Hf. apply fk_on_db. intros db db' [= <-]. apply Hf. Qed.

Lemma fk_same_db {A} (m : store_m A) : (∀ s s' r, m s = Finished (s', r) → st_db s' = st_db s) →
  preserves fk_kept m.
Proof. intros Hm s s' r Hr. unfold fk_kept. rewrite (Hm _ _ _ Hr). reflexivity. Qed.

Lemma fk_on_forest {A} (f : AccountSmtForest → AccountSmtForest * result StoreError A) :
  preserves fk_kept (on_forest f).
Proof. apply fk_same_db. intros s s' r. unfold on_forest. destruct (f _). by intros [= <- _]. Qed.
Lemma fk_on_forest_panics f : preserves fk_kept (on_forest_panics f).
Proof.
  apply fk_same_db. intros s s' r. unfold on_forest_panics. destruct (f _) as [[]| |]; [|done..].
  by intros [= <- _].
Qed.
Lemma fk_read_panics {A} (f : StoreState → eff StoreError A) : preserves fk_kept (db_read_panics f).
Proof. apply fk_same_db. intros s s' r. unfold db_read_panics. destruct (f s); [|done..]. by intros [= <- _]. Qed.

Lemma fk_in_transaction {A} (m : store_m A) : preserves fk_kept m → preserves fk_kept (in_transaction m).
Proof.
  intros Hm s s' r. unfold in_transaction, with_transaction.
  destruct (m s) as [[s1 [a|e]]| |] eqn:Em; intros [= <- _]; [by eapply Hm|].
  unfold fk_kept. cbn. reflexivity.
Qed.

Lemma fk_bind {A B} (m : store_m A) (f : A → store_m B) :
  preserves fk_kept m → (∀ a, preserves fk_kept (f a)) → preserves fk_kept (m ≫= f).
Proof. apply preserves_bind, _. Qed.

(** A computation on the tables. *)
Lemma fk_on_tables {A} (m : db_m A) : preserves keeps_fk m → preserves fk_kept (on_tables m).
Proof.
  intros Hm s s' r. unfold on_tables, zoom. destruct (m (st_db s)) as [[db r']| |] eqn:Em; [|done..].
  intros [= <- _]. unfold fk_kept. cbn. by eapply Hm.
Qed.

Lemma fk_db_do (f : Db → Db) : (∀ db, keeps_fk db (f db)) → preserves keeps_fk (db_do f).
Proof. intros Hf. apply preserves_exec; [apply _|]. intros db db' [= <-]. apply Hf. Qed.

Lemma fk_db_transaction {A} (m : db_m A) : preserves keeps_fk m → preserves keeps_fk (db_transaction m).
Proof.
  intros Hm db db' r. unfold db_transaction, with_transaction.
  destruct (m db) as [[db1 [a|e]]| |] eqn:Em; intros [= <- _]; [by eapply Hm|]. reflexivity.
Qed.
End fk.

#[export] Hint Resolve fk_on_forest fk_on_forest_panics fk_read_panics : miden.

(** Go through the steps of a computation. *)
Ltac fk_steps :=
  repeat first
    [ solve [auto with miden] | apply fk_in_transaction | apply fk_bind; [|intros] | apply preserves_read, _
    | apply preserves_ret, _ | apply preserves_fail, _ | apply preserves_panic
    | apply preserves_each; [apply _|intros]
    | apply fk_on_db_pure; intros | apply fk_on_db; intros ];
  eauto with miden.

(** ** The operations *)

Section operations.
Context `{StoreLib} `{!AccountLaws} `{Forest : !SmtForestLib} `{!PartialAccountLib} `{!ExecutedLib}.
Implicit Types (s : @StoreState _ _ Forest).

(** *** Code *)

Lemma insert_account_code_fk code db db' : insert_account_code code db = Ok db' → keeps_fk db db'.
Proof.
  intros [= <-] [Fl Fh Ff Ft Fn].
  assert (∀ c, is_Some (account_code db !! c) → is_Some (insert_ignore (Word_to_hex
    (AccountCode_commitment code)) (AccountCode_to_bytes code) (account_code db) !! c)) as Hkeep.
  { intros c [v Hv]. rewrite lookup_insert_ignore, Hv. by eexists. }
  split; cbn; intros; try (apply Hkeep); eauto.
Qed.

Lemma foreign_code_fk id commitment db db' :
  (if code_exists db commitment
   then Ok (set_foreign_account_code (<[id := commitment]> (foreign_account_code db)) db)
   else constraint_failed) = Ok db' → keeps_fk db db'.
Proof.
  unfold code_exists, constraint_failed. case_bool_decide as Hc; [|done]. intros [= <-] [Fl Fh Ff Ft Fn].
  split; try done. cbn. intros a c. rewrite lookup_insert_Some. intros [[<- <-]|[_ Ha]]; eauto.
Qed.

(** Code that nothing refers to can go. *)
Lemma delete_orphaned_code_fk acc c : keeps_fk acc.1 (delete_orphaned_code acc c).1.
Proof.
  destruct acc as [db n]. unfold delete_orphaned_code.
  destruct (_ || _) eqn:Eref; [reflexivity|].
  apply orb_false_iff in Eref as [[El Eh]%orb_false_iff Ef].
  apply negb_false_iff, bool_decide_eq_true in El, Eh, Ef.
  assert (∀ c', c' ≠ c → is_Some (account_code db !! c') →
    is_Some (base.delete c (account_code db) !! c')) as Hother.
  { intros c' Hne. by rewrite lookup_delete_ne. }
  assert (∀ V (m : gmap string V) (p : string → V → bool) k v,
    select_where p m = [] → m !! k = Some v → p k v = true → False) as Hnone.
  { intros V m p k v Hsel Hk Hp. apply (not_elem_of_nil (k, v)). rewrite <-Hsel.
    by apply elem_of_select_where. }
  intros [Fl Fh Ff Ft Fn]. split; try done; cbn.
  - intros k row Hk. apply Hother; [|by eapply Fl]. intros Hc.
    eapply Hnone; [exact El|exact Hk|]. by apply bool_decide_eq_true.
  - intros k row Hk. apply Hother; [|by eapply Fh]. intros Hc.
    eapply Hnone; [exact Eh|exact Hk|]. by apply bool_decide_eq_true.
  - intros k row Hk. apply Hother; [|by eapply Ff]. intros Hc.
    eapply Hnone; [exact Ef|exact Hk|]. by apply bool_decide_eq_true.
Qed.

Lemma delete_orphaned_codes_fk cs acc : keeps_fk acc.1 (foldl delete_orphaned_code acc cs).1.
Proof.
  revert acc. induction cs as [|c cs IH]; intros acc; [reflexivity|]. cbn [foldl].
  etrans; [apply delete_orphaned_code_fk|apply IH].
Qed.

Lemma delete_headers_fk (p : string → HistoricalHeaderRow → bool) db :
  keeps_fk db (set_historical_account_headers (delete_where p (historical_account_headers db)) db).
Proof.
  etrans; [apply (keeps_fewer_headers db (latest_account_headers db)
    (delete_where p (historical_account_headers db)))|by apply keeps_same].
  - intros k row Hk. by exists row.
  - intros k row. rewrite lookup_delete_where.
    destruct (historical_account_headers db !! k) as [row0|]; [|done]. cbn.
    destruct (p k row0); [done|]. intros [= <-]. by exists row0.
Qed.

Lemma prune_history_fk a n db : keeps_fk db (prune_history a n db).1.
Proof.
  unfold prune_history. cbv zeta. etrans; [|apply delete_orphaned_codes_fk]. cbn [fst].
  etrans; [apply delete_headers_fk|by apply keeps_same].
Qed.

Lemma prune_account_history_fk id n : preserves fk_kept (prune_account_history id n).
Proof.
  apply fk_in_transaction. intros s s' r.
  destruct (prune_history _ _ (st_db s)) as [db total] eqn:E. intros [= <- _]. unfold fk_kept. cbn.
  change db with ((db, total).1). rewrite <-E. apply prune_history_fk.
Qed.

Lemma lock_account_fk id w db : keeps_fk db (lock_account_on_unexpected_commitment id w db).
Proof.
  unfold lock_account_on_unexpected_commitment. cbv zeta.
  set (l := update_where _ lock _). set (h := update_where _ lock_historical _).
  etrans; [apply (keeps_fewer_headers db l h)|by apply keeps_same].
  - intros k row. subst l. rewrite lookup_update_where.
    destruct (latest_account_headers db !! k) as [row0|]; [|done]. intros [= <-]. exists row0.
    split; [done|]. by destruct (_ && _).
  - intros k row. subst h. rewrite lookup_update_where. cbn.
    destruct (historical_account_headers db !! k) as [row0|]; [|done]. intros [= <-]. exists row0.
    split; [done|]. by destruct (_ && _).
Qed.
End operations.

Section accounts.
Context `{StoreLib} `{!AccountLaws} `{Forest : !SmtForestLib} `{!PartialAccountLib} `{!ExecutedLib}.
Implicit Types (s : @StoreState _ _ Forest).

(** *** Values are in other tables *)

Lemma writes_account_fk a db db' : writes_account a db db' → keeps_fk db db'.
Proof. intros [_ _ _ ->]. by apply keeps_same. Qed.

Lemma replace_account_values_fk account n db : keeps_fk db (replace_account_values account n db).
Proof.
  unfold replace_account_values. set (db1 := set_latest_account_assets _ _). set (db2 := insert_assets _ _ _).
  transitivity db1; [by apply keeps_same|]. transitivity db2; [|by apply keeps_same].
  eapply writes_account_fk, writes_account_trans;
    [apply insert_storage_slots_writes|apply insert_assets_writes].
Qed.

Lemma persist_vault_delta_fk a n removed updated db :
  keeps_fk db (persist_vault_delta a n removed updated db).
Proof.
  unfold persist_vault_delta. cbv zeta. etrans; [|apply keeps_foldl; by intros; apply keeps_same].
  transitivity (foldl (λ db vault_key, archive_asset a n vault_key db) db removed).
  - apply keeps_foldl. intros. by apply keeps_same.
  - destruct (bool_decide _); [reflexivity|by apply keeps_same].
Qed.

Lemma write_storage_delta_fk id nonce slots delta db :
  keeps_fk db (write_storage_delta id nonce slots delta db).
Proof.
  unfold write_storage_delta. cbv zeta. apply keeps_foldl. clear db. intros db slot. cbv zeta.
  etrans; [apply (keeps_same db (write_slot (AccountId_to_hex id) (u64_to_value nonce)
    (StorageSlotName_to_string slot.1) slot.2 db)); done|].
  destruct (_ !! slot.1) as [entries|]; [|reflexivity]. unfold write_map_entry_delta.
  apply keeps_foldl. intros db' kv. unfold write_map_entry. cbv zeta.
  destruct (decide _); by apply keeps_same.
Qed.

Lemma restore_values_fk a ns db :
  keeps_fk db (foldl (λ db nonce, restore_old_values_for_nonce a (u64_to_value nonce) db) db ns).
Proof. apply keeps_foldl. intros. by apply keeps_same. Qed.

#[local] Hint Resolve insert_account_code_fk insert_account_header_fk foreign_code_fk
  replace_account_values_fk persist_vault_delta_fk write_storage_delta_fk restore_values_fk
  restore_header_fk delete_history_fk keeps_same : miden.

(** *** Handlers *)

Lemma upsert_foreign_account_code_fk id code : preserves fk_kept (upsert_foreign_account_code id code).
Proof.
  unfold upsert_foreign_account_code. fk_steps.
Qed.

Lemma update_account_state_fk account : preserves fk_kept (update_account_state account).
Proof.
  unfold update_account_state. cbv zeta. fk_steps.
Qed.
#[local] Hint Resolve update_account_state_fk : miden.

Lemma update_account_fk account : preserves fk_kept (update_account account).
Proof. unfold update_account. fk_steps. Qed.

Lemma undo_account_state_fk ds : preserves fk_kept (undo_account_state ds).
Proof.
  unfold undo_account_state. destruct (bool_decide _); [apply preserves_ret, _|].
  fk_steps. unfold undo_account_nonces. fk_steps. destruct (last _); fk_steps.
Qed.

Lemma apply_account_delta_fk init final fungible roots delta :
  preserves fk_kept (apply_account_delta init final fungible roots delta).
Proof.
  unfold apply_account_delta, apply_account_vault_delta. cbv zeta.
  fk_steps. destruct a0 as [removed updated]. fk_steps. destruct (decide _); fk_steps.
Qed.

Lemma insert_address_fk addr id db : keeps_fk db (insert_address addr id db).
Proof. by apply keeps_same. Qed.

Lemma store_insert_address_fk addr id : preserves fk_kept (store_insert_address addr id).
Proof. unfold store_insert_address. fk_steps. Qed.

Lemma remove_address_fk addr id : preserves fk_kept (remove_address addr id).
Proof. unfold remove_address. cbv zeta. fk_steps. Qed.

Lemma insert_account_fk account addr : preserves fk_kept (insert_account account addr).
Proof.
  unfold insert_account. fk_steps.
  - eapply writes_account_fk, insert_storage_slots_writes.
  - eapply writes_account_fk, insert_assets_writes.
Qed.
End accounts.

#[export] Hint Resolve upsert_foreign_account_code_fk update_account_state_fk update_account_fk
  undo_account_state_fk apply_account_delta_fk store_insert_address_fk remove_address_fk
  insert_account_fk prune_account_history_fk lock_account_fk keeps_same : miden.

(** ** Notes and transactions *)

Section notes.
Context `{StoreLib} `{!AccountLaws} `{Forest : !SmtForestLib} `{!PartialAccountLib} `{!ExecutedLib}.
Implicit Types (s : @StoreState _ _ Forest).

Definition script_stored (root : string) (db : Db) : Prop := is_Some (notes_scripts db !! root).

Lemma put_script_fk root script db : keeps_fk db (put_script root script db).
Proof.
  intros [Fl Fh Ff Ft Fn]. split; try done. cbn. intros id row Hid. apply lookup_insert_is_Some'.
  right. by eapply Fn.
Qed.

Lemma put_script_stored root script root' db :
  root' = root ∨ script_stored root' db → script_stored root' (put_script root script db).
Proof. unfold script_stored. cbn. rewrite lookup_insert_is_Some'. naive_solver. Qed.

Lemma put_scripts_stored l root db :
  (root ∈ l.*1 ∨ script_stored root db) →
  script_stored root (foldl (λ db entry, put_script entry.1 entry.2 db) db l).
Proof.
  revert db. induction l as [|[root' script] l IH]; intros db; cbn [foldl fmap list_fmap].
  { rewrite elem_of_nil. tauto. }
  rewrite elem_of_cons. intros Hroot. apply IH. cbn in *.
  destruct Hroot as [[->|Hin]|Hst]; [right|by left|right]; apply put_script_stored; auto.
Qed.

Lemma put_input_note_fk id row db :
  script_stored (inr_script_root row) db → keeps_fk db (put_input_note id row db).
Proof.
  intros Hs [Fl Fh Ff Ft Fn]. split; try done. cbn. intros id' row'. rewrite lookup_insert_Some.
  intros [[<- <-]|[_ Hrow]]; [done|by eapply Fn].
Qed.

(** The scripts of the new notes are stored before their rows. *)
Lemma batch_insert_input_notes_fk notes db :
  (∀ note, note ∈ notes → script_stored (inr_script_root (sin_row note)) db) →
  keeps_fk db (batch_insert_input_notes notes db).
Proof.
  unfold batch_insert_input_notes. rewrite foldl_chunks by (vm_compute; lia). revert db.
  induction notes as [|note notes IH]; intros db Hs; [reflexivity|]. cbn [foldl].
  etrans; [|apply IH].
  - apply put_input_note_fk. cbn. apply Hs. by left.
  - intros note' Hin. apply Hs. by right.
Qed.

Lemma batch_upsert_scripts_stored scripts root db :
  is_Some (scripts !! root) → script_stored root (batch_upsert_scripts scripts db).
Proof.
  intros [script Hs]. unfold batch_upsert_scripts. rewrite foldl_chunks by (vm_compute; lia).
  apply put_scripts_stored. left. apply list_elem_of_fmap. exists (root, script).
  by rewrite elem_of_btree_to_list.
Qed.

Lemma batch_upsert_scripts_fk scripts db : keeps_fk db (batch_upsert_scripts scripts db).
Proof.
  unfold batch_upsert_scripts. apply keeps_foldl. intros. apply keeps_foldl. intros. apply put_script_fk.
Qed.

Lemma batch_update_input_note_states_fk updates db :
  keeps_fk db (batch_update_input_note_states updates db).
Proof.
  apply keeps_foldl. clear db. intros db update [Fl Fh Ff Ft Fn]. split; try done. cbn.
  intros id row. rewrite lookup_update_where. destruct (input_notes db !! id) as [row0|] eqn:E; [|done].
  intros [= <-]. apply Fn in E. by destruct (bool_decide _).
Qed.

Lemma apply_note_updates_fk t db : keeps_fk db (apply_note_updates_tx t db).
Proof.
  unfold apply_note_updates_tx. cbv zeta.
  set (inserts := serialize_input_note <$> _). set (scripts := collect_scripts inserts).
  etrans; [apply (batch_upsert_scripts_fk scripts)|].
  etrans; [apply (batch_insert_input_notes_fk inserts)|].
  { intros note Hin. apply batch_upsert_scripts_stored. unfold scripts, collect_scripts.
    destruct (_ !! _) as [script|] eqn:E; [by eexists|]. exfalso.
    apply (lookup_btree_collect_None (KeyType0:=string_key)) in E. apply E.
    apply list_elem_of_fmap. exists (inr_script_root (sin_row note), sin_script note). split; [done|].
    by apply (list_elem_of_fmap_2' (λ n, (inr_script_root (sin_row n), sin_script n)) _ note). }
  etrans; [apply batch_update_input_note_states_fk|].
  transitivity (batch_insert_output_notes (serialize_output_note <$> (ou_note <$>
    base.filter (λ u, is_insert (ou_update_type u) = true) (updated_output_notes t)))
    (batch_update_input_note_states (serialize_input_note_state <$> (iu_note <$>
      base.filter (λ u, is_update (iu_update_type u) = true) (updated_input_notes t)))
      (batch_insert_input_notes inserts (batch_upsert_scripts scripts db)))).
  - apply keeps_foldl. intros. apply keeps_foldl. intros. by apply keeps_same.
  - apply keeps_foldl. intros. by apply keeps_same.
Qed.

Lemma upsert_input_note_fk note : preserves keeps_fk (upsert_input_note_tx note).
Proof.
  intros db db' r. unfold upsert_input_note_tx, mbind, dbm_bind, db_do, db_exec.
  set (row := sin_row (serialize_input_note note)). set (db1 := put_script _ _ db).
  assert (keeps_fk db db1) as Hdb1 by apply put_script_fk.
  destruct (_ <=? _); intros [= <- <-]; [|done]. etrans; [done|]. apply put_input_note_fk.
  apply put_script_stored. by left.
Qed.

Lemma upsert_input_notes_fk notes : preserves keeps_fk (sqlite_upsert_input_notes notes).
Proof.
  apply fk_db_transaction, preserves_each; [apply _|]. intros note.
  apply preserves_bind; [apply _|apply upsert_input_note_fk|]. intros _.
  destruct (InputNoteRecord_inclusion_proof note); [|apply preserves_ret, _].
  apply fk_db_do. intros. by apply keeps_same.
Qed.

(** *** Transactions *)

Lemma upsert_transaction_record_fk t db : keeps_fk db (upsert_transaction_record t db).
Proof.
  unfold upsert_transaction_record. cbn [serialize_transaction_data].
  set (db1 := match _ with Some _ => _ | None => _ end).
  assert (∀ root, is_Some (transaction_scripts db !! root) → is_Some (transaction_scripts db1 !! root))
    as Hkeep.
  { intros root [v Hv]. unfold db1. destruct (tx_script t); cbn; [|by eexists].
    rewrite lookup_insert_ignore, Hv. by eexists. }
  intros [Fl Fh Ff Ft Fn]. split; try (subst db1; by destruct (tx_script t)).
  intros id row root. cbn. rewrite lookup_insert_Some. intros [[<- <-]|[_ Hrow]] Hroot.
  - cbn in Hroot. unfold db1. destruct (tx_script t) as [script|]; [|done]. injection Hroot as <-. cbn.
    rewrite lookup_insert_ignore. destruct (transaction_scripts db !! _); [by eexists|].
    rewrite decide_True by done. by eexists.
  - apply Hkeep. eapply Ft; [|done]. rewrite <-Hrow. unfold db1. by destruct (tx_script t).
Qed.
End notes.

#[export] Hint Resolve put_script_fk apply_note_updates_fk upsert_input_notes_fk
  upsert_transaction_record_fk : miden.

(** ** Every operation *)

Section store.
Context `{StoreLib} `{!AccountLaws} `{Forest : !SmtForestLib} `{!PartialAccountLib} `{!ExecutedLib}.
Implicit Types (s : @StoreState _ _ Forest).

Lemma fk_tables_pure (f : Db → Db) :
  (∀ db, keeps_fk db (f db)) → preserves fk_kept (on_tables (db_do f)).
Proof. intros Hf. by apply fk_on_tables, fk_db_do. Qed.

Lemma sqlite_apply_transaction_fk ts u : preserves fk_kept (sqlite_apply_transaction ts u).
Proof.
  unfold sqlite_apply_transaction. cbv zeta. fk_steps. apply keeps_foldl. eauto with miden.
Qed.

Lemma fk_db_get {A} (f : Db → eff StoreError A) : preserves keeps_fk (db_get f).
Proof. intros db db' r. unfold db_get. destruct (f db); [|done..]. intros [= <- _]. reflexivity. Qed.

Lemma insert_nodes_fk nodes : preserves keeps_fk (insert_partial_blockchain_nodes_tx nodes).
Proof.
  apply preserves_each; [apply _|]. intros node. unfold insert_partial_blockchain_node.
  destruct (node_id _); [|apply preserves_panic]. apply fk_db_do. eauto with miden.
Qed.

Lemma insert_block_header_fk h peaks notes db : keeps_fk db (insert_block_header_tx h peaks notes db).
Proof. by apply keeps_same. Qed.

Lemma apply_sync_tables_fk u : preserves keeps_fk (apply_sync_tables u).
Proof.
  unfold apply_sync_tables. cbv zeta.
  repeat (apply preserves_bind; [apply _| |intros]); try apply fk_db_do;
    eauto using insert_nodes_fk, fk_db_get with miden; intros db.
  - apply keeps_foldl. intros. apply insert_block_header_fk.
  - apply keeps_foldl. intros. by apply keeps_same.
  - apply keeps_foldl. eauto with miden.
Qed.

Lemma sqlite_apply_state_sync_fk u : preserves fk_kept (sqlite_apply_state_sync u).
Proof.
  apply fk_in_transaction, fk_bind; [apply fk_on_tables, apply_sync_tables_fk|intros _].
  unfold apply_sync_accounts. cbv zeta. fk_steps.
Qed.

(** The operations of the store that write. *)
Inductive store_op :=
| Op_insert_account (account : Account) (initial_address : Address)
| Op_update_account (new_account_state : Account)
| Op_upsert_foreign_account_code (account_id : AccountId) (code : AccountCode)
| Op_insert_address (address : Address) (account_id : AccountId)
| Op_remove_address (address : Address) (account_id : AccountId)
| Op_prune_account_history (account_id : AccountId) (up_to_nonce : u64)
| Op_upsert_input_notes (notes : list InputNoteRecord)
| Op_upsert_note_scripts (note_scripts : list NoteScript)
| Op_add_note_tag (tag : NoteTagRecord)
| Op_remove_note_tag (tag : NoteTagRecord)
| Op_set_setting (name : string) (value : bytes)
| Op_remove_setting (name : string)
| Op_insert_block_header (header : BlockHeader) (peaks : MmrPeaks) (has_client_notes : bool)
| Op_insert_partial_blockchain_nodes (nodes : list (InOrderIndex * Word))
| Op_prune_irrelevant_blocks
| Op_apply_transaction (current_timestamp : u64) (tx_update : TransactionStoreUpdate)
| Op_apply_state_sync (state_sync_update : StateSyncUpdate).

(** The answers to the caller are of no interest here. *)
Definition forget {A} (m : store_m A) : store_m () := λ s,
  match m s with
  | Finished (s, r) => Finished (s, _ ← r; Ok ())
  | Panicked => Panicked
  | OutOfFuel => OutOfFuel
  end.

Definition run_op (op : store_op) : @store_m _ _ Forest () :=
  match op with
  | Op_insert_account account initial_address => insert_account account initial_address
  | Op_update_account new_account_state => update_account new_account_state
  | Op_upsert_foreign_account_code account_id code => upsert_foreign_account_code account_id code
  | Op_insert_address address account_id => store_insert_address address account_id
  | Op_remove_address address account_id => remove_address address account_id
  | Op_prune_account_history account_id up_to_nonce => forget (prune_account_history account_id up_to_nonce)
  | Op_upsert_input_notes notes => on_tables (sqlite_upsert_input_notes notes)
  | Op_upsert_note_scripts note_scripts => on_tables (sqlite_upsert_note_scripts note_scripts)
  | Op_add_note_tag tag => forget (on_tables (sqlite_add_note_tag tag))
  | Op_remove_note_tag tag => forget (on_tables (sqlite_remove_note_tag tag))
  | Op_set_setting name value => on_tables (sqlite_set_setting name value)
  | Op_remove_setting name => on_tables (sqlite_remove_setting name)
  | Op_insert_block_header header peaks has_client_notes =>
      on_tables (sqlite_insert_block_header header peaks has_client_notes)
  | Op_insert_partial_blockchain_nodes nodes => on_tables (sqlite_insert_partial_blockchain_nodes nodes)
  | Op_prune_irrelevant_blocks => on_tables sqlite_prune_irrelevant_blocks
  | Op_apply_transaction current_timestamp tx_update => sqlite_apply_transaction current_timestamp tx_update
  | Op_apply_state_sync state_sync_update => sqlite_apply_state_sync state_sync_update
  end.

(** One operation, whether it succeeds or fails. *)
Definition store_step s s' : Prop := ∃ op r, run_op op s = Finished (s', r).

Lemma fk_forget {A} (m : store_m A) : preserves fk_kept m → preserves fk_kept (forget m).
Proof.
  intros Hm s s' r. unfold forget. destruct (m s) as [[s1 r1]| |] eqn:Em; [|done..].
  intros [= <- _]. by eapply Hm.
Qed.

Lemma run_op_fk op : preserves fk_kept (run_op op).
Proof.
  destruct op; cbn [run_op]; try apply fk_forget; try apply fk_on_tables; auto with miden.
  - apply fk_db_transaction, preserves_each; [apply _|]. intros script. apply fk_db_do. auto with miden.
  - unfold sqlite_add_note_tag. apply preserves_bind; [apply _|apply preserves_read, _|intros stored].
    case_bool_decide; [apply preserves_ret, _|].
    apply preserves_bind; [apply _| |intros; apply preserves_ret, _].
    apply fk_db_transaction, fk_db_do. auto with miden.
  - intros db db' r. unfold sqlite_remove_note_tag. cbn. intros [= <- _]. by apply keeps_same.
  - unfold sqlite_set_setting. case_bool_decide; [apply preserves_fail, _|]. apply fk_db_do. auto with miden.
  - apply fk_db_do. auto with miden.
  - apply fk_db_transaction, fk_db_do. intros. apply insert_block_header_fk.
  - apply fk_db_transaction, insert_nodes_fk.
  - apply fk_db_transaction, fk_db_do. intros db. unfold prune_blocks.
    destruct (head _); [by apply keeps_same|reflexivity].
  - apply sqlite_apply_transaction_fk.
  - apply sqlite_apply_state_sync_fk.
Qed.

Lemma fk_new : fk_ok Db_new.
Proof. by split. Qed.
End store.

Section reachable.
Context `{StoreLib} `{!AccountLaws} `{Forest : !SmtForestLib} `{!PartialAccountLib} `{!ExecutedLib}.
Implicit Types (s : @StoreState _ _ Forest).

(** C27: The foreign keys of the tables are an invariant of the store.  Whatever
    operations of the store are executed on an empty database, failing ones included:
    the latest and the historical header of every account and every foreign account
    refer to stored code, every transaction with a script to its stored script and
    every input note to its stored script; pruning and undoing never delete a row
    that another one refers to. *)
Theorem foreign_keys_hold s0 s : st_db s0 = Db_new → rtc store_step s0 s → fk_ok (st_db s).
Proof.
  intros Hnew Hsteps. assert (fk_ok (st_db s0)) as Hs0 by (rewrite Hnew; apply fk_new). clear Hnew.
  induction Hsteps as [s|s1 s2 s3 (op & r & Hrun) _ IH]; [done|].
  apply IH. by apply (run_op_fk op s1 s2 r).
Qed.
End reachable.

(** ** Witness *)

(** An account is created, a note is stored and the account moves to a newer state. *)
Definition toy_ops : list store_op := [
  Op_insert_account (((1, 4), [(3, 10)]) : @Account toy_protocol) 9;
  Op_upsert_input_notes [toy_input_record toy_expected];
  Op_update_account toy_newer;
  Op_prune_account_history (toy_account 1) 9 ].

Definition toy_run_op (op : store_op) (s : StoreState) : StoreState :=
  match run_op op s with Finished (s, _) => s | _ => s end.
Definition toy_opened : StoreState := {| st_db := Db_new; st_forest := AccountSmtForest_new |}.

(** The operations finish, without an error. *)
Fixpoint toy_ops_run (ops : list store_op) (s : StoreState) : bool :=
  match ops with
  | [] => true
  | op :: ops =>
      match run_op op s with Finished (s, Ok _) => toy_ops_run ops s | _ => false end
  end.

Lemma toy_ops_steps ops s :
  toy_ops_run ops s = true → rtc store_step s (foldl (λ s op, toy_run_op op s) s ops).
Proof.
  revert s. induction ops as [|op ops IH]; intros s; [reflexivity|]. cbn [toy_ops_run foldl].
  destruct (run_op op s) as [[s1 [u|]]| |] eqn:Erun; [|done..]. intros Hrun%IH.
  assert (toy_run_op op s = s1) as -> by (unfold toy_run_op; by rewrite Erun).
  eapply rtc_l; [|exact Hrun]. by exists op, (Ok u).
Qed.

Lemma foreign_keys_hold_witness :
  let db := st_db (foldl (λ s op, toy_run_op op s) toy_opened toy_ops) in
  size (latest_account_headers db) = 1%nat ∧ historical_account_headers db = ∅ ∧
  size (input_notes db) = 1%nat ∧ fk_ok db.
Proof.
  cbv zeta. split_and!; [by vm_compute..|].
  apply (foreign_keys_hold toy_opened); [reflexivity|]. apply toy_ops_steps. by vm_compute.
Defined.
