(* ===== verification/StoreContract.v ===== *)
(** * The contract of a store

    What a store promises to the client, as laws over the operations of [StoreOps]: a
    store holds the client's data (sync height, notes, transactions, tags), its queries
    answer from these data, and its updates change them as their arguments say.  The
    client's theorems are proved against this interface; the SQLite store is an
    instance, by the refinement lemmas of its tables. *)

From S2P Require Import Prelude Protocol Serde Model NoteStates InputNote OutputNote TxRecord.
From S2P Require Import TxTracker Errors NoteTracker Rpc SyncUpdate AccountTypes SmtForest Sql.
From S2P Require Import Versioned Db AccountDb Store ChainDb AccountReaders NoteDb NoteSpec TxDb.
From S2P Require Import SqliteStore SqliteSync.
From Stdlib Require Import ZArith Lia Ascii.
From stdpp Require Import base gmap list strings sorting.

Open Scope Z_scope.

Section data.
Context `{StoreLaws}.

(** ** What queries select *)

Definition selected_notes (filter : NoteFilter) (d : ClientData) : list InputNoteRecord :=
  snd <$> base.filter (λ ir, note_matches filter ir.2 = true) (map_to_list (cd_notes d)).
Definition selected_outputs (filter : NoteFilter) (d : ClientData) : list OutputNoteRecord :=
  snd <$> base.filter (λ ir, output_matches filter ir.2 = true) (map_to_list (cd_outputs d)).
Definition selected_transactions (filter : TransactionFilter) (d : ClientData) :
    list TransactionRecord :=
  snd <$> base.filter (λ it, transaction_matches filter it.2 = true) (map_to_list (cd_txs d)).

(** ** Changes of the data *)

Definition with_tag (t : NoteTagRecord) (d : ClientData) : ClientData := {|
  cd_height := cd_height d; cd_notes := cd_notes d; cd_outputs := cd_outputs d; cd_txs := cd_txs d;
  cd_tags := if bool_decide (t ∈ cd_tags d) then cd_tags d else cd_tags d ++ [t] |}.
Definition without_tag (t : NoteTagRecord) (d : ClientData) : ClientData := {|
  cd_height := cd_height d; cd_notes := cd_notes d; cd_outputs := cd_outputs d; cd_txs := cd_txs d;
  cd_tags := filter (λ t', bool_decide (t' = t) = false) (cd_tags d) |}.
Definition with_note (r : InputNoteRecord) (d : ClientData) : ClientData := {|
  cd_height := cd_height d; cd_notes := insert_note (cd_notes d) r; cd_outputs := cd_outputs d;
  cd_txs := cd_txs d; cd_tags := cd_tags d |}.
End data.

(** ** The interface *)

Class StoreContract `{StoreLaws} (St : Type) `{!StoreOps St} := {
  (* The state of the store holds the data. *)
  holds : ClientData → St → Prop;
  (* The data that the state holds are the same. *)
  holds_height d d' s : holds d s → holds d' s → cd_height d = cd_height d';
  (* What is held could be inserted, and is held under its identifier. *)
  holds_notes d s id r : holds d s → cd_notes d !! id = Some r →
    InputNoteRecord_id r = id ∧ insertable r;
  sc_input_notes d s filter : holds d s →
    ∃ notes, get_input_notes filter s = Finished (s, Ok notes) ∧
      Permutation notes (selected_notes filter d);
  sc_output_notes d s filter : holds d s →
    ∃ notes, get_output_notes filter s = Finished (s, Ok notes) ∧
      Permutation notes (selected_outputs filter d);
  sc_transactions d s filter : holds d s →
    ∃ txs, get_transactions filter s = Finished (s, Ok txs) ∧
      Permutation txs (selected_transactions filter d);
  sc_unique_note_tags d s : holds d s →
    get_unique_note_tags s = Finished (s, Ok (list_to_set (ntr_tag <$> cd_tags d)));
  sc_sync_height d s : holds d s → in_range U32_MAX (cd_height d) →
    get_sync_height s = Finished (s, Ok (cd_height d));
  sc_add_note_tag d s t : holds d s →
    ∃ s', add_note_tag t s = Finished (s', Ok (bool_decide (t ∉ cd_tags d))) ∧ holds (with_tag t d) s';
  sc_remove_note_tag d s t : holds d s →
    ∃ s', remove_note_tag t s =
        Finished (s', Ok (Z.of_nat (length (filter (λ t', bool_decide (t' = t) = true) (cd_tags d))))) ∧
      holds (without_tag t d) s';
  sc_upsert_input_note d s r : holds d s → insertable r →
    ∃ s', upsert_input_notes [r] s = Finished (s', Ok ()) ∧ holds (with_note r d) s';
  sc_apply_state_sync d s u s' : holds d s → update_fits d u →
    apply_state_sync u s = Finished (s', Ok ()) → holds (synced_data d u) s';
  sc_failed_sync d s u s' e : holds d s → apply_state_sync u s = Finished (s', Err e) → holds d s';
  (* The rest changes none of the data. *)
  sc_prune_succeeds s s' e : prune_irrelevant_blocks s ≠ Finished (s', Err e);
  sc_prune d s : holds d s → ∃ s', prune_irrelevant_blocks s = Finished (s', Ok ()) ∧ holds d s';
  sc_set_setting d s name v s' r : holds d s → set_setting name v s = Finished (s', r) → holds d s';
  sc_insert_block_header d s h p b s' r :
    holds d s → insert_block_header h p b s = Finished (s', r) → holds d s';
  sc_insert_nodes d s l s' r :
    holds d s → insert_partial_blockchain_nodes l s = Finished (s', r) → holds d s';
  (* These only read. *)
  sc_get_setting s name s' r : get_setting name s = Finished (s', r) → s' = s;
  sc_get_block_headers s ns s' r : get_block_headers ns s = Finished (s', r) → s' = s;
  sc_get_tracked_numbers s s' r : get_tracked_block_header_numbers s = Finished (s', r) → s' = s;
  sc_get_nodes s f s' r : get_partial_blockchain_nodes f s = Finished (s', r) → s' = s;
  sc_get_peaks s n s' r : get_partial_blockchain_peaks_by_block_num n s = Finished (s', r) → s' = s;
  sc_get_account_headers s s' r : get_account_headers s = Finished (s', r) → s' = s;
  sc_get_sync_height s s' r : get_sync_height s = Finished (s', r) → s' = s
}.

(** ** The SQLite store keeps the contract *)

Section sqlite.
Context `{StoreLaws} `{!ProtocolLaws} `{!SerdeLaws} `{!AccountLaws}.
Context `{Forest : !SmtForestLib} `{!PartialAccountLib} `{!ExecutedLib}.
Implicit Types (s : @StoreState _ _ Forest).

Lemma on_tables_same {A} (m : db_m A) s s' r :
  (∀ db db' r, m db = Finished (db', r) → db' = db) → on_tables m s = Finished (s', r) → s' = s.
Proof.
  intros Hm. unfold on_tables, zoom. destruct (m (st_db s)) as [[db r']| |] eqn:E; [|done..].
  intros [= <- _]. apply Hm in E as ->. by destruct s.
Qed.

Lemma on_tables_run {A} (m : db_m A) s db r :
  m (st_db s) = Finished (db, r) → on_tables m s = Finished (set_db db s, r).
Proof. intros Hm. unfold on_tables, zoom. by rewrite Hm. Qed.

Lemma set_db_same s : set_db (st_db s) s = s.
Proof. by destruct s. Qed.

Lemma db_read_same {S A} (f : S → result StoreError A) db db' r :
  db_read f db = Finished (db', r) → db' = db.
Proof. by intros [= <- _]. Qed.
Lemma db_get_same {A} (f : Db → eff StoreError A) db db' r :
  db_get f db = Finished (db', r) → db' = db.
Proof. unfold db_get. destruct (f db); [|done..]. by intros [= <- _]. Qed.

Lemma nodes_same filter db db' r :
  sqlite_get_partial_blockchain_nodes filter db = Finished (db', r) → db' = db.
Proof.
  unfold sqlite_get_partial_blockchain_nodes. destruct filter as [|ids|forest].
  - apply db_get_same.
  - destruct ids as [|id ids]; [by intros [= <- _]|]. destruct (mapM _ _); [apply db_get_same|intros [=]].
  - destruct (_ =? _); [by intros [= <- _]|]. destruct (node_id _); [apply db_get_same|intros [=]].
Qed.

Lemma single_upsert_stored notes outs txs height tags db r :
  let d := {| cd_height := height; cd_notes := notes; cd_outputs := outs; cd_txs := txs; cd_tags := tags |} in
  data_stored d db → insertable r →
  ∃ db', sqlite_upsert_input_notes [r] db = Finished (db', Ok ()) ∧ data_stored (with_note r d) db'.
Proof.
  intros d [Hh Hn Ho Ht Htg] Hr. cbn in *.
  set (db1 := put_script (inr_script_root (input_row r)) (sin_script (serialize_input_note r)) db).
  assert (notes_stored notes db1) as Hn1.
  { apply (notes_stored_scripts _ _ _ Hn). intros id r' Hin. rewrite lookup_insert. case_decide as Heq.
    - cbn in Heq. apply (inj Word_to_hex) in Heq. apply NoteScript_root_inj in Heq.
      change (sin_script (serialize_input_note r)) with (write_into NoteScript_codec (record_script r)).
      unfold record_script at 1. by rewrite Heq.
    - by eapply ns_script. }
  assert (script_stored db1 (record_script r)) as Hs1 by apply lookup_insert_eq.
  pose proof (insert_note_stored notes db1 r Hn1 Hr Hs1) as Hn2.
  set (db2 := set_input_notes _ db1) in Hn2.
  assert (∀ db3, same_data db2 db3 → data_stored (with_note r d) db3) as Hstored.
  { intros db3 Hsame. eapply same_data_stored; [exact Hsame|].
    split; [exact Hh|exact Hn2|by apply (outputs_stored_ext _ db)|by apply (txs_stored_ext _ db)|exact Htg]. }
  assert (upsert_input_note_tx r db = Finished (db2, Ok ())) as Hrun.
  { unfold upsert_input_note_tx, mbind, dbm_bind, db_do, db_exec. fold (input_row r).
    destruct Hr as [_ [_ Hc]].
    rewrite (proj2 (Z.leb_le (inr_created_at (input_row r)) I64_MAX)) by exact Hc. done. }
  unfold sqlite_upsert_input_notes, db_transaction, with_transaction. cbn [db_each].
  unfold mbind, dbm_bind. rewrite Hrun. destruct (InputNoteRecord_inclusion_proof r) as [proof|].
  - eexists. split; [reflexivity|]. apply Hstored. by split.
  - eexists. split; [reflexivity|]. by apply Hstored.
Qed.

(** Statements on other tables, in a transaction or not. *)
Lemma tables_preserved {A} d (m : db_m A) s s' r :
  preserves same_data m → data_stored d (st_db s) → on_tables m s = Finished (s', r) →
  data_stored d (st_db s').
Proof.
  intros Hm Hd. unfold on_tables, zoom. destruct (m (st_db s)) as [[db r']| |] eqn:E; [|done..].
  intros [= <- _]. cbn. eapply same_data_stored; [by eapply Hm|done].
Qed.

Lemma transaction_preserved {A} (m : db_m A) : preserves same_data m → preserves same_data (db_transaction m).
Proof.
  intros Hm db db' r. unfold db_transaction, with_transaction.
  destruct (m db) as [[db1 [a|e]]| |] eqn:Em; intros [= <- _]; [by eapply Hm|done].
Qed.

Lemma do_preserved (f : Db → Db) : (∀ db, same_data db (f db)) → preserves same_data (db_do f).
Proof. intros Hf. apply preserves_exec; [apply _|]. intros db db' [= <-]. apply Hf. Qed.

Lemma prune_data db : same_data db (prune_blocks db).
Proof. unfold prune_blocks. destruct (head _); [by split|done]. Qed.

#[export] Instance sqlite_contract : StoreContract StoreState.
Proof.
  refine {| holds := λ d s, data_stored d (st_db s) |}.
  - intros d d' s [Hh _ _ _ _] [Hh' _ _ _ _]. congruence.
  - intros d s id r Hd Hr. destruct (ns_storable _ _ (ds_notes _ _ Hd) _ _ Hr) as [Hid Hwf (k & Hk & Hc)].
    split; [done|]. split; [done|]. by rewrite Hk.
  - intros d s filter Hd. destruct (input_notes_query _ _ filter (ds_notes _ _ Hd)) as (notes & Hrun & Hp & _).
    exists notes. split; [|done]. cbn [get_input_notes sqlite_store_ops].
    rewrite (on_tables_run _ _ _ _ Hrun). by rewrite set_db_same.
  - intros d s filter Hd. destruct (output_notes_query _ _ filter (ds_outputs _ _ Hd)) as (notes & Hrun & Hp).
    exists notes. split; [|done]. cbn [get_output_notes sqlite_store_ops].
    rewrite (on_tables_run _ _ _ _ Hrun). by rewrite set_db_same.
  - intros d s filter Hd. destruct (transactions_query _ _ filter (ds_txs _ _ Hd)) as (txs & Hrun & Hp).
    exists txs. split; [|done]. cbn [get_transactions sqlite_store_ops].
    rewrite (on_tables_run _ _ _ _ Hrun). by rewrite set_db_same.
  - intros d s Hd. cbn [get_unique_note_tags sqlite_store_ops].
    rewrite (on_tables_run _ _ _ _ (unique_tags_stored _ _ (ds_tags _ _ Hd))). by rewrite set_db_same.
  - intros d s Hd Hr. cbn [get_sync_height sqlite_store_ops]. rewrite (on_tables_run _ s (st_db s) (Ok (cd_height d))).
    + by rewrite set_db_same.
    + unfold sqlite_get_sync_height, db_get. rewrite (ds_height _ _ Hd). cbn. unfold try_from.
      replace (in_rangeb _ _) with true by (unfold in_rangeb, in_range in *; lia). done.
  - intros d s t Hd. destruct (add_tag_run t _ _ (ds_tags _ _ Hd)) as (db' & Hrun & Ht & Hrest).
    exists (set_db db' s). split; [by apply on_tables_run|]. cbn. rewrite Hrest.
    destruct Hd as [Hh Hn Ho Htx _]. split; [exact Hh|by eapply notes_stored_ext|
      by apply (outputs_stored_ext _ (st_db s))|by apply (txs_stored_ext _ (st_db s))|exact Ht].
  - intros d s t Hd. destruct (remove_tag_stored t _ _ (ds_tags _ _ Hd)) as [Hr Hn].
    exists (set_db (remove_note_tag_tx t (st_db s)).1 s). split.
    + apply on_tables_run. unfold sqlite_remove_note_tag. rewrite <-Hn. by destruct (remove_note_tag_tx _ _).
    + destruct Hd as [Hh Hnt Ho Htx _]. split; [exact Hh|by eapply notes_stored_ext|
        by apply (outputs_stored_ext _ (st_db s))|by apply (txs_stored_ext _ (st_db s))|exact Hr].
  - intros [] s r Hd Hr. destruct (single_upsert_stored _ _ _ _ _ _ r Hd Hr) as (db' & Hrun & Hd').
    exists (set_db db' s). split; [by apply on_tables_run|exact Hd'].
  - intros d s u s' Hd Hfit Hrun. by apply (apply_state_sync_stored _ _ _ _ _ Hd Hfit Hrun).
  - intros d s u s' e Hd. cbn [apply_state_sync sqlite_store_ops].
    unfold sqlite_apply_state_sync, in_transaction, with_transaction.
    match goal with |- context [match ?m s with _ => _ end] => destruct (m s) as [[s1 [[]|e']]| |] end;
      [done| |done..]. by intros [= <- _].
  - done.
  - intros d s Hd. exists (set_db (prune_blocks (st_db s)) s). split; [done|].
    eapply same_data_stored; [apply prune_data|exact Hd].
  - intros d s name v s' r Hd. apply tables_preserved; [|exact Hd]. unfold sqlite_set_setting.
    case_bool_decide; [apply preserves_fail, _|]. apply do_preserved. intros db. by split.
  - intros d s h p b s' r Hd. apply tables_preserved; [|exact Hd].
    apply transaction_preserved, do_preserved. intros db. by split.
  - intros d s l s' r Hd. apply tables_preserved; [|exact Hd].
    apply transaction_preserved, insert_nodes_data.
  - intros s name s' r. apply on_tables_same. intros. by eapply db_read_same.
  - intros s ns s' r. apply on_tables_same. intros. by eapply db_read_same.
  - intros s s' r. apply on_tables_same. intros. by eapply db_read_same.
  - intros s f s' r. apply on_tables_same. apply nodes_same.
  - intros s n s' r. apply on_tables_same. intros. by eapply db_read_same.
  - intros s s' r. cbn. unfold db_read_panics. destruct (sqlite_get_account_headers _); [|done..]. by intros [= <- _].
  - intros s s' r. apply on_tables_same. intros db db' r'. apply db_get_same.
Defined.
End sqlite.
