(* ===== verification/Client.v ===== *)
(** * The client: its state, tags, limits and blocks

    The [Client] of [rust-client/src/lib.rs] over the interface of a store ([StoreOps])
    and of a node ([NodeRpcClient]), with the methods of [sync/tag.rs] and
    [sync/block_header.rs].  The state is that of the store together with what the
    node interface caches: the genesis commitment and the limits of the node. *)

From S2P Require Import Prelude Protocol Serde Model NoteStates InputNote OutputNote TxRecord.
From S2P Require Import TxTracker Errors NoteTracker Rpc Grpc SyncUpdate AccountTypes SmtForest Sql Store.
From Stdlib Require Import ZArith Lia.
From stdpp Require Import base gmap list strings.

Open Scope Z_scope.

(** Merkle paths and the in-order indices of the nodes of an MMR. *)
Class MerklePathLib `{MmrLib} := {
  MmrProof_merkle_path : MmrProof → MerklePath;
  MerklePath_nodes : MerklePath → list Word;
  MerklePath_new : list Word → MerklePath;
  InOrderIndex_from_leaf_pos : Z → InOrderIndex;
  InOrderIndex_sibling : InOrderIndex → InOrderIndex;
  InOrderIndex_parent : InOrderIndex → InOrderIndex;
  (* The height of the tree of a forest that holds a leaf. *)
  Forest_leaf_to_corresponding_tree : Z → Z → option Z
}.

(** The node's answer about its limits. *)
Class NodeLimits `{Protocol} := fetch_limits : result RpcError RpcLimits.

(** The errors of the note transport network. *)
Inductive NoteTransportError :=
| Transport_Disabled
| Transport_Failed (e : foreign).

Section errors.
Context `{AccountLib}.

(** [ClientError] with the errors of other components that [?] converts into it kept
    whole: [Errors], on which those components depend, has only their text. *)
Inductive client_error :=
| From_ClientError (e : ClientError)
| From_StoreError (e : StoreError)
| From_NoteTransportError (e : NoteTransportError)
| From_DeserializationError (e : DeserializationError).
End errors.

Section client.
Context `{StoreLib} {Node : NodeRpcClient} `{!NodeLimits} `{!MerklePathLib} {St : Type} `{!StoreOps St}.

Record ClientState := {
  cl_store : St;
  cl_genesis_commitment : option Word;
  cl_rpc_limits : option RpcLimits
}.

Definition client_m (A : Type) : Type := dbm client_error ClientState A.

Definition set_cl_store (s : St) (c : ClientState) : ClientState :=
  {| cl_store := s; cl_genesis_commitment := cl_genesis_commitment c; cl_rpc_limits := cl_rpc_limits c |}.
Definition set_genesis_commitment (w : Word) (c : ClientState) : ClientState :=
  {| cl_store := cl_store c;
     cl_genesis_commitment :=
       match cl_genesis_commitment c with Some w' => Some w' | None => Some w end;
     cl_rpc_limits := cl_rpc_limits c |}.
Definition set_cl_rpc_limits (l : option RpcLimits) (c : ClientState) : ClientState :=
  {| cl_store := cl_store c; cl_genesis_commitment := cl_genesis_commitment c; cl_rpc_limits := l |}.

(** [?] on the result of a call. *)
Definition client_try {A} (r : result ClientError A) : client_m A := λ c,
  Finished (c, map_err From_ClientError r).
Definition client_rpc {A} (r : result RpcError A) : client_m A := client_try (map_err Client_RpcError r).
Definition client_fail {A} (e : ClientError) : client_m A := db_fail (From_ClientError e).
Definition client_expect {A} (a : option A) : client_m A :=
  match a with Some a => mret a | None => db_panic end.
Definition client_eff {A} (m : eff client_error A) : client_m A := λ c,
  match m with
  | Finished r => Finished (c, r)
  | Panicked => Panicked
  | OutOfFuel => OutOfFuel
  end.
Definition client_update (f : ClientState → ClientState) : client_m () := db_exec (λ c, Ok (f c)).

(** A call of the store. *)
Definition on_store {A} (m : dbm StoreError St A) : client_m A := λ c,
  match m (cl_store c) with
  | Finished (s, r) => Finished (set_cl_store s c, map_err From_StoreError r)
  | Panicked => Panicked
  | OutOfFuel => OutOfFuel
  end.

(** A loop that threads a value. *)
Fixpoint client_fold {A B} (f : B → A → client_m B) (l : list A) (b : B) : client_m B :=
  match l with
  | [] => mret b
  | a :: l => b ← f b a; client_fold f l b
  end.

(** ** Limits ([lib.rs]) *)

(** [get_rpc_limits] of the node interface, which caches. *)
Definition client_get_rpc_limits : client_m RpcLimits := λ c,
  let '(cached, r) := get_rpc_limits (cl_rpc_limits c) fetch_limits in
  Finished (set_cl_rpc_limits cached c, map_err From_ClientError (map_err Client_RpcError r)).

Definition check_note_tag_limit : client_m () :=
  limits ← client_get_rpc_limits;
  note_tags ← on_store get_unique_note_tags;
  if note_tags_limit limits <=? Z.of_nat (size note_tags)
  then client_fail (Client_NoteTagsLimitExceeded (note_tags_limit limits))
  else mret ().

Definition ensure_rpc_limits_in_place : client_m () :=
  cached ← db_read (λ c, Ok (cl_rpc_limits c));
  match cached with
  | Some _ => mret ()
  | None =>
      limits ← client_get_rpc_limits;
      on_store (set_rpc_limits limits)
  end.

(** ** Note tags ([sync/tag.rs]) *)

Definition insert_note_tag (tag_record : NoteTagRecord) : client_m bool :=
  check_note_tag_limit;;
  on_store (add_note_tag tag_record).

(** Both answers of the store are a success. *)
Definition client_add_note_tag (tag : NoteTag) : client_m () :=
  added ← insert_note_tag {| ntr_tag := tag; ntr_source := NoteTagSource_User |};
  match (added : bool) with true | false => mret () end.

Definition client_remove_note_tag (tag : NoteTag) : client_m () :=
  removed ← on_store (remove_note_tag {| ntr_tag := tag; ntr_source := NoteTagSource_User |});
  if removed =? 0 then mret () else mret ().

(** ** Blocks ([sync/block_header.rs]) *)

Definition client_get_block_header_by_num (block_num : BlockNumber) :
    client_m (option (BlockHeader * BlockRelevance)) :=
  on_store (get_block_header_by_num block_num).

(** The peaks of the empty forest. *)
Definition ensure_genesis_in_place : client_m () :=
  cached ← db_read (λ c, Ok (cl_genesis_commitment c));
  match cached with
  | Some _ => mret ()
  | None =>
      header ← client_rpc (rpc_get_block_header_by_number (Some 0) false);
      let genesis := fst header in
      match MmrPeaks_new 0 [] with
      | Err _ => db_panic
      | Ok blank_mmr_peaks =>
          on_store (insert_block_header genesis blank_mmr_peaks false);;
          client_update (set_genesis_commitment (BlockHeader_commitment genesis))
      end
  end.

(** The loop pairs each node with the sibling of its index. *)
Fixpoint path_nodes_from (idx : InOrderIndex) (nodes : list Word) : list (InOrderIndex * Word) :=
  match nodes with
  | [] => []
  | node :: nodes => (InOrderIndex_sibling idx, node) :: path_nodes_from (InOrderIndex_parent idx) nodes
  end.

Definition adjust_merkle_path_for_forest (merkle_path : MerklePath) (block_num : BlockNumber)
    (forest : Z) : option (list (InOrderIndex * Word)) :=
  expected_path_len ← Forest_leaf_to_corresponding_tree forest block_num;
  Some (path_nodes_from (InOrderIndex_from_leaf_pos block_num)
    (take (Z.to_nat expected_path_len) (MerklePath_nodes merkle_path))).

Definition authenticated_block_nodes (block_header : BlockHeader)
    (path_nodes : list (InOrderIndex * Word)) : list (InOrderIndex * Word) :=
  (InOrderIndex_from_leaf_pos (BlockHeader_block_num block_header), BlockHeader_commitment block_header)
  :: path_nodes.

(** The partial MMR, a mutable reference of the caller, comes back with the result. *)
Definition fetch_block_header (block_num : BlockNumber) (current_partial_mmr : PartialMmr) :
    client_m (PartialMmr * (BlockHeader * list (InOrderIndex * Word))) :=
  '(block_header, mmr_proof) ← client_rpc (get_block_header_with_proof block_num);
  path_nodes ← client_expect (adjust_merkle_path_for_forest (MmrProof_merkle_path mmr_proof)
    block_num (mmr_num_leaves current_partial_mmr));
  let merkle_path := MerklePath_new (snd <$> path_nodes) in
  match mmr_track current_partial_mmr block_num (BlockHeader_commitment block_header) merkle_path with
  | (mmr, Ok _) => mret (mmr, (block_header, path_nodes))
  | (_, Err e) => db_fail (From_StoreError (Store_MmrError e))
  end.

Definition get_and_store_authenticated_block (block_num : BlockNumber)
    (current_partial_mmr : PartialMmr) : client_m (PartialMmr * BlockHeader) :=
  if mmr_is_tracked current_partial_mmr block_num then
    stored ← on_store (get_block_header_by_num block_num);
    header ← client_expect stored;
    mret (current_partial_mmr, fst header)
  else
    '(mmr, (block_header, path_nodes)) ← fetch_block_header block_num current_partial_mmr;
    let tracked_nodes := authenticated_block_nodes block_header path_nodes in
    on_store (insert_block_header block_header (mmr_peaks mmr) true);;
    on_store (insert_partial_blockchain_nodes tracked_nodes);;
    mret (mmr, block_header).
End client.
Arguments ClientState {_} St.
Arguments client_m {_} St A.
