(* ===== verification/NoteImport.v ===== *)
(** * Importing notes

    [note/import.rs]: a batch of note files becomes records of the store, with the
    data that the files lack fetched from the node; [note_transport/mod.rs]: the
    notes that other clients sent over the transport network are imported, after a
    cursor that the store keeps. *)

From S2P Require Import Prelude Protocol Serde Model NoteStates InputNote OutputNote TxRecord.
From S2P Require Import TxTracker Errors NoteTracker Rpc Grpc SyncUpdate AccountTypes SmtForest Sql Store.
From S2P Require Import Client.
From Stdlib Require Import ZArith Lia.
From stdpp Require Import base gmap list strings.

Open Scope Z_scope.

(** ** The transport network *)

Record NoteInfo `{Protocol} := {
  (* The header of a note is its identifier and metadata. *)
  ni_header : NoteId * NoteMetadata;
  ni_details_bytes : bytes
}.

Class NoteTransportClient `{Protocol} := {
  transport_fetch_notes : list NoteTag → u64 → result foreign (list NoteInfo * u64);
  transport_send_note : NoteId * NoteMetadata → bytes → result foreign ()
}.

Section import.
Context `{StoreLib} {Node : NodeRpcClient} `{!NodeLimits} `{!MerklePathLib} {St : Type} `{!StoreOps St}.
(** [get_current_timestamp] of the store, during one import, and the fuel for paging. *)
Context (now : option u64) (fuel : nat).

Definition note_try {A} (r : result NoteRecordError A) : client_m St A := client_try (note_error r).

(** The partial MMR of the store, as [get_current_partial_mmr] builds it. *)
Definition current_partial_mmr : client_m St PartialMmr := on_store get_current_partial_mmr.

(** ** By proof *)

Definition ImportRequest : Type := option InputNoteRecord * Note * NoteInclusionProof.

Definition requested_nullifier (request : ImportRequest) : Nullifier :=
  let '(previous_note, note, _) := request in
  match previous_note with
  | Some previous_note => InputNoteRecord_nullifier previous_note
  | None => Note_nullifier note
  end.

(** The record of a note that was not stored before. *)
Definition new_record_of_proof (note : Note) (inclusion_proof : NoteInclusionProof) : InputNoteRecord := {|
  in_details := Note_into_details note;
  in_created_at := now;
  in_state := Expected {|
    Expected_metadata := Some (Note_metadata note);
    Expected_after_block_num := proof_block_num inclusion_proof;
    Expected_tag := Some (NoteMetadata_tag (Note_metadata note)) |}
|}.

(** The body of the loop; a consumed note leaves two entries. *)
Definition import_by_proof_step (nullifier_commit_heights : gmap Nullifier (option BlockNumber))
    (note_records : list (option InputNoteRecord)) (request : ImportRequest) :
    client_m St (list (option InputNoteRecord)) :=
  let '(previous_note, note, inclusion_proof) := request in
  let metadata := Note_metadata note in
  let note_record := default (new_record_of_proof note inclusion_proof) previous_note in
  match mjoin (nullifier_commit_heights !! InputNoteRecord_nullifier note_record) with
  | Some block_height =>
      '(changed, note_record) ← note_try (InputNoteRecord_consumed_externally note_record
        (InputNoteRecord_nullifier note_record) block_height);
      mret (note_records ++ (if (changed : bool) then [Some note_record] else []) ++ [None])
  | None =>
      let block_height := proof_block_num inclusion_proof in
      current_block_num ← on_store get_sync_height;
      let tag := NoteMetadata_tag metadata in
      '(note_changed, note_record) ← note_try
        (InputNoteRecord_inclusion_proof_received note_record inclusion_proof metadata);
      '(note_changed, note_record) ←
        (if block_height <=? current_block_num then
           mmr ← current_partial_mmr;
           '(_, block_header) ← get_and_store_authenticated_block block_height mmr;
           '(changed, note_record) ← note_try
             (InputNoteRecord_block_header_received note_record block_header);
           mret (note_changed || changed, note_record)
         else
           insert_note_tag (with_note_source tag (InputNoteRecord_id note_record));;
           mret (note_changed, note_record));
      mret (note_records ++ [if (note_changed : bool) then Some note_record else None])
  end.

Definition import_note_records_by_proof (requested_notes : list ImportRequest) :
    client_m St (list (option InputNoteRecord)) :=
  let nullifier_requests : gset Nullifier := list_to_set (requested_nullifier <$> requested_notes) in
  let lowest_block_height :=
    foldl (λ lowest request, Z.min lowest (proof_block_num (snd request))) U32_MAX requested_notes in
  nullifier_commit_heights ← client_rpc
    (get_nullifier_commit_heights nullifier_requests lowest_block_height);
  client_fold (import_by_proof_step nullifier_commit_heights) requested_notes [].

(** ** By identifier *)

(** The body of the loop over the fetched notes. *)
Definition import_by_id_step (notes : gmap NoteId (option InputNoteRecord))
    (acc : gmap NoteId (option InputNoteRecord) * list ImportRequest) (fetched_note : FetchedNote) :
    client_m St (gmap NoteId (option InputNoteRecord) * list ImportRequest) :=
  let '(note_records, notes_to_request) := acc in
  let note_id := FetchedNote_id fetched_note in
  let inclusion_proof := FetchedNote_inclusion_proof fetched_note in
  previous_note ← client_try (ok_or (notes !! note_id)
    (Client_NoteImportError "Failed to retrieve note from node"));
  match previous_note with
  | Some previous_note =>
      '(changed, previous_note) ← note_try (InputNoteRecord_inclusion_proof_received previous_note
        inclusion_proof (FetchedNote_metadata fetched_note));
      if (changed : bool) then
        tag_record ← note_try (NoteTagRecord_of_note previous_note);
        on_store (remove_note_tag tag_record);;
        mret (<[note_id := Some previous_note]> note_records, notes_to_request)
      else mret (<[note_id := None]> note_records, notes_to_request)
  | None =>
      match fetched_note with
      | FetchedNote_Public note _ =>
          mret (note_records, notes_to_request ++ [(None, note, inclusion_proof)])
      | FetchedNote_Private _ _ _ =>
          client_fail (Client_NoteImportError "Incomplete imported note is private")
      end
  end.

Definition import_note_records_by_id (notes : gmap NoteId (option InputNoteRecord)) :
    client_m St (gmap NoteId (option InputNoteRecord)) :=
  let note_ids := fst <$> btree_to_list notes in
  fetched_notes ← client_try (map_err
    (λ err, match err with
            | Rpc_NoteNotFound note_id => Client_NoteNotFoundOnChain note_id
            | err => Client_RpcError err
            end) (rpc_get_notes_by_id note_ids));
  if bool_decide (fetched_notes = []) then
    client_fail (Client_NoteImportError "No notes fetched from node")
  else
    '(note_records, notes_to_request) ←
      client_fold (import_by_id_step notes) fetched_notes (∅, []);
    if bool_decide (notes_to_request = []) then mret note_records
    else
      note_records_by_proof ← import_note_records_by_proof notes_to_request;
      mret (foldl (λ note_records note_record,
        <[InputNoteRecord_id note_record := Some note_record]> note_records)
        note_records (omap id note_records_by_proof)).

(** ** By details *)

(** The [break] of a loop. *)
Fixpoint take_while {A} (p : A → bool) (l : list A) : list A :=
  match l with
  | [] => []
  | a :: l => if p a then a :: take_while p l else []
  end.

(** The notes of the blocks up to the first one above the sync height that are expected. *)
Definition expected_in_blocks (current_block_num : BlockNumber) (expected_ids : list NoteId)
    (blocks : list NoteSyncBlock) : list CommittedNote :=
  filter (λ n, cn_note_id n ∈ expected_ids)
    (concat ((λ b, btree_values (nsb_notes b)) <$>
      take_while (λ b, BlockHeader_block_num (nsb_block_header b) <=? current_block_num) blocks)).

Definition check_expected_notes (request_block_num : BlockNumber)
    (expected_notes : list (NoteId * NoteTag)) :
    client_m St (gmap NoteId (NoteMetadata * NoteInclusionProof)) :=
  let tracked_tags : gset NoteTag := list_to_set (snd <$> expected_notes) in
  current_block_num ← on_store get_sync_height;
  if current_block_num <? request_block_num then mret ∅
  else
    sync_result ← client_eff (eff_map_err (λ e, From_ClientError (Client_RpcError e))
      (sync_notes_with_details fuel request_block_num (Some current_block_num) tracked_tags));
    client_fold (λ retrieved_proofs sync_note,
      metadata ← client_expect (CommittedNote_metadata sync_note);
      mret (<[cn_note_id sync_note := (metadata, cn_inclusion_proof sync_note)]> retrieved_proofs))
      (expected_in_blocks current_block_num (fst <$> expected_notes) (snr_blocks sync_result)) ∅.

Definition DetailsRequest : Type :=
  option InputNoteRecord * NoteDetails * BlockNumber * option NoteTag.

Definition new_record_of_details (details : NoteDetails) (after_block_num : BlockNumber)
    (tag : option NoteTag) : InputNoteRecord := {|
  in_details := details;
  in_created_at := now;
  in_state := Expected {|
    Expected_metadata := None; Expected_after_block_num := after_block_num; Expected_tag := tag |}
|}.

(** The body of the loop; the data of a note is taken out of the map. *)
Definition import_by_details_step
    (acc : gmap NoteId (NoteMetadata * NoteInclusionProof) * list (option InputNoteRecord))
    (request : DetailsRequest) :
    client_m St (gmap NoteId (NoteMetadata * NoteInclusionProof) * list (option InputNoteRecord)) :=
  let '(committed_notes_data, note_records) := acc in
  let '(previous_note, details, after_block_num, tag) := request in
  let note_record := default (new_record_of_details details after_block_num tag) previous_note in
  let note_id := InputNoteRecord_id note_record in
  let remaining := delete note_id committed_notes_data in
  match committed_notes_data !! note_id with
  | Some (metadata, inclusion_proof) =>
      mmr ← current_partial_mmr;
      '(_, block_header) ←
        get_and_store_authenticated_block (proof_block_num inclusion_proof) mmr;
      let tag := NoteMetadata_tag metadata in
      '(note_changed, note_record) ← note_try
        (InputNoteRecord_inclusion_proof_received note_record inclusion_proof metadata);
      '(changed, note_record) ← note_try
        (InputNoteRecord_block_header_received note_record block_header);
      if (changed : bool) || (note_changed : bool) then
        on_store (remove_note_tag (with_note_source tag (InputNoteRecord_id note_record)));;
        mret (remaining, note_records ++ [Some note_record])
      else mret (remaining, note_records ++ [None])
  | None => mret (remaining, note_records ++ [Some note_record])
  end.

Definition import_note_records_by_details (requested_notes : list DetailsRequest) :
    client_m St (list (option InputNoteRecord)) :=
  let tagged := omap (M:=list) (λ request : DetailsRequest,
    let '(_, details, after_block_num, tag) := request in
    (λ tag, (NoteDetails_id details, tag, after_block_num)) <$> tag) requested_notes in
  let lowest_request_block := foldl (λ lowest r, Z.min lowest r.2) U32_MAX tagged in
  committed_notes_data ← check_expected_notes lowest_request_block (fst <$> tagged);
  result ← client_fold import_by_details_step requested_notes (committed_notes_data, []);
  mret (snd result).

(** ** The whole batch *)

Definition NoteFile_note_id (note_file : NoteFile) : NoteId :=
  match note_file with
  | NoteFile_NoteId id => id
  | NoteFile_NoteDetails details _ _ => NoteDetails_id details
  | NoteFile_NoteWithProof note _ => Note_id note
  end.

Record ImportRequests := {
  ir_by_id : gmap NoteId (option InputNoteRecord);
  ir_by_details : list DetailsRequest;
  ir_by_proof : list ImportRequest
}.

(** The body of the loop that sorts the files by their kind. *)
Definition classify_step (previous_notes_map : gmap NoteId InputNoteRecord) (acc : ImportRequests)
    (entry : NoteId * NoteFile) : result ClientError ImportRequests :=
  let '(note_id, note_file) := entry in
  let previous_note := previous_notes_map !! note_id in
  if default false (InputNoteRecord_is_processing <$> previous_note) then
    Err (Client_NoteImportError "Can't overwrite note as it's currently being processed")
  else Ok match note_file with
    | NoteFile_NoteId id =>
        {| ir_by_id := <[id := previous_note]> (ir_by_id acc);
           ir_by_details := ir_by_details acc; ir_by_proof := ir_by_proof acc |}
    | NoteFile_NoteDetails details after_block_num tag =>
        {| ir_by_id := ir_by_id acc;
           ir_by_details := ir_by_details acc ++ [(previous_note, details, after_block_num, tag)];
           ir_by_proof := ir_by_proof acc |}
    | NoteFile_NoteWithProof note inclusion_proof =>
        {| ir_by_id := ir_by_id acc; ir_by_details := ir_by_details acc;
           ir_by_proof := ir_by_proof acc ++ [(previous_note, note, inclusion_proof)] |}
    end.

(** The body of the loop that stores the records. *)
Definition store_imported (imported_note_ids : list NoteId) (note : InputNoteRecord) :
    client_m St (list NoteId) :=
  (match in_state note with
   | Expected s =>
       match Expected_tag s with
       | Some tag => insert_note_tag (with_note_source tag (InputNoteRecord_id note));; mret ()
       | None => mret ()
       end
   | _ => mret ()
   end);;
  on_store (upsert_input_notes [note]);;
  mret (imported_note_ids ++ [InputNoteRecord_id note]).

Definition import_notes (note_files : list NoteFile) : client_m St (list NoteId) :=
  let note_ids_map : gmap NoteId NoteFile :=
    btree_collect ((λ f, (NoteFile_note_id f, f)) <$> note_files) in
  let note_ids := fst <$> btree_to_list note_ids_map in
  previous_notes ← on_store (get_input_notes (NoteFilter_List note_ids));
  let previous_notes_map : gmap NoteId InputNoteRecord :=
    btree_collect ((λ note, (InputNoteRecord_id note, note)) <$> previous_notes) in
  requests ← client_try (try_fold (classify_step previous_notes_map) (btree_to_list note_ids_map)
    {| ir_by_id := ∅; ir_by_details := []; ir_by_proof := [] |});
  notes_by_id ← (if bool_decide (ir_by_id requests = ∅) then mret []
    else notes_by_id ← import_note_records_by_id (ir_by_id requests); mret (btree_values notes_by_id));
  notes_by_details ← (if bool_decide (ir_by_details requests = []) then mret []
    else import_note_records_by_details (ir_by_details requests));
  notes_by_proof ← (if bool_decide (ir_by_proof requests = []) then mret []
    else import_note_records_by_proof (ir_by_proof requests));
  let imported_notes := notes_by_id ++ notes_by_details ++ notes_by_proof in
  client_fold store_imported (omap id imported_notes) [].

(** ** The transport network ([note_transport/mod.rs]) *)

Section transport.
Context `{!NoteTransportClient} (note_transport_enabled : bool).

Definition get_note_transport_api : client_m St () :=
  if note_transport_enabled then mret () else db_fail (From_NoteTransportError Transport_Disabled).

Definition send_private_note (note : Note) : client_m St () :=
  get_note_transport_api;;
  match transport_send_note (Note_id note, Note_metadata note)
    (write_into NoteDetails_codec (Note_into_details note)) with
  | Ok _ => mret ()
  | Err e => db_fail (From_NoteTransportError (Transport_Failed e))
  end.

(** The details that were sent, with the metadata of the header. *)
Definition rejoin_note (note_info : NoteInfo) : result DeserializationError Note :=
  details ← read_from_bytes NoteDetails_codec (ni_details_bytes note_info);
  Ok (Note_new (NoteDetails_assets details) (snd (ni_header note_info)) (NoteDetails_recipient details)).

Definition NOTE_LOOKBACK_BLOCKS : u32 := 20.

Definition fetch_transport_notes (cursor : u64) (tags : gset NoteTag) : client_m St () :=
  get_note_transport_api;;
  '(note_infos, rcursor) ← (λ c, Finished (c, map_err (λ e, From_NoteTransportError (Transport_Failed e))
    (transport_fetch_notes (bset_elements tags) cursor)));
  notes ← (λ c, Finished (c, map_err From_DeserializationError (try_map rejoin_note note_infos)));
  sync_height ← on_store get_sync_height;
  let after_block_num := saturating_sub sync_height NOTE_LOOKBACK_BLOCKS in
  let note_requests := (λ note, NoteFile_NoteDetails (Note_into_details note) after_block_num
    (Some (NoteMetadata_tag (Note_metadata note)))) <$> notes in
  import_notes note_requests;;
  on_store (update_note_transport_cursor rcursor).

Definition fetch_private_notes : client_m St () :=
  note_tags ← on_store get_unique_note_tags;
  cursor ← on_store get_note_transport_cursor;
  fetch_transport_notes cursor note_tags.

Definition fetch_all_private_notes : client_m St () :=
  note_tags ← on_store get_unique_note_tags;
  fetch_transport_notes 0 note_tags.
End transport.
End import.
