(* ===== verification/ClientSync.v ===== *)
(** * Syncing the client

    [Client::sync_state] of [sync/mod.rs] puts the parts together: it makes sure that
    the genesis block and the limits of the node are known, imports what the transport
    network has, assembles the input of [StateSync] from the store, runs it and applies
    the update to the store.  [NoteScreener] of [note/note_screener.rs], the callback of
    a sync, decides from the store and from a trial execution which notes matter. *)

From S2P Require Import Prelude Protocol Serde Model NoteStates InputNote OutputNote TxRecord.
From S2P Require Import TxTracker Errors NoteTracker Rpc Grpc SyncUpdate StateSync AccountTypes.
From S2P Require Import SmtForest Sql NoteSpec Store TxDb SqliteSync StoreContract Client NoteImport.
From Stdlib Require Import ZArith Lia.
From stdpp Require Import base gmap list strings sorting.

Open Scope Z_scope.

(** ** The screener *)

(** [NoteConsumptionChecker] of the VM: the status of a note for an account.  The
    statuses [NeverConsumable] and [UnconsumableConditions] are told apart. *)
Class NoteChecker `{Protocol} := {
  NoteConsumptionStatus : Type;
  is_unconsumable : NoteConsumptionStatus → bool;
  check_can_consume : AccountId → BlockNumber → Note → result foreign NoteConsumptionStatus
}.

(** What the store answers to the screener during a sync, which does not change it. *)
Class ScreenerStore `{StoreLib} := {
  scr_input_notes : NoteFilter → result foreign (list InputNoteRecord);
  scr_output_notes : NoteFilter → result foreign (list OutputNoteRecord);
  scr_unique_note_tags : result foreign (gset NoteTag);
  scr_account_ids : result foreign (list AccountId);
  scr_sync_height : result foreign BlockNumber;
  scr_account_code : AccountId → result foreign (option AccountCode)
}.

Section screener.
Context `{StoreLib} `{!ScreenerStore} `{!NoteChecker}.

Definition is_relevant (consumption_status : NoteConsumptionStatus) : bool :=
  negb (is_unconsumable consumption_status).

Definition screener_error {A} (m : result foreign A) : result ClientError A :=
  map_err Client_NoteScreenerError m.
Definition store_error {A} (m : result foreign A) : result ClientError A := map_err Client_StoreError m.

(** The body of the loop over the notes, for one account. *)
Definition check_note (account_id : AccountId) (block_ref : BlockNumber)
    (relevant_notes : gmap NoteId (list (AccountId * NoteConsumptionStatus))) (note : Note) :
    result ClientError (gmap NoteId (list (AccountId * NoteConsumptionStatus))) :=
  consumption_status ← screener_error (check_can_consume account_id block_ref note);
  Ok (if is_relevant consumption_status then
        let entry := default [] (relevant_notes !! Note_id note) in
        <[Note_id note := entry ++ [(account_id, consumption_status)]]> relevant_notes
      else relevant_notes).

Definition can_consume_batch (notes : list Note) :
    result ClientError (gmap NoteId (list (AccountId * NoteConsumptionStatus))) :=
  account_ids ← screener_error scr_account_ids;
  if bool_decide (notes = []) || bool_decide (account_ids = []) then Ok ∅
  else
    block_ref ← screener_error scr_sync_height;
    try_fold (λ relevant_notes account_id,
      code ← screener_error (scr_account_code account_id);
      _ ← screener_error (ok_or code "account data not found in the store"%string);
      try_fold (check_note account_id block_ref) notes relevant_notes) account_ids ∅.

Definition can_consume (note : Note) : result ClientError (list (AccountId * NoteConsumptionStatus)) :=
  batch ← can_consume_batch [note];
  Ok (default [] (batch !! Note_id note)).

#[export] Instance NoteScreener : OnNoteReceived := λ committed_note public_note,
  let note_id := cn_note_id committed_note in
  input_notes ← store_error (scr_input_notes (NoteFilter_Unique note_id));
  output_notes ← store_error (scr_output_notes (NoteFilter_Unique note_id));
  if negb (bool_decide (input_notes = [])) || negb (bool_decide (output_notes = []))
  then Ok (Action_Commit committed_note)
  else
    match public_note with
    | Some public_note =>
        let screened :=
          note ← note_error (InputNoteRecord_try_into_note public_note);
          new_note_relevance ← can_consume note;
          Ok (if bool_decide (new_note_relevance = []) then Action_Discard
              else Action_Insert public_note) in
        match InputNoteRecord_metadata public_note with
        | Some metadata =>
            note_tags ← store_error scr_unique_note_tags;
            if bool_decide (NoteMetadata_tag metadata ∈ note_tags)
            then Ok (Action_Insert public_note) else screened
        | None => screened
        end
    | None => Ok Action_Discard
    end.
End screener.

(** ** The sync *)

(** The configuration of a client that a sync depends on. *)
Record ClientConfig := {
  cc_tx_discard_delta : option u32;
  cc_note_transport_enabled : bool
}.

Section client.
Context `{StoreLib} {Node : NodeRpcClient} `{!NodeLimits} `{!MerklePathLib} `{!NoteTransportClient}.
Context {St : Type} `{!StoreOps St}.
(** The screener reads the store. *)
Context (note_screener : St → OnNoteReceived).
(** The clock of the store, the fuel for paging, and the configuration. *)
Context (now : option u64) (fuel : nat) (config : ClientConfig).

Definition build_sync_input : client_m St StateSyncInput :=
  accounts ← on_store get_account_headers;
  note_tags ← on_store get_unique_note_tags;
  input_notes ← on_store (get_input_notes NoteFilter_Unspent);
  output_notes ← on_store (get_output_notes NoteFilter_Unspent);
  uncommitted_transactions ← on_store (get_transactions TransactionFilter_Uncommitted);
  mret {| si_accounts := fst <$> accounts; si_note_tags := note_tags; si_input_notes := input_notes;
          si_output_notes := output_notes; si_uncommitted_transactions := uncommitted_transactions |}.

(** [StateSync::sync_state] with the local partial MMR. *)
Definition run_state_sync (mmr : PartialMmr) (input : StateSyncInput) : client_m St StateSyncUpdate := λ c,
  match @sync_state _ _ Node (note_screener (cl_store c)) fuel
    (StateSync_new (cc_tx_discard_delta config)) input mmr with
  | (_, Finished r) => Finished (c, map_err From_ClientError r)
  | (_, Panicked) => Panicked
  | (_, OutOfFuel) => OutOfFuel
  end.

Definition client_apply_state_sync (update : StateSyncUpdate) : client_m St () :=
  on_store (apply_state_sync update);;
  on_store prune_irrelevant_blocks.

Definition client_sync_state : client_m St SyncSummary :=
  ensure_genesis_in_place;;
  ensure_rpc_limits_in_place;;
  (if cc_note_transport_enabled config then
     cursor ← on_store get_note_transport_cursor;
     note_tags ← on_store get_unique_note_tags;
     fetch_transport_notes now fuel true cursor note_tags
   else mret ());;
  mmr ← on_store get_current_partial_mmr;
  input ← build_sync_input;
  state_sync_update ← run_state_sync mmr input;
  let sync_summary := SyncSummary_from_update state_sync_update in
  on_store (apply_state_sync state_sync_update);;
  on_store prune_irrelevant_blocks;;
  mret sync_summary.
End client.
