(* ===== verification/ClientSpec.v ===== *)
(** * What the client keeps and promises

    The client over a store that keeps its contract ([StoreContract]): the calls
    around a sync leave the data of the store alone, a sync applies what [StateSync]
    computes from these data, and the notes that it stores as authenticated are. *)

From S2P Require Import Prelude Protocol Serde Model NoteStates InputNote OutputNote TxRecord.
From S2P Require Import TxTracker Errors NoteTracker Rpc Grpc SyncUpdate StateSync AccountTypes.
From S2P Require Import SmtForest Sql Db AccountDb ChainDb NoteDb NoteSpec Store TxDb SqliteStore SqliteSync.
From S2P Require Import ChainSpec StoreContract Client NoteImport ClientSync.
From Stdlib Require Import ZArith Lia.
From stdpp Require Import base gmap list strings sorting.

Open Scope Z_scope.

(** ** Calls that leave the data alone *)

Section kept.
Context `{StoreLaws} {Node : NodeRpcClient} `{!NodeLimits} `{!MerklePathLib}.
Context {St : Type} `{!StoreOps St} `{!StoreContract St}.

(** The store holds the same data. *)
Definition data_kept (c c' : ClientState St) : Prop :=
  ∀ d, holds d (cl_store c) → holds d (cl_store c').

#[export] Instance data_kept_preorder : PreOrder data_kept.
Proof. split; [by intros c d|]. intros c1 c2 c3 H12 H23 d Hd. by apply H23, H12. Qed.

Lemma kept_same {A} (m : client_m St A) :
  (∀ c c' r, m c = Finished (c', r) → cl_store c' = cl_store c) → preserves data_kept m.
Proof. intros Hm c c' r Hrun d. by rewrite (Hm _ _ _ Hrun). Qed.

Lemma kept_bind {A B} (m : client_m St A) (f : A → client_m St B) :
  preserves data_kept m → (∀ a, preserves data_kept (f a)) → preserves data_kept (m ≫= f).
Proof. apply preserves_bind, _. Qed.

Lemma kept_on_store {A} (m : dbm StoreError St A) :
  (∀ d s s' r, holds d s → m s = Finished (s', r) → holds d s') → preserves data_kept (on_store m).
Proof.
  intros Hm c c' r. unfold on_store. destruct (m (cl_store c)) as [[s r']| |] eqn:E; [|done..].
  intros [= <- _] d Hd. by eapply Hm.
Qed.

Lemma kept_on_store_read {A} (m : dbm StoreError St A) :
  (∀ s s' r, m s = Finished (s', r) → s' = s) → preserves data_kept (on_store m).
Proof. intros Hm. apply kept_on_store. by intros d s s' r Hd ->%Hm. Qed.

Lemma kept_try {A} (r : result ClientError A) : preserves data_kept (client_try (St:=St) r).
Proof. apply kept_same. by intros c c' r' [= <- _]. Qed.
Lemma kept_expect {A} (o : option A) : preserves data_kept (client_expect (St:=St) o).
Proof. apply kept_same. intros c c' r. destruct o; [by intros [= <- _]|intros [=]]. Qed.
Lemma kept_eff {A} (m : eff client_error A) : preserves data_kept (client_eff (St:=St) m).
Proof. apply kept_same. intros c c' r. unfold client_eff. destruct m; [|done..]. by intros [= <- _]. Qed.
Lemma kept_limits : preserves data_kept (client_get_rpc_limits (St:=St)).
Proof.
  apply kept_same. intros c c' r. unfold client_get_rpc_limits.
  destruct (get_rpc_limits _ _) as [cached r']. by intros [= <- _].
Qed.
Lemma kept_read {A} (f : ClientState St → result client_error A) : preserves data_kept (db_read f).
Proof. apply preserves_read, _. Qed.

(** Queries of the store do not change it. *)
Lemma tags_same d s s' r : holds d s → get_unique_note_tags s = Finished (s', r) → holds d s'.
Proof. intros Hd. rewrite (sc_unique_note_tags _ _ Hd). by intros [= <- _]. Qed.
Lemma input_notes_same f d s s' r : holds d s → get_input_notes f s = Finished (s', r) → holds d s'.
Proof. intros Hd. destruct (sc_input_notes _ _ f Hd) as (l & -> & _). by intros [= <- _]. Qed.
Lemma output_notes_same f d s s' r : holds d s → get_output_notes f s = Finished (s', r) → holds d s'.
Proof. intros Hd. destruct (sc_output_notes _ _ f Hd) as (l & -> & _). by intros [= <- _]. Qed.
Lemma transactions_same f d s s' r : holds d s → get_transactions f s = Finished (s', r) → holds d s'.
Proof. intros Hd. destruct (sc_transactions _ _ f Hd) as (l & -> & _). by intros [= <- _]. Qed.
Lemma prune_same d s s' r : holds d s → prune_irrelevant_blocks s = Finished (s', r) → holds d s'.
Proof. intros Hd. destruct (sc_prune _ _ Hd) as (s1 & -> & Hs1). by intros [= <- _]. Qed.

(** A computation of the store that only reads. *)
Definition only_reads {A} (m : dbm StoreError St A) : Prop := preserves eq m.

Lemma reads_bind {A B} (m : dbm StoreError St A) (f : A → dbm StoreError St B) :
  only_reads m → (∀ a, only_reads (f a)) → only_reads (m ≫= f).
Proof. apply preserves_bind, _. Qed.

Lemma block_header_by_num_reads n : only_reads (get_block_header_by_num n).
Proof.
  apply reads_bind; [|intros; apply preserves_ret, _]. intros s s' r Hr.
  symmetry. by eapply sc_get_block_headers.
Qed.

Lemma current_partial_mmr_reads : only_reads (get_current_partial_mmr (St:=St)).
Proof.
  unfold get_current_partial_mmr.
  apply reads_bind; [intros s s' r Hr; symmetry; by eapply sc_get_sync_height|intros n].
  apply reads_bind; [intros s s' r Hr; symmetry; by eapply sc_get_peaks|intros peaks].
  apply reads_bind; [apply block_header_by_num_reads|intros [[block relevance]|]; [|apply preserves_fail, _]].
  cbv zeta. apply reads_bind; [intros s s' r Hr; symmetry; by eapply sc_get_tracked_numbers|intros leaves].
  apply reads_bind; [intros s s' r Hr; symmetry; by eapply sc_get_nodes|intros nodes].
  destruct (PartialMmr_from_parts _ _ _); [apply preserves_ret, _|apply preserves_fail, _].
Qed.

Lemma kept_reads {A} (m : dbm StoreError St A) : only_reads m → preserves data_kept (on_store m).
Proof. intros Hm. apply kept_on_store_read. intros s s' r Hr. symmetry. by eapply Hm. Qed.

Lemma sync_height_kept : preserves data_kept (on_store (St:=St) get_sync_height).
Proof. apply kept_on_store_read. intros s s' r. apply sc_get_sync_height. Qed.

Lemma genesis_kept : preserves data_kept (ensure_genesis_in_place (St:=St)).
Proof.
  unfold ensure_genesis_in_place. apply kept_bind; [apply kept_read|intros [w|]; [apply preserves_ret, _|]].
  apply kept_bind; [apply kept_try|intros header]. destruct (MmrPeaks_new 0 []) as [peaks|]; [|apply preserves_panic].
  apply kept_bind; [|intros _; by apply kept_same; intros c c' r [= <- _]].
  apply kept_on_store. intros d s s' r. apply sc_insert_block_header.
Qed.

Lemma limits_kept : preserves data_kept (ensure_rpc_limits_in_place (St:=St)).
Proof.
  unfold ensure_rpc_limits_in_place. apply kept_bind; [apply kept_read|intros [l|]; [apply preserves_ret, _|]].
  apply kept_bind; [apply kept_limits|intros l]. apply kept_on_store. intros d s s' r. apply sc_set_setting.
Qed.
End kept.

(** ** The sync *)

(** The input that the data give. *)
Record input_of `{StoreLaws} (d : ClientData) (input : StateSyncInput) : Prop := {
  io_tags : si_note_tags input = list_to_set (ntr_tag <$> cd_tags d);
  io_input : Permutation (si_input_notes input) (selected_notes NoteFilter_Unspent d);
  io_output : Permutation (si_output_notes input) (selected_outputs NoteFilter_Unspent d);
  io_transactions : Permutation (si_uncommitted_transactions input)
    (selected_transactions TransactionFilter_Uncommitted d)
}.

Section sync.
Context `{StoreLaws} {Node : NodeRpcClient} `{!NodeLimits} `{!MerklePathLib} `{!NoteTransportClient}.
Context {St : Type} `{!StoreOps St} `{!StoreContract St}.
Context (note_screener : St → OnNoteReceived) (now : option u64) (fuel : nat) (config : ClientConfig).

(** A failure leaves the data. *)
Definition failure_keeps {A} (m : client_m St A) : Prop :=
  ∀ c c' e, m c = Finished (c', Err e) → data_kept c c'.

Lemma failure_bind {A B} (m : client_m St A) (f : A → client_m St B) :
  preserves data_kept m → (∀ a, failure_keeps (f a)) → failure_keeps (m ≫= f).
Proof.
  intros Hm Hf c c' e. unfold mbind, dbm_bind.
  destruct (m c) as [[c1 [a|e1]]| |] eqn:E; [|intros [= <- <-]; by eapply Hm|done..].
  intros Hr. transitivity c1; [by eapply Hm|by eapply Hf].
Qed.

Lemma build_sync_input_kept : preserves data_kept (build_sync_input (St:=St)).
Proof.
  unfold build_sync_input.
  apply kept_bind; [apply kept_on_store_read; intros ???; apply sc_get_account_headers|intros headers].
  apply kept_bind; [apply kept_on_store; intros ????; apply tags_same|intros tags].
  apply kept_bind; [apply kept_on_store; intros ????; apply input_notes_same|intros inputs].
  apply kept_bind; [apply kept_on_store; intros ????; apply output_notes_same|intros outputs].
  apply kept_bind; [apply kept_on_store; intros ????; apply transactions_same|intros txs].
  apply preserves_ret, _.
Qed.

Lemma run_state_sync_kept mmr input :
  preserves data_kept (run_state_sync note_screener fuel config mmr input).
Proof.
  apply kept_same. intros c c' r. unfold run_state_sync.
  destruct (sync_state _ _ _ _) as [mmr' [r'| |]]; [|done..]. by intros [= <- _].
Qed.

Lemma on_store_Ok {A} (m : dbm StoreError St A) c c' a :
  on_store m c = Finished (c', Ok a) →
  ∃ s, m (cl_store c) = Finished (s, Ok a) ∧ c' = set_cl_store s c.
Proof.
  unfold on_store. destruct (m (cl_store c)) as [[s [b|e]]| |]; [|done..].
  intros [= <- <-]. by exists s.
Qed.

(** What the input of a sync holds. *)
Lemma build_sync_input_of d c c' input :
  holds d (cl_store c) → build_sync_input c = Finished (c', Ok input) →
  input_of d input ∧ holds d (cl_store c').
Proof.
  intros Hd Hrun. split; [|by eapply build_sync_input_kept]. unfold build_sync_input in Hrun.
  apply dbm_bind_Ok in Hrun as (c1 & headers & Hh & Hrun).
  assert (holds d (cl_store c1)) as Hd1.
  { eapply (kept_on_store_read (St:=St) get_account_headers); [|exact Hh|done].
    intros ???. apply sc_get_account_headers. }
  clear Hh. apply dbm_bind_Ok in Hrun as (c2 & tags & Ht & Hrun).
  apply on_store_Ok in Ht as (s2 & Ht & ->). rewrite (sc_unique_note_tags _ _ Hd1) in Ht.
  injection Ht as <- <-. apply dbm_bind_Ok in Hrun as (c3 & inputs & Hi & Hrun).
  apply on_store_Ok in Hi as (s3 & Hi & ->). cbn in Hi.
  destruct (sc_input_notes _ _ NoteFilter_Unspent Hd1) as (l & Hl & Hpi). rewrite Hl in Hi.
  injection Hi as <- <-. apply dbm_bind_Ok in Hrun as (c4 & outputs & Ho & Hrun).
  apply on_store_Ok in Ho as (s4 & Ho & ->). cbn in Ho.
  destruct (sc_output_notes _ _ NoteFilter_Unspent Hd1) as (l' & Hl' & Hpo). rewrite Hl' in Ho.
  injection Ho as <- <-. apply dbm_bind_Ok in Hrun as (c5 & txs & Htx & Hrun).
  apply on_store_Ok in Htx as (s5 & Htx & ->). cbn in Htx.
  destruct (sc_transactions _ _ TransactionFilter_Uncommitted Hd1) as (l2 & Hl2 & Hpt).
  rewrite Hl2 in Htx. injection Htx as <- <-. injection Hrun as _ <-. by split.
Qed.

(** What a sync does after the notes of the transport network were fetched. *)
Definition sync_with_node : client_m St SyncSummary :=
  mmr ← on_store get_current_partial_mmr;
  input ← build_sync_input;
  state_sync_update ← run_state_sync note_screener fuel config mmr input;
  let sync_summary := SyncSummary_from_update state_sync_update in
  on_store (apply_state_sync state_sync_update);;
  on_store prune_irrelevant_blocks;;
  mret sync_summary.

Lemma sync_with_node_steps d c c' summary :
  holds d (cl_store c) → sync_with_node c = Finished (c', Ok summary) →
  ∃ s input mmr mmr' u, holds d s ∧ input_of d input ∧
    @sync_state _ _ Node (note_screener s) fuel (StateSync_new (cc_tx_discard_delta config)) input mmr =
      (mmr', Finished (Ok u)) ∧
    summary = SyncSummary_from_update u ∧
    (update_fits d u → holds (synced_data d u) (cl_store c')).
Proof.
  intros Hd Hrun. unfold sync_with_node in Hrun.
  apply dbm_bind_Ok in Hrun as (c4 & mmr & Hc4%(kept_reads _ current_partial_mmr_reads) & Hrun).
  apply dbm_bind_Ok in Hrun as (c5 & input & Hc5 & Hrun).
  assert (holds d (cl_store c4)) as Hd4 by auto.
  destruct (build_sync_input_of _ _ _ _ Hd4 Hc5) as [Hin Hd5].
  apply dbm_bind_Ok in Hrun as (c6 & u & Hc6 & Hrun). unfold run_state_sync in Hc6.
  destruct (sync_state _ _ _ _) as [mmr' [[u'|e]| |]] eqn:Esync in Hc6; [|done..].
  injection Hc6 as <- <-. cbv zeta in Hrun.
  apply dbm_bind_Ok in Hrun as (c7 & [] & (s7 & Happly & ->)%on_store_Ok & Hrun).
  apply dbm_bind_Ok in Hrun as (c8 & u8 & Hc8 & Hrun).
  apply kept_on_store in Hc8; [|intros ????; apply prune_same]. injection Hrun as <- <-.
  exists (cl_store c5), input, mmr, mmr', u'. split_and!; [done..|]. intros Hfit.
  apply Hc8. by eapply sc_apply_state_sync.
Qed.

Lemma sync_with_node_failure : failure_keeps sync_with_node.
Proof.
  apply failure_bind; [apply kept_reads, current_partial_mmr_reads|intros mmr].
  apply failure_bind; [apply build_sync_input_kept|intros input].
  apply failure_bind; [apply run_state_sync_kept|intros u]. cbv zeta.
  intros c c' e. unfold mbind at 1, dbm_bind at 1, on_store at 1.
  destruct (apply_state_sync u (cl_store c)) as [[s [[]|e']]| |] eqn:E; [| |done..].
  - unfold mbind, dbm_bind, on_store. cbn [cl_store set_cl_store].
    destruct (prune_irrelevant_blocks s) as [[s' [u'|e']]| |] eqn:Ep; [done| |done..].
    by apply sc_prune_succeeds in Ep.
  - intros [= <- _] d Hd. by eapply sc_failed_sync.
Qed.

(** The whole sync without the transport network. *)
Lemma client_sync_steps d c c' summary :
  cc_note_transport_enabled config = false → holds d (cl_store c) →
  client_sync_state note_screener now fuel config c = Finished (c', Ok summary) →
  ∃ s input mmr mmr' u, holds d s ∧ input_of d input ∧
    @sync_state _ _ Node (note_screener s) fuel (StateSync_new (cc_tx_discard_delta config)) input mmr =
      (mmr', Finished (Ok u)) ∧
    summary = SyncSummary_from_update u ∧
    (update_fits d u → holds (synced_data d u) (cl_store c')).
Proof.
  intros Hcfg Hd Hrun. unfold client_sync_state in Hrun. rewrite Hcfg in Hrun.
  apply dbm_bind_Ok in Hrun as (c1 & u1 & Hc1%genesis_kept & Hrun).
  apply dbm_bind_Ok in Hrun as (c2 & u2 & Hc2%limits_kept & Hrun).
  apply dbm_bind_Ok in Hrun as (c3 & u3 & [= <- _] & Hrun).
  eapply sync_with_node_steps; [|exact Hrun]. auto.
Qed.

Lemma client_sync_failure :
  cc_note_transport_enabled config = false →
  failure_keeps (client_sync_state note_screener now fuel config).
Proof.
  intros Hcfg. unfold client_sync_state. rewrite Hcfg.
  apply failure_bind; [apply genesis_kept|intros _]. apply failure_bind; [apply limits_kept|intros _].
  apply failure_bind; [apply preserves_ret, _|intros _]. apply sync_with_node_failure.
Qed.

(** C5: A sync of the client does what its parts say.  With a store that keeps its
    contract and without the transport network: when it succeeds, the update it applied
    is the one that [StateSync] computes from exactly the client's unspent notes and
    output notes, its pending transactions and the tags it tracks; the summary lists
    this update, and afterwards the store holds the client's data with the update
    applied.  When it fails, at whatever step, the data are as they were. *)
Theorem client_sync_refines d c c' r :
  cc_note_transport_enabled config = false → holds d (cl_store c) →
  client_sync_state note_screener now fuel config c = Finished (c', r) →
  match r with
  | Ok summary => ∃ s input mmr mmr' u,
      holds d s ∧ input_of d input ∧
      @sync_state _ _ Node (note_screener s) fuel (StateSync_new (cc_tx_discard_delta config)) input mmr =
        (mmr', Finished (Ok u)) ∧
      summary = SyncSummary_from_update u ∧
      (update_fits d u → holds (synced_data d u) (cl_store c'))
  | Err _ => holds d (cl_store c')
  end.
Proof.
  intros Hcfg Hd Hrun. destruct r as [summary|e].
  - by eapply client_sync_steps.
  - by eapply client_sync_failure.
Qed.

(** *** Stored notes are authentic *)

(** Every stored note has its identifier, and an authenticated one its proof. *)
Definition notes_authentic (d : ClientData) : Prop :=
  ∀ id r, cd_notes d !! id = Some r → InputNoteRecord_id r = id ∧ auth_inv r.

Lemma changed_records_authentic recs t :
  (∀ id r, recs !! id = Some r → InputNoteRecord_id r = id ∧ auth_inv r) → tracker_all auth_inv t →
  ∀ id r, changed_input_records recs t !! id = Some r → InputNoteRecord_id r = id ∧ auth_inv r.
Proof.
  intros Hrecs Ht. unfold changed_input_records.
  assert (∀ u, u ∈ updated_input_notes t → auth_inv (iu_note u)) as Hu.
  { intros u [_ (id & Hid)%elem_of_btree_values]%list_elem_of_filter. by eapply Ht. }
  assert (∀ l recs, (∀ id r, recs !! id = Some r → InputNoteRecord_id r = id ∧ auth_inv r) →
    (∀ r, r ∈ l → auth_inv r) →
    ∀ id r, foldl insert_note recs l !! id = Some r → InputNoteRecord_id r = id ∧ auth_inv r) as Hins.
  { clear. induction l as [|r l IH]; intros recs Hrecs Hl; [done|]. cbn [foldl]. apply IH.
    - intros id r'. unfold insert_note. rewrite lookup_insert. case_decide as Hid; [|apply Hrecs].
      intros [= <-]. split; [done|]. apply (Hl r). by left.
    - intros r' Hr'. apply Hl. by right. }
  assert (∀ l recs, (∀ id r, recs !! id = Some r → InputNoteRecord_id r = id ∧ auth_inv r) →
    (∀ r, r ∈ l → auth_inv r) →
    ∀ id r, foldl update_note recs l !! id = Some r → InputNoteRecord_id r = id ∧ auth_inv r) as Hupd.
  { clear. induction l as [|r l IH]; intros recs Hrecs Hl; [done|]. cbn [foldl]. apply IH.
    - intros id r'. unfold update_note. rewrite lookup_alter_Some.
      intros [(Hid & r0 & Hr0 & ->)|[_ Hr']]; [|by apply Hrecs]. destruct (Hrecs _ _ Hr0) as [Hid0 _].
      split; [done|]. intros root Hroot. destruct (Hl r ltac:(left) root Hroot) as (proof & meta & Hp & Hm & Hv).
      exists proof, meta. split_and!; [done..|].
      change (InputNoteRecord_id (with_state r0 (in_state r))) with (InputNoteRecord_id r0).
      by rewrite Hid0, <-Hid.
    - intros r' Hr'. apply Hl. by right. }
  apply Hupd; [apply Hins; [done|]|]; intros r (u & -> & [_ Hin]%list_elem_of_filter)%list_elem_of_fmap; auto.
Qed.

(** *** Notes of the transport network *)

(** The store holds authentic notes, at a height. *)
Definition holds_authentic (h : BlockNumber) (c : ClientState St) : Prop :=
  ∃ d, holds d (cl_store c) ∧ notes_authentic d ∧ cd_height d = h.

(** From such a store, a computation leaves one, and what it returns satisfies [Q]. *)
Definition ensures {A} (h : BlockNumber) (m : client_m St A) (Q : A → Prop) : Prop := ∀ c c' r,
  holds_authentic h c → m c = Finished (c', r) → holds_authentic h c' ∧ ∀ a, r = Ok a → Q a.

Lemma ensures_bind {A B} h (m : client_m St A) (f : A → client_m St B) Q R :
  ensures h m Q → (∀ a, Q a → ensures h (f a) R) → ensures h (m ≫= f) R.
Proof.
  intros Hm Hf c c' r Hc. unfold mbind, dbm_bind.
  destruct (m c) as [[c1 [a|e]]| |] eqn:E; [| |done..]; destruct (Hm _ _ _ Hc E) as [Hc1 HQ].
  - intros Hr. by eapply Hf; [apply HQ|..].
  - by intros [= <- <-].
Qed.

Lemma ensures_ret {A} h (a : A) (Q : A → Prop) : Q a → ensures h (mret a) Q.
Proof. intros HQ c c' r Hc [= <- <-]. split; [done|]. by intros ? [= <-]. Qed.

Lemma ensures_try {A} h (r : result ClientError A) (Q : A → Prop) :
  (∀ a, r = Ok a → Q a) → ensures h (client_try r) Q.
Proof.
  intros HQ c c' r' Hc [= <- <-]. split; [done|]. intros a. destruct r as [a'|]; [|done]. intros [= ->]. auto.
Qed.

Lemma ensures_kept {A} h (m : client_m St A) : preserves data_kept m → ensures h m (λ _, True).
Proof. intros Hm c c' r (d & Hd & Ha) Hrun. split; [|done]. exists d. split; [by eapply Hm|done]. Qed.

Lemma ensures_fold {A B} h (f : B → A → client_m St B) l b (Q : B → Prop) :
  (∀ b a, a ∈ l → Q b → ensures h (f b a) Q) → Q b → ensures h (client_fold f l b) Q.
Proof.
  revert b. induction l as [|a l IH]; intros b Hf Hb; [by apply ensures_ret|]. cbn [client_fold].
  eapply ensures_bind; [apply Hf; [left|done]|]. intros b' Hb'. apply IH; [|done].
  intros b2 a2 Ha2. apply Hf. by right.
Qed.

(** A record that may be stored. *)
Definition record_ok (r : InputNoteRecord) : Prop := auth_inv r ∧ insertable r.

Lemma received_proof_ok r p m b r' :
  InputNoteRecord_inclusion_proof_received r p m = Ok (b, r') → record_ok r → record_ok r'.
Proof.
  intros Hr [Ha Hi]. split; [by eapply (auth_inv_step r); [|exists (EvInclusionProof p m), b]|].
  destruct Hi as [Hwf Hc]. revert Hr Hwf Hc. unfold insertable.
  destruct r as [details created [[]|[]|[]|[]|[]|[]|[]|[]|[]]]; unfold_event; simpl in *; unfold_event; simpl in *;
    repeat (case_match; simpl in *); intros; simplify_eq/=; done.
Qed.

Lemma received_header_ok r h b r' :
  InputNoteRecord_block_header_received r h = Ok (b, r') → record_ok r → record_ok r'.
Proof.
  intros Hr [Ha Hi]. split; [by eapply (auth_inv_step r); [|exists (EvBlockHeader h), b]|].
  destruct Hi as [Hwf Hc]. revert Hr Hwf Hc. unfold insertable.
  destruct r as [details created [[]|[]|[]|[]|[]|[]|[]|[]|[]]]; unfold_event; simpl in *; unfold_event; simpl in *;
    repeat (case_match; simpl in *); intros; simplify_eq/=; done.
Qed.

Lemma good_insert_tag h t : ensures h (insert_note_tag t) (λ _, True).
Proof.
  eapply ensures_bind; [|intros _ _].
  - apply ensures_kept. apply kept_bind; [apply kept_limits|intros l].
    apply kept_bind; [apply kept_on_store; intros ????; apply tags_same|intros tags].
    destruct (_ <=? _); [apply preserves_fail, _|apply preserves_ret, _].
  - intros c c' r (d & Hd & Ha & Hh). unfold on_store.
    destruct (sc_add_note_tag d (cl_store c) t Hd) as (s' & -> & Hs'). intros [= <- <-].
    split; [|done]. by exists (with_tag t d).
Qed.

Lemma good_remove_tag h t : ensures h (on_store (remove_note_tag t)) (λ _, True).
Proof.
  intros c c' r (d & Hd & Ha & Hh). unfold on_store.
  destruct (sc_remove_note_tag d (cl_store c) t Hd) as (s' & -> & Hs'). intros [= <- <-].
  split; [|done]. by exists (without_tag t d).
Qed.

Lemma store_imported_good h ids note :
  record_ok note → ensures h (store_imported ids note) (λ _, True).
Proof.
  intros [Ha Hi]. unfold store_imported. eapply ensures_bind; [|intros _ _].
  { assert (∀ t, ensures h (insert_note_tag t;; mret ()) (λ _, True)) as Ht.
    { intros t. eapply ensures_bind; [apply good_insert_tag|intros _ _]. by apply ensures_ret. }
    destruct (in_state note) as [[meta after [t|]]| | | | | | | |]; try apply Ht; by apply ensures_ret. }
  eapply (ensures_bind _ _ _ (λ _, True)); [|intros _ _; by apply ensures_ret].
  intros c c' r (d & Hd & Hauth & Hh). unfold on_store.
  destruct (sc_upsert_input_note d (cl_store c) note Hd Hi) as (s' & -> & Hs'). intros [= <- <-].
  split; [|done]. exists (with_note note d). split_and!; [done| |done].
  intros id r. cbn. unfold insert_note. rewrite lookup_insert. case_decide as Hid; [|apply Hauth].
  by intros [= <-].
Qed.

Lemma block_reads n : preserves data_kept (on_store (get_block_header_by_num (St:=St) n)).
Proof. apply kept_reads, block_header_by_num_reads. Qed.

Lemma authenticated_block_kept n mmr : preserves data_kept (get_and_store_authenticated_block (St:=St) n mmr).
Proof.
  unfold get_and_store_authenticated_block. destruct (mmr_is_tracked mmr n).
  - apply kept_bind; [apply block_reads|intros stored].
    apply kept_bind; [apply kept_expect|intros header]. apply preserves_ret, _.
  - apply kept_bind.
    + unfold fetch_block_header. apply kept_bind; [apply kept_try|intros [header proof]].
      apply kept_bind; [apply kept_expect|intros nodes]. cbv zeta.
      destruct (mmr_track _ _ _ _) as [m [|e]]; [apply preserves_ret, _|apply preserves_fail, _].
    + intros [m [header nodes]]. cbv zeta.
      apply kept_bind; [apply kept_on_store; intros ????; apply sc_insert_block_header|intros _].
      apply kept_bind; [apply kept_on_store; intros ????; apply sc_insert_nodes|intros _].
      apply preserves_ret, _.
Qed.

(** What is asked about a note whose details were sent. *)
Definition details_ok (request : DetailsRequest) : Prop :=
  let '(previous_note, _, after_block_num, _) := request in
  in_range U32_MAX after_block_num ∧ ∀ r, previous_note = Some r → record_ok r.

(** The clock of the store, in seconds, fits its column. *)
Definition clock_fits : Prop := 0 ≤ default 0 now ≤ I64_MAX.

Lemma expected_record_ok details after_block_num tag :
  clock_fits → in_range U32_MAX after_block_num →
  record_ok (new_record_of_details now details after_block_num tag).
Proof. intros Hnow Hr. by split. Qed.

Definition records_ok (l : list (option InputNoteRecord)) : Prop := ∀ r, Some r ∈ l → record_ok r.

Lemma records_ok_snoc l o : records_ok l → (∀ r, o = Some r → record_ok r) → records_ok (l ++ [o]).
Proof.
  intros Hl Ho r. rewrite elem_of_app, list_elem_of_singleton. intros [Hr| <-]; [by apply Hl|by apply Ho].
Qed.

Lemma import_by_details_step_good h acc request :
  clock_fits → details_ok request → records_ok acc.2 →
  ensures h (import_by_details_step (St:=St) now acc request) (λ acc', records_ok acc'.2).
Proof.
  intros Hnow. destruct acc as [committed records], request as [[[previous details] after] tag].
  intros [Hafter Hprev] Hrecords. unfold import_by_details_step. cbv zeta.
  set (record := default _ previous).
  assert (record_ok record) as Hrec.
  { unfold record. destruct previous as [r|]; [by apply Hprev|by apply expected_record_ok]. }
  destruct (committed !! _) as [[meta proof]|].
  2:{ apply ensures_ret. apply records_ok_snoc; [done|]. by intros r [= <-]. }
  eapply ensures_bind; [apply ensures_kept, kept_reads, current_partial_mmr_reads|intros mmr _].
  eapply ensures_bind; [apply ensures_kept, authenticated_block_kept|intros [m header] _].
  eapply (ensures_bind _ _ _ (λ a, record_ok a.2)).
  { apply ensures_try. intros [b r'] Hr. apply map_err_Ok in Hr. by eapply received_proof_ok. }
  intros [changed record'] Hrec'. eapply (ensures_bind _ _ _ (λ a, record_ok a.2)).
  { apply ensures_try. intros [b r'] Hr. apply map_err_Ok in Hr. by eapply received_header_ok. }
  intros [changed' record2] Hrec2. destruct (_ || _).
  - eapply ensures_bind; [apply good_remove_tag|intros _ _].
    apply ensures_ret, records_ok_snoc; [done|]. by intros r [= <-].
  - apply ensures_ret, records_ok_snoc; done.
Qed.

Lemma import_by_details_good h requests :
  clock_fits → (∀ request, request ∈ requests → details_ok request) →
  ensures h (import_note_records_by_details (St:=St) now fuel requests) records_ok.
Proof.
  intros Hnow Hreq. unfold import_note_records_by_details. cbv zeta.
  eapply ensures_bind; [apply ensures_kept|intros committed _].
  { unfold check_expected_notes. apply kept_bind; [apply sync_height_kept|intros height].
    destruct (_ <? _); [apply preserves_ret, _|].
    apply kept_bind; [apply kept_eff|intros synced]. generalize (∅ : gmap NoteId (NoteMetadata * NoteInclusionProof)).
    induction (expected_in_blocks _ _ _) as [|n l IH]; intros m; [apply preserves_ret, _|].
    cbn [client_fold]. apply kept_bind; [|intros m'; apply IH].
    apply kept_bind; [apply kept_expect|intros meta]. apply preserves_ret, _. }
  eapply (ensures_bind _ _ _ (λ acc, records_ok acc.2)).
  - apply ensures_fold; [|by intros r ?%not_elem_of_nil].
    intros acc request Hin Hacc. apply import_by_details_step_good; auto.
  - intros result Hr. by apply ensures_ret.
Qed.

(** A file as the transport network gives it. *)
Definition details_file (file : NoteFile) : Prop :=
  ∃ details after_block_num tag, file = NoteFile_NoteDetails details after_block_num tag ∧
    in_range U32_MAX after_block_num.

Lemma classify_details (previous : gmap NoteId InputNoteRecord) files requests :
  (∀ id r, previous !! id = Some r → record_ok r) → (∀ entry, entry ∈ files → details_file entry.2) →
  try_fold (classify_step previous) files
    {| ir_by_id := ∅; ir_by_details := []; ir_by_proof := [] |} = Ok requests →
  ir_by_id requests = ∅ ∧ ir_by_proof requests = [] ∧
  ∀ request, request ∈ ir_by_details requests → details_ok request.
Proof.
  intros Hprev. set (start := {| ir_by_id := ∅ |}).
  assert (ir_by_id start = ∅ ∧ ir_by_proof start = [] ∧
    ∀ request, request ∈ ir_by_details start → details_ok request) as Hstart.
  { split_and!; [done..|]. by intros request ?%not_elem_of_nil. }
  revert Hstart. generalize start. clear start.
  induction files as [|[id file] files IH]; intros acc Hacc Hfiles; [by intros [= <-]|].
  cbn [try_fold]. intros (acc' & Hstep & Hrun)%bind_Ok.
  eapply IH; [|intros entry Hin; apply Hfiles; by right|exact Hrun]. clear IH Hrun.
  destruct (Hfiles (id, file) ltac:(left)) as (details & after & tag & Hfile & Hafter). cbn in Hfile. subst file.
  unfold classify_step in Hstep. destruct (default _ _); [done|]. injection Hstep as <-. cbn.
  destruct Hacc as (Hid & Hproof & Hdetails). split_and!; [done..|].
  intros request [Hr|Hr]%elem_of_app; [by apply Hdetails|]. apply list_elem_of_singleton in Hr as ->.
  split; [done|]. intros r Hr. by eapply Hprev.
Qed.

Lemma import_details_good h files :
  clock_fits → (∀ file, file ∈ files → details_file file) →
  ensures h (import_notes (St:=St) now fuel files) (λ _, True).
Proof.
  intros Hnow Hfiles. unfold import_notes. cbv zeta. set (m := btree_collect _).
  eapply (ensures_bind _ _ _ (λ notes, ∀ r, r ∈ notes → record_ok r)).
  { intros c c' r (d & Hd & Ha & Hh). unfold on_store.
    destruct (sc_input_notes d (cl_store c) (NoteFilter_List (fst <$> btree_to_list m)) Hd) as (notes & -> & Hp).
    intros [= <- <-]. split; [by exists d|]. intros notes' [= <-] r. rewrite Hp. unfold selected_notes.
    intros ([id r'] & -> & [_ Hr]%list_elem_of_filter)%list_elem_of_fmap. apply elem_of_map_to_list in Hr.
    split; [by eapply Ha|by eapply holds_notes]. }
  intros previous Hprevious. eapply (ensures_bind _ _ _ (λ requests,
    ir_by_id requests = ∅ ∧ ir_by_proof requests = [] ∧
    ∀ request, request ∈ ir_by_details requests → details_ok request)).
  { apply ensures_try. intros requests Hrun. eapply classify_details; [| |exact Hrun].
    - intros id r Hr%lookup_btree_collect_Some. apply list_elem_of_fmap in Hr as (r' & [= _ ->] & Hr).
      by apply Hprevious.
    - intros [id file] Hin. apply elem_of_btree_to_list in Hin. apply lookup_btree_collect_Some in Hin.
      apply list_elem_of_fmap in Hin as (file' & [= _ ->] & Hin). by apply Hfiles. }
  intros requests (Hid & Hproof & Hdetails). rewrite Hid, Hproof.
  rewrite !bool_decide_eq_true_2 by done.
  eapply (ensures_bind _ _ _ (λ l, l = [])); [by apply ensures_ret|intros ? ->].
  eapply (ensures_bind _ _ _ records_ok).
  { case_bool_decide; [apply ensures_ret; by intros r ?%not_elem_of_nil|by apply import_by_details_good]. }
  intros records Hrecords. eapply (ensures_bind _ _ _ (λ l, l = [])); [by apply ensures_ret|intros ? ->].
  apply ensures_fold; [|done]. intros ids note Hin _. apply store_imported_good, Hrecords.
  apply list_elem_of_omap in Hin as ([r|] & Hin & [= ->]). by rewrite app_nil_r in Hin.
Qed.

Lemma fetch_transport_good h enabled cursor tags :
  clock_fits → in_range U32_MAX h →
  ensures h (fetch_transport_notes (St:=St) now fuel enabled cursor tags) (λ _, True).
Proof.
  intros Hnow Hh. unfold fetch_transport_notes.
  eapply ensures_bind; [apply ensures_kept|intros _ _].
  { unfold get_note_transport_api. destruct enabled; [apply preserves_ret, _|apply preserves_fail, _]. }
  eapply ensures_bind; [apply ensures_kept, kept_same; by intros c c' r [= <- _]|intros [infos rcursor] _].
  eapply ensures_bind; [apply ensures_kept, kept_same; by intros c c' r [= <- _]|intros notes _].
  eapply (ensures_bind _ _ _ (λ n, n = h)).
  { intros c c' r (d & Hd & Ha & <-). unfold on_store. rewrite (sc_sync_height d) by done.
    intros [= <- <-]. split; [by exists d|]. by intros n [= <-]. }
  intros ? ->. cbv zeta. eapply ensures_bind; [apply import_details_good; [done|]|intros _ _].
  { intros file (note & -> & _)%list_elem_of_fmap. eexists _, _, _. split; [done|].
    unfold in_range, saturating_sub, NOTE_LOOKBACK_BLOCKS in *. lia. }
  apply ensures_kept, kept_on_store. intros d s s' r. apply sc_set_setting.
Qed.

Lemma transport_cursor_kept : preserves data_kept (on_store (St:=St) get_note_transport_cursor).
Proof.
  apply kept_on_store. intros d s s' r Hd. unfold get_note_transport_cursor.
  intros Hrun. unfold mbind at 1, dbm_bind at 1 in Hrun.
  destruct (get_setting _ s) as [[s1 [stored|e]]| |] eqn:Eg; [| |done..];
    apply sc_get_setting in Eg as ->; [|by injection Hrun as <- _].
  assert (∀ b s2 s3 r, holds d s2 → (if bool_decide (length b = 8%nat) then mret (from_be_bytes b)
    else db_fail (Store_ParsingError "could not convert slice to array") : dbm StoreError St u64) s2 =
    Finished (s3, r) → holds d s3) as Hlast.
  { intros b s2 s3 r' Hs2. case_bool_decide; injection 1 as Hs3 _; by rewrite <-Hs3. }
  destruct stored as [b|]; [by apply (Hlast b s s' r Hd)|]. cbv zeta in Hrun.
  unfold mbind, dbm_bind in Hrun. destruct (set_setting _ _ s) as [[s2 [u|e]]| |] eqn:Es; [| |done..];
    apply (sc_set_setting d) in Es; [by eapply (Hlast (to_be_bytes 0) s2)|done|by injection Hrun as <- _|done].
Qed.

(** Every authenticated note carries the proof of its commitment. *)
Definition proven_notes (d : ClientData) : Prop :=
  ∀ id r, cd_notes d !! id = Some r → InputNoteRecord_is_authenticated r = true →
  ∃ root, authenticated_root (in_state r) = Some root ∧ proof_shows r root.

Lemma authentic_proven d : notes_authentic d → proven_notes d.
Proof. intros Ha id r Hr. by eapply auth_inv_authenticated, Ha. Qed.

Lemma synced_data_authentic d s input mmr mmr' u :
  (∀ s, @inserts_given_note _ (note_screener s)) → notes_authentic d → input_of d input →
  @sync_state _ _ Node (note_screener s) fuel (StateSync_new (cc_tx_discard_delta config)) input mmr =
    (mmr', Finished (Ok u)) →
  notes_authentic (synced_data d u).
Proof.
  intros Hcb Hauth Hin Hsync. refine (changed_records_authentic _ _ Hauth _).
  refine (@sync_auth_inv _ _ _ (note_screener s) _ _ _ _ _ _ _ (Hcb s) Hsync).
  rewrite (io_input _ _ Hin). apply Forall_forall. intros r'.
  unfold selected_notes. rewrite list_elem_of_fmap. intros ([id' r0] & -> & [_ Hm]%list_elem_of_filter).
  apply elem_of_map_to_list in Hm. by destruct (Hauth _ _ Hm).
Qed.

(** A run of a sequence reaches its second part, or has failed. *)
Lemma ensures_split {A B} h (m : client_m St A) (f : A → client_m St B) Q c c' r :
  ensures h m Q → holds_authentic h c → (m ≫= f) c = Finished (c', r) →
  (∃ c1 a, holds_authentic h c1 ∧ f a c1 = Finished (c', r)) ∨
  ∃ e, r = Err e ∧ holds_authentic h c'.
Proof.
  intros Hm Hc. unfold mbind, dbm_bind.
  destruct (m c) as [[c1 [a|e]]| |] eqn:E; [| |done..]; destruct (Hm _ _ _ Hc E) as [Hc1 _].
  - left. by exists c1, a.
  - intros [= <- <-]. right. by exists e.
Qed.

(** Before the node is asked, the notes of the transport network are stored. *)
Lemma client_sync_split h c c' r :
  cc_note_transport_enabled config = true → in_range U32_MAX h → clock_fits → holds_authentic h c →
  client_sync_state note_screener now fuel config c = Finished (c', r) →
  (∃ c1, holds_authentic h c1 ∧ sync_with_node c1 = Finished (c', r)) ∨
  ∃ e, r = Err e ∧ holds_authentic h c'.
Proof.
  intros Ht Hh Hnow Hc. unfold client_sync_state. rewrite Ht. intros Hrun.
  apply (ensures_split h _ _ (λ _, True)) in Hrun as [(c1 & _ & Hc1 & Hrun)|]; [|by right|by apply ensures_kept, genesis_kept|done].
  apply (ensures_split h _ _ (λ _, True)) in Hrun as [(c2 & _ & Hc2 & Hrun)|]; [|by right|by apply ensures_kept, limits_kept|done].
  apply (ensures_split h _ _ (λ _, True)) in Hrun as [(c3 & _ & Hc3 & Hrun)|]; [|by right| |done].
  - left. by exists c3.
  - eapply ensures_bind; [apply ensures_kept, transport_cursor_kept|intros cursor _].
    eapply ensures_bind; [apply ensures_kept, kept_on_store; intros ????; apply tags_same|intros tags _].
    by apply fetch_transport_good.
Qed.

End sync.

(** ** The screener *)

(** The screener inserts only the public note it is shown. *)
Lemma screener_inserts_given_note `{StoreLib} `{!ScreenerStore} `{!NoteChecker} :
  @inserts_given_note _ NoteScreener.
Proof.
  intros cn pn r. unfold on_note_received, NoteScreener. intros Hrun.
  apply bind_Ok in Hrun as (ins & _ & Hrun). apply bind_Ok in Hrun as (outs & _ & Hrun).
  destruct (_ || _); [done|]. destruct pn as [pn|]; [|done].
  assert (∀ screened : result ClientError NoteUpdateAction,
    (note ← note_error (InputNoteRecord_try_into_note pn); rel ← can_consume note;
     Ok (if bool_decide (rel = []) then Action_Discard else Action_Insert pn)) = screened →
    screened = Ok (Action_Insert r) → Some pn = Some r) as Hscreened.
  { intros screened <- Hs. apply bind_Ok in Hs as (note & _ & Hs). apply bind_Ok in Hs as (rel & _ & Hs).
    destruct (bool_decide _) in Hs; [done|]. by injection Hs as ->. }
  destruct (InputNoteRecord_metadata pn); [|by eapply Hscreened].
  apply bind_Ok in Hrun as (tags & _ & Hrun). destruct (bool_decide _) in Hrun; [by injection Hrun as ->|].
  by eapply Hscreened.
Qed.

(** ** Witnesses *)

(** A client at block 3 that expects a note, and whose node is at block 6. *)
#[export] Instance toy_limits : @NodeLimits toy_protocol := Err (Rpc_InvalidResponse "no limits").

#[export] Instance toy_paths : @MerklePathLib toy_protocol _ := {|
  MmrProof_merkle_path := λ p, p;
  MerklePath_nodes := λ _, [];
  MerklePath_new := λ _, 0;
  InOrderIndex_from_leaf_pos := λ n, 2 * n;
  InOrderIndex_sibling := λ i, i;
  InOrderIndex_parent := λ i, i;
  Forest_leaf_to_corresponding_tree := λ _ _, None
|}.

#[export] Instance toy_transport : @NoteTransportClient toy_protocol := {|
  transport_fetch_notes := λ _ cursor, Ok ([], cursor);
  transport_send_note := λ _ _, Ok ()
|}.

Definition toy_tip : StoredBlock := {|
  sb_header := ((3, 8) : @BlockHeader toy_protocol); sb_peaks := [3 : @Word toy_protocol];
  sb_relevant := false |}.

Definition toy_client : ClientState StoreState := {|
  cl_store := {|
    st_db := set_state_sync [3] (set_block_headers (block_row <$> {[ 3 := toy_tip ]}) toy_note_tables);
    st_forest := AccountSmtForest_new |};
  cl_genesis_commitment := None;
  cl_rpc_limits := Some RpcLimits_default |}.

Definition toy_client_data : ClientData := {|
  cd_height := 3;
  cd_notes := {[ toy_noteid 3 5 := toy_input_record toy_expected ]};
  cd_outputs := ∅;
  cd_txs := ∅;
  cd_tags := []
|}.

Definition toy_config : ClientConfig :=
  {| cc_tx_discard_delta := Some 15; cc_note_transport_enabled := false |}.

Definition toy_client_sync (node : NodeRpcClient) : eff client_error SyncSummary :=
  match client_sync_state (Node:=node) (St:=StoreState) (λ _, toy_screener) None 10 toy_config toy_client with
  | Finished (_, r) => Finished r
  | Panicked => Panicked
  | OutOfFuel => OutOfFuel
  end.

Lemma toy_client_synced : ∃ c' summary,
  client_sync_state (Node:=toy_good) (St:=StoreState) (λ _, toy_screener) None 10 toy_config toy_client =
    Finished (c', Ok summary) ∧
  ss_block_num summary = 6 ∧ ss_consumed_notes summary = [toy_noteid 3 5].
Proof.
  assert (match toy_client_sync toy_good with
    | Finished (Ok summary) => bool_decide (ss_block_num summary = 6) &&
        bool_decide (ss_consumed_notes summary = [toy_noteid 3 5])
    | _ => false end = true) as Hrun by by vm_compute.
  unfold toy_client_sync in Hrun. destruct (client_sync_state _ _ _ _ _) as [[c' [summary|e]]| |]; [|done..].
  apply andb_true_iff in Hrun as [H1%bool_decide_eq_true H2%bool_decide_eq_true]. eauto.
Qed.

Lemma toy_client_holds : holds (StoreContract:=sqlite_contract) toy_client_data (cl_store toy_client).
Proof.
  split; cbn.
  - reflexivity.
  - by eapply notes_stored_ext; [apply toy_notes_stored|..].
  - split; [apply represents_empty|done..].
  - by split.
  - done.
Qed.

Lemma client_sync_refines_witness : ∃ c' summary,
  ss_block_num summary = 6 ∧ ss_consumed_notes summary = [toy_noteid 3 5] ∧
  ∃ s input mmr mmr' u,
    holds (StoreContract:=sqlite_contract) toy_client_data s ∧ input_of toy_client_data input ∧
    @sync_state _ _ toy_good toy_screener 10 (StateSync_new (Some 15)) input mmr =
      (mmr', Finished (Ok u)) ∧
    summary = SyncSummary_from_update u ∧
    (update_fits toy_client_data u →
      holds (StoreContract:=sqlite_contract) (synced_data toy_client_data u) (cl_store c')).
Proof.
  destruct toy_client_synced as (c' & summary & Hrun & Hnum & Hnotes).
  exists c', summary. split; [done|]. split; [done|].
  exact (client_sync_refines (Node:=toy_good) (λ _, toy_screener) None 10 toy_config
    toy_client_data toy_client c' (Ok summary) eq_refl toy_client_holds Hrun).
Defined.

Lemma toy_data_authentic : notes_authentic toy_client_data.
Proof.
  intros id r Hr. cbn in Hr. apply lookup_singleton_Some in Hr as [<- <-]. split; [done|]. by intros root.
Qed.

Lemma toy_screener_given : @inserts_given_note _ toy_screener.
Proof. intros cn [pn|] r [= ->]. reflexivity. Qed.

(** The transport network delivers a note that the client does not know. *)
#[local] Instance toy_delivery : @NoteTransportClient toy_protocol :=
  let note : Note := ((6, []), (1, true, 7), 3) in {|
  transport_fetch_notes := λ _ cursor, Ok ([{| ni_header := (Note_id note, Note_metadata note);
    ni_details_bytes := write_into NoteDetails_codec (Note_into_details note) |}], cursor + 1);
  transport_send_note := λ _ _, Ok ()
|}.

Definition toy_delivery_config : ClientConfig :=
  {| cc_tx_discard_delta := Some 15; cc_note_transport_enabled := true |}.

(** It is stored, and the expected note is consumed. *)
Lemma toy_delivery_synced : ∃ c' summary,
  client_sync_state (Node:=toy_good) (St:=StoreState) (λ _, toy_screener) None 10 toy_delivery_config toy_client =
    Finished (c', Ok summary) ∧
  ss_consumed_notes summary = [toy_noteid 3 5] ∧
  is_Some (input_notes (st_db (cl_store c')) !! note_key (toy_noteid 3 6)).
Proof.
  assert (match client_sync_state (Node:=toy_good) (St:=StoreState) (λ _, toy_screener) None 10
      toy_delivery_config toy_client with
    | Finished (c', Ok summary) => bool_decide (ss_consumed_notes summary = [toy_noteid 3 5]) &&
        bool_decide (is_Some (input_notes (st_db (cl_store c')) !! note_key (toy_noteid 3 6)))
    | _ => false end = true) as Hrun by by vm_compute.
  destruct (client_sync_state _ _ _ _ _) as [[c' [summary|e]]| |]; [|done..].
  apply andb_true_iff in Hrun as [H1%bool_decide_eq_true H2%bool_decide_eq_true]. eauto.
Qed.

