(* ===== verification/ClientAccounts.v ===== *)
(** * The accounts of the client

    [account/mod.rs] and [account/account_reader.rs]: accounts are added, imported from
    the network, given addresses and read.  The methods of a store that only these and
    transactions use are a second interface ([AccountOps]), of which the SQLite store
    is an instance ([sqlite_account_ops]). *)

From S2P Require Import Prelude Protocol Serde Model NoteStates InputNote OutputNote TxRecord.
From S2P Require Import TxTracker NodeErrors Errors NoteTracker Rpc Grpc SyncUpdate AccountTypes SmtForest Sql.
From S2P Require Import Versioned Db AccountDb Store ChainDb AccountReaders NoteDb TxDb SqliteStore Client.
From Stdlib Require Import ZArith Lia.
From stdpp Require Import base gmap list strings.

Open Scope Z_scope.

(** Accounts and addresses of the protocol crate, as far as these calls read them. *)
Class AddressLib `{AccountLib} := {
  Account_is_new : Account → bool;
  Account_to_commitment : Account → Word;
  AssetVaultKey_new_fungible : AccountId → option AssetVaultKey;
  Address_eq_dec :: EqDecision Address;
  Address_new : AccountId → Address;
  NetworkId : Type;
  Address_encode : Address → NetworkId → string
}.

(** The network of the node. *)
Class NodeNetwork `{AddressLib} := rpc_get_network_id : result RpcError NetworkId.

(** ** The interface of the store *)

Class AccountOps `{StoreLib} `{!SmtForestLib} `{!ExecutedLib} (S : Type) := {
  store_get_account_ids : dbm StoreError S (list AccountId);
  store_get_account_header : AccountId → dbm StoreError S (option (AccountHeader * AccountStatus));
  store_get_account : AccountId → dbm StoreError S (option AccountRecord);
  store_get_account_code : AccountId → dbm StoreError S (option AccountCode);
  store_get_account_asset :
    AccountId → AssetVaultKey → dbm StoreError S (option (Asset * AssetWitness));
  store_get_account_map_item :
    AccountId → StorageSlotName → StorageMapKey → dbm StoreError S (Word * StorageMapWitness);
  store_insert_account : Account → Address → dbm StoreError S ();
  store_update_account : Account → dbm StoreError S ();
  store_get_addresses : AccountId → dbm StoreError S (list Address);
  store_add_address : Address → AccountId → dbm StoreError S ();
  store_remove_address : Address → AccountId → dbm StoreError S ();
  store_prune_account_history : AccountId → u64 → dbm StoreError S Z;
  store_get_foreign_account_code : list AccountId → dbm StoreError S (gmap AccountId AccountCode);
  store_upsert_foreign_account_code : AccountId → AccountCode → dbm StoreError S ();
  store_upsert_note_scripts : list NoteScript → dbm StoreError S ();
  (* With the time of the clock. *)
  store_apply_transaction : u64 → TransactionStoreUpdate → dbm StoreError S ()
}.

#[export] Instance sqlite_account_ops `{StoreLib} `{!SmtForestLib} `{!ExecutedLib} `{!PartialAccountLib} :
    AccountOps StoreState := {|
  store_get_account_ids := db_read_panics (λ s, get_account_ids (st_db s));
  store_get_account_header := λ id, db_read_panics (λ s, get_account_header (st_db s) id);
  store_get_account := λ id, db_read_panics (λ s, get_account (st_db s) id);
  store_get_account_code := λ id, db_read_panics (λ s, get_account_code_by_id (st_db s) id);
  store_get_account_asset := λ id vault_key, db_read_panics (λ s, get_account_asset s id vault_key);
  store_get_account_map_item := λ id slot_name key,
    db_read_panics (λ s, get_account_map_item s id slot_name key);
  store_insert_account := insert_account;
  store_update_account := update_account;
  store_get_addresses := λ id, db_read (λ s, query_account_addresses (st_db s) id);
  store_add_address := store_insert_address;
  store_remove_address := remove_address;
  store_prune_account_history := prune_account_history;
  store_get_foreign_account_code := λ ids, db_read (λ s, get_foreign_account_code (st_db s) ids);
  store_upsert_foreign_account_code := upsert_foreign_account_code;
  store_upsert_note_scripts := λ scripts, on_tables (sqlite_upsert_note_scripts scripts);
  store_apply_transaction := sqlite_apply_transaction
|}.

Section accounts.
Context `{StoreLib} {Node : NodeRpcClient} `{!NodeLimits} `{Forest : !SmtForestLib} `{!ExecutedLib}.
Context `{!AddressLib} `{!NodeNetwork} {St : Type} `{!StoreOps St} `{!AccountOps St}.

(** *** Default methods of the store *)

Definition get_account_storage_item (account_id : AccountId) (slot_name : StorageSlotName) :
    dbm StoreError St Word :=
  storage ← get_account_storage account_id (StorageFilter_SlotName slot_name);
  match head (filter (λ slot : StorageSlotName * (Word + StorageMap), slot.1 = slot_name)
      (AccountStorage_slots storage)) with
  | Some slot => mret (StorageSlot_value slot.2)
  | None => db_fail (Store_AccountError "storage slot name not found")
  end.

(** ** Accounts *)

(** [check_account_limit] of [lib.rs]. *)
Definition check_account_limit : client_m St () :=
  limits ← client_get_rpc_limits;
  account_ids ← on_store store_get_account_ids;
  if account_ids_limit limits <=? Z.of_nat (length account_ids)
  then client_fail (Client_AccountsLimitExceeded (account_ids_limit limits))
  else mret ().

(** The commitment of an account at the node. *)
Definition network_commitment (account_id : AccountId) : client_m St Word :=
  fetched ← client_rpc (rpc_get_account_details account_id);
  mret (FetchedAccount_commitment fetched).

Definition add_account (account : Account) (overwrite : bool) : client_m St () :=
  (if Account_is_new account && bool_decide (Account_seed account = None)
   then client_fail Client_AddNewAccountWithoutSeed else mret ());;
  tracked_account ← on_store (store_get_account (Account_id account));
  match tracked_account with
  | None =>
      check_account_limit;;
      check_note_tag_limit;;
      let default_address := Address_new (Account_id account) in
      let default_address_note_tag := Address_to_note_tag default_address in
      let note_tag_record := with_account_source default_address_note_tag (Account_id account) in
      on_store (add_note_tag note_tag_record);;
      on_store (store_insert_account account default_address)
  | Some tracked_account =>
      if negb overwrite then client_fail (Client_AccountAlreadyTracked (Account_id account))
      else if Account_nonce account <? AccountRecord_nonce tracked_account
      then client_fail Client_AccountNonceTooLow
      else
        (if AccountRecord_is_locked tracked_account then
           network_account_commitment ← network_commitment (Account_id account);
           if bool_decide (network_account_commitment ≠ Account_to_commitment account)
           then client_fail (Client_AccountCommitmentMismatch network_account_commitment)
           else mret ()
         else mret ());;
        on_store (store_update_account account)
  end.

(** The error of the node when it does not know an account. *)
Definition is_account_not_found (err : RpcError) : bool :=
  match RpcError_endpoint_error err with
  | Some (EndpointError_GetAccount GetAccount_AccountNotFound) => true
  | _ => false
  end.

Definition import_account_by_id (account_id : AccountId) : client_m St () :=
  fetched_account ← client_try (map_err
    (λ err, if is_account_not_found err then Client_AccountNotFoundOnChain account_id
            else Client_RpcError err) (rpc_get_account_details account_id));
  match fetched_account with
  | FetchedAccount_Private _ _ => client_fail (Client_AccountIsPrivate account_id)
  | FetchedAccount_Public account _ => add_account account true
  end.

(** ** Addresses *)

Definition add_address (address : Address) (account_id : AccountId) : client_m St () :=
  network_id ← client_rpc rpc_get_network_id;
  let address_bench32 := Address_encode address network_id in
  addresses ← on_store (store_get_addresses account_id);
  if bool_decide (address ∈ addresses) then client_fail (Client_AddressAlreadyTracked address_bench32)
  else
    tracked_account ← on_store (store_get_account account_id);
    match tracked_account with
    | None => client_fail (Client_AccountDataNotFound account_id)
    | Some _ =>
        let derived_note_tag := Address_to_note_tag address in
        let note_tag_record := with_account_source derived_note_tag account_id in
        note_tags ← on_store get_note_tags;
        if bool_decide (note_tag_record ∈ note_tags)
        then client_fail (Client_NoteTagDerivedAddressAlreadyTracked address_bench32 derived_note_tag)
        else
          check_note_tag_limit;;
          on_store (store_add_address address account_id)
    end.

Definition client_remove_address (address : Address) (account_id : AccountId) : client_m St () :=
  on_store (store_remove_address address account_id).

(** ** Reading accounts *)

Definition client_get_account (account_id : AccountId) : client_m St (option Account) :=
  record ← on_store (store_get_account account_id);
  match record with
  | Some record => account ← client_try (Account_try_from record); mret (Some account)
  | None => mret None
  end.

Definition try_get_account (account_id : AccountId) : client_m St Account :=
  account ← client_get_account account_id;
  client_try (ok_or account (Client_AccountDataNotFound account_id)).

Definition client_get_account_vault (account_id : AccountId) : client_m St AssetVault :=
  on_store (get_account_vault account_id).
Definition client_get_account_storage (account_id : AccountId) : client_m St AccountStorage :=
  on_store (get_account_storage account_id StorageFilter_All).
Definition client_get_account_code (account_id : AccountId) : client_m St (option AccountCode) :=
  on_store (store_get_account_code account_id).
Definition client_get_account_headers : client_m St (list (AccountHeader * AccountStatus)) :=
  on_store get_account_headers.
Definition client_prune_account_history (account_id : AccountId) (up_to_nonce : u64) : client_m St Z :=
  on_store (store_prune_account_history account_id up_to_nonce).

(** *** [AccountReader] *)

Definition reader_header (account_id : AccountId) : client_m St (AccountHeader * AccountStatus) :=
  found ← on_store (store_get_account_header account_id);
  client_try (ok_or found (Client_AccountDataNotFound account_id)).

Definition reader_nonce (account_id : AccountId) : client_m St u64 :=
  '(header, _) ← reader_header account_id; mret (AccountHeader_nonce header).
Definition reader_commitment (account_id : AccountId) : client_m St Word :=
  '(header, _) ← reader_header account_id; mret (AccountHeader_to_commitment header).
Definition reader_storage_commitment (account_id : AccountId) : client_m St Word :=
  '(header, _) ← reader_header account_id; mret (AccountHeader_storage_commitment header).
Definition reader_vault_root (account_id : AccountId) : client_m St Word :=
  '(header, _) ← reader_header account_id; mret (AccountHeader_vault_root header).
Definition reader_code_commitment (account_id : AccountId) : client_m St Word :=
  '(header, _) ← reader_header account_id; mret (AccountHeader_code_commitment header).
Definition reader_status (account_id : AccountId) : client_m St AccountStatus :=
  '(_, status) ← reader_header account_id; mret status.

Definition reader_addresses (account_id : AccountId) : client_m St (list Address) :=
  on_store (store_get_addresses account_id).

Definition reader_get_balance (account_id faucet_id : AccountId) : client_m St u64 :=
  match AssetVaultKey_new_fungible faucet_id with
  | Some vault_key =>
      asset ← on_store (store_get_account_asset account_id vault_key);
      match asset with
      | Some (Asset_Fungible fungible_asset, _) => mret (FungibleAsset_amount fungible_asset)
      | _ => mret 0
      end
  | None => mret 0
  end.

Definition reader_get_storage_item (account_id : AccountId) (slot_name : StorageSlotName) :
    client_m St Word :=
  on_store (get_account_storage_item account_id slot_name).
Definition reader_get_storage_map_witness (account_id : AccountId) (slot_name : StorageSlotName)
    (key : StorageMapKey) : client_m St (Word * StorageMapWitness) :=
  on_store (store_get_account_map_item account_id slot_name key).
Definition reader_get_storage_map_item (account_id : AccountId) (slot_name : StorageSlotName)
    (key : StorageMapKey) : client_m St Word :=
  '(value, _) ← on_store (store_get_account_map_item account_id slot_name key); mret value.
End accounts.
