(* ===== verification/ClientAccountSpec.v ===== *)
(** * Accounts are replaced with care

    The guards of [add_account] over the SQLite store: an account that the client
    tracks is overwritten only on request, never by an older state, and, when it is
    locked, only by the state that the network has. *)

From S2P Require Import Prelude Protocol Serde Model NoteStates InputNote OutputNote TxRecord.
From S2P Require Import TxTracker NodeErrors Errors NoteTracker Rpc Grpc SyncUpdate AccountTypes SmtForest Sql.
From S2P Require Import Versioned Db AccountDb AccountHistory AccountUndo AccountReplace Store ChainDb.
From S2P Require Import AccountReaders NoteDb TxDb SqliteStore SqliteSync ChainSpec StateSync Client ClientAccounts.
From Stdlib Require Import ZArith Lia.
From stdpp Require Import base gmap list strings.

Open Scope Z_scope.

(** What the constructors of accounts keep. *)
Class AddressLaws `{AddressLib} : Prop := {
  Account_new_nonce id vault storage code nonce seed :
    Account_nonce (Account_new_unchecked id vault storage code nonce seed) = nonce;
  Account_header_id a : AccountHeader_id (Account_to_header a) = Account_id a;
  Account_header_nonce a : AccountHeader_nonce (Account_to_header a) = Account_nonce a
}.

Section spec.
Context `{StoreLib} `{!AccountLaws} {Node : NodeRpcClient} `{!NodeLimits} `{Forest : !SmtForestLib}.
Context `{!ExecutedLib} `{!PartialAccountLib} `{!AddressLib} `{!NodeNetwork} `{!AddressLaws}.
Implicit Types (c : @ClientState _ (@StoreState _ _ Forest)) (s : @StoreState _ _ Forest).

(** The row of an account, with its code. *)
Record tracked (db : Db) (h : AccountHeader) (seed : option Word) (locked : bool) : Prop := {
  trk_row : latest_account_headers db !! AccountId_to_hex (AccountHeader_id h) =
    Some (header_row h (Word_to_bytes <$> seed) locked);
  trk_code : is_Some (account_code db !! Word_to_hex (AccountHeader_code_commitment h));
  trk_nonce : in_range U64_MAX (AccountHeader_nonce h)
}.

Lemma tracked_header_parses db h seed locked :
  tracked db h seed locked →
  ∃ st, get_account_header db (AccountHeader_id h) = Finished (Ok (Some (h, st))) ∧
    AccountStatus_is_locked st = locked.
Proof.
  intros [Hrow _ Hn]. unfold get_account_header. rewrite Hrow.
  unfold parse_accounts. cbn [header_row hr_account_seed hr_id hr_vault_root
    hr_storage_commitment hr_code_commitment hr_nonce hr_locked].
  rewrite !Word_display, !Word_hex_roundtrip, AccountId_hex_roundtrip, u64_value_roundtrip by done.
  destruct seed as [seed|], locked; eexists; cbn -[AccountHeader_new];
    rewrite ?Word_bytes_roundtrip; cbn -[AccountHeader_new]; by rewrite AccountHeader_new_eta.
Qed.

(** A tracked account is found, or one of its values does not parse. *)
Lemma get_tracked_account db h seed locked r :
  tracked db h seed locked → get_account db (AccountHeader_id h) = Finished r →
  (∃ e, r = Err e) ∨
  ∃ record, r = Ok (Some record) ∧ AccountRecord_nonce record = AccountHeader_nonce h ∧
    AccountRecord_is_locked record = locked.
Proof.
  intros Ht. destruct (tracked_header_parses _ _ _ _ Ht) as (st & Hh & Hst). unfold get_account.
  rewrite Hh. cbn.
  destruct (sqlite_get_account_vault _ _) as [vault|]; cbn; [|intros [= <-]; eauto].
  destruct (sqlite_get_account_storage _ _ _) as [storage|]; cbn; [|intros [= <-]; eauto].
  unfold query_account_code. destruct (trk_code _ _ _ _ Ht) as [code Hcode]. rewrite Hcode.
  destruct (AccountCode_from_bytes code) as [code'|]; cbn; intros [= <-]; [|eauto].
  right. eexists. split; [done|]. split; [apply Account_new_nonce|done].
Qed.

Lemma transaction_failed {A} (m : @store_m _ _ Forest A) s s' e :
  in_transaction m s = Finished (s', Err e) → st_db s' = st_db s.
Proof.
  unfold in_transaction, with_transaction. destruct (m s) as [[s1 [a|e1]]| |]; [done| |done..].
  by intros [= <- _].
Qed.

(** The row that a replacement leaves. *)
Lemma update_account_row a s s' r :
  update_account a s = Finished (s', r) →
  match r with
  | Ok _ => latest_account_headers (st_db s') !! AccountId_to_hex (Account_id a) =
      Some (header_row (Account_to_header a) None false)
  | Err _ => st_db s' = st_db s
  end.
Proof.
  unfold update_account. intros Hrun. destruct r as [[]|e].
  - apply dbm_bind_Ok in Hrun as (s1 & [] & _ & Hrun). unfold in_transaction, with_transaction in Hrun.
    destruct (update_account_state a s1) as [[s2 [[]|]]| |] eqn:Eu; [|done..]. injection Hrun as <-.
    unfold update_account_state in Eu.
    apply dbm_bind_Ok in Eu as (s3 & [] & _ & Eu). apply dbm_bind_Ok in Eu as (s4 & old & _ & Eu).
    apply dbm_bind_Ok in Eu as (s5 & [] & _ & Eu).
    unfold on_db, zoom, db_exec in Eu. destruct (insert_account_header _ _ _ _) as [db'|] eqn:Ei; [|done].
    injection Eu as <-. unfold insert_account_header in Ei.
    destruct (match fst <$> old with Some _ => _ | None => _ end) as [db1|] in Ei; [|done].
    cbn in Ei. unfold replace_latest_header in Ei. destruct (code_exists _ _); [|done].
    injection Ei as <-. cbn -[header_row]. rewrite <-Account_header_id. apply lookup_insert_eq.
  - unfold mbind at 1, dbm_bind at 1, db_read at 1 in Hrun.
    destruct (latest_account_headers _ !! _); [by eapply transaction_failed|].
    by injection Hrun as <- _.
Qed.

(** A client that asks the node before it overwrites a locked account. *)
Lemma network_guard_Ok account_id commitment c c' u :
  (network_commitment (St:=StoreState) account_id ≫= λ w,
    if bool_decide (w ≠ commitment)
    then client_fail (Client_AccountCommitmentMismatch w) else mret ()) c = Finished (c', Ok u) →
  c' = c ∧ ∃ fetched, rpc_get_account_details account_id = Ok fetched ∧
    FetchedAccount_commitment fetched = commitment.
Proof.
  unfold network_commitment. intros Hrun.
  apply dbm_bind_Ok in Hrun as (c1 & w & Hw & Hrun). apply dbm_bind_Ok in Hw as (c2 & fetched & Hf & Hw).
  unfold client_rpc, client_try in Hf. destruct (rpc_get_account_details account_id) as [f|]; [|done].
  injection Hf as <- <-. injection Hw as <- <-. case_bool_decide as Hne; [done|]. injection Hrun as <-.
  split; [done|]. exists f. split; [done|]. by destruct (decide (FetchedAccount_commitment f = commitment)).
Qed.

Lemma network_guard_same account_id commitment c c' r :
  (network_commitment (St:=StoreState) account_id ≫= λ w,
    if bool_decide (w ≠ commitment)
    then client_fail (Client_AccountCommitmentMismatch w) else mret ()) c = Finished (c', r) → c' = c.
Proof.
  unfold network_commitment, client_rpc, client_try, mbind, dbm_bind. cbn.
  destruct (rpc_get_account_details account_id) as [f|]; cbn; [|by intros [= <- _]].
  case_bool_decide; by intros [= <- _].
Qed.

(** An account that the client tracks is replaced with care.  When [add_account]
    succeeds on it, the caller asked to overwrite, the new state is not older than the
    stored one, a locked account gets a state of which the node has the commitment, and
    what is stored then is the new state, unlocked; when it fails, for whatever reason,
    the tables are as they were.  So the nonce of a tracked account never goes back. *)
Theorem tracked_account_overwrite h seed locked account overwrite c c' r :
  tracked (st_db (cl_store c)) h seed locked → AccountHeader_id h = Account_id account →
  add_account (St:=StoreState) account overwrite c = Finished (c', r) →
  match r with
  | Ok _ =>
      overwrite = true ∧ AccountHeader_nonce h ≤ Account_nonce account ∧
      (locked = true → ∃ fetched, rpc_get_account_details (Account_id account) = Ok fetched ∧
        FetchedAccount_commitment fetched = Account_to_commitment account) ∧
      latest_account_headers (st_db (cl_store c')) !! AccountId_to_hex (Account_id account) =
        Some (header_row (Account_to_header account) None false)
  | Err _ => st_db (cl_store c') = st_db (cl_store c)
  end.
Proof.
  intros Ht Hid. unfold add_account. unfold mbind at 1, dbm_bind at 1.
  destruct (_ && _) in |- *; [by intros [= <- <-]|]. cbn [mret dbm_ret].
  unfold mbind at 1, dbm_bind at 1, on_store at 1. cbn [store_get_account sqlite_account_ops].
  unfold db_read_panics. destruct (get_account _ _) as [r0| |] eqn:Eg; [|done..].
  rewrite <-Hid in Eg. destruct (get_tracked_account _ _ _ _ _ Ht Eg) as [[e ->]|(rec & -> & Hnonce & Hlock)].
  { by intros [= <- <-]. }
  assert (set_cl_store (cl_store c) c = c) as -> by by destruct c.
  cbn [map_err]. destruct overwrite; cbn [negb]; [|by intros [= <- <-]]. rewrite Hnonce, Hlock.
  destruct (Z.ltb_spec (Account_nonce account) (AccountHeader_nonce h)) as [|Hge]; [by intros [= <- <-]|].
  unfold mbind at 1, dbm_bind at 1. intros Hrun.
  match type of Hrun with context [match ?m c with _ => _ end] =>
    destruct (m c) as [[c1 [[]|e]]| |] eqn:Eguard; [| |done..] end.
  - assert (c1 = c ∧ (locked = true → ∃ fetched, rpc_get_account_details (Account_id account) = Ok fetched ∧
      FetchedAccount_commitment fetched = Account_to_commitment account)) as [-> Hlocked].
    { destruct locked; [by apply network_guard_Ok in Eguard as [-> Hf]|by injection Eguard as ->]. }
    unfold on_store in Hrun. cbn [store_update_account sqlite_account_ops] in Hrun.
    destruct (update_account account (cl_store c)) as [[s r1]| |] eqn:Eu; [|done..].
    injection Hrun as <- <-. apply update_account_row in Eu. by destruct r1 as [[]|].
  - injection Hrun as <- <-.
    destruct locked; [by apply network_guard_same in Eguard as ->|by injection Eguard as <-].
Qed.
End spec.

(** ** Concrete accounts *)

#[export] Instance toy_addresses : @AddressLib toy_protocol toy_account_lib := {|
  Account_is_new := λ a, Account_nonce (a : @Account toy_protocol) =? 0;
  Account_to_commitment := λ a, AccountHeader_to_commitment (Account_to_header (a : @Account toy_protocol));
  AssetVaultKey_new_fungible := λ f, Some (2 * f);
  Address_new := λ id, id;
  NetworkId := unit;
  Address_encode := λ a _, z_to_text a
|}.

#[export] Instance toy_address_laws : AddressLaws.
Proof. by split. Qed.

#[export] Instance toy_network : NodeNetwork := Ok ().
#[export] Instance toy_account_limits : @NodeLimits toy_protocol := Ok RpcLimits_default.

Definition toy_account_client (s : StoreState) : ClientState StoreState :=
  {| cl_store := s; cl_genesis_commitment := None; cl_rpc_limits := None |}.

(** Account 1 at nonce 4 is tracked; its state at nonce 5 comes in. *)
Definition toy_tracking : ClientState StoreState :=
  toy_account_client {| st_db :=
      set_account_code {[ z_to_text 0 := [0] ]}
        (set_latest_account_headers {[ toy_account_hex 1 := header_row (toy_header 610 4) None false ]} Db_new);
    st_forest := AccountSmtForest_new |}.

Definition toy_overwritten : eff client_error (option HeaderRow) :=
  match add_account (Node:=toy_good) (St:=StoreState) toy_newer true toy_tracking with
  | Finished (c, Ok _) => Finished (Ok (latest_account_headers (st_db (cl_store c)) !! toy_account_hex 1))
  | Finished (_, Err e) => Finished (Err e)
  | Panicked => Panicked
  | OutOfFuel => OutOfFuel
  end.

(** A new account leaves the tag of its default address twice: [add_account] adds it, and
    [insert_account] adds it again with the address. *)
Lemma new_account_tag_stored_twice :
  match add_account (Node:=toy_good) (St:=StoreState) toy_newer true
    (toy_account_client {| st_db := Db_new; st_forest := AccountSmtForest_new |}) with
  | Finished (c, Ok _) => ∃ row, tags (st_db (cl_store c)) = [row; row]
  | _ => False
  end.
Proof. vm_compute. eexists. reflexivity. Qed.

(** ** Witness *)

Lemma toy_overwrite_run : ∃ c',
  add_account (Node:=toy_good) (St:=StoreState) toy_newer true toy_tracking = Finished (c', Ok ()).
Proof.
  assert (match add_account (Node:=toy_good) (St:=StoreState) toy_newer true toy_tracking with
    | Finished (_, Ok ()) => true | _ => false end = true) as Hrun by by vm_compute.
  destruct (add_account _ _ _) as [[c' [[]|]]| |]; [|done..]. by exists c'.
Qed.

Lemma toy_tracked : tracked (st_db (cl_store toy_tracking)) (toy_header 610 4) None false.
Proof. split; [by vm_compute| |by split]. exists [0]. by vm_compute. Qed.

Lemma tracked_account_overwrite_witness : ∃ c',
  add_account (Node:=toy_good) (St:=StoreState) toy_newer true toy_tracking = Finished (c', Ok ()) ∧
  4 ≤ 5 ∧
  latest_account_headers (st_db (cl_store c')) !! toy_account_hex 1 =
    Some (header_row (Account_to_header toy_newer) None false).
Proof.
  destruct toy_overwrite_run as [c' Hrun]. exists c'. split; [exact Hrun|].
  destruct (tracked_account_overwrite (Node:=toy_good) (toy_header 610 4) None false toy_newer true
    toy_tracking c' (Ok ()) toy_tracked eq_refl Hrun) as (_ & Hle & _ & Hrow).
  split; [exact Hle|exact Hrow].
Defined.
