(* ===== verification/Proto.v ===== *)
(** * Messages of the node: words, trees and blocks

    [rpc/domain/digest.rs], [merkle.rs], [smt.rs], [block.rs], [status.rs] and the
    conversion errors of [rpc/errors/mod.rs]: what the client makes of the messages of
    the node, and how it writes its own.  A message is the record of the fields that
    the conversions name; an optional field may be missing. *)

From S2P Require Import Prelude Protocol Serde Model NoteStates InputNote OutputNote TxRecord.
From S2P Require Import NodeErrors Errors NoteTracker Rpc AccountTypes SmtForest Sql Store.
From Stdlib Require Import ZArith Lia.
From stdpp Require Import base gmap list strings.

Open Scope Z_scope.

(** ** The protocol crate *)

(** [Felt::ORDER]: the order of the field. *)
Definition Felt_ORDER : u64 := 18446744069414584321.

(** A word is four field elements; trees, block headers and fees. *)
Class WireLib `{StoreLib} := {
  Word_new : u64 → u64 → u64 → u64 → Word;
  Word_felts : Word → u64 * u64 * u64 * u64;
  AccountId_to_bytes : AccountId → bytes;
  AccountId_read_from_bytes : bytes → option AccountId;
  MerklePath_of_words : list Word → MerklePath;
  MerklePath_words : MerklePath → list Word;
  SparseMerklePath : Type;
  SparseMerklePath_into_parts : SparseMerklePath → u64 * list Word;
  SparseMerklePath_from_parts : u64 → list Word → result foreign SparseMerklePath;
  MmrDelta_new : u64 → list Word → MmrDelta;
  MmrDelta_data : MmrDelta → list Word;
  LeafIndex : Type;
  LeafIndex_new : u64 → result foreign LeafIndex;
  LeafIndex_position : LeafIndex → u64;
  ValidatorKey : Type;
  ValidatorKey_to_bytes : ValidatorKey → bytes;
  ValidatorKey_read_from_bytes : bytes → result foreign ValidatorKey;
  FeeParameters : Type;
  FeeParameters_native_asset_id : FeeParameters → AccountId;
  FeeParameters_verification_base_fee : FeeParameters → u32;
  FeeParameters_new : AccountId → u32 → result foreign FeeParameters;
  BlockHeader_version : BlockHeader → u32;
  BlockHeader_prev_block_commitment : BlockHeader → Word;
  BlockHeader_chain_commitment : BlockHeader → Word;
  BlockHeader_account_root : BlockHeader → Word;
  BlockHeader_nullifier_root : BlockHeader → Word;
  BlockHeader_tx_commitment : BlockHeader → Word;
  BlockHeader_tx_kernel_commitment : BlockHeader → Word;
  BlockHeader_validator_key : BlockHeader → ValidatorKey;
  BlockHeader_fee_parameters : BlockHeader → FeeParameters;
  (* Version, previous block, number, the six commitments, key, fees and timestamp. *)
  BlockHeader_new : u32 → Word → BlockNumber → Word → Word → Word → Word → Word → Word →
    ValidatorKey → FeeParameters → u32 → BlockHeader
}.

(** The elements of a word, and that they make up the word. *)
Definition word_ok `{WireLib} (w : Word) : Prop :=
  let '(a, b, c, d) := Word_felts w in
  Forall (in_range (Felt_ORDER - 1)) [a; b; c; d] ∧ Word_new a b c d = w.

(** A value is given back by its constructor from its parts. *)
Class WireLaws `{WireLib} : Prop := {
  Word_felts_new a b c d : Forall (in_range (Felt_ORDER - 1)) [a; b; c; d] →
    Word_felts (Word_new a b c d) = (a, b, c, d);
  AccountId_bytes_roundtrip a : AccountId_read_from_bytes (AccountId_to_bytes a) = Some a;
  SparseMerklePath_rebuild p :
    let '(mask, siblings) := SparseMerklePath_into_parts p in
    SparseMerklePath_from_parts mask siblings = Ok p;
  LeafIndex_rebuild i : LeafIndex_new (LeafIndex_position i) = Ok i;
  ValidatorKey_roundtrip k : ValidatorKey_read_from_bytes (ValidatorKey_to_bytes k) = Ok k;
  FeeParameters_rebuild f :
    FeeParameters_new (FeeParameters_native_asset_id f) (FeeParameters_verification_base_fee f) = Ok f;
  BlockHeader_rebuild h :
    BlockHeader_new (BlockHeader_version h) (BlockHeader_prev_block_commitment h)
      (BlockHeader_block_num h) (BlockHeader_chain_commitment h) (BlockHeader_account_root h)
      (BlockHeader_nullifier_root h) (BlockHeader_note_root h) (BlockHeader_tx_commitment h)
      (BlockHeader_tx_kernel_commitment h) (BlockHeader_validator_key h)
      (BlockHeader_fee_parameters h) (BlockHeader_timestamp h) = h
}.

(** ** Errors of conversions *)

Inductive RpcConversionError :=
| Conv_DeserializationError (e : foreign)
| Conv_NotAValidFelt
| Conv_NoteTypeError (e : foreign)
| Conv_MerkleError (e : foreign)
| Conv_InvalidField (msg : string)
| Conv_InvalidInt (e : foreign)
| Conv_MissingField (entity field_name : string).

(** [to_string]: the messages do not show the error of another crate. *)
Definition RpcConversionError_to_string (self : RpcConversionError) : string :=
  match self with
  | Conv_DeserializationError _ => "failed to deserialize"
  | Conv_NotAValidFelt => "invalid field element: value is outside the valid range (0..modulus, where modulus = 2^64 - 2^32 + 1)"
  | Conv_NoteTypeError _ => "invalid note type in node response"
  | Conv_MerkleError _ => "merkle proof error in node response"
  | Conv_InvalidField msg => "invalid field in node response: " +:+ msg
  | Conv_InvalidInt _ => "integer conversion failed in node response"
  | Conv_MissingField entity field_name =>
      "field `" +:+ field_name +:+ "` expected to be present in protobuf representation of " +:+ entity
  end.

(** The [?] on a conversion in code that returns an [RpcError]. *)
Definition RpcError_of_conversion `{Protocol} (err : RpcConversionError) : RpcError :=
  Rpc_DeserializationError (RpcConversionError_to_string err).
Definition conversion `{Protocol} {A} (m : result RpcConversionError A) : result RpcError A :=
  map_err RpcError_of_conversion m.

(** A field that must be there. *)
Definition field {A} (o : option A) (entity field_name : string) : result RpcConversionError A :=
  ok_or o (Conv_MissingField entity field_name).

(** A leaf of a sparse Merkle tree of the cryptography crate. *)
Inductive SmtLeaf `{WireLib} :=
| SmtLeaf_Empty (index : LeafIndex)
| SmtLeaf_Single (entry : Word * Word)
| SmtLeaf_Multiple (entries : list (Word * Word)).

(** An opening, of which the SMT forest has the type: a path and a leaf. *)
Class ProofLib `{WireLib} `{!SmtForestLib} := {
  SmtProof_new : SparseMerklePath → SmtLeaf → result foreign SmtProof;
  SmtProof_into_parts : SmtProof → SparseMerklePath * SmtLeaf
}.

Class ProofLaws `{ProofLib} : Prop := {
  SmtProof_rebuild p : let '(path, leaf) := SmtProof_into_parts p in SmtProof_new path leaf = Ok p
}.

Section wire.
Context `{WireLib}.

(** ** Digests *)

Record ProtoDigest := { d0 : u64; d1 : u64; d2 : u64; d3 : u64 }.

Definition ProtoDigest_of_word (value : Word) : ProtoDigest :=
  let '(a, b, c, d) := Word_felts value in {| d0 := a; d1 := b; d2 := c; d3 := d |}.

Definition felts_try_from (value : ProtoDigest) : result RpcConversionError (u64 * u64 * u64 * u64) :=
  if forallb (λ v, v <? Felt_ORDER) [d0 value; d1 value; d2 value; d3 value]
  then Ok (d0 value, d1 value, d2 value, d3 value)
  else Err Conv_NotAValidFelt.

Definition Word_try_from_digest (value : ProtoDigest) : result RpcConversionError Word :=
  '(a, b, c, d) ← felts_try_from value; Ok (Word_new a b c d).

Definition StorageMapKey_try_from_digest (value : ProtoDigest) : result RpcConversionError StorageMapKey :=
  StorageMapKey_new <$> Word_try_from_digest value.

Definition ProtoDigest_of_note_id (value : NoteId) : ProtoDigest :=
  ProtoDigest_of_word (NoteId_as_word value).

(** *** In hexadecimal *)

Definition HEX_LOWER : list string :=
  ["0"; "1"; "2"; "3"; "4"; "5"; "6"; "7"; "8"; "9"; "a"; "b"; "c"; "d"; "e"; "f"]%string.
Definition HEX_UPPER : list string :=
  ["0"; "1"; "2"; "3"; "4"; "5"; "6"; "7"; "8"; "9"; "A"; "B"; "C"; "D"; "E"; "F"]%string.

(** The digits of a byte: [b >> 4] and [b & 0xf]. *)
Definition hex_digits (digits : list string) (b : u8) : list string :=
  [default "" (digits !! Z.to_nat (Z.shiftr b 4)); default "" (digits !! Z.to_nat (Z.land b 15))]%string.

Definition encode_hex_with (digits : list string) (value : ProtoDigest) : string :=
  String.concat "" (concat (hex_digits digits <$>
    concat (to_be_bytes <$> [d0 value; d1 value; d2 value; d3 value]))).
Definition encode_hex : ProtoDigest → string := encode_hex_with HEX_LOWER.
Definition encode_hex_upper : ProtoDigest → string := encode_hex_with HEX_UPPER.

(** ** Merkle paths and MMR deltas *)

Definition proto_of_merkle_path (value : MerklePath) : list ProtoDigest :=
  ProtoDigest_of_word <$> MerklePath_words value.

Definition MerklePath_try_from (siblings : list ProtoDigest) : result RpcConversionError MerklePath :=
  MerklePath_of_words <$> try_map Word_try_from_digest siblings.

Record ProtoSparsePath := { psp_empty_nodes_mask : u64; psp_siblings : list ProtoDigest }.

Definition proto_of_sparse_path (value : SparseMerklePath) : ProtoSparsePath :=
  let '(empty_nodes_mask, siblings) := SparseMerklePath_into_parts value in
  {| psp_empty_nodes_mask := empty_nodes_mask; psp_siblings := ProtoDigest_of_word <$> siblings |}.

Definition SparseMerklePath_try_from (merkle_path : ProtoSparsePath) :
    result RpcConversionError SparseMerklePath :=
  siblings ← try_map Word_try_from_digest (psp_siblings merkle_path);
  map_err Conv_MerkleError
    (SparseMerklePath_from_parts (psp_empty_nodes_mask merkle_path) siblings).

Record ProtoMmrDelta := { pmd_forest : u64; pmd_data : list ProtoDigest }.

(** A [usize] has 64 bits here. *)
Definition proto_of_mmr_delta (value : MmrDelta) : ProtoMmrDelta :=
  {| pmd_forest := MmrDelta_forest value; pmd_data := ProtoDigest_of_word <$> MmrDelta_data value |}.

Definition MmrDelta_try_from (value : ProtoMmrDelta) : result RpcConversionError MmrDelta :=
  forest ← ok_or (try_from U64_MAX (pmd_forest value))
    (Conv_InvalidField "MmrDelta forest value exceeds usize");
  data ← try_map Word_try_from_digest (pmd_data value);
  Ok (MmrDelta_new forest data).

(** ** Leaves and openings of sparse Merkle trees *)

Record ProtoLeafEntry := { ple_key : option ProtoDigest; ple_value : option ProtoDigest }.

(** The [oneof] of the message. *)
Inductive ProtoLeaf :=
| ProtoLeaf_EmptyLeafIndex (index : u64)
| ProtoLeaf_Single (entry : ProtoLeafEntry)
| ProtoLeaf_Multiple (entries : list ProtoLeafEntry).

Definition proto_of_leaf_entry (value : Word * Word) : ProtoLeafEntry :=
  {| ple_key := Some (ProtoDigest_of_word value.1); ple_value := Some (ProtoDigest_of_word value.2) |}.

Definition leaf_entry_try_from (value : ProtoLeafEntry) : result RpcConversionError (Word * Word) :=
  key ← field (ple_key value) "SmtLeafEntry" "key";
  key ← Word_try_from_digest key;
  v ← field (ple_value value) "SmtLeafEntry" "value";
  v ← Word_try_from_digest v;
  Ok (key, v).

Definition proto_of_smt_leaf (value : SmtLeaf) : option ProtoLeaf :=
  Some match value with
    | SmtLeaf_Empty index => ProtoLeaf_EmptyLeafIndex (LeafIndex_position index)
    | SmtLeaf_Single entry => ProtoLeaf_Single (proto_of_leaf_entry entry)
    | SmtLeaf_Multiple entries => ProtoLeaf_Multiple (proto_of_leaf_entry <$> entries)
    end.

Definition SmtLeaf_try_from (value : option ProtoLeaf) : result RpcConversionError SmtLeaf :=
  match value with
  | Some (ProtoLeaf_EmptyLeafIndex index) =>
      SmtLeaf_Empty <$> map_err Conv_InvalidField (LeafIndex_new index)
  | Some (ProtoLeaf_Single entry) => SmtLeaf_Single <$> leaf_entry_try_from entry
  | Some (ProtoLeaf_Multiple entries) => SmtLeaf_Multiple <$> try_map leaf_entry_try_from entries
  | None => Err (Conv_MissingField "SmtLeaf" "leaf")
  end.

Record ProtoSmtOpening := {
  pso_path : option ProtoSparsePath;
  pso_leaf : option (option ProtoLeaf)
}.

Definition proto_of_smt_proof `{!SmtForestLib} `{!ProofLib} (value : SmtProof) : ProtoSmtOpening :=
  let '(path, leaf) := SmtProof_into_parts value in
  {| pso_path := Some (proto_of_sparse_path path); pso_leaf := Some (proto_of_smt_leaf leaf) |}.

Definition SmtProof_try_from `{!SmtForestLib} `{!ProofLib} (value : ProtoSmtOpening) :
    result RpcConversionError SmtProof :=
  leaf ← field (pso_leaf value) "SmtOpening" "leaf";
  leaf ← SmtLeaf_try_from leaf;
  path ← field (pso_path value) "SmtOpening" "path";
  path ← SparseMerklePath_try_from path;
  map_err Conv_InvalidField (SmtProof_new path leaf).

(** ** Accounts and blocks *)

(** [proto::account::AccountId] has the bytes of an identifier. *)
Definition AccountId_try_from (account_id : bytes) : result RpcConversionError AccountId :=
  ok_or (AccountId_read_from_bytes account_id) Conv_NotAValidFelt.

Record ProtoFeeParameters := {
  pfp_native_asset_id : option bytes;
  pfp_verification_base_fee : u32
}.

Record ProtoBlockHeader := {
  pbh_version : u32;
  pbh_prev_block_commitment : option ProtoDigest;
  pbh_block_num : u32;
  pbh_chain_commitment : option ProtoDigest;
  pbh_account_root : option ProtoDigest;
  pbh_nullifier_root : option ProtoDigest;
  pbh_note_root : option ProtoDigest;
  pbh_tx_commitment : option ProtoDigest;
  pbh_validator_key : option bytes;
  pbh_tx_kernel_commitment : option ProtoDigest;
  pbh_fee_parameters : option ProtoFeeParameters;
  pbh_timestamp : u32
}.

Definition proto_of_fee_parameters (fee_params : FeeParameters) : ProtoFeeParameters :=
  {| pfp_native_asset_id := Some (AccountId_to_bytes (FeeParameters_native_asset_id fee_params));
     pfp_verification_base_fee := FeeParameters_verification_base_fee fee_params |}.

Definition proto_of_block_header (header : BlockHeader) : ProtoBlockHeader := {|
  pbh_version := BlockHeader_version header;
  pbh_prev_block_commitment := Some (ProtoDigest_of_word (BlockHeader_prev_block_commitment header));
  pbh_block_num := BlockHeader_block_num header;
  pbh_chain_commitment := Some (ProtoDigest_of_word (BlockHeader_chain_commitment header));
  pbh_account_root := Some (ProtoDigest_of_word (BlockHeader_account_root header));
  pbh_nullifier_root := Some (ProtoDigest_of_word (BlockHeader_nullifier_root header));
  pbh_note_root := Some (ProtoDigest_of_word (BlockHeader_note_root header));
  pbh_tx_commitment := Some (ProtoDigest_of_word (BlockHeader_tx_commitment header));
  pbh_validator_key := Some (ValidatorKey_to_bytes (BlockHeader_validator_key header));
  pbh_tx_kernel_commitment := Some (ProtoDigest_of_word (BlockHeader_tx_kernel_commitment header));
  pbh_fee_parameters := Some (proto_of_fee_parameters (BlockHeader_fee_parameters header));
  pbh_timestamp := BlockHeader_timestamp header
|}.

Definition FeeParameters_try_from (value : ProtoFeeParameters) : result RpcConversionError FeeParameters :=
  account_id ← field (pfp_native_asset_id value) "FeeParameters" "account_id";
  account_id ← AccountId_try_from account_id;
  map_err (λ _, Conv_InvalidField "FeeParameter")
    (FeeParameters_new account_id (pfp_verification_base_fee value)).

(** A commitment of the header. *)
Definition header_word (o : option ProtoDigest) (field_name : string) : result RpcConversionError Word :=
  d ← field o "BlockHeader" field_name; Word_try_from_digest d.

Definition BlockHeader_try_from (value : ProtoBlockHeader) : result RpcConversionError BlockHeader :=
  validator_key_bytes ← field (pbh_validator_key value) "BlockHeader" "validator_key";
  validator_key ← map_err Conv_DeserializationError (ValidatorKey_read_from_bytes validator_key_bytes);
  prev_block_commitment ← header_word (pbh_prev_block_commitment value) "prev_block_commitment";
  chain_commitment ← header_word (pbh_chain_commitment value) "chain_commitment";
  account_root ← header_word (pbh_account_root value) "account_root";
  nullifier_root ← header_word (pbh_nullifier_root value) "nullifier_root";
  note_root ← header_word (pbh_note_root value) "note_root";
  tx_commitment ← header_word (pbh_tx_commitment value) "tx_commitment";
  tx_kernel_commitment ← header_word (pbh_tx_kernel_commitment value) "tx_kernel_commitment";
  fee_parameters ← field (pbh_fee_parameters value) "BlockHeader" "fee_parameters";
  fee_parameters ← FeeParameters_try_from fee_parameters;
  Ok (BlockHeader_new (pbh_version value) prev_block_commitment (pbh_block_num value)
    chain_commitment account_root nullifier_root note_root tx_commitment tx_kernel_commitment
    validator_key fee_parameters (pbh_timestamp value)).

(** ** The status of the node *)

Record MempoolStatsInfo := {
  unbatched_transactions : u64;
  proposed_batches : u64;
  proven_batches : u64
}.
Record StoreStatusInfo := {
  sti_version : string;
  sti_status : string;
  sti_chain_tip : u32
}.
Record BlockProducerStatusInfo := {
  bps_version : string;
  bps_status : string;
  bps_chain_tip : u32;
  bps_mempool_stats : option MempoolStatsInfo
}.
Record RpcStatusInfo := {
  rsi_version : string;
  rsi_genesis_commitment : option Word;
  rsi_store : option StoreStatusInfo;
  rsi_block_producer : option BlockProducerStatusInfo
}.

(** The parts of the message have the fields of their counterparts. *)
Record ProtoRpcStatus := {
  prs_version : string;
  prs_genesis_commitment : option ProtoDigest;
  prs_store : option StoreStatusInfo;
  prs_block_producer : option BlockProducerStatusInfo
}.

Definition RpcStatusInfo_try_from (value : ProtoRpcStatus) : result RpcError RpcStatusInfo :=
  genesis_commitment ← match prs_genesis_commitment value with
    | Some d => Some <$> conversion (Word_try_from_digest d)
    | None => Ok None
    end;
  Ok {| rsi_version := prs_version value; rsi_genesis_commitment := genesis_commitment;
        rsi_store := prs_store value; rsi_block_producer := prs_block_producer value |}.
End wire.

(** ** What is sent is read back *)

Section laws.
Context `{WireLaws} `{!SmtForestLib} `{!ProofLib} `{!ProofLaws}.

Lemma felt_range v : in_range (Felt_ORDER - 1) v → (v <? Felt_ORDER) = true.
Proof. unfold in_range. lia. Qed.

Lemma word_roundtrip w : word_ok w → Word_try_from_digest (ProtoDigest_of_word w) = Ok w.
Proof.
  unfold word_ok, Word_try_from_digest, ProtoDigest_of_word, felts_try_from.
  destruct (Word_felts w) as [[[a b] c] d]. intros [Hr Hw]. cbn in *. decompose_Forall_hyps.
  rewrite !felt_range by done. reflexivity.
Qed.

Lemma words_roundtrip ws :
  Forall word_ok ws → try_map Word_try_from_digest (ProtoDigest_of_word <$> ws) = Ok ws.
Proof.
  induction 1 as [|w ws Hw Hws IH]; [done|]. rewrite fmap_cons. cbn [try_map].
  by rewrite word_roundtrip, IH.
Qed.

(** A digest that is accepted is the digest of the word, if its numbers are unsigned. *)
Lemma word_canonical d w :
  Forall (λ v, 0 ≤ v) [d0 d; d1 d; d2 d; d3 d] →
  Word_try_from_digest d = Ok w → d = ProtoDigest_of_word w.
Proof.
  intros Hpos. unfold Word_try_from_digest, felts_try_from.
  destruct (forallb _ _) eqn:E; [|done]. cbn. intros [= <-]. unfold ProtoDigest_of_word.
  rewrite Word_felts_new; [by destruct d|].
  cbn in E. rewrite !andb_true_iff in E. decompose_Forall_hyps. repeat constructor; unfold in_range; lia.
Qed.

Lemma leaf_entry_roundtrip e :
  word_ok e.1 → word_ok e.2 → leaf_entry_try_from (proto_of_leaf_entry e) = Ok e.
Proof.
  destruct e as [k v]. intros Hk Hv. unfold leaf_entry_try_from. cbn. by rewrite !word_roundtrip.
Qed.

Lemma leaf_entries_roundtrip es :
  Forall (λ e, word_ok e.1 ∧ word_ok e.2) es →
  try_map leaf_entry_try_from (proto_of_leaf_entry <$> es) = Ok es.
Proof.
  induction 1 as [|e es [Hk Hv] Hes IH]; [done|]. rewrite fmap_cons. cbn [try_map].
  by rewrite leaf_entry_roundtrip, IH.
Qed.

(** The entries of a leaf. *)
Definition leaf_entries (l : SmtLeaf) : list (Word * Word) :=
  match l with SmtLeaf_Empty _ => [] | SmtLeaf_Single e => [e] | SmtLeaf_Multiple es => es end.

Lemma smt_leaf_roundtrip l :
  Forall (λ e, word_ok e.1 ∧ word_ok e.2) (leaf_entries l) →
  SmtLeaf_try_from (proto_of_smt_leaf l) = Ok l.
Proof.
  unfold SmtLeaf_try_from, proto_of_smt_leaf. destruct l as [i|e|es]; cbn [leaf_entries]; intros Hl.
  - by rewrite LeafIndex_rebuild.
  - apply Forall_singleton in Hl as [Hk Hv]. by rewrite leaf_entry_roundtrip.
  - by rewrite leaf_entries_roundtrip.
Qed.

Lemma sparse_path_roundtrip p :
  Forall word_ok (SparseMerklePath_into_parts p).2 →
  SparseMerklePath_try_from (proto_of_sparse_path p) = Ok p.
Proof.
  unfold SparseMerklePath_try_from, proto_of_sparse_path. pose proof (SparseMerklePath_rebuild p) as Hp.
  destruct (SparseMerklePath_into_parts p) as [mask ws]. intros Hws. cbn [psp_siblings psp_empty_nodes_mask].
  rewrite words_roundtrip by done. cbn. by rewrite Hp.
Qed.

(** An opening of a sparse Merkle tree goes over the wire unchanged: written as a
    message and read back it is the same proof, with its leaf, empty, single or
    multiple, and its path. *)
Theorem smt_opening_roundtrip p :
  let '(path, leaf) := SmtProof_into_parts p in
  Forall word_ok (SparseMerklePath_into_parts path).2 →
  Forall (λ e, word_ok e.1 ∧ word_ok e.2) (leaf_entries leaf) →
  SmtProof_try_from (proto_of_smt_proof p) = Ok p.
Proof.
  pose proof (SmtProof_rebuild p) as Hp. unfold SmtProof_try_from, proto_of_smt_proof.
  destruct (SmtProof_into_parts p) as [path leaf]. intros Hpath Hleaf.
  cbn -[SmtLeaf_try_from proto_of_smt_leaf SparseMerklePath_try_from proto_of_sparse_path].
  rewrite smt_leaf_roundtrip by done. cbn -[SparseMerklePath_try_from proto_of_sparse_path].
  rewrite sparse_path_roundtrip by done. cbn. by rewrite Hp.
Qed.

Lemma fee_parameters_roundtrip f : FeeParameters_try_from (proto_of_fee_parameters f) = Ok f.
Proof.
  unfold FeeParameters_try_from, AccountId_try_from. cbn. rewrite AccountId_bytes_roundtrip. cbn.
  by rewrite FeeParameters_rebuild.
Qed.

(** The words of a header. *)
Definition header_words (h : BlockHeader) : list Word :=
  [BlockHeader_prev_block_commitment h; BlockHeader_chain_commitment h; BlockHeader_account_root h;
   BlockHeader_nullifier_root h; BlockHeader_note_root h; BlockHeader_tx_commitment h;
   BlockHeader_tx_kernel_commitment h].

(** A block header goes over the wire unchanged: the message that the client writes
    for a header is read back as that header, none of its commitments mixed up. *)
Theorem block_header_roundtrip h :
  Forall word_ok (header_words h) → BlockHeader_try_from (proto_of_block_header h) = Ok h.
Proof.
  intros Hw. unfold header_words in Hw. decompose_Forall_hyps. unfold BlockHeader_try_from, header_word.
  cbn -[FeeParameters_try_from proto_of_fee_parameters Word_try_from_digest].
  rewrite ValidatorKey_roundtrip. cbn -[FeeParameters_try_from proto_of_fee_parameters Word_try_from_digest].
  rewrite !word_roundtrip by done. cbn -[FeeParameters_try_from proto_of_fee_parameters].
  rewrite fee_parameters_roundtrip. cbn. by rewrite BlockHeader_rebuild.
Qed.
End laws.

(** ** Witnesses *)

Definition toy_word_new (a b c d : Z) : @Word toy_protocol :=
  a + 2 ^ 64 * (b + 2 ^ 64 * (c + 2 ^ 64 * d)).
Definition toy_word_felts (w : @Word toy_protocol) : Z * Z * Z * Z :=
  (w mod 2 ^ 64, w / 2 ^ 64 mod 2 ^ 64, w / 2 ^ 64 / 2 ^ 64 mod 2 ^ 64, w / 2 ^ 64 / 2 ^ 64 / 2 ^ 64).

#[export] Instance toy_wire : @WireLib toy_protocol toy_account_lib toy_serde toy_mmr _ := {|
  Word_new := toy_word_new;
  Word_felts := toy_word_felts;
  AccountId_to_bytes := λ a, [a];
  AccountId_read_from_bytes := λ b, head b;
  MerklePath_of_words := λ ws, hd 0 ws;
  MerklePath_words := λ p, [p];
  SparseMerklePath := Z * list Z;
  SparseMerklePath_into_parts := λ p, p;
  SparseMerklePath_from_parts := λ mask ws, Ok (mask, ws);
  MmrDelta_new := λ n ws, (n, (λ w, (w, w)) <$> ws);
  MmrDelta_data := λ d, d.2.*1;
  LeafIndex := Z;
  LeafIndex_new := λ i, Ok i;
  LeafIndex_position := λ i, i;
  ValidatorKey := unit;
  ValidatorKey_to_bytes := λ _, [];
  ValidatorKey_read_from_bytes := λ _, Ok ();
  FeeParameters := unit;
  FeeParameters_native_asset_id := λ _, toy_account 7;
  FeeParameters_verification_base_fee := λ _, 0;
  FeeParameters_new := λ _ _, Ok ();
  BlockHeader_version := λ _, 1;
  BlockHeader_prev_block_commitment := λ _, 11;
  BlockHeader_chain_commitment := λ _, 12;
  BlockHeader_account_root := λ _, 13;
  BlockHeader_nullifier_root := λ _, 14;
  BlockHeader_tx_commitment := λ _, 15;
  BlockHeader_tx_kernel_commitment := λ _, 16;
  BlockHeader_validator_key := λ _, ();
  BlockHeader_fee_parameters := λ _, ();
  BlockHeader_new := λ _ _ num _ _ _ note_root _ _ _ _ _, ((num, note_root) : @BlockHeader toy_protocol)
|}.

#[export] Instance toy_wire_laws : WireLaws.
Proof.
  split; try done; try by intros [].
  intros a b c d Hr. decompose_Forall_hyps. cbn. unfold toy_word_felts, toy_word_new, in_range in *.
  assert (∀ x y, 0 ≤ x ≤ Felt_ORDER - 1 → (x + 2 ^ 64 * y) mod 2 ^ 64 = x) as Hmod.
  { intros x y Hx. unfold Felt_ORDER in Hx. rewrite Z.mul_comm, Z_mod_plus_full. apply Z.mod_small. lia. }
  assert (∀ x y, 0 ≤ x ≤ Felt_ORDER - 1 → (x + 2 ^ 64 * y) / 2 ^ 64 = y) as Hdiv.
  { intros x y Hx. unfold Felt_ORDER in Hx. rewrite Z.mul_comm, Z_div_plus_full by lia.
    rewrite Z.div_small by lia. lia. }
  by rewrite !Hdiv, !Hmod by done.
Qed.

(** A tree is opened with all its entries in one leaf. *)
#[export] Instance toy_proofs : ProofLib := {|
  SmtProof_new := λ _ leaf,
    match leaf with
    | SmtLeaf_Empty _ => Ok ∅
    | SmtLeaf_Single e => Ok {[ (e.1 : Z) := (e.2 : Z) ]}
    | SmtLeaf_Multiple es => Ok (list_to_map (es : list (Z * Z)))
    end;
  SmtProof_into_parts := λ p, ((0, []), SmtLeaf_Multiple (map_to_list p))
|}.

#[export] Instance toy_proof_laws : ProofLaws.
Proof. split. intros p. cbn. by rewrite list_to_map_to_list. Qed.

Lemma toy_word_ok w : 0 ≤ w < Felt_ORDER → word_ok (toy_word w).
Proof.
  unfold word_ok, Felt_ORDER. intros Hw. cbn. unfold toy_word_felts, toy_word.
  rewrite (Z.div_small w), (Z.mod_small w) by lia. rewrite !Z.div_0_l, !Z.mod_0_l by done.
  split; [|unfold toy_word_new; ring].
  assert (∀ z, 0 ≤ z ≤ Felt_ORDER - 1 → in_range (Felt_ORDER - 1) z) as Hin by done.
  repeat (apply Forall_cons; split; [apply Hin; unfold Felt_ORDER; lia|]). by apply Forall_nil.
Qed.

Definition toy_opening : gmap Z Z := {[ 5 := 6 ]}.

Lemma smt_opening_roundtrip_witness :
  SmtProof_try_from (proto_of_smt_proof (toy_opening : @SmtProof _ _ toy_forest_lib)) = Ok toy_opening.
Proof.
  refine (smt_opening_roundtrip (toy_opening : @SmtProof _ _ toy_forest_lib) _ _).
  - by apply Forall_nil.
  - apply Forall_singleton. split; [apply (toy_word_ok 5)|apply (toy_word_ok 6)]; unfold Felt_ORDER; lia.
Defined.

Lemma block_header_roundtrip_witness : BlockHeader_try_from (proto_of_block_header toy_header) = Ok toy_header.
Proof.
  apply block_header_roundtrip. apply Forall_forall. intros w Hw. apply (toy_word_ok w).
  unfold header_words in Hw. cbn in Hw. unfold Felt_ORDER. decompose_list_elem_of; subst; lia.
Defined.
