(* ===== verification/ProtoNotes.v ===== *)
(** * Messages of the node: notes, nullifiers and transactions

    [rpc/domain/note.rs], [nullifier.rs], [sync.rs] and [transaction.rs]: the
    conversions of what a node answers to the requests of a sync.  A conversion can
    panic, so they are computations of [eff]. *)

From S2P Require Import Prelude Protocol Serde Model NoteStates InputNote OutputNote TxRecord.
From S2P Require Import NodeErrors Errors NoteTracker TxOrdering Rpc AccountTypes Store Proto.
From Stdlib Require Import ZArith Lia.
From stdpp Require Import base gmap list strings.

Open Scope Z_scope.

(** Parts of notes and transactions of the protocol crate. *)
Class NoteWireLib `{WireLib} := {
  NoteAttachment : Type;
  NoteAttachment_default : NoteAttachment;
  NoteAttachment_to_bytes : NoteAttachment → bytes;
  NoteAttachment_read_from_bytes : bytes → result foreign NoteAttachment;
  NoteMetadata_attachment : NoteMetadata → NoteAttachment;
  NoteMetadata_new : AccountId → NoteType → NoteMetadata;
  NoteMetadata_with_tag : NoteMetadata → NoteTag → NoteMetadata;
  NoteMetadata_with_attachment : NoteMetadata → NoteAttachment → NoteMetadata;
  NoteType_as_i32 : NoteType → Z;
  NoteType_try_from : u64 → result foreign NoteType;
  NoteTag_new : u32 → NoteTag;
  NoteTag_as_u32 : NoteTag → u32;
  NoteAttachmentKind_eq_dec :: EqDecision NoteAttachmentKind;
  NoteAttachmentKind_None : NoteAttachmentKind;
  NoteAttachmentKind_default : NoteAttachmentKind;
  NoteAttachmentKind_try_from : u8 → option NoteAttachmentKind;
  NoteInclusionProof_new :
    BlockNumber → u16 → SparseMerklePath → result foreign NoteInclusionProof;
  Nullifier_from_raw : Word → Nullifier;
  MastForest : Type;
  MastForest_read_from_bytes : bytes → result foreign MastForest;
  MastNodeId : Type;
  MastNodeId_from_u32_safe : u32 → MastForest → result foreign MastNodeId;
  NoteScript_from_parts : MastForest → MastNodeId → NoteScript;
  TransactionId_as_word : TransactionId → Word;
  AccountId_from_u128 : Z → option AccountId;
  (* Account, states before and after, nullifiers, headers of the output notes and fee. *)
  TransactionHeader_new : AccountId → Word → Word → list Nullifier →
    list (NoteId * NoteMetadata) → FungibleAsset → TransactionHeader
}.

Class NoteWireLaws `{NoteWireLib} : Prop := {
  NoteType_roundtrip t : NoteType_try_from (NoteType_as_i32 t) = Ok t;
  NoteType_unsigned t : 0 ≤ NoteType_as_i32 t;
  NoteType_bounded t : NoteType_as_i32 t ≤ 2147483647;
  NoteTag_roundtrip t : NoteTag_new (NoteTag_as_u32 t) = t;
  NoteAttachment_roundtrip a :
    NoteAttachment_to_bytes a ≠ [] → NoteAttachment_read_from_bytes (NoteAttachment_to_bytes a) = Ok a;
  NoteAttachment_empty a : NoteAttachment_to_bytes a = [] → a = NoteAttachment_default;
  NoteMetadata_rebuild m :
    NoteMetadata_with_attachment (NoteMetadata_with_tag
      (NoteMetadata_new (NoteMetadata_sender m) (NoteMetadata_note_type m)) (NoteMetadata_tag m))
      (NoteMetadata_attachment m) = m
}.

(** A [collect] into a result, of conversions that can panic. *)
Fixpoint eff_try_map {E A B} (f : A → eff E B) (l : list A) : eff E (list B) :=
  match l with
  | [] => mret []
  | a :: l => b ← f a; bs ← eff_try_map f l; mret (b :: bs)
  end.

Section notes.
Context `{NoteWireLib}.

(** ** Identifiers and metadata *)

(** [proto::note::NoteId] and [proto::transaction::TransactionId] have an optional digest. *)
Definition proto_of_note_id (value : NoteId) : option ProtoDigest := Some (ProtoDigest_of_note_id value).

Definition NoteId_try_from (value : option ProtoDigest) : result RpcConversionError NoteId :=
  id ← field value "NoteId" "id"; NoteId_from_raw <$> Word_try_from_digest id.

Definition Nullifier_try_from (value : ProtoDigest) : result RpcConversionError Nullifier :=
  Nullifier_from_raw <$> Word_try_from_digest value.

Definition TransactionId_try_from_digest (value : ProtoDigest) : result RpcConversionError TransactionId :=
  TransactionId_from_raw <$> Word_try_from_digest value.
Definition TransactionId_try_from (value : option ProtoDigest) : result RpcConversionError TransactionId :=
  id ← field value "TransactionId" "id"; TransactionId_try_from_digest id.
Definition proto_of_transaction_id (value : TransactionId) : option ProtoDigest :=
  Some (ProtoDigest_of_word (TransactionId_as_word value)).

(** The note type is an [i32] of the message. *)
Record ProtoNoteMetadata := {
  pnm_sender : option bytes;
  pnm_note_type : Z;
  pnm_tag : u32;
  pnm_attachment : bytes
}.

Definition proto_of_note_metadata (value : NoteMetadata) : ProtoNoteMetadata := {|
  pnm_sender := Some (AccountId_to_bytes (NoteMetadata_sender value));
  pnm_note_type := NoteType_as_i32 (NoteMetadata_note_type value);
  pnm_tag := NoteTag_as_u32 (NoteMetadata_tag value);
  pnm_attachment := NoteAttachment_to_bytes (NoteMetadata_attachment value)
|}.

(** The conversion of the [i32] to a [u64] is an [expect]. *)
Definition note_type_of_i32 (note_type : Z) : eff RpcConversionError NoteType :=
  n ← expect (try_from U64_MAX note_type);
  lift (map_err Conv_NoteTypeError (NoteType_try_from n)).

Definition NoteMetadata_try_from (value : ProtoNoteMetadata) : eff RpcConversionError NoteMetadata :=
  sender ← lift (field (pnm_sender value) "NoteMetadata" "sender");
  sender ← lift (AccountId_try_from sender);
  note_type ← note_type_of_i32 (pnm_note_type value);
  let tag := NoteTag_new (pnm_tag value) in
  attachment ← (if bool_decide (pnm_attachment value = []) then mret NoteAttachment_default
    else lift (map_err Conv_DeserializationError (NoteAttachment_read_from_bytes (pnm_attachment value))));
  mret (NoteMetadata_with_attachment (NoteMetadata_with_tag (NoteMetadata_new sender note_type) tag)
    attachment).

Record ProtoNoteHeader := {
  pnh_note_id : option (option ProtoDigest);
  pnh_metadata : option ProtoNoteMetadata
}.

Definition NoteHeader_try_from (value : ProtoNoteHeader) :
    eff RpcConversionError (NoteId * NoteMetadata) :=
  note_id ← lift (field (pnh_note_id value) "NoteHeader" "note_id");
  note_id ← lift (NoteId_try_from note_id);
  metadata ← lift (field (pnh_metadata value) "NoteHeader" "metadata");
  metadata ← NoteMetadata_try_from metadata;
  mret (note_id, metadata).

(** ** Inclusion proofs *)

Record ProtoInclusionProof := {
  pip_note_id : option (option ProtoDigest);
  pip_block_num : u32;
  pip_note_index_in_block : u32;
  pip_inclusion_path : option ProtoSparsePath
}.

Definition NoteInclusionProof_try_from (value : ProtoInclusionProof) :
    result RpcConversionError NoteInclusionProof :=
  index ← ok_or (Prelude.try_from U16_MAX (pip_note_index_in_block value))
    (Conv_InvalidField "NoteIndexInBlock");
  path ← field (pip_inclusion_path value) "NoteInclusionInBlockProof" "inclusion_path";
  path ← SparseMerklePath_try_from path;
  map_err Conv_NoteTypeError (NoteInclusionProof_new (pip_block_num value) index path).

(** ** Notes of a sync *)

Record ProtoMetadataHeader := {
  pmh_sender : option bytes;
  pmh_note_type : Z;
  pmh_tag : u32;
  pmh_attachment_kind : Z
}.
Record ProtoNoteSyncRecord := {
  pns_metadata_header : option ProtoMetadataHeader;
  pns_inclusion_proof : option ProtoInclusionProof
}.

(** An attachment kind that is not known is the default one. *)
Definition attachment_kind_of (kind : Z) : NoteAttachmentKind :=
  default NoteAttachmentKind_default
    (kind ← Prelude.try_from U8_MAX kind; NoteAttachmentKind_try_from kind).

Definition CommittedNote_try_from (note : ProtoNoteSyncRecord) : eff RpcConversionError CommittedNote :=
  proto_header ← lift (field (pns_metadata_header note) "SyncNotesResponse" "notes.metadata_header");
  sender ← lift (field (pmh_sender proto_header) "SyncNotesResponse" "notes.metadata_header.sender");
  sender ← lift (AccountId_try_from sender);
  note_type ← note_type_of_i32 (pmh_note_type proto_header);
  let tag := NoteTag_new (pmh_tag proto_header) in
  let attachment_kind := attachment_kind_of (pmh_attachment_kind proto_header) in
  let metadata :=
    if bool_decide (attachment_kind = NoteAttachmentKind_None)
    then MetadataFull (NoteMetadata_with_tag (NoteMetadata_new sender note_type) tag)
    else MetadataHeader sender note_type tag attachment_kind in
  proto_inclusion_proof ← lift (field (pns_inclusion_proof note) "SyncNotesResponse" "notes.inclusion_proof");
  note_id ← lift (field (pip_note_id proto_inclusion_proof) "SyncNotesResponse"
    "notes.inclusion_proof.note_id");
  note_id ← lift (NoteId_try_from note_id);
  inclusion_proof ← lift (NoteInclusionProof_try_from proto_inclusion_proof);
  mret {| cn_note_id := note_id; cn_metadata := metadata; cn_inclusion_proof := inclusion_proof |}.

Record ProtoPaginationInfo := { ppi_chain_tip : u32; ppi_block_num : u32 }.

Record ProtoNoteSyncBlock := {
  pnb_block_header : option ProtoBlockHeader;
  pnb_mmr_path : option (list ProtoDigest);
  pnb_notes : list ProtoNoteSyncRecord
}.
Record ProtoSyncNotesResponse := {
  psr_pagination_info : option ProtoPaginationInfo;
  psr_blocks : list ProtoNoteSyncBlock
}.

Definition NoteSyncBlock_try_from (block : ProtoNoteSyncBlock) : eff RpcConversionError NoteSyncBlock :=
  block_header ← lift (field (pnb_block_header block) "SyncNotesResponse" "blocks.block_header");
  block_header ← lift (BlockHeader_try_from block_header);
  mmr_path ← lift (field (pnb_mmr_path block) "SyncNotesResponse" "blocks.mmr_path");
  mmr_path ← lift (MerklePath_try_from mmr_path);
  notes ← eff_try_map (λ n, note ← CommittedNote_try_from n; mret (cn_note_id note, note)) (pnb_notes block);
  mret {| nsb_block_header := block_header; nsb_mmr_path := mmr_path; nsb_notes := btree_collect notes |}.

Definition NoteSyncInfo_try_from (value : ProtoSyncNotesResponse) : eff RpcError NoteSyncInfo :=
  eff_map_err RpcError_of_conversion (
    pagination_info ← lift (field (psr_pagination_info value) "SyncNotesResponse" "pagination_info");
    blocks ← eff_try_map NoteSyncBlock_try_from (psr_blocks value);
    mret {| nsi_chain_tip := ppi_chain_tip pagination_info; nsi_block_to := ppi_block_num pagination_info;
            nsi_blocks := blocks |}).

(** ** Fetched notes and scripts *)

Record ProtoNote := {
  pn_metadata : option ProtoNoteMetadata;
  pn_details : option bytes
}.
Record ProtoCommittedNote := {
  pcn_inclusion_proof : option ProtoInclusionProof;
  pcn_note : option ProtoNote
}.

(** The error of the codec is left out, as no message shows it. *)
Definition FetchedNote_try_from (value : ProtoCommittedNote) : eff RpcConversionError FetchedNote :=
  inclusion_proof ← lift (field (pcn_inclusion_proof value) "CommittedNote" "inclusion_proof");
  note_id ← lift (field (pip_note_id inclusion_proof) "CommittedNote" "inclusion_proof.note_id");
  note_id ← lift (NoteId_try_from note_id);
  inclusion_proof ← lift (NoteInclusionProof_try_from inclusion_proof);
  note ← lift (field (pcn_note value) "CommittedNote" "note");
  metadata ← lift (field (pn_metadata note) "CommittedNote" "note.metadata");
  metadata ← NoteMetadata_try_from metadata;
  match pn_details note with
  | Some detail_bytes =>
      details ← lift (map_err (λ _, Conv_DeserializationError "")
        (read_from_bytes NoteDetails_codec detail_bytes));
      mret (FetchedNote_Public (Note_new (NoteDetails_assets details) metadata
        (NoteDetails_recipient details)) inclusion_proof)
  | None => mret (FetchedNote_Private note_id metadata inclusion_proof)
  end.

Record ProtoNoteScript := { pnsc_mast : bytes; pnsc_entrypoint : u32 }.

Definition NoteScript_try_from (note_script : ProtoNoteScript) : result RpcConversionError NoteScript :=
  mast_forest ← map_err Conv_DeserializationError (MastForest_read_from_bytes (pnsc_mast note_script));
  entrypoint ← map_err Conv_DeserializationError
    (MastNodeId_from_u32_safe (pnsc_entrypoint note_script) mast_forest);
  Ok (NoteScript_from_parts mast_forest entrypoint).

(** ** Nullifiers and the chain *)

Record ProtoNullifierUpdate := { pnu_nullifier : option ProtoDigest; pnu_block_num : u32 }.

Definition NullifierUpdate_try_from (value : ProtoNullifierUpdate) :
    result RpcConversionError NullifierUpdate :=
  nullifier ← field (pnu_nullifier value) "NullifierUpdate" "nullifier";
  nullifier ← Nullifier_try_from nullifier;
  Ok {| nu_nullifier := nullifier; nu_block_num := pnu_block_num value |}.

Record ProtoBlockRange := { pbr_block_from : u32; pbr_block_to : option u32 }.
Record ProtoSyncChainMmrResponse := {
  psc_block_range : option ProtoBlockRange;
  psc_mmr_delta : option ProtoMmrDelta
}.

Definition ChainMmrInfo_try_from (value : ProtoSyncChainMmrResponse) : result RpcError ChainMmrInfo :=
  conversion (
    block_range ← field (psc_block_range value) "SyncChainMmrResponse" "block_range";
    mmr_delta ← field (psc_mmr_delta value) "SyncChainMmrResponse" "mmr_delta";
    mmr_delta ← MmrDelta_try_from mmr_delta;
    block_to ← field (pbr_block_to block_range) "SyncChainMmrResponse" "block_range.block_to";
    Ok {| cmi_block_from := pbr_block_from block_range; cmi_block_to := block_to;
          cmi_mmr_delta := mmr_delta |}).

(** ** Transactions *)

Definition ACCOUNT_ID_NATIVE_ASSET_FAUCET : Z := 0xab0000000000cd200000ac000000de00.

(** An input note has an optional nullifier. *)
Record ProtoTransactionHeader := {
  pth_account_id : option bytes;
  pth_initial_state_commitment : option ProtoDigest;
  pth_final_state_commitment : option ProtoDigest;
  pth_input_notes : list (option ProtoDigest);
  pth_output_notes : list ProtoNoteHeader
}.

Definition input_note_nullifier (d : option ProtoDigest) : result RpcError Nullifier :=
  nullifier ← ok_or d (Rpc_ExpectedDataMissing "nullifier");
  word ← map_err (λ e, Rpc_InvalidResponse (RpcConversionError_to_string e)) (Word_try_from_digest nullifier);
  Ok (Nullifier_from_raw word).

(** The fee is always an empty amount of a fixed faucet. *)
Definition TransactionHeader_try_from (value : ProtoTransactionHeader) : eff RpcError TransactionHeader :=
  account_id ← lift (conversion (field (pth_account_id value) "TransactionHeader" "account_id"));
  initial ← lift (conversion (field (pth_initial_state_commitment value) "TransactionHeader"
    "initial_state_commitment"));
  final ← lift (conversion (field (pth_final_state_commitment value) "TransactionHeader"
    "final_state_commitment"));
  input_notes ← lift (try_map input_note_nullifier (pth_input_notes value));
  output_notes ← eff_map_err RpcError_of_conversion
    (eff_try_map NoteHeader_try_from (pth_output_notes value));
  account_id ← lift (conversion (AccountId_try_from account_id));
  initial ← lift (conversion (Word_try_from_digest initial));
  final ← lift (conversion (Word_try_from_digest final));
  faucet ← expect (AccountId_from_u128 ACCOUNT_ID_NATIVE_ASSET_FAUCET);
  match FungibleAsset_new faucet 0 with
  | Ok fee => mret (TransactionHeader_new account_id initial final input_notes output_notes fee)
  | Err _ => Panicked
  end.

Record ProtoTransactionRecord := {
  ptr_block_num : u32;
  ptr_header : option ProtoTransactionHeader
}.
Record ProtoSyncTransactionsResponse := {
  pst_pagination_info : option ProtoPaginationInfo;
  pst_transactions : list ProtoTransactionRecord
}.

Definition TransactionRecord_try_from (value : ProtoTransactionRecord) : eff RpcError RpcTransactionRecord :=
  transaction_header ← lift (conversion (field (ptr_header value) "TransactionRecord" "transaction_header"));
  transaction_header ← TransactionHeader_try_from transaction_header;
  mret {| rtx_block_num := ptr_block_num value; rtx_header := transaction_header |}.

Definition TransactionsInfo_try_from (value : ProtoSyncTransactionsResponse) : eff RpcError TransactionsInfo :=
  pagination_info ← lift (conversion (field (pst_pagination_info value) "SyncTransactionsResponse"
    "pagination_info"));
  transaction_records ← eff_try_map TransactionRecord_try_from (pst_transactions value);
  mret {| ti_chain_tip := ppi_chain_tip pagination_info; ti_block_num := ppi_block_num pagination_info;
          ti_transaction_records := transaction_records |}.
End notes.

(** ** What is read *)

Section facts.
Context `{NoteWireLib}.

(** Values of an [i32]. *)
Definition is_i32 (z : Z) : Prop := -2147483648 ≤ z ≤ 2147483647.

Lemma note_type_panics z : is_i32 z → note_type_of_i32 z = Panicked ↔ z < 0.
Proof.
  unfold is_i32, note_type_of_i32, Prelude.try_from, in_rangeb, U64_MAX. intros Hz.
  destruct (Z.leb_spec 0 z); cbn; [|by split].
  destruct (Z.leb_spec z 18446744073709551615); cbn; [|lia].
  split; [|lia]. by destruct (NoteType_try_from z).
Qed.

(** A node can bring the client down with one field.  Reading a note of a sync panics
    exactly when its sender is readable and its note type, a signed number of the
    message, is negative; every other malformed note is an error that the client
    returns. *)
Theorem sync_note_panics n :
  (∀ h, pns_metadata_header n = Some h → is_i32 (pmh_note_type h)) →
  CommittedNote_try_from n = Panicked ↔
  ∃ h sender account_id, pns_metadata_header n = Some h ∧ pmh_sender h = Some sender ∧
    AccountId_try_from sender = Ok account_id ∧ pmh_note_type h < 0.
Proof.
  intros Hi32. unfold CommittedNote_try_from.
  destruct (pns_metadata_header n) as [h|]; [|split; [done|by intros (h & ? & ? & [=] & _)]].
  specialize (Hi32 h eq_refl). pose proof (note_type_panics _ Hi32) as Hp. cbn -[note_type_of_i32].
  destruct (pmh_sender h) as [sender|] eqn:Es; cbn -[note_type_of_i32];
    [|split; [done|intros (h' & ? & ? & [= <-] & Hs & _); congruence]].
  destruct (AccountId_try_from sender) as [a|e] eqn:Ea; cbn -[note_type_of_i32];
    [|split; [done|intros (h' & ? & ? & [= <-] & Hs & Ha & _); congruence]].
  assert ((∃ h' sender' account_id, Some h = Some h' ∧ pmh_sender h' = Some sender' ∧
    AccountId_try_from sender' = Ok account_id ∧ pmh_note_type h' < 0) ↔ pmh_note_type h < 0) as ->.
  { split; [by intros (h' & ? & ? & [= <-] & _ & _ & ?)|]. intros. by exists h, sender, a. }
  rewrite <-Hp. destruct (note_type_of_i32 (pmh_note_type h)) as [[t|e]| |]; [|done..].
  split; [|done]. cbn. destruct (pns_inclusion_proof n) as [p|]; cbn; [|done].
  destruct (pip_note_id p) as [id|]; cbn; [|done]. destruct (NoteId_try_from id); cbn; [|done].
  by destruct (NoteInclusionProof_try_from p).
Qed.

Lemma note_metadata_roundtrip `{!WireLaws} `{!NoteWireLaws} m :
  NoteMetadata_try_from (proto_of_note_metadata m) = Finished (Ok m).
Proof.
  unfold NoteMetadata_try_from, proto_of_note_metadata, AccountId_try_from, note_type_of_i32,
    Prelude.try_from, in_rangeb, U64_MAX. cbn.
  rewrite AccountId_bytes_roundtrip. cbn.
  pose proof (NoteType_unsigned (NoteMetadata_note_type m)).
  pose proof (NoteType_bounded (NoteMetadata_note_type m)).
  rewrite (proj2 (Z.leb_le _ _)), (proj2 (Z.leb_le _ _)) by lia. cbn.
  rewrite NoteType_roundtrip. cbn. rewrite NoteTag_roundtrip. case_bool_decide as Ha; cbn.
  - by rewrite <-(NoteAttachment_empty _ Ha), NoteMetadata_rebuild.
  - rewrite NoteAttachment_roundtrip by done. cbn. by rewrite NoteMetadata_rebuild.
Qed.
End facts.

(** ** Witness *)

#[export] Instance toy_note_wire : @NoteWireLib toy_protocol _ _ _ _ toy_wire := {|
  NoteAttachment := unit;
  NoteAttachment_default := ();
  NoteAttachment_to_bytes := λ _, [];
  NoteAttachment_read_from_bytes := λ _, Ok ();
  NoteMetadata_attachment := λ _, ();
  NoteMetadata_new := λ sender note_type, (0, note_type, sender);
  NoteMetadata_with_tag := λ m tag, (tag, m.1.2, m.2);
  NoteMetadata_with_attachment := λ m _, m;
  NoteType_as_i32 := λ t : bool, if t then 2 else 1;
  NoteType_try_from := λ n, if n =? 2 then Ok true else if n =? 1 then Ok false else Err "note type"%string;
  NoteTag_new := λ t, t;
  NoteTag_as_u32 := λ t, t;
  NoteAttachmentKind_None := 0;
  NoteAttachmentKind_default := 0;
  NoteAttachmentKind_try_from := λ k, if k <? 2 then Some k else None;
  NoteInclusionProof_new := λ n i path, Ok (n, i, path.1);
  Nullifier_from_raw := λ w, ((w, w), (w, w));
  MastForest := bytes;
  MastForest_read_from_bytes := λ b, Ok b;
  MastNodeId := Z;
  MastNodeId_from_u32_safe := λ n _, Ok n;
  NoteScript_from_parts := λ _ n, n;
  TransactionId_as_word := λ t, t;
  AccountId_from_u128 := λ _, Some 7;
  TransactionHeader_new := λ a i f l _ _, ((0, a), (i, f), l)
|}.

#[export] Instance toy_note_wire_laws : NoteWireLaws.
Proof.
  split; try done.
  - by intros [].
  - intros []; cbn; lia.
  - intros []; cbn; lia.
  - by intros [].
  - by intros [[] ?].
Qed.

(** A note of account 7 with the given type. *)
Definition toy_sync_note (note_type : Z) : ProtoNoteSyncRecord := {|
  pns_metadata_header := Some {| pmh_sender := Some [7]; pmh_note_type := note_type; pmh_tag := 1;
    pmh_attachment_kind := 0 |};
  pns_inclusion_proof := Some {|
    pip_note_id := Some (Some (ProtoDigest_of_word (toy_word 5)));
    pip_block_num := 6; pip_note_index_in_block := 2;
    pip_inclusion_path := Some {| psp_empty_nodes_mask := 3; psp_siblings := [] |} |}
|}.

Lemma sync_note_panics_witness :
  CommittedNote_try_from (toy_sync_note (-1)) = Panicked ∧
  (CommittedNote_try_from (toy_sync_note 3) = Panicked → False).
Proof.
  split.
  - apply (sync_note_panics (toy_sync_note (-1))).
    + intros h [= <-]. unfold is_i32. cbn. lia.
    + eexists _, [7], (toy_account 7). split_and!; [reflexivity..|]. cbn. lia.
  - intros Hpanic. destruct (proj1 (sync_note_panics (toy_sync_note 3)
      ltac:(intros h [= <-]; unfold is_i32; cbn; lia)) Hpanic) as (h & s & a & [= <-] & _ & _ & Hneg).
    cbn in Hneg. lia.
Defined.
