(* ===== verification/AccountProofs.v ===== *)
(** * Accounts and their proofs as the node sends them

    [rpc/domain/account.rs], [storage_map.rs] and [account_vault.rs], and the requests
    of [rpc/tonic_client/mod.rs] for an account: the details of an account and the
    checks they pass, the proof of an account, and the reconstruction of a public
    account from its details and, for large accounts, from the history of its vault
    and its storage maps. *)

From S2P Require Import Prelude Protocol Serde Model NoteStates InputNote OutputNote TxRecord.
From S2P Require Import NodeErrors Errors NoteTracker Rpc Grpc AccountTypes SmtForest Sql Store AccountReaders Proto Stable.
From Stdlib Require Import ZArith Lia.
From stdpp Require Import base gmap list strings pretty.

Open Scope Z_scope.

(** Account witnesses, the constructors of storage maps and accounts, and the messages
    of the errors of names and slot types. *)
Class AccountWireLib `{ProofLib} `{!PartialAccountLib} := {
  AccountWitness : Type;
  AccountWitness_new : AccountId → Word → SparseMerklePath → result foreign AccountWitness;
  AccountWitness_id : AccountWitness → AccountId;
  AccountWitness_state_commitment : AccountWitness → Word;
  StorageSlotName_error : string → foreign;
  StorageSlotType_error : u8 → foreign;
  StorageMap_with_entries : list (StorageMapKey * Word) → result foreign StorageMap;
  AssetVaultKey_try_from : Word → result foreign AssetVaultKey;
  Account_new : AccountId → AssetVault → AccountStorage → AccountCode → u64 → option Word →
    result foreign Account
}.

(** What is built has the parts it is built from. *)
Class AccountWireLaws `{AccountWireLib} : Prop := {
  AccountWitness_new_spec id w path a :
    AccountWitness_new id w path = Ok a →
    AccountWitness_id a = id ∧ AccountWitness_state_commitment a = w;
  Account_new_spec id vault storage code nonce seed a :
    Account_new id vault storage code nonce seed = Ok a →
    Account_id a = id ∧ Account_nonce a = nonce ∧ Account_code a = code ∧
    Account_vault a = vault ∧ Account_storage a = storage
}.

(** A page of [sync_storage_maps] or [sync_account_vault]: its stop and the chain tip,
    and its updates. *)
Record ProtoPage (U : Type) := {
  page_info : option (u32 * u32);
  page_updates : list U
}.
Arguments page_info {U} _.
Arguments page_updates {U} _.

Section domain.
Context `{AccountWireLib}.

(** ** Headers *)

Record ProtoAccountHeader := {
  pah_account_id : option bytes;
  pah_nonce : u64;
  pah_vault_root : option ProtoDigest;
  pah_storage_commitment : option ProtoDigest;
  pah_code_commitment : option ProtoDigest
}.

Definition proto_of_account_id (account_id : AccountId) : bytes := AccountId_to_bytes account_id.

(** A digest field of a message that must be there. *)
Definition digest_field (o : option ProtoDigest) (entity field_name : string) : result RpcError Word :=
  conversion (value ← field o entity field_name; Word_try_from_digest value).

Definition AccountHeader_try_from (value : ProtoAccountHeader) : result RpcError AccountHeader :=
  account_id ← conversion (id ← field (pah_account_id value) "AccountHeader" "account_id";
    AccountId_try_from id);
  vault_root ← digest_field (pah_vault_root value) "AccountHeader" "vault_root";
  storage_commitment ← digest_field (pah_storage_commitment value) "AccountHeader" "storage_commitment";
  code_commitment ← digest_field (pah_code_commitment value) "AccountHeader" "code_commitment";
  Ok (AccountHeader_new account_id (pah_nonce value) vault_root storage_commitment code_commitment).

Abbreviation StorageSlotHeader := (StorageSlotName * StorageSlotType * Word)%type (only parsing).

Record ProtoStorageSlot := {
  pss_slot_name : string;
  pss_slot_type : u32;
  pss_commitment : option ProtoDigest
}.

(** The message of [TryFromIntError]. *)
Definition int_out_of_range : string := "out of range integral type conversion attempted".

Definition StorageSlotHeader_try_from (slot : ProtoStorageSlot) : result RpcError StorageSlotHeader :=
  slot_value ← digest_field (pss_commitment slot) "StorageSlot" "commitment";
  v ← ok_or (Prelude.try_from U8_MAX (pss_slot_type slot)) (Rpc_InvalidResponse int_out_of_range);
  slot_type ← ok_or (StorageSlotType_try_from v) (Rpc_InvalidResponse (StorageSlotType_error v));
  slot_name ← ok_or (StorageSlotName_new (pss_slot_name slot))
    (Rpc_InvalidResponse (StorageSlotName_error (pss_slot_name slot)));
  Ok (slot_name, slot_type, slot_value).

Definition AccountStorageHeader_try_from (slots : list ProtoStorageSlot) :
    result RpcError (list StorageSlotHeader) :=
  header_slots ← try_map StorageSlotHeader_try_from slots;
  map_err Rpc_InvalidResponse
    (AccountStorageHeader_new (sort_by_key (λ slot, StorageSlotName_id slot.1.1) header_slots)).

(** ** Storage maps *)

Record StorageMapEntry := { sme_key : StorageMapKey; sme_value : Word }.

Inductive StorageMapEntries :=
| AllEntries (entries : list StorageMapEntry)
| EntriesWithProofs (proofs : list SmtProof).

Definition into_storage_map (self : StorageMapEntries) : option (result foreign StorageMap) :=
  match self with
  | AllEntries entries => Some (StorageMap_with_entries ((λ e, (sme_key e, sme_value e)) <$> entries))
  | EntriesWithProofs _ => None
  end.

Record AccountStorageMapDetails := {
  md_slot_name : StorageSlotName;
  md_too_many_entries : bool;
  md_entries : StorageMapEntries
}.

Record AccountStorageDetails := {
  sd_header : list StorageSlotHeader;
  sd_map_details : list AccountStorageMapDetails
}.

Definition find_map_details (self : AccountStorageDetails) (target : StorageSlotName) :
    option AccountStorageMapDetails :=
  head (filter (λ map_detail, md_slot_name map_detail = target) (sd_map_details self)).

Record ProtoStorageMapEntry := { pme_key : option ProtoDigest; pme_value : option ProtoDigest }.
Inductive ProtoMapEntries :=
| Proto_AllEntries (entries : list ProtoStorageMapEntry)
| Proto_EntriesWithProofs (entries : list (option ProtoSmtOpening)).
Record ProtoStorageMapDetails := {
  pmd_slot_name : string;
  pmd_too_many_entries : bool;
  pmd_entries : option ProtoMapEntries
}.
Record ProtoStorageDetails := {
  psd_header : option (list ProtoStorageSlot);
  psd_map_details : list ProtoStorageMapDetails
}.

Definition StorageMapEntry_try_from (value : ProtoStorageMapEntry) : result RpcError StorageMapEntry :=
  key ← ok_or (pme_key value) (Rpc_ExpectedDataMissing "key");
  key ← conversion (StorageMapKey_try_from_digest key);
  entry_value ← ok_or (pme_value value) (Rpc_ExpectedDataMissing "value");
  entry_value ← conversion (Word_try_from_digest entry_value);
  Ok {| sme_key := key; sme_value := entry_value |}.

Definition entry_proof (entry : option ProtoSmtOpening) : result RpcError SmtProof :=
  proof ← ok_or entry (Rpc_ExpectedDataMissing "proof");
  conversion (SmtProof_try_from proof).

Definition AccountStorageMapDetails_try_from (value : ProtoStorageMapDetails) :
    result RpcError AccountStorageMapDetails :=
  slot_name ← ok_or (StorageSlotName_new (pmd_slot_name value))
    (Rpc_ExpectedDataMissing (StorageSlotName_error (pmd_slot_name value)));
  entries ← match pmd_entries value with
    | Some (Proto_AllEntries all_entries) => AllEntries <$> try_map StorageMapEntry_try_from all_entries
    | Some (Proto_EntriesWithProofs entries) => EntriesWithProofs <$> try_map entry_proof entries
    | None => Ok (AllEntries [])
    end;
  Ok {| md_slot_name := slot_name; md_too_many_entries := pmd_too_many_entries value;
        md_entries := entries |}.

Definition AccountStorageDetails_try_from (value : ProtoStorageDetails) :
    result RpcError AccountStorageDetails :=
  slots ← conversion (field (psd_header value) "AccountStorageHeader" "header");
  header ← AccountStorageHeader_try_from slots;
  map_details ← try_map AccountStorageMapDetails_try_from (psd_map_details value);
  Ok {| sd_header := header; sd_map_details := map_details |}.

(** *** [rpc/domain/storage_map.rs] *)

Record StorageMapUpdate := {
  smu_block_num : BlockNumber;
  smu_slot_name : StorageSlotName;
  smu_key : StorageMapKey;
  smu_value : Word
}.

Record ProtoStorageMapUpdate := {
  psu_block_num : u32;
  psu_slot_name : string;
  psu_key : option ProtoDigest;
  psu_value : option ProtoDigest
}.

Definition StorageMapUpdate_try_from (value : ProtoStorageMapUpdate) :
    result RpcConversionError StorageMapUpdate :=
  slot_name ← ok_or (StorageSlotName_new (psu_slot_name value))
    (Conv_InvalidField (StorageSlotName_error (psu_slot_name value)));
  key ← field (psu_key value) "StorageMapUpdate" "key";
  key ← StorageMapKey_try_from_digest key;
  new_value ← field (psu_value value) "StorageMapUpdate" "value";
  new_value ← Word_try_from_digest new_value;
  Ok {| smu_block_num := psu_block_num value; smu_slot_name := slot_name; smu_key := key;
        smu_value := new_value |}.

Definition StorageMapInfo_try_from (value : ProtoPage ProtoStorageMapUpdate) :
    result RpcError (StorageMapInfo StorageMapUpdate) :=
  '(block_num, chain_tip) ← conversion (field (page_info value) "SyncAccountStorageMapsResponse"
    "pagination_info");
  updates ← conversion (try_map StorageMapUpdate_try_from (page_updates value));
  Ok {| smi_chain_tip := chain_tip; smi_block_number := block_num; smi_updates := updates |}.

(** ** The vault ([rpc/domain/account_vault.rs]) *)

Record ProtoAsset := { pas_key : option ProtoDigest; pas_value : option ProtoDigest }.

Definition Asset_try_from (value : ProtoAsset) : result RpcConversionError Asset :=
  key_word ← field (pas_key value) "Asset" "key";
  key_word ← Word_try_from_digest key_word;
  value_word ← field (pas_value value) "Asset" "value";
  value_word ← Word_try_from_digest value_word;
  map_err Conv_InvalidField (Asset_from_key_value_words key_word value_word).

Record AccountVaultDetails := { vd_too_many_assets : bool; vd_assets : list Asset }.
Record ProtoVaultDetails := { pvd_too_many_assets : bool; pvd_assets : list ProtoAsset }.

Definition AccountVaultDetails_try_from (value : ProtoVaultDetails) : result RpcError AccountVaultDetails :=
  assets ← conversion (try_map Asset_try_from (pvd_assets value));
  Ok {| vd_too_many_assets := pvd_too_many_assets value; vd_assets := assets |}.

Record AccountVaultUpdate := {
  avu_block_num : BlockNumber;
  avu_asset : option Asset;
  avu_vault_key : AssetVaultKey
}.
Record ProtoVaultUpdate := {
  pvu_block_num : u32;
  pvu_asset : option ProtoAsset;
  pvu_vault_key : option ProtoDigest
}.

Definition AccountVaultUpdate_try_from (value : ProtoVaultUpdate) : result RpcError AccountVaultUpdate :=
  vault_key_inner ← digest_field (pvu_vault_key value) "SyncAccountVaultResponse" "vault_key";
  vault_key ← map_err Rpc_InvalidResponse (AssetVaultKey_try_from vault_key_inner);
  asset ← match pvu_asset value with
    | Some asset => Some <$> conversion (Asset_try_from asset)
    | None => Ok None
    end;
  let mismatched := match asset with
    | Some asset => bool_decide (Asset_vault_key asset ≠ vault_key)
    | None => false
    end in
  if mismatched then Err (Rpc_InvalidResponse "account vault update returned mismatched asset key")
  else Ok {| avu_block_num := pvu_block_num value; avu_asset := asset; avu_vault_key := vault_key |}.

Definition AccountVaultInfo_try_from (value : ProtoPage ProtoVaultUpdate) :
    result RpcError (AccountVaultInfo AccountVaultUpdate) :=
  '(block_num, chain_tip) ← conversion (field (page_info value) "SyncAccountVaultResponse"
    "pagination_info");
  updates ← try_map AccountVaultUpdate_try_from (page_updates value);
  Ok {| avi_chain_tip := chain_tip; avi_block_number := block_num; avi_updates := updates |}.

(** ** Details of an account *)

Record AccountDetails := {
  det_header : AccountHeader;
  det_storage_details : AccountStorageDetails;
  det_code : AccountCode;
  det_vault_details : AccountVaultDetails
}.

Record ProtoAccountDetails := {
  pad_header : option ProtoAccountHeader;
  pad_storage_details : option ProtoStorageDetails;
  pad_code : option bytes;
  pad_vault_details : option ProtoVaultDetails
}.

(** The inner loop over the proofs and the keys they were requested for. *)
Definition check_proof (proof_key : SmtProof * StorageMapKey) : result RpcError () :=
  match SmtProof_get proof_key.1 (StorageMapKey_hash proof_key.2) with
  | None => Err (Rpc_InvalidResponse ("proof for storage map key " +:+
      Word_to_hex (StorageMapKey_as_word proof_key.2) +:+ " does not match the requested key"))
  | Some _ => Ok ()
  end.

(** The body of the loop over the details of the maps. *)
Definition check_map_detail (storage_requirements : AccountStorageRequirements)
    (map_detail : AccountStorageMapDetails) : result RpcError () :=
  let requested_keys := default [] (storage_requirements !! md_slot_name map_detail) in
  match md_entries map_detail with
  | AllEntries _ => Ok ()
  | EntriesWithProofs proofs =>
      if negb (length proofs =? length requested_keys)%nat then
        Err (Rpc_InvalidResponse ("expected " +:+ pretty (length requested_keys) +:+
          " proofs for storage map slot '" +:+ StorageSlotName_to_string (md_slot_name map_detail) +:+
          "', got " +:+ pretty (length proofs)))
      else _ ← try_map check_proof (zip proofs requested_keys); Ok ()
  end.

Definition into_domain (self : ProtoAccountDetails) (known_account_codes : gmap Word AccountCode)
    (storage_requirements : AccountStorageRequirements) : result RpcError AccountDetails :=
  header ← conversion (field (pad_header self) "AccountDetails" "header");
  header ← AccountHeader_try_from header;
  storage_details ← conversion (field (pad_storage_details self) "AccountDetails" "storage_details");
  storage_details ← AccountStorageDetails_try_from storage_details;
  _ ← try_map (check_map_detail storage_requirements) (sd_map_details storage_details);
  code ← match pad_code self with
    | Some c => map_err Rpc_DeserializationError (AccountCode_from_bytes c)
    | None => ok_or (known_account_codes !! AccountHeader_code_commitment header) (Rpc_InvalidResponse
        "Account code was not provided, but the response did not contain it either")
    end;
  vault_details ← conversion (field (pad_vault_details self) "AccountVaultDetails" "vault_details");
  vault_details ← AccountVaultDetails_try_from vault_details;
  Ok {| det_header := header; det_storage_details := storage_details; det_code := code;
        det_vault_details := vault_details |}.

(** ** Proofs of an account *)

Record AccountProof := {
  ap_account_witness : AccountWitness;
  ap_state_headers : option AccountDetails
}.

Inductive AccountProofError :=
| InconsistentAccountCommitment
| InconsistentAccountId
| InconsistentCodeCommitment.

Definition AccountProofError_to_string (self : AccountProofError) : string :=
  match self with
  | InconsistentAccountCommitment =>
      "the received account commitment doesn't match the received account header's commitment"
  | InconsistentAccountId => "the received account id doesn't match the received account header's id"
  | InconsistentCodeCommitment =>
      "the received code commitment doesn't match the received account header's code commitment"
  end.

Definition AccountProof_new (account_witness : AccountWitness) (account_details : option AccountDetails) :
    result AccountProofError AccountProof :=
  let proof := {| ap_account_witness := account_witness; ap_state_headers := account_details |} in
  match account_details with
  | Some details =>
      if bool_decide (AccountHeader_to_commitment (det_header details) ≠
          AccountWitness_state_commitment account_witness) then Err InconsistentAccountCommitment
      else if bool_decide (AccountHeader_id (det_header details) ≠ AccountWitness_id account_witness)
        then Err InconsistentAccountId
      else if bool_decide (AccountCode_commitment (det_code details) ≠
          AccountHeader_code_commitment (det_header details)) then Err InconsistentCodeCommitment
      else Ok proof
  | None => Ok proof
  end.

Definition AccountProof_account_id (self : AccountProof) : AccountId :=
  AccountWitness_id (ap_account_witness self).
Definition AccountProof_account_commitment (self : AccountProof) : Word :=
  AccountWitness_state_commitment (ap_account_witness self).
Definition AccountProof_account_header (self : AccountProof) : option AccountHeader :=
  det_header <$> ap_state_headers self.
Definition AccountProof_storage_header (self : AccountProof) : option (list StorageSlotHeader) :=
  (λ d, sd_header (det_storage_details d)) <$> ap_state_headers self.
Definition AccountProof_storage_details (self : AccountProof) : option AccountStorageDetails :=
  det_storage_details <$> ap_state_headers self.
Definition AccountProof_find_map_details (self : AccountProof) (slot_name : StorageSlotName) :
    option AccountStorageMapDetails :=
  details ← ap_state_headers self; find_map_details (det_storage_details details) slot_name.
Definition AccountProof_account_code (self : AccountProof) : option AccountCode :=
  det_code <$> ap_state_headers self.
Definition AccountProof_code_commitment (self : AccountProof) : option Word :=
  AccountCode_commitment <$> AccountProof_account_code self.
Definition AccountProof_into_parts (self : AccountProof) : AccountWitness * option AccountDetails :=
  (ap_account_witness self, ap_state_headers self).

Record ProtoAccountWitness := {
  paw_witness_id : option bytes;
  paw_commitment : option ProtoDigest;
  paw_path : option ProtoSparsePath
}.

(** The witness is unwrapped. *)
Definition AccountWitness_try_from (account_witness : ProtoAccountWitness) : eff RpcError AccountWitness :=
  state_commitment ← lift (digest_field (paw_commitment account_witness) "AccountWitness" "state_commitment");
  merkle_path ← lift (conversion (path ← field (paw_path account_witness) "AccountWitness" "merkle_path";
    SparseMerklePath_try_from path));
  account_id ← lift (conversion (id ← field (paw_witness_id account_witness) "AccountWitness" "witness_id";
    AccountId_try_from id));
  match AccountWitness_new account_id state_commitment merkle_path with
  | Ok witness => mret witness
  | Err _ => Panicked
  end.

Record ProtoAccountResponse := {
  pres_block_num : option u32;
  pres_witness : option ProtoAccountWitness;
  pres_details : option ProtoAccountDetails
}.

Definition AccountProof_try_from (account_proof : ProtoAccountResponse) : eff RpcError AccountProof :=
  witness ← lift (ok_or (pres_witness account_proof)
    (Rpc_ExpectedDataMissing "GetAccountProof returned an account without witness"));
  details ← lift match pres_details account_proof with
    | None => Ok None
    | Some details => Some <$> into_domain details ∅ ∅
    end;
  witness ← AccountWitness_try_from witness;
  lift (map_err (λ err, Rpc_InvalidResponse (AccountProofError_to_string err))
    (AccountProof_new witness details)).

(** ** Requests *)

Inductive SlotData :=
| SlotData_AllEntries (all : bool)
| SlotData_MapKeys (map_keys : list ProtoDigest).
Record StorageMapDetailRequest := { smr_slot_name : string; smr_slot_data : option SlotData }.

(** [From<AccountStorageRequirements> for Vec<StorageMapDetailRequest>]. *)
Definition map_detail_requests (value : AccountStorageRequirements) : list StorageMapDetailRequest :=
  (λ '(slot_name, map_keys), {|
    smr_slot_name := StorageSlotName_to_string slot_name;
    smr_slot_data :=
      if bool_decide (map_keys = []) then Some (SlotData_AllEntries true)
      else Some (SlotData_MapKeys ((λ key, ProtoDigest_of_word (StorageMapKey_as_word key)) <$> map_keys))
  |}) <$> btree_to_list value.

Record ProtoDetailRequest := {
  pdr_code_commitment : option ProtoDigest;
  pdr_asset_vault_commitment : option ProtoDigest;
  pdr_storage_maps : list StorageMapDetailRequest
}.
Record ProtoAccountRequest := {
  par_account_id : option bytes;
  par_block_num : option u32;
  par_details : option ProtoDetailRequest
}.

(** [AccountStateAt] of [rpc/mod.rs]. *)
Inductive AccountStateAt := ChainTip | AtBlock (block_num : BlockNumber).
End domain.

(** ** The requests for an account ([tonic_client/mod.rs]) *)

Section grpc.
Context `{AccountWireLib}.
(** The answer to the [t]-th request for an account, and the pages of the updates of
    the vault and the storage maps of an account. *)
Variable get_account_at : nat → ProtoAccountRequest → result RpcError ProtoAccountResponse.
Variable vault_page :
  AccountId → nat → BlockNumber → option BlockNumber → result RpcError (ProtoPage ProtoVaultUpdate).
Variable storage_maps_page :
  AccountId → nat → BlockNumber → option BlockNumber → result RpcError (ProtoPage ProtoStorageMapUpdate).

Definition EMPTY_DIGEST : option ProtoDigest := Some (ProtoDigest_of_word EMPTY_WORD).

Definition grpc_sync_account_vault (block_from : BlockNumber) (block_to : option BlockNumber)
    (account_id : AccountId) : eff RpcError (AccountVaultInfo AccountVaultUpdate) :=
  sync_account_vault (λ t from to, page ← vault_page account_id t from to;
    Ok {| pr_page := page_info page;
          pr_items := try_map AccountVaultUpdate_try_from (page_updates page) |}) block_from block_to.

Definition grpc_sync_storage_maps (block_from : BlockNumber) (block_to : option BlockNumber)
    (account_id : AccountId) : eff RpcError (StorageMapInfo StorageMapUpdate) :=
  sync_storage_maps (λ t from to, page ← storage_maps_page account_id t from to;
    Ok {| pr_page := page_info page;
          pr_items := conversion (try_map StorageMapUpdate_try_from (page_updates page)) |})
    block_from block_to.

(** What is asked about an account that the client knows nothing about. *)
Definition full_request (account_id : AccountId) (details : option (list StorageMapDetailRequest)) :
    ProtoAccountRequest := {|
  par_account_id := Some (proto_of_account_id account_id);
  par_block_num := None;
  par_details := (λ storage_maps, {|
    pdr_code_commitment := EMPTY_DIGEST;
    pdr_asset_vault_commitment := EMPTY_DIGEST;
    pdr_storage_maps := storage_maps |}) <$> details
|}.

(** The second request is for all entries of the maps that the first answer names. *)
Definition fetch_full_account_proof (account_id : AccountId) :
    eff RpcError (BlockNumber * AccountProof) :=
  let has_public_state := AccountId_has_public_state account_id in
  account_response ← lift (get_account_at 0
    (full_request account_id (if has_public_state then Some [] else None)));
  block_number ← lift (ok_or (pres_block_num account_response) (Rpc_ExpectedDataMissing
    "GetAccountDetails returned an account without a matching block number for the witness"));
  account_proof ←
    (if has_public_state then
       account_details ← lift (ok_or (pres_details account_response)
         (Rpc_ExpectedDataMissing "details in public account"));
       account_details ← lift (into_domain account_details ∅ ∅);
       let storage_header := sd_header (det_storage_details account_details) in
       let maps_to_request := (λ slot, StorageSlotName_to_string slot.1.1) <$>
         filter (λ slot : StorageSlotName * StorageSlotType * Word, slot.1.2 = SlotType_Map)
           storage_header in
       response ← lift (get_account_at 1 (full_request account_id (Some
         ((λ slot_name, {| smr_slot_name := slot_name;
             smr_slot_data := Some (SlotData_AllEntries true) |}) <$> maps_to_request))));
       AccountProof_try_from response
     else AccountProof_try_from account_response);
  mret (block_number, account_proof).

(** The entries of a map from the updates of all maps: the latest value of each key. *)
Definition latest_entries (updates : list StorageMapUpdate) (slot_name : StorageSlotName) :
    list (StorageMapKey * Word) :=
  let sorted_updates := sort_by_key smu_block_num
    (filter (λ u, smu_slot_name u = slot_name) updates) in
  btree_to_list (btree_collect ((λ u, (smu_key u, smu_value u)) <$> sorted_updates)).

(** One slot; the answer of [sync_storage_maps] is kept for the slots that follow. *)
Definition build_storage_slot (account_id : AccountId) (storage_details : AccountStorageDetails)
    (acc : list (StorageSlotName * (Word + StorageMap)) * option (StorageMapInfo StorageMapUpdate))
    (slot_header : StorageSlotName * StorageSlotType * Word) :
    eff RpcError (list (StorageSlotName * (Word + StorageMap)) *
      option (StorageMapInfo StorageMapUpdate)) :=
  let '(slots, map_cache) := acc in
  let name := slot_header.1.1 in
  match slot_header.1.2 with
  | SlotType_Value => mret (slots ++ [(name, inl slot_header.2)], map_cache)
  | SlotType_Map =>
      map_details ← lift (ok_or (find_map_details storage_details name) (Rpc_ExpectedDataMissing
        ("slot named '" +:+ StorageSlotName_to_string name +:+
         "' was reported as a map, but it does not have a matching map_detail entry")));
      '(storage_map, map_cache) ←
        (if md_too_many_entries map_details then
           map_info ← match map_cache with
             | Some info => mret info
             | None => grpc_sync_storage_maps 0 None account_id
             end;
           mret (StorageMap_with_entries (latest_entries (smi_updates map_info) name), Some map_info)
         else
           m ← lift (ok_or (into_storage_map (md_entries map_details)) (Rpc_ExpectedDataMissing
             "expected AllEntries for full account fetch, got EntriesWithProofs"));
           mret (m, map_cache));
      storage_map ← lift (map_err (λ err, Rpc_InvalidResponse
        ("the rpc api returned a non-valid map entry: " +:+ err)) storage_map);
      mret (slots ++ [(name, inr storage_map)], map_cache)
  end.

Definition build_storage_slots (account_id : AccountId) (storage_details : AccountStorageDetails) :
    eff RpcError (list (StorageSlotName * (Word + StorageMap))) :=
  '(slots, _) ← eff_fold (build_storage_slot account_id storage_details) (sd_header storage_details)
    ([], None);
  mret slots.

(** The assets of a vault from its updates: the latest of each key, if it is there. *)
Definition latest_assets (updates : list AccountVaultUpdate) : list Asset :=
  omap id (btree_values (btree_collect
    ((λ u, (avu_vault_key u, avu_asset u)) <$> sort_by_key avu_block_num updates))).

Definition get_account_details (account_id : AccountId) : eff RpcError FetchedAccount :=
  '(block_number, full_account_proof) ← fetch_full_account_proof account_id;
  let update_summary := {| aus_commitment := AccountProof_account_commitment full_account_proof;
    aus_last_block_num := block_number |} in
  if AccountId_is_private account_id then mret (FetchedAccount_Private account_id update_summary)
  else
    details ← lift (ok_or (AccountProof_into_parts full_account_proof).2 (Rpc_ExpectedDataMissing
      "GetAccountDetails returned a public account without details"));
    let account_id := AccountHeader_id (det_header details) in
    let nonce := AccountHeader_nonce (det_header details) in
    assets ←
      (if vd_too_many_assets (det_vault_details details) then
         vault_info ← grpc_sync_account_vault 0 None account_id;
         mret (latest_assets (avi_updates vault_info))
       else mret (vd_assets (det_vault_details details)));
    slots ← build_storage_slots account_id (det_storage_details details);
    asset_vault ← lift (map_err (λ err, Rpc_InvalidResponse
      ("api rpc returned non-valid assets: " +:+ err)) (AssetVault_new assets));
    account_storage ← lift (map_err (λ err, Rpc_InvalidResponse
      ("api rpc returned non-valid storage slots: " +:+ err)) (AccountStorage_new slots));
    account ← lift (map_err (λ err, Rpc_InvalidResponse
      ("failed to instance an account from the rpc api response: " +:+ err))
      (Account_new account_id asset_vault account_storage (det_code details) nonce None));
    mret (FetchedAccount_Public account update_summary).

Definition get_account_proof (account_id : AccountId)
    (storage_requirements : AccountStorageRequirements) (account_state : AccountStateAt)
    (known_account_code : option AccountCode) : eff RpcError (BlockNumber * AccountProof) :=
  let known_codes_by_commitment : gmap Word AccountCode :=
    match known_account_code with
    | Some account_code => {[ AccountCode_commitment account_code := account_code ]}
    | None => ∅
    end in
  let account_details :=
    if AccountId_has_public_state account_id then Some {|
      pdr_code_commitment := EMPTY_DIGEST;
      pdr_asset_vault_commitment := None;
      pdr_storage_maps := map_detail_requests storage_requirements |}
    else None in
  let block_num := match account_state with AtBlock number => Some number | ChainTip => None end in
  response ← lift (get_account_at 0 {| par_account_id := Some (proto_of_account_id account_id);
    par_block_num := block_num; par_details := account_details |});
  account_witness ← lift (ok_or (pres_witness response) (Rpc_ExpectedDataMissing "AccountWitness"));
  account_witness ← AccountWitness_try_from account_witness;
  headers ←
    (if AccountId_has_public_state (AccountWitness_id account_witness) then
       details ← lift (ok_or (pres_details response) (Rpc_ExpectedDataMissing "Account.Details"));
       details ← lift (into_domain details known_codes_by_commitment storage_requirements);
       mret (Some details)
     else mret None);
  proof ← lift (map_err (λ err, Rpc_InvalidResponse (AccountProofError_to_string err))
    (AccountProof_new account_witness headers));
  block_num ← lift (ok_or (pres_block_num response) (Rpc_ExpectedDataMissing "response block num"));
  mret (block_num, proof).
End grpc.
