(* ===== verification/AccountProofSpec.v ===== *)
(** * What the client knows of an account it fetched

    The account that [get_account_details] returns agrees with the commitment of the
    witness in its identifier, nonce and code; its storage slots are those of the
    header, and a large map holds the latest value of each of its keys. *)

From S2P Require Import Prelude Protocol Serde Model NoteStates InputNote OutputNote TxRecord.
From S2P Require Import NodeErrors Errors NoteTracker Rpc Grpc AccountTypes SmtForest Sql Store.
From S2P Require Import AccountReaders ChainSpec Proto Stable AccountProofs.
From Stdlib Require Import ZArith Lia.
From stdpp Require Import base gmap list strings pretty.

Open Scope Z_scope.

(** Inverting the binds of a computation that returned a value. *)
Ltac eff_inv Hrun :=
  repeat match type of Hrun with
  | (_ ≫= _) = Finished (Ok _) => apply eff_bind_Ok in Hrun as (? & ? & Hrun)
  end.

Section facts.
Context `{AccountWireLib}.

Lemma eff_fold_forall2 {E A B} (f : list B * E → A → eff RpcError (list B * E)) (P : A → B → Prop)
    (I : E → Prop) l acc acc' :
  (∀ bs e a r, I e → f (bs, e) a = Finished (Ok r) → ∃ b, r.1 = bs ++ [b] ∧ P a b ∧ I r.2) →
  I acc.2 → eff_fold f l acc = Finished (Ok acc') → ∃ bs, acc'.1 = acc.1 ++ bs ∧ Forall2 P l bs.
Proof.
  intros Hstep. revert acc. induction l as [|a l IH]; intros acc HI Hrun; cbn in Hrun.
  { injection Hrun as <-. exists []. split; [by rewrite app_nil_r|constructor]. }
  apply eff_bind_Ok in Hrun as (acc1 & Hf & Hrun). destruct acc as [bs e].
  destruct (Hstep _ _ _ _ HI Hf) as (b & Hb & HP & HI').
  destruct (IH _ HI' Hrun) as (bs' & Hbs & Hall). exists (b :: bs').
  rewrite Hbs, Hb, <-app_assoc. by split; [|constructor].
Qed.

(** ** Proofs *)

(** The details of a proof are those that its witness commits to. *)
Definition details_committed (w : Word) (id : AccountId) (d : AccountDetails) : Prop :=
  AccountHeader_to_commitment (det_header d) = w ∧ AccountHeader_id (det_header d) = id ∧
  AccountCode_commitment (det_code d) = AccountHeader_code_commitment (det_header d).

Definition proof_consistent (p : AccountProof) : Prop :=
  ∀ d, ap_state_headers p = Some d →
  details_committed (AccountProof_account_commitment p) (AccountProof_account_id p) d.

Lemma AccountProof_new_consistent w d p : AccountProof_new w d = Ok p → proof_consistent p.
Proof.
  unfold AccountProof_new, proof_consistent, details_committed. destruct d as [d|]; [|by intros [= <-]].
  repeat case_bool_decide; try done. intros [= <-] d' [= <-].
  split_and!; apply dec_stable; tauto.
Qed.

Lemma AccountProof_try_from_consistent r p :
  AccountProof_try_from r = Finished (Ok p) → proof_consistent p.
Proof.
  intros Hrun. unfold AccountProof_try_from in Hrun. eff_inv Hrun.
  unfold lift in Hrun. destruct (AccountProof_new _ _) eqn:E; [|done].
  injection Hrun as <-. by eapply AccountProof_new_consistent.
Qed.

Context (get_account_at : nat → ProtoAccountRequest → result RpcError ProtoAccountResponse).
Context (vault_page :
  AccountId → nat → BlockNumber → option BlockNumber → result RpcError (ProtoPage ProtoVaultUpdate)).
Context (storage_maps_page :
  AccountId → nat → BlockNumber → option BlockNumber → result RpcError (ProtoPage ProtoStorageMapUpdate)).

Lemma fetched_proof_consistent id n p :
  fetch_full_account_proof get_account_at id = Finished (Ok (n, p)) → proof_consistent p.
Proof.
  intros Hrun. unfold fetch_full_account_proof in Hrun.
  apply eff_bind_Ok in Hrun as (r & _ & Hrun). apply eff_bind_Ok in Hrun as (b & _ & Hrun).
  apply eff_bind_Ok in Hrun as (p' & Hp & Hrun). injection Hrun as _ ->.
  destruct (AccountId_has_public_state id); [eff_inv Hp|]; by eapply AccountProof_try_from_consistent.
Qed.

(** C10: A fetched public account is the one that the node committed to, as far as the
    client checks it.  The commitment that the client is told is that of a header with
    the identifier and the nonce of the account it gets, and the code of the account is
    the code that this header commits to. *)
Theorem fetched_account_is_committed `{!AccountWireLaws} id account summary :
  get_account_details get_account_at vault_page storage_maps_page id =
    Finished (Ok (FetchedAccount_Public account summary)) →
  ∃ header, AccountHeader_to_commitment header = aus_commitment summary ∧
    Account_id account = AccountHeader_id header ∧ Account_nonce account = AccountHeader_nonce header ∧
    AccountCode_commitment (Account_code account) = AccountHeader_code_commitment header.
Proof.
  intros Hrun. unfold get_account_details in Hrun.
  apply eff_bind_Ok in Hrun as ([n p] & Hfetch & Hrun). apply fetched_proof_consistent in Hfetch.
  cbn beta iota in Hrun. destruct (AccountId_is_private id); [by simplify_eq|].
  apply eff_bind_Ok in Hrun as (d & Hd & Hrun).
  apply eff_bind_Ok in Hrun as (assets & _ & Hrun). apply eff_bind_Ok in Hrun as (slots & _ & Hrun).
  apply eff_bind_Ok in Hrun as (vault & _ & Hrun). apply eff_bind_Ok in Hrun as (storage & _ & Hrun).
  apply eff_bind_Ok in Hrun as (a & Ha & Hrun). injection Hrun as <- <-.
  unfold AccountProof_into_parts, lift in *. cbn [snd] in Hd.
  destruct (ap_state_headers p) as [d'|] eqn:Ed; [|done]. injection Hd as <-.
  destruct (Hfetch _ Ed) as (Hc & Hi & Hcode). exists (det_header d').
  destruct (Account_new _ _ _ _ _ _) as [a'|] eqn:En; [|done]. injection Ha as <-.
  apply Account_new_spec in En as (-> & -> & -> & _). auto.
Qed.

(** ** Storage *)

Abbreviation latest_map_update name key updates :=
  (last_greatest smu_block_num
    (filter (λ u, smu_key u = key) (filter (λ u, smu_slot_name u = name) updates))).

(** A large map: the node's updates of the account from the genesis on, and for each
    key that they name the value of the latest one. *)
Definition large_map_ok (id : AccountId) (name : StorageSlotName) (m : StorageMap) : Prop :=
  ∃ info entries, grpc_sync_storage_maps storage_maps_page 0 None id = Finished (Ok info) ∧
    StorageMap_with_entries entries = Ok m ∧ NoDup entries.*1 ∧
    (∀ k v, (k, v) ∈ entries → ∃ u, latest_map_update name k (smi_updates info) u ∧ smu_value u = v) ∧
    (∀ u, u ∈ smi_updates info → smu_slot_name u = name → smu_key u ∈ entries.*1).

Definition slot_ok (id : AccountId) (details : AccountStorageDetails)
    (slot_header : StorageSlotName * StorageSlotType * Word)
    (slot : StorageSlotName * (Word + StorageMap)) : Prop :=
  slot.1 = slot_header.1.1 ∧
  match slot_header.1.2 with
  | SlotType_Value => slot.2 = inl slot_header.2
  | SlotType_Map => ∃ map_details m, find_map_details details slot.1 = Some map_details ∧ slot.2 = inr m ∧
      if md_too_many_entries map_details then large_map_ok id slot.1 m
      else ∃ entries, md_entries map_details = AllEntries entries ∧
        StorageMap_with_entries ((λ e, (sme_key e, sme_value e)) <$> entries) = Ok m
  end.

Lemma latest_entries_ok id name info m :
  grpc_sync_storage_maps storage_maps_page 0 None id = Finished (Ok info) →
  StorageMap_with_entries (latest_entries (smi_updates info) name) = Ok m → large_map_ok id name m.
Proof.
  intros Hinfo Hm. exists info, (latest_entries (smi_updates info) name).
  set (us := filter (λ u, smu_slot_name u = name) (smi_updates info)).
  assert (latest_entries (smi_updates info) name =
    btree_to_list (collect_latest smu_block_num smu_key smu_value us)) as -> by done.
  split_and!; [done|done|apply NoDup_btree_keys| |].
  - intros k v Hkv. apply elem_of_btree_to_list in Hkv. by apply collect_latest_Some in Hkv.
  - intros u Hu Hname. apply elem_of_btree_keys. apply not_eq_None_Some.
    rewrite collect_latest_None. intros Hn. apply (Hn u); [|done]. apply list_elem_of_filter. done.
Qed.

Lemma build_storage_slot_ok id details bs cache h r :
  (∀ info, cache = Some info → grpc_sync_storage_maps storage_maps_page 0 None id = Finished (Ok info)) →
  build_storage_slot storage_maps_page id details (bs, cache) h = Finished (Ok r) →
  ∃ b, r.1 = bs ++ [b] ∧ slot_ok id details h b ∧
    (∀ info, r.2 = Some info → grpc_sync_storage_maps storage_maps_page 0 None id = Finished (Ok info)).
Proof.
  intros Hcache. destruct h as [[name ty] w]. unfold build_storage_slot, slot_ok. cbn [fst snd].
  destruct ty; [intros [= <-]; eexists; split; [reflexivity|]; done|].
  intros Hrun. apply eff_bind_Ok in Hrun as (d & Hd & Hrun). unfold lift in Hd.
  destruct (find_map_details details name) as [d'|] eqn:Ef; [|done]. injection Hd as <-.
  apply eff_bind_Ok in Hrun as ([sm cache'] & Hsm & Hrun).
  apply eff_bind_Ok in Hrun as (m & Hm & Hrun). injection Hrun as <-. unfold lift in Hm.
  destruct sm as [m'|]; [|done]. injection Hm as <-. cbn [fst snd].
  exists (name, inr m'). split; [done|]. cbn [fst snd].
  destruct (md_too_many_entries d') eqn:Emany.
  - apply eff_bind_Ok in Hsm as (info & Hinfo & Hsm). injection Hsm as Hsm <-.
    assert (grpc_sync_storage_maps storage_maps_page 0 None id = Finished (Ok info)) as Hsync.
    { destruct cache as [info'|]; [injection Hinfo as <-; by apply Hcache|done]. }
    split; [|by intros ? [= <-]]. split; [done|]. exists d', m'.
    split_and!; [done..|]. rewrite Emany. by eapply latest_entries_ok.
  - apply eff_bind_Ok in Hsm as (m & Hm & Hsm). injection Hsm as -> <-. unfold lift in Hm.
    split; [|done]. split; [done|]. exists d', m'. split_and!; [done..|].
    rewrite Emany. unfold into_storage_map in Hm. destruct (md_entries d') as [entries|]; [|done].
    exists entries. split; [done|]. by injection Hm.
Qed.

(** The storage of a fetched account has the slots of its header, in their order.  A
    value slot has the value of the header; a map that fits in the answer has the
    entries of the answer; a map that does not is rebuilt from all its updates, and
    holds exactly the keys that were ever updated, each with the value of the last
    update in its greatest block. *)
Theorem storage_slots_are_latest id details slots :
  build_storage_slots storage_maps_page id details = Finished (Ok slots) →
  Forall2 (slot_ok id details) (sd_header details) slots.
Proof.
  intros Hrun. unfold build_storage_slots in Hrun. apply eff_bind_Ok in Hrun as ([bs c] & Hrun & Hret).
  injection Hret as <-.
  eapply (eff_fold_forall2 _ (slot_ok id details) (λ cache, ∀ info, cache = Some info →
    grpc_sync_storage_maps storage_maps_page 0 None id = Finished (Ok info))) in Hrun
    as (bs' & Hbs & Hall); [|apply build_storage_slot_ok|by intros ? [=]].
  cbn in Hbs. by subst.
Qed.
End facts.

(** A run that a test of its result accepts. *)
Lemma run_accepted {E A} (m : eff E A) (test : A → bool) :
  match m with Finished (Ok a) => test a | _ => false end = true → ∃ a, m = Finished (Ok a) ∧ test a = true.
Proof. destruct m as [[a|e]| |]; eauto; discriminate. Qed.

(** ** A concrete node *)

Definition toy_account_new (id : @AccountId toy_protocol) (vault : list (@Asset toy_protocol))
    (storage : list (Z * (Z + list (Z * Z)))) (code nonce : Z) (_ : option Z) :
    result string (@Account toy_protocol) :=
  match mapM (λ a, match a with Asset_Fungible p => Some p | _ => None end) vault, storage, code with
  | Some assets, [], 0 => Ok (id, nonce, assets)
  | _, _, _ => Err "account"%string
  end.

#[export] Instance toy_account_wire : AccountWireLib := {|
  AccountWitness := Z * Z;
  AccountWitness_new := λ id w _, Ok (id, w);
  AccountWitness_id := λ a, a.1;
  AccountWitness_state_commitment := λ a, a.2;
  StorageSlotName_error := λ name, name;
  StorageSlotType_error := λ _, "slot type"%string;
  StorageMap_with_entries := λ entries, Ok entries;
  AssetVaultKey_try_from := λ w, Ok w;
  Account_new := toy_account_new
|}.

#[export] Instance toy_account_wire_laws : AccountWireLaws.
Proof.
  split; [by intros ???? [= <-]|]. intros id vault storage code nonce seed a. cbn. unfold toy_account_new.
  destruct (mapM _ vault) as [assets|] eqn:E; [|done]. destruct storage, code; try done.
  intros [= <-]. split_and!; try done. cbn. clear -E. revert assets E.
  induction vault as [|[p|p] vault IH]; intros assets E; cbn in E; simplify_option_eq; [done|].
  cbn. f_equal. by apply IH.
Qed.

Definition toy_digest (z : Z) : option ProtoDigest := Some (ProtoDigest_of_word (toy_word z)).

(** The details of account [5], with some assets in its vault. *)
Definition toy_details (assets : list ProtoAsset) : ProtoAccountDetails := {|
  pad_header := Some {| pah_account_id := Some [5]; pah_nonce := 1; pah_vault_root := toy_digest 8;
    pah_storage_commitment := toy_digest 0; pah_code_commitment := toy_digest 0 |};
  pad_storage_details := Some {| psd_header := Some []; psd_map_details := [] |};
  pad_code := Some [0];
  pad_vault_details := Some {| pvd_too_many_assets := false; pvd_assets := assets |}
|}.

Definition toy_response (assets : list ProtoAsset) : ProtoAccountResponse := {|
  pres_block_num := Some 9;
  pres_witness := Some {| paw_witness_id := Some [5]; paw_commitment := toy_digest 8;
    paw_path := Some {| psp_empty_nodes_mask := 0; psp_siblings := [] |} |};
  pres_details := Some (toy_details assets)
|}.

Definition toy_no_page {U} (_ : @AccountId toy_protocol) (_ : nat) (_ : BlockNumber)
    (_ : option BlockNumber) : result RpcError (ProtoPage U) :=
  Err (Rpc_InvalidResponse "no page").

Definition toy_fetch (assets : list ProtoAsset) : eff RpcError FetchedAccount :=
  get_account_details (λ _ _, Ok (toy_response assets)) toy_no_page toy_no_page (5 : @AccountId toy_protocol).

Definition toy_asset (key value : Z) : ProtoAsset :=
  {| pas_key := toy_digest key; pas_value := toy_digest value |}.

Definition toy_public (f : FetchedAccount) : option (@Account toy_protocol * AccountUpdateSummary) :=
  match f with FetchedAccount_Public account summary => Some (account, summary) | _ => None end.

(** The account that is returned, and its own commitment next to the one of the node. *)
Definition toy_fetches (account : Z * Z * list (Z * Z)) (commitment : Z) (f : FetchedAccount) : bool :=
  match toy_public f with
  | Some (a, summary) => bool_decide ((a : Z * Z * list (Z * Z)) = account) &&
      bool_decide ((AccountHeader_to_commitment (Account_to_header a) : Z) = commitment) &&
      bool_decide ((aus_commitment summary : Z) = 8)
  | None => false
  end.

Lemma toy_fetches_public account commitment f : toy_fetches account commitment f = true →
  ∃ a summary, f = FetchedAccount_Public a summary ∧ (a : Z * Z * list (Z * Z)) = account ∧
    (AccountHeader_to_commitment (Account_to_header a) : Z) = commitment ∧ (aus_commitment summary : Z) = 8.
Proof.
  destruct f as [|a summary]; [done|]. cbn. rewrite !andb_true_iff, !bool_decide_eq_true. naive_solver.
Qed.

Lemma fetched_account_is_committed_witness : ∃ account summary header,
  toy_fetch [toy_asset 14 50] = Finished (Ok (FetchedAccount_Public account summary)) ∧
  (account : Z * Z * list (Z * Z)) = (5, 1, [(7, 50)]) ∧
  AccountHeader_to_commitment header = aus_commitment summary ∧
  Account_id account = AccountHeader_id header.
Proof.
  destruct (run_accepted (toy_fetch [toy_asset 14 50]) (toy_fetches (5, 1, [(7, 50)]) 1450)) as (f & Hrun & Htest);
    [vm_compute; reflexivity|].
  destruct (toy_fetches_public _ _ _ Htest) as (account & summary & Hf & Ha & _). rewrite Hf in Hrun.
  destruct (fetched_account_is_committed (λ _ _, Ok (toy_response [toy_asset 14 50])) toy_no_page
    toy_no_page (5 : @AccountId toy_protocol) account summary Hrun) as (header & Hc & Hid & _).
  exists account, summary, header. split; [exact Hrun|]. split; [exact Ha|]. split; [exact Hc|exact Hid].
Defined.

(** The vault is not checked: whatever assets the node sends, the commitment of the
    fetched account is taken from the witness. *)
Lemma fetched_vault_unchecked :
  ∃ account summary, toy_fetch [toy_asset 14 1000] = Finished (Ok (FetchedAccount_Public account summary)) ∧
    (AccountHeader_to_commitment (Account_to_header account) : Z) ≠ aus_commitment summary.
Proof.
  destruct (run_accepted (toy_fetch [toy_asset 14 1000]) (toy_fetches (5, 1, [(7, 1000)]) 2400)) as (f & Hrun & Htest);
    [vm_compute; reflexivity|].
  destruct (toy_fetches_public _ _ _ Htest) as (account & summary & -> & _ & Hc & Hs).
  exists account, summary. split; [exact Hrun|]. rewrite Hc. rewrite Hs. discriminate.
Qed.

(** Two maps, of which the second is too large for the answer. *)
Definition toy_storage : AccountStorageDetails := {|
  sd_header := [(2, SlotType_Value, toy_word 6); (3, SlotType_Map, toy_word 0); (4, SlotType_Map, toy_word 0)];
  sd_map_details := [
    {| md_slot_name := (3 : StorageSlotName); md_too_many_entries := false;
       md_entries := AllEntries [{| sme_key := (1 : StorageMapKey); sme_value := toy_word 10 |}] |};
    {| md_slot_name := (4 : StorageSlotName); md_too_many_entries := true; md_entries := AllEntries [] |}]
|}.

Definition toy_update (block slot key value : Z) : ProtoStorageMapUpdate := {|
  psu_block_num := block; psu_slot_name := z_to_text slot; psu_key := toy_digest key;
  psu_value := toy_digest value |}.

(** The key [1] of the large map is updated in the blocks [6] and [2]. *)
Definition toy_updates_page (_ : @AccountId toy_protocol) (_ : nat) (_ : BlockNumber) (_ : option BlockNumber) :
    result RpcError (ProtoPage ProtoStorageMapUpdate) :=
  Ok {| page_info := Some (9, 9);
        page_updates := [toy_update 6 4 1 21; toy_update 2 4 1 20; toy_update 7 3 1 99; toy_update 3 4 2 30] |}.

Lemma storage_slots_are_latest_witness : ∃ slots,
  build_storage_slots toy_updates_page (5 : @AccountId toy_protocol) toy_storage = Finished (Ok slots) ∧
  (slots : list (Z * (Z + list (Z * Z)))) = [(2, inl 6); (3, inr [(1, 10)]); (4, inr [(1, 21); (2, 30)])] ∧
  Forall2 (slot_ok toy_updates_page (5 : @AccountId toy_protocol) toy_storage) (sd_header toy_storage) slots.
Proof.
  destruct (run_accepted (build_storage_slots toy_updates_page (5 : @AccountId toy_protocol) toy_storage)
    (λ slots, bool_decide ((slots : list (Z * (Z + list (Z * Z)))) =
      [(2, inl 6); (3, inr [(1, 10)]); (4, inr [(1, 21); (2, 30)])]))) as (slots & Hrun & Htest);
    [vm_compute; reflexivity|].
  apply bool_decide_eq_true in Htest. exists slots. split; [exact Hrun|]. split; [exact Htest|].
  exact (storage_slots_are_latest toy_updates_page (5 : @AccountId toy_protocol) toy_storage slots Hrun).
Defined.
