(* ===== verification/ForeignInputs.v ===== *)
(** * Foreign accounts as inputs of a transaction

    [account_proof_into_inputs] of [transaction/request/foreign.rs], and
    [fetch_public_account_inputs] and [retrieve_foreign_account_inputs] of
    [transaction/mod.rs]: the proof of an account that the node sent becomes a partial
    account with the storage that a transaction asked for. *)

From S2P Require Import Prelude Protocol Serde Model NoteStates InputNote OutputNote TxRecord.
From S2P Require Import NodeErrors Errors NoteTracker Rpc Grpc AccountTypes TxRequest SmtForest Sql Store.
From S2P Require Import AccountReaders TxDb ChainSpec Client ClientAccounts Proto AccountProofs AccountProofSpec.
From Stdlib Require Import ZArith Lia.
From stdpp Require Import base gmap list strings.

Open Scope Z_scope.

(** Partial maps and vaults.  The inputs of an account are
    a partial account and the witness of its state. *)
Class ForeignLib `{AccountWireLib} := {
  PartialStorageMap_new_full : StorageMap → PartialStorageMap;
  PartialStorageMap_with_witnesses : list StorageMapWitness → result foreign PartialStorageMap;
  PartialVault_new_full : AssetVault → PartialVault;
  AccountInputs : Type;
  AccountInputs_new : PartialAccount → AccountWitness → AccountInputs;
  AccountInputs_account : AccountInputs → PartialAccount;
  AccountInputs_witness : AccountInputs → AccountWitness
}.

Class ForeignLaws `{ForeignLib} : Prop := {
  AccountInputs_new_account a w : AccountInputs_account (AccountInputs_new a w) = a;
  AccountInputs_new_witness a w : AccountInputs_witness (AccountInputs_new a w) = w;
  PartialAccount_new_spec a a' : PartialAccount_new a = Ok a' → a' = a
}.

Section inputs.
Context `{ForeignLib}.

(** Proofs and keys are paired by position. *)
Definition proofs_to_witnesses (proofs : list SmtProof) (keys : list StorageMapKey) :
    result TransactionRequestError (list StorageMapWitness) :=
  try_map (λ '(proof, key), map_err Req_StorageMapError (StorageMapWitness_new proof [key]))
    (zip proofs keys).

(** The body of the loop over the details of the maps. *)
Definition partial_storage_map (storage_requirements : AccountStorageRequirements)
    (detail : AccountStorageMapDetails) : result TransactionRequestError PartialStorageMap :=
  match md_entries detail with
  | AllEntries entries =>
      map ← map_err Req_StorageMapError
        (StorageMap_with_entries ((λ e, (sme_key e, sme_value e)) <$> entries));
      Ok (PartialStorageMap_new_full map)
  | EntriesWithProofs proofs =>
      let keys := keys_for_slot storage_requirements (md_slot_name detail) in
      witnesses ← proofs_to_witnesses proofs keys;
      map_err Req_MerkleError (PartialStorageMap_with_witnesses witnesses)
  end.

Definition account_proof_into_inputs (account_proof : AccountProof)
    (storage_requirements : AccountStorageRequirements) : result TransactionRequestError AccountInputs :=
  let '(witness, account_details) := AccountProof_into_parts account_proof in
  match account_details with
  | None => Err Req_ForeignAccountDataMissing
  | Some details =>
      let storage_details := det_storage_details details in
      storage_map_proofs ← try_map (partial_storage_map storage_requirements) (sd_map_details storage_details);
      vault ← map_err Req_AssetVaultError (AssetVault_new (vd_assets (det_vault_details details)));
      _ ← map_err Req_AccountError (PartialStorage_new (sd_header storage_details) storage_map_proofs);
      partial_account ← map_err Req_AccountError (PartialAccount_new {|
        partial_id := AccountHeader_id (det_header details);
        partial_nonce := AccountHeader_nonce (det_header details);
        partial_code := det_code details;
        partial_storage_header := sd_header storage_details;
        partial_maps := storage_map_proofs;
        partial_vault := PartialVault_new_full vault;
        partial_seed := None |});
      Ok (AccountInputs_new partial_account witness)
  end.
End inputs.

(** The request of the node interface. *)
Class NodeProofs `{AccountWireLib} :=
  rpc_get_account_proof : AccountId → AccountStorageRequirements → AccountStateAt → option AccountCode →
    eff RpcError (BlockNumber * AccountProof).

Section client.
Context `{ForeignLib} `{!ExecutedLib} `{!RequestLib} `{!NodeProofs} {St : Type} `{!AccountOps St} `{!StoreOps St}.

(** [?] on a call of the node that can panic, and on a check of a request. *)
Definition client_rpc_eff {A} (m : eff RpcError A) : client_m St A :=
  client_eff (eff_map_err (λ e, From_ClientError (Client_RpcError e)) m).
Definition client_request {A} (m : result TransactionRequestError A) : client_m St A :=
  client_try (map_err Client_TransactionRequestError m).

(** A call of the store whose error is only logged. *)
Definition ignore_errors {A} (m : client_m St A) : client_m St () := λ c,
  match m c with
  | Finished (c', _) => Finished (c', Ok ())
  | Panicked => Panicked
  | OutOfFuel => OutOfFuel
  end.

Definition fetch_public_account_inputs (account_id : AccountId)
    (storage_requirements : AccountStorageRequirements) (account_state_at : AccountStateAt) :
    client_m St AccountInputs :=
  codes ← on_store (store_get_foreign_account_code [account_id]);
  let known_account_code := head (btree_values codes) in
  '(_, account_proof) ← client_rpc_eff
    (rpc_get_account_proof account_id storage_requirements account_state_at known_account_code);
  account_inputs ← client_request (account_proof_into_inputs account_proof storage_requirements);
  ignore_errors (on_store (store_upsert_foreign_account_code account_id
    (partial_code (AccountInputs_account account_inputs))));;
  mret account_inputs.

(** One foreign account of a request. *)
Definition foreign_account_inputs (block_num : BlockNumber) (foreign_account : ForeignAccount) :
    client_m St AccountInputs :=
  match foreign_account with
  | ForeignAccount_Public account_id storage_requirements =>
      fetch_public_account_inputs account_id storage_requirements (AtBlock block_num)
  | ForeignAccount_Private partial_account =>
      '(_, account_proof) ← client_rpc_eff
        (rpc_get_account_proof (partial_id partial_account) ∅ (AtBlock block_num) None);
      let witness := (AccountProof_into_parts account_proof).1 in
      mret (AccountInputs_new partial_account witness)
  end.

Definition retrieve_foreign_account_inputs (foreign_accounts : gmap AccountId ForeignAccount) :
    client_m St (option BlockNumber * list AccountInputs) :=
  if bool_decide (foreign_accounts = ∅) then mret (None, [])
  else
    block_num ← on_store get_sync_height;
    return_foreign_account_inputs ← client_fold (λ inputs foreign_account,
      account_inputs ← foreign_account_inputs block_num foreign_account;
      mret (inputs ++ [account_inputs])) (btree_values foreign_accounts) [];
    mret (Some block_num, return_foreign_account_inputs).
End client.

(** ** What the inputs contain *)

Section facts.
Context `{ForeignLib}.

(** The checks that the details of an answer passed. *)
Lemma into_domain_checked r codes reqs d :
  into_domain r codes reqs = Ok d →
  Forall (λ detail, check_map_detail reqs detail = Ok ()) (sd_map_details (det_storage_details d)).
Proof.
  unfold into_domain. intros Hd. inv_ok. cbn.
  match goal with Hm : try_map (check_map_detail _) _ = Ok _ |- _ => apply try_map_Ok in Hm;
    eapply Forall2_Forall_l; [exact Hm|]; apply Forall_true end.
  by intros [] ? ->.
Qed.

(** A partial map has, for each key that was asked for, in their order, a witness made
    of a proof that the node sent for it; or it is the whole map. *)
Definition map_covers (reqs : AccountStorageRequirements) (detail : AccountStorageMapDetails)
    (m : PartialStorageMap) : Prop :=
  match md_entries detail with
  | AllEntries entries => ∃ full,
      StorageMap_with_entries ((λ e, (sme_key e, sme_value e)) <$> entries) = Ok full ∧
      m = PartialStorageMap_new_full full
  | EntriesWithProofs proofs => ∃ witnesses,
      PartialStorageMap_with_witnesses witnesses = Ok m ∧
      Forall2 (λ key witness, ∃ proof, proof ∈ proofs ∧
        is_Some (SmtProof_get proof (StorageMapKey_hash key)) ∧
        StorageMapWitness_new proof [key] = Ok witness)
        (keys_for_slot reqs (md_slot_name detail)) witnesses
  end.

Lemma witnesses_cover proofs keys checks ws :
  length proofs = length keys →
  try_map check_proof (zip proofs keys) = Ok checks → proofs_to_witnesses proofs keys = Ok ws →
  Forall2 (λ key witness, ∃ proof, proof ∈ proofs ∧ is_Some (SmtProof_get proof (StorageMapKey_hash key)) ∧
    StorageMapWitness_new proof [key] = Ok witness) keys ws.
Proof.
  intros Hlen Hchecks Hws. apply try_map_Ok in Hchecks. apply try_map_Ok in Hws.
  revert proofs checks ws Hlen Hchecks Hws.
  induction keys as [|k keys IH]; intros [|p proofs] checks ws Hlen Hchecks Hws; try done; cbn in *.
  { inversion Hws. constructor. }
  inversion Hchecks as [|? ? ? ? Hc Hcs]; subst. inversion Hws as [|? ? ? ? Hw Hrest]; subst.
  constructor.
  - exists p. split; [left|]. unfold check_proof in Hc. cbn in Hc.
    destruct (SmtProof_get p _) eqn:E; [|done]. split; [eauto|]. by inv_ok.
  - eapply Forall2_impl; [eapply (IH proofs); [lia|done|done]|]. intros k' w (p' & ? & ?).
    exists p'. split; [by right|done].
Qed.

Lemma partial_map_covers reqs detail m :
  check_map_detail reqs detail = Ok () → partial_storage_map reqs detail = Ok m → map_covers reqs detail m.
Proof.
  unfold check_map_detail, partial_storage_map, map_covers, keys_for_slot.
  destruct (md_entries detail) as [entries|proofs]; intros Hc Hm.
  { inv_ok. eauto. }
  destruct (Nat.eqb_spec (length proofs) (length (default [] (reqs !! md_slot_name detail)))) as [Hl|];
    [|done]. cbn in Hc. inv_ok. eexists. split; [done|]. by eapply witnesses_cover.
Qed.

Lemma partial_maps_cover reqs details maps :
  Forall (λ detail, check_map_detail reqs detail = Ok ()) details →
  try_map (partial_storage_map reqs) details = Ok maps → Forall2 (map_covers reqs) details maps.
Proof.
  intros Hd Hm. apply try_map_Ok in Hm. induction Hm as [|detail m details maps Hm _ IH]; [constructor|].
  apply Forall_cons in Hd as [Hc Hd]. constructor; [by apply partial_map_covers|by apply IH].
Qed.

Context (get_account_at : nat → ProtoAccountRequest → result RpcError ProtoAccountResponse).

(** C11: A foreign account is asked for, proved and turned into inputs without a gap.  When
    the node's answer is accepted and becomes the inputs of a transaction, the header
    and the code are those that the witness commits to, and every map of the answer is
    whole or has, for every key of its slot that was asked for, a witness made of a
    proof in which the hash of that key was found. *)
Theorem requested_keys_are_covered `{!ForeignLaws} id reqs at_block known n proof inputs :
  get_account_proof get_account_at id reqs at_block known = Finished (Ok (n, proof)) →
  account_proof_into_inputs proof reqs = Ok inputs →
  let account := AccountInputs_account inputs in
  AccountInputs_witness inputs = ap_account_witness proof ∧
  ∃ details, ap_state_headers proof = Some details ∧
    details_committed (AccountProof_account_commitment proof) (AccountProof_account_id proof) details ∧
    partial_id account = AccountProof_account_id proof ∧ partial_code account = det_code details ∧
    Forall2 (map_covers reqs) (sd_map_details (det_storage_details details)) (partial_maps account).
Proof.
  intros Hproof Hinputs. unfold get_account_proof in Hproof.
  apply eff_bind_Ok in Hproof as (r & _ & Hproof). apply eff_bind_Ok in Hproof as (w & _ & Hproof).
  apply eff_bind_Ok in Hproof as (w' & _ & Hproof). apply eff_bind_Ok in Hproof as (headers & Hh & Hproof).
  apply eff_bind_Ok in Hproof as (p & Hp & Hproof). apply eff_bind_Ok in Hproof as (b & _ & Hproof).
  injection Hproof as _ ->. unfold lift in Hp. destruct (AccountProof_new w' headers) eqn:En; [|done].
  injection Hp as ->. pose proof (AccountProof_new_consistent _ _ _ En) as Hcons.
  assert (ap_state_headers proof = headers) as Hheaders.
  { unfold AccountProof_new in En. destruct headers; repeat case_bool_decide; simplify_eq; done. }
  unfold account_proof_into_inputs, AccountProof_into_parts in Hinputs.
  destruct (ap_state_headers proof) as [d|] eqn:Ed; [|done]. subst headers.
  destruct (Hcons d Ed) as (Hc1 & Hc2 & Hc3). inv_ok.
  match goal with Hpa : PartialAccount_new _ = Ok _ |- _ => apply PartialAccount_new_spec in Hpa; subst end.
  rewrite AccountInputs_new_account, AccountInputs_new_witness. cbn. split; [done|].
  exists d. split_and!; [done|by unfold details_committed|done|done|].
  destruct (AccountId_has_public_state _); [|done].
  destruct (ok_or _ _) as [pd|]; [|done].
  destruct (into_domain pd _ _) as [d'|] eqn:Hd; [|done]. injection Hh as ->.
  apply into_domain_checked in Hd.
  by apply partial_maps_cover.
Qed.
End facts.

(** ** A concrete node *)

#[export] Instance toy_foreign : ForeignLib := {|
  PartialStorageMap_new_full := λ m, (0, m);
  PartialStorageMap_with_witnesses := λ ws, Ok (1, ws ≫= map_to_list);
  PartialVault_new_full := λ v, toy_vault_root v;
  AccountInputs := @PartialAccount toy_protocol toy_account_lib * (Z * Z);
  AccountInputs_new := λ a w, (a, w);
  AccountInputs_account := fst;
  AccountInputs_witness := snd
|}.

#[export] Instance toy_foreign_laws : ForeignLaws.
Proof. split; [done..|]. by intros a a' [= <-]. Qed.

(** The account [5] of which the key [1] of the map in slot [3] is asked for; the hash of
    the key is [2]. *)
Definition toy_foreign_response : ProtoAccountResponse := {|
  pres_block_num := Some 9;
  pres_witness := Some {| paw_witness_id := Some [5]; paw_commitment := toy_digest 8;
    paw_path := Some {| psp_empty_nodes_mask := 0; psp_siblings := [] |} |};
  pres_details := Some {|
    pad_header := pad_header (toy_details []);
    pad_storage_details := Some {| psd_header := Some [];
      psd_map_details := [{| pmd_slot_name := z_to_text 3; pmd_too_many_entries := false;
        pmd_entries := Some (Proto_EntriesWithProofs
          [Some (proto_of_smt_proof ({[ 2 := 30 ]} : @SmtProof _ _ toy_forest_lib))]) |}] |};
    pad_code := Some [0];
    pad_vault_details := Some {| pvd_too_many_assets := false; pvd_assets := [] |} |}
|}.

Definition toy_requirements : @AccountStorageRequirements toy_protocol toy_account_lib :=
  AccountStorageRequirements_new (H0 := toy_account_lib) [(3 : @StorageSlotName _ toy_account_lib, [1])].

Definition toy_proof_run : eff RpcError (BlockNumber * AccountProof) :=
  get_account_proof (λ _ _, Ok toy_foreign_response) (5 : @AccountId toy_protocol) toy_requirements
    ChainTip None.

Definition toy_covering (i : AccountInputs) : bool :=
  match partial_maps (AccountInputs_account i) with
  | [m] => bool_decide ((m : Z * list (Z * Z)) = (1, [(2, 30)]))
  | _ => false
  end.

Lemma requested_keys_are_covered_witness : ∃ n proof inputs,
  toy_proof_run = Finished (Ok (n, proof)) ∧
  account_proof_into_inputs proof toy_requirements = Ok inputs ∧ toy_covering inputs = true ∧
  partial_id (AccountInputs_account inputs) = AccountProof_account_id proof.
Proof.
  destruct (run_accepted toy_proof_run (λ p, match account_proof_into_inputs p.2 toy_requirements with
    | Ok i => toy_covering i | Err _ => false end)) as ([n proof] & Hrun & Htest);
    [vm_compute; reflexivity|]. cbn [snd] in Htest.
  destruct (account_proof_into_inputs proof toy_requirements) as [inputs|] eqn:Hi; [|discriminate].
  destruct (requested_keys_are_covered (λ _ _, Ok toy_foreign_response)
    (5 : @AccountId toy_protocol) toy_requirements ChainTip None n proof inputs Hrun Hi) as (_ & d & _ & _ & Hid & _).
  exists n, proof, inputs. split; [exact Hrun|]. split; [exact Hi|]. split; [exact Htest|exact Hid].
Defined.
