(* ===== verification/ClientTx.v ===== *)
(** * Transactions of the client

    [transaction/mod.rs]: a request is checked, its input notes are put together, the VM
    executes it, and what was executed is proved, submitted and applied to the store.
    The executor, the prover and the node are parameters; everything that the client
    does around them is a computation on the state of the client. *)

From S2P Require Import Prelude Protocol Serde Model NoteStates InputNote OutputNote TxRecord.
From S2P Require Import NodeErrors TxTracker Errors NoteTracker Rpc Grpc SyncUpdate AccountTypes TxRequest.
From S2P Require Import SmtForest Sql Store TxDb Client ClientSync ClientAccounts.
From S2P Require Import Proto ProtoNotes AccountProofs ForeignInputs.
From Stdlib Require Import ZArith Lia.
From stdpp Require Import base gmap list strings.

Open Scope Z_scope.

(** The arguments of a transaction, the scripts of an account, and proven transactions. *)
Class TxLib `{ForeignLib} `{!NoteWireLib} `{!RequestLib} := {
  TransactionArgs : Type;
  TransactionArgs_new : AdviceMap → TransactionArgs;
  with_note_args : TransactionArgs → gmap NoteId Word → TransactionArgs;
  with_tx_script : TransactionArgs → TransactionScript → TransactionArgs;
  with_tx_script_and_args : TransactionArgs → TransactionScript → Word → TransactionArgs;
  with_auth_args : TransactionArgs → Word → TransactionArgs;
  extend_output_note_recipients : TransactionArgs → list NoteRecipient → TransactionArgs;
  MerkleStore_inner_nodes : MerkleStore → list InnerNodeInfo;
  extend_merkle_store : TransactionArgs → list InnerNodeInfo → TransactionArgs;
  AccountInterface : Type;
  AccountInterface_from_account : Account → AccountInterface;
  build_send_notes_script :
    AccountInterface → list PartialNote → option u16 → result foreign TransactionScript;
  compile_tx_script : string → result foreign TransactionScript;
  Account_is_faucet : Account → bool;
  NoteType_Public : NoteType;
  NoteStorage_new : list Word → result foreign NoteStorage;
  NoteAssets_new : list Asset → result foreign NoteAssets;
  Rng_draw_word : Rng → Rng * Word;
  RawOutputNote_recipient : RawOutputNote → option NoteRecipient;
  ProvenTransaction : Type
}.

(** The node: submission, and the scripts it knows. *)
Class NodeSubmit `{TxLib} `{!ExecutedLib} := {
  rpc_submit_proven_transaction : ProvenTransaction → ExecutedTransaction → result RpcError BlockNumber;
  rpc_get_note_script_by_root : Word → result RpcError NoteScript
}.

Section request.
Context `{TxLib}.

(** ** What a request hands to the VM ([transaction/request/mod.rs]) *)

Definition into_transaction_args (self : TransactionRequest) (tx_script : TransactionScript) :
    TransactionArgs :=
  let note_args := get_note_args self in
  let tx_args := with_note_args (TransactionArgs_new (tr_advice_map self)) note_args in
  let tx_args := match tr_script_arg self with
    | Some argument => with_tx_script_and_args tx_args tx_script argument
    | None => with_tx_script tx_args tx_script
    end in
  let tx_args := match tr_auth_arg self with
    | Some auth_argument => with_auth_args tx_args auth_argument
    | None => tx_args
    end in
  let tx_args := extend_output_note_recipients tx_args (btree_values (tr_expected_output_recipients self)) in
  extend_merkle_store tx_args (MerkleStore_inner_nodes (tr_merkle_store self)).

Definition build_transaction_script (self : TransactionRequest) (account_interface : AccountInterface) :
    result TransactionRequestError TransactionScript :=
  match tr_script_template self with
  | Some (CustomScript script) => Ok script
  | Some (SendNotes notes) => map_err Req_AccountInterfaceError
      (build_send_notes_script account_interface notes (tr_expiration_delta self))
  | None => map_err Req_CodeBuilderError (compile_tx_script "begin nop end")
  end.

(** The notes that [build_register_note_scripts] makes, one for each script. *)
Fixpoint registration_notes (sender_account_id : AccountId) (scripts : list NoteScript) (rng : Rng) :
    Rng * result foreign (list Note) :=
  match scripts with
  | [] => (rng, Ok [])
  | script :: scripts =>
      let '(rng, serial_num) := Rng_draw_word rng in
      match (note_storage ← NoteStorage_new []; note_assets ← NoteAssets_new [];
             Ok (Note_new note_assets (NoteMetadata_new sender_account_id NoteType_Public)
               (NoteRecipient_new serial_num script note_storage))) with
      | Err e => (rng, Err e)
      | Ok note =>
          let '(rng, notes) := registration_notes sender_account_id scripts rng in
          (rng, cons note <$> notes)
      end
  end.

Definition build_register_note_scripts (self : TransactionRequestBuilder) (sender_account_id : AccountId)
    (scripts : list NoteScript) (rng : Rng) : Rng * result TransactionRequestError TransactionRequest :=
  let '(rng, notes) := registration_notes sender_account_id scripts rng in
  (rng, registration_notes ← map_err Req_NoteCreationError notes;
        build (own_output_notes self registration_notes)).

(** [notes_from_output]. *)
Definition notes_from_output (output_notes : list RawOutputNote) : list Note :=
  omap (λ n, match n with RawOutputNote_Full n => Some n | RawOutputNote_Partial _ => None end) output_notes.
End request.

Section client.
Context `{TxLib} `{!ExecutedLib} {Node : NodeRpcClient} `{!NodeLimits} `{!NodeProofs} `{!NodeSubmit}.
Context `{!NoteChecker} {St : Type} `{!StoreOps St} `{!AccountOps St}.
(** What the screener reads of the store, the clock, and the largest distance of the
    client from the tip of the chain. *)
Context (screener_store : St → ScreenerStore) (now : option u64) (max_block_number_delta : option u32).
(** The clock that the store reads when it applies a transaction. *)
Context (store_now : u64).
(** The executor of the VM, with the inputs of foreign accounts and the code of the
    account that are loaded; it reads the store and the node through the data store of
    the client.  Its check of notes returns the identifiers of those that failed. *)
Context (vm_execute : list AccountInputs → Account → AccountId → BlockNumber → list InputNote →
  TransactionArgs → client_m St ExecutedTransaction).
Context (vm_failed_notes : Account → BlockNumber → list Note → TransactionArgs → client_m St (list NoteId)).
(** The prover. *)
Context (prove : ExecutedTransaction → result foreign ProvenTransaction).

(** ** Checks *)

(** [BlockNumber + u32] overflows. *)
Definition check_recency : client_m St () :=
  match max_block_number_delta with
  | None => mret ()
  | Some max_block_number_delta =>
      header ← client_rpc (rpc_get_block_header_by_number None false);
      let current_chain_tip := BlockHeader_block_num (fst header) in
      sync_height ← on_store get_sync_height;
      bound ← client_expect (checked_add U32_MAX sync_height max_block_number_delta);
      if bound <? current_chain_tip then client_fail (Client_RecencyConditionError
        "The client is too far behind the chain tip to execute the transaction")
      else mret ()
  end.

(** A check of [TxRequest] in a client call. *)
Definition client_check {A} (m : eff ClientError A) : client_m St A := client_eff (eff_map_err From_ClientError m).

Definition validate_request (account_id : AccountId) (transaction_request : TransactionRequest) :
    client_m St () :=
  check_recency;;
  account ← try_get_account account_id;
  if Account_is_faucet account then mret ()
  else client_check (validate_basic_account_request transaction_request account).

Definition get_account_interface (account_id : AccountId) : client_m St AccountInterface :=
  account ← try_get_account account_id;
  mret (AccountInterface_from_account account).

(** ** Execution *)

(** Notes that fail are left out until none does.  A loop without a bound: the fuel is
    the number of rounds. *)
Fixpoint get_valid_input_notes (fuel : nat) (account : Account) (input_notes : list InputNote)
    (tx_args : TransactionArgs) : client_m St (list InputNote) :=
  match fuel with
  | O => λ _, OutOfFuel
  | S fuel =>
      sync_height ← on_store get_sync_height;
      failed ← vm_failed_notes account sync_height (InputNote_note <$> input_notes) tx_args;
      if bool_decide (failed = []) then mret input_notes
      else
        let kept := filter (λ note, Note_id (InputNote_note note) ∉ failed) input_notes in
        match InputNotes_new kept with
        | Err _ => db_panic
        | Ok filtered_input_notes => get_valid_input_notes fuel account filtered_input_notes tx_args
        end
  end.

(** The stored notes of a request; one that is consumed is an error. *)
Definition stored_input_notes (transaction_request : TransactionRequest) :
    client_m St (list InputNoteRecord) :=
  stored_note_records ← on_store (get_input_notes (NoteFilter_List (input_note_ids transaction_request)));
  match head (filter (λ note, InputNoteRecord_is_consumed note = true) stored_note_records) with
  | Some note => client_fail (Client_TransactionRequestError
      (Req_InputNoteAlreadyConsumed (InputNoteRecord_id note)))
  | None => mret (filter (λ note, InputNoteRecord_is_authenticated note = true) stored_note_records)
  end.

(** The notes of a request that the store does not have as authenticated. *)
Definition unauthenticated_records (transaction_request : TransactionRequest)
    (stored_note_records : list InputNoteRecord) : list InputNoteRecord :=
  let authenticated_note_ids := InputNoteRecord_id <$> stored_note_records in
  InputNoteRecord_from_note <$>
    filter (λ n, Note_id n ∉ authenticated_note_ids) (tr_input_notes transaction_request).

Definition execute_transaction (fuel : nat) (account_id : AccountId)
    (transaction_request : TransactionRequest) : client_m St TransactionResult :=
  validate_request account_id transaction_request;;
  stored_note_records ← stored_input_notes transaction_request;
  on_store (upsert_input_notes (unauthenticated_records transaction_request stored_note_records));;
  notes ← client_eff (eff_map_err (λ e, From_ClientError (Client_TransactionRequestError e))
    (build_input_notes transaction_request stored_note_records));
  let output_recipients := expected_output_recipients transaction_request in
  let future_notes := expected_future_notes transaction_request in
  account_interface ← get_account_interface account_id;
  tx_script ← client_request (build_transaction_script transaction_request account_interface);
  '(fpi_block_num, foreign_account_inputs) ←
    retrieve_foreign_account_inputs (tr_foreign_accounts transaction_request);
  on_store (store_upsert_note_scripts (NoteRecipient_script <$> output_recipients));;
  block_num ← match fpi_block_num with
    | Some block_num => mret block_num
    | None => on_store get_sync_height
    end;
  account_record ← on_store (store_get_account account_id);
  account_record ← client_try (ok_or account_record (Client_AccountDataNotFound account_id));
  account ← client_try (Account_try_from account_record);
  let tx_args := into_transaction_args transaction_request tx_script in
  notes ← (if tr_ignore_invalid_input_notes transaction_request
    then get_valid_input_notes fuel account notes tx_args else mret notes);
  executed_transaction ← vm_execute foreign_account_inputs account account_id block_num notes tx_args;
  client_try (validate_executed_transaction
    (RawOutputNote_recipient <$> executed_output_note_iter executed_transaction) output_recipients);;
  client_try (TransactionResult_new executed_transaction future_notes).

(** ** Submission *)

Definition prove_transaction_with (tx_result : TransactionResult) : client_m St ProvenTransaction :=
  client_try (map_err Client_TransactionProvingError (prove (tres_transaction tx_result))).

Definition submit_proven_transaction (proven_transaction : ProvenTransaction)
    (tx_result : TransactionResult) : client_m St BlockNumber :=
  client_rpc (rpc_submit_proven_transaction proven_transaction (tres_transaction tx_result)).

(** ** The update of the store *)

(** The new output notes: those of the transaction. *)
Definition output_records (executed_tx : ExecutedTransaction) (submission_height : BlockNumber) :
    list OutputNoteRecord :=
  omap (λ output_note, match OutputNoteRecord_try_from_output_note output_note submission_height with
    | Ok record => Some record | Err _ => None end) (executed_output_note_iter executed_tx).

(** An output note that one of the accounts may consume. *)
Definition relevant_record (submission_height : BlockNumber) (note : Note) : InputNoteRecord :=
  let metadata := Note_metadata note in
  {| in_details := Note_into_details note; in_created_at := now;
     in_state := Expected {| Expected_metadata := Some metadata; Expected_after_block_num := submission_height;
       Expected_tag := Some (NoteMetadata_tag metadata) |} |}.

(** A note that is expected of a later transaction. *)
Definition future_record (current_block_num : BlockNumber) (future : NoteDetails * NoteTag) :
    InputNoteRecord :=
  {| in_details := future.1; in_created_at := None;
     in_state := Expected {| Expected_metadata := None; Expected_after_block_num := current_block_num;
       Expected_tag := Some future.2 |} |}.

(** The loop over the consumed notes: those that change. *)
Definition consume_records (executed_tx : ExecutedTransaction) (consumed_notes : list InputNoteRecord) :
    result ClientError (list InputNoteRecord) :=
  try_fold (λ updated input_note_record,
    '(changed, record) ← note_error (InputNoteRecord_consumed_locally input_note_record
      (executed_account_id executed_tx) (executed_id executed_tx) now);
    Ok (if (changed : bool) then updated ++ [record] else updated)) consumed_notes [].

Definition get_note_updates (submission_height : BlockNumber) (tx_result : TransactionResult) :
    client_m St NoteUpdateTracker :=
  let executed_tx := tres_transaction tx_result in
  current_block_num ← on_store get_sync_height;
  let new_output_notes := output_records executed_tx submission_height in
  let output_notes := notes_from_output (executed_output_note_iter executed_tx) in
  store ← db_read (λ c, Ok (cl_store c));
  output_note_relevances ← client_try (@can_consume_batch _ _ _ _ _ (screener_store store) _ output_notes);
  let relevant := filter (λ note, is_Some (output_note_relevances !! Note_id note)) output_notes in
  let new_input_notes := (relevant_record submission_height <$> relevant) ++
    (future_record current_block_num <$> tres_future_notes tx_result) in
  let consumed_note_ids := (λ n, Note_id (InputNote_note n)) <$> executed_input_notes executed_tx in
  consumed_notes ← on_store (get_input_notes (NoteFilter_List consumed_note_ids));
  updated_input_notes ← client_try (consume_records executed_tx consumed_notes);
  mret (NoteUpdateTracker_for_transaction_updates new_input_notes updated_input_notes new_output_notes).

(** The tags of the notes that are expected, and of the output notes. *)
Definition new_tags_of (note_updates : NoteUpdateTracker) : list NoteTagRecord :=
  omap (λ note, match in_state (iu_note note) with
    | Expected s => (λ tag, with_note_source tag (InputNoteRecord_id (iu_note note))) <$> Expected_tag s
    | _ => None end) (updated_input_notes note_updates) ++
  ((λ note, with_note_source (NoteMetadata_tag (out_metadata (ou_note note))) (OutputNoteRecord_id (ou_note note)))
    <$> updated_output_notes note_updates).

Definition get_transaction_store_update (tx_result : TransactionResult) (submission_height : BlockNumber) :
    client_m St TransactionStoreUpdate :=
  note_updates ← get_note_updates submission_height tx_result;
  mret {| tsu_executed_transaction := tres_transaction tx_result;
          tsu_submission_height := submission_height;
          tsu_future_notes := tres_future_notes tx_result;
          tsu_note_updates := note_updates;
          tsu_new_tags := new_tags_of note_updates |}.

Definition apply_transaction_update (tx_update : TransactionStoreUpdate) : client_m St () :=
  let account_id := executed_account_id (tsu_executed_transaction tx_update) in
  status ← reader_status account_id;
  if AccountStatus_is_locked status then client_fail (Client_AccountLocked account_id)
  else on_store (store_apply_transaction store_now tx_update).

Definition apply_transaction (tx_result : TransactionResult) (submission_height : BlockNumber) :
    client_m St () :=
  tx_update ← get_transaction_store_update tx_result submission_height;
  apply_transaction_update tx_update.

(** ** The whole *)

(** Execute, prove, submit, apply. *)
Definition run_transaction (fuel : nat) (account_id : AccountId) (transaction_request : TransactionRequest) :
    client_m St TransactionId :=
  tx_result ← execute_transaction fuel account_id transaction_request;
  proven_transaction ← prove_transaction_with tx_result;
  submission_height ← submit_proven_transaction proven_transaction tx_result;
  apply_transaction tx_result submission_height;;
  mret (executed_id (tres_transaction tx_result)).

(** The scripts that the node does not have. *)
Definition missing_scripts (scripts : list NoteScript) : result ClientError (list NoteScript) :=
  try_fold (λ missing script,
    match rpc_get_note_script_by_root (NoteScript_root script) with
    | Ok _ => Ok missing
    | Err (Rpc_RequestError _ Grpc_NotFound _) => Ok (missing ++ [script])
    | Err other => Err (Client_NtxScriptRegistrationFailed (NoteScript_root script) other)
    end) scripts [].

(** The generator of random numbers comes back with the result. *)
Definition ensure_ntx_scripts_registered (fuel : nat) (account_id : AccountId) (scripts : list NoteScript)
    (rng : Rng) : client_m St Rng :=
  missing ← client_try (missing_scripts scripts);
  if bool_decide (missing = []) then mret rng
  else
    let '(rng, registration_request) :=
      build_register_note_scripts TransactionRequestBuilder_new account_id missing rng in
    registration_request ← client_request registration_request;
    run_transaction fuel account_id registration_request;;
    mret rng.

Definition submit_new_transaction (fuel : nat) (account_id : AccountId)
    (transaction_request : TransactionRequest) (rng : Rng) : client_m St (Rng * TransactionId) :=
  rng ← (if bool_decide (tr_expected_ntx_scripts transaction_request = []) then mret rng
         else ensure_ntx_scripts_registered fuel account_id (tr_expected_ntx_scripts transaction_request) rng);
  tx_id ← run_transaction fuel account_id transaction_request;
  mret (rng, tx_id).

(** ** Without a transaction *)

Definition client_get_transactions (filter : TransactionFilter) : client_m St (list TransactionRecord) :=
  on_store (get_transactions filter).

(** The executor runs a script against an account; it gives the stack. *)
Context {AdviceInputs Stack : Type}.
Context (vm_execute_view_script : list AccountInputs → Account → AccountId → BlockNumber →
  TransactionScript → AdviceInputs → client_m St Stack).

Definition execute_program (account_id : AccountId) (tx_script : TransactionScript)
    (advice_inputs : AdviceInputs) (foreign_accounts : gmap AccountId ForeignAccount) :
    client_m St Stack :=
  '(fpi_block_number, foreign_account_inputs) ← retrieve_foreign_account_inputs foreign_accounts;
  block_ref ← match fpi_block_number with
    | Some block_number => mret block_number
    | None => on_store get_sync_height
    end;
  account_record ← on_store (store_get_account account_id);
  account_record ← client_try (ok_or account_record (Client_AccountDataNotFound account_id));
  account ← client_try (Account_try_from account_record);
  vm_execute_view_script foreign_account_inputs account account_id block_ref tx_script advice_inputs.
End client.
