(* ===== verification/ClientTxSpec.v ===== *)
(** * What the client's transactions do

    Over a store that keeps its contract: an applied transaction changes the data of the
    store as its execution says, and its input notes are not spendable any more; the
    loop that leaves out the notes that cannot be consumed ends. *)

From S2P Require Import Prelude Protocol Serde Model NoteStates InputNote OutputNote TxRecord.
From S2P Require Import NodeErrors TxTracker Errors NoteTracker Rpc Grpc SyncUpdate AccountTypes TxRequest.
From S2P Require Import SmtForest Sql Db AccountDb AccountUndo ChainDb AccountReaders NoteDb NoteSpec Store TxDb SqliteStore.
From S2P Require Import SqliteSync ChainSpec StoreContract Client ClientSync ClientSpec ClientAccounts.
From S2P Require Import Proto ProtoNotes AccountProofs AccountProofSpec ForeignInputs ClientTx.
From Stdlib Require Import ZArith Lia.
From stdpp Require Import base gmap list strings.

Open Scope Z_scope.

(** ** The contract of a store for transactions *)

Class TransactionContract `{StoreContract} `{!SmtForestLib} `{!ExecutedLib} `{!AccountOps St} := {
  tc_apply_transaction d s now u s' : holds d s → changes_fit (cd_outputs d) (tsu_note_updates u) →
    TransactionDetails_wf (tx_details (executed_record u now)) →
    store_apply_transaction now u s = Finished (s', Ok ()) → holds (transacted_data d now u) s';
  tc_failed_transaction d s now u s' e :
    holds d s → store_apply_transaction now u s = Finished (s', Err e) → holds d s';
  (* This one only reads. *)
  tc_get_account_header s id s' r : store_get_account_header id s = Finished (s', r) → s' = s
}.

Section sqlite.
Context `{StoreLaws} `{!ProtocolLaws} `{!SerdeLaws} `{!AccountLaws}.
Context `{Forest : !SmtForestLib} `{!PartialAccountLib} `{!ExecutedLib}.

#[export] Instance sqlite_transactions : TransactionContract (St := StoreState).
Proof.
  split.
  - intros d s now u s' Hd Hfit Hwf Hrun. exact (apply_transaction_stored d now u s s' (Ok ()) Hd Hfit Hwf Hrun).
  - intros d s now u s' e Hd Hrun. exact (failed_transaction_stored d now u s s' e Hd Hrun).
  - intros s id s' r Hrun. unfold store_get_account_header, sqlite_account_ops, db_read_panics in Hrun.
    destruct (get_account_header _ _); [by injection Hrun|done..].
Qed.
End sqlite.

(** ** Applying a transaction *)

Section apply.
Context `{StoreLaws} `{!SmtForestLib} `{!ExecutedLib} `{!NoteChecker}.
Context {St : Type} `{!StoreOps St} `{!StoreContract St} `{!AccountOps St} `{!TransactionContract}.
Context (screener_store : St → ScreenerStore) (now : option u64) (store_now : u64).

(** The identifiers of the notes that a transaction consumes. *)
Definition consumed_ids (tx : ExecutedTransaction) : list NoteId :=
  (λ n, Note_id (InputNote_note n)) <$> executed_input_notes tx.

(** The update of a transaction, from the data of the store: the output notes that an
    account may consume and the notes that are expected of later transactions are new,
    the tracked notes among its inputs are consumed, and all of its output notes are
    recorded; the new tags are those of the expected and the output notes. *)
Record update_of (d : ClientData) (store : St) (tx_result : TransactionResult) (height : BlockNumber)
    (u : TransactionStoreUpdate) : Prop := {
  uo_transaction : tsu_executed_transaction u = tres_transaction tx_result;
  uo_height : tsu_submission_height u = height;
  uo_future : tsu_future_notes u = tres_future_notes tx_result;
  uo_tags : tsu_new_tags u = new_tags_of (tsu_note_updates u);
  uo_notes : let tx := tres_transaction tx_result in
    let output_notes := notes_from_output (executed_output_note_iter tx) in
    ∃ relevances consumed updated,
      @can_consume_batch _ _ _ _ _ (screener_store store) _ output_notes = Ok relevances ∧
      Permutation consumed (selected_notes (NoteFilter_List (consumed_ids tx)) d) ∧
      consume_records now tx consumed = Ok updated ∧
      tsu_note_updates u = NoteUpdateTracker_for_transaction_updates
        ((relevant_record now height <$> filter (λ note, is_Some (relevances !! Note_id note)) output_notes) ++
         (future_record (cd_height d) <$> tres_future_notes tx_result))
        updated (output_records tx height)
}.

Lemma set_same_store (c : ClientState St) : set_cl_store (cl_store c) c = c.
Proof. by destruct c. Qed.

Lemma store_update_of d c c' tx_result height u :
  holds d (cl_store c) → in_range U32_MAX (cd_height d) →
  get_transaction_store_update screener_store now tx_result height c = Finished (c', Ok u) →
  c' = c ∧ update_of d (cl_store c) tx_result height u.
Proof.
  intros Hd Hh Hrun. unfold get_transaction_store_update, get_note_updates in Hrun.
  apply dbm_bind_Ok in Hrun as (c1 & t & Hrun & Hu).
  apply dbm_bind_Ok in Hrun as (c2 & n & (s & Hn & ->)%on_store_Ok & Hrun).
  rewrite (sc_sync_height _ _ Hd Hh) in Hn. injection Hn as <- <-. rewrite set_same_store in Hrun.
  cbv zeta in Hrun. apply dbm_bind_Ok in Hrun as (c3 & store & [= <- <-] & Hrun).
  apply dbm_bind_Ok in Hrun as (c4 & relevances & Hr & Hrun). unfold client_try in Hr.
  destruct (can_consume_batch _) as [rel|] eqn:Er; [|done]. injection Hr as <- <-.
  apply dbm_bind_Ok in Hrun as (c5 & consumed & (s & Hc & ->)%on_store_Ok & Hrun).
  destruct (sc_input_notes _ _ (NoteFilter_List (consumed_ids (tres_transaction tx_result))) Hd)
    as (notes & Hq & Hp). unfold consumed_ids in Hq. rewrite Hq in Hc. injection Hc as <- <-.
  rewrite set_same_store in Hrun.
  apply dbm_bind_Ok in Hrun as (c6 & updated & Hup & Hrun). unfold client_try in Hup.
  destruct (consume_records _ _ _) as [upd|] eqn:Eu; [|done]. injection Hup as <- <-.
  injection Hrun as <- <-. injection Hu as <- <-. split; [done|]. split; [done..|]. cbn.
  eauto 10.
Qed.

Lemma reader_status_reads id c c' r :
  reader_status (St:=St) id c = Finished (c', r) → c' = c.
Proof.
  unfold reader_status, reader_header. unfold mbind, dbm_bind, on_store, client_try.
  destruct (store_get_account_header id (cl_store c)) as [[s [o|e]]| |] eqn:E; [| |done..].
  - apply tc_get_account_header in E as ->. destruct o as [[h st]|]; cbn;
      by intros [= <- _]; rewrite set_same_store.
  - apply tc_get_account_header in E as ->. intros [= <- _]. by rewrite set_same_store.
Qed.

Lemma store_update_reads tx_result height :
  preserves data_kept (get_transaction_store_update screener_store now tx_result height).
Proof.
  unfold get_transaction_store_update, get_note_updates.
  apply kept_bind; [|intros; apply preserves_ret, _].
  apply kept_bind; [apply sync_height_kept|intros n]. cbv zeta.
  apply kept_bind; [apply kept_read|intros s]. apply kept_bind; [apply kept_try|intros rel].
  apply kept_bind; [apply kept_on_store; intros ????; apply input_notes_same|intros consumed].
  apply kept_bind; [apply kept_try|intros updated; apply preserves_ret, _].
Qed.

Lemma apply_transaction_outcome d c c' tx_result height r :
  holds d (cl_store c) → in_range U32_MAX (cd_height d) →
  apply_transaction screener_store now store_now tx_result height c = Finished (c', r) →
  match r with
  | Ok _ => ∃ header status u,
      store_get_account_header (executed_account_id (tres_transaction tx_result)) (cl_store c) =
        Finished (cl_store c, Ok (Some (header, status))) ∧ AccountStatus_is_locked status = false ∧
      update_of d (cl_store c) tx_result height u ∧
      (changes_fit (cd_outputs d) (tsu_note_updates u) →
       TransactionDetails_wf (tx_details (executed_record u store_now)) →
       holds (transacted_data d store_now u) (cl_store c'))
  | Err _ => holds d (cl_store c')
  end.
Proof.
  intros Hd Hh Hrun. unfold apply_transaction in Hrun.
  destruct (get_transaction_store_update screener_store now tx_result height c) as [[c1 [u|e]]| |] eqn:Eu;
    unfold mbind, dbm_bind in Hrun; rewrite Eu in Hrun; [| |done..].
  2: { injection Hrun as <- <-. by eapply store_update_reads. }
  apply (store_update_of _ _ _ _ _ _ Hd Hh) in Eu as [-> Hu]. unfold apply_transaction_update in Hrun.
  rewrite (uo_transaction _ _ _ _ _ Hu) in Hrun. cbv zeta in Hrun.
  destruct (reader_status (executed_account_id (tres_transaction tx_result)) c)
    as [[c2 [status|e]]| |] eqn:Es;
    unfold mbind, dbm_bind in Hrun; rewrite Es in Hrun; [| |done..].
  2: { injection Hrun as <- <-. by apply reader_status_reads in Es as ->. }
  pose proof (reader_status_reads _ _ _ _ Es) as ->.
  destruct (AccountStatus_is_locked status) eqn:El; [by injection Hrun as <- <-|].
  unfold on_store in Hrun.
  destruct (store_apply_transaction _ _ _) as [[s [[]|e]]| |] eqn:Ea; [| |done..].
  2: { injection Hrun as <- <-. by eapply tc_failed_transaction. }
  injection Hrun as <- <-. unfold reader_status, reader_header, mbind, dbm_bind, on_store, client_try in Es.
  destruct (store_get_account_header _ (cl_store c)) as [[s1 [o|e]]| |] eqn:Eh; [|done..].
  pose proof (tc_get_account_header _ _ _ _ Eh) as ->. destruct o as [[h st]|]; [|done].
  injection Es as _ <-. exists h, st, u. split_and!; [done..|]. intros Hfit Hwf. cbn.
  by eapply tc_apply_transaction.
Qed.

Lemma apply_transaction_steps d c c' tx_result height :
  holds d (cl_store c) → in_range U32_MAX (cd_height d) →
  apply_transaction screener_store now store_now tx_result height c = Finished (c', Ok ()) →
  ∃ header status u,
    store_get_account_header (executed_account_id (tres_transaction tx_result)) (cl_store c) =
      Finished (cl_store c, Ok (Some (header, status))) ∧ AccountStatus_is_locked status = false ∧
    update_of d (cl_store c) tx_result height u ∧
    (changes_fit (cd_outputs d) (tsu_note_updates u) →
     TransactionDetails_wf (tx_details (executed_record u store_now)) →
     holds (transacted_data d store_now u) (cl_store c')).
Proof. intros Hd Hh Hrun. exact (apply_transaction_outcome _ _ _ _ _ _ Hd Hh Hrun). Qed.

(** C9: Applying a transaction refines the contract of the store.  When it succeeds, the
    account was not locked, the update is the one that the data of the store and the
    execution determine, and the store holds the data with this update; when it fails,
    at whatever step, the data are as they were. *)
Theorem applied_transaction_refines d c c' tx_result height r :
  holds d (cl_store c) → in_range U32_MAX (cd_height d) →
  apply_transaction screener_store now store_now tx_result height c = Finished (c', r) →
  match r with
  | Ok _ => ∃ header status u,
      store_get_account_header (executed_account_id (tres_transaction tx_result)) (cl_store c) =
        Finished (cl_store c, Ok (Some (header, status))) ∧ AccountStatus_is_locked status = false ∧
      update_of d (cl_store c) tx_result height u ∧
      (changes_fit (cd_outputs d) (tsu_note_updates u) →
       TransactionDetails_wf (tx_details (executed_record u store_now)) →
       holds (transacted_data d store_now u) (cl_store c'))
  | Err _ => holds d (cl_store c')
  end.
Proof. apply apply_transaction_outcome. Qed.
End apply.

(** ** Spent notes *)

Section spent.
Context `{Protocol}.

Lemma consumed_locally_processing r account tx now b r' :
  InputNoteRecord_consumed_locally r account tx now = Ok (b, r') →
  b = true ∧ InputNoteRecord_id r' = InputNoteRecord_id r ∧
  InputNoteRecord_is_processing r' = true ∧ InputNoteRecord_consumer_transaction_id r' = Some tx.
Proof.
  destruct r as [details created [[[m|] ?]|[]|[]|[]|[]|[]|[]|[]|[]]]; cbn; try done; by intros [= <- <-].
Qed.

(** The tracked input notes are under their identifiers. *)
Definition inputs_keyed (t : NoteUpdateTracker) : Prop :=
  ∀ id u, NoteTracker.input_notes t !! id = Some u → InputNoteRecord_id (iu_note u) = id.

Lemma fold_inputs_keyed ty l t :
  inputs_keyed t → inputs_keyed (foldl (λ t note, insert_input_note t note ty) t l).
Proof.
  revert t. induction l as [|n l IH]; intros t Ht; [done|]. apply IH. intros id u. cbn.
  rewrite lookup_insert. case_decide as Hid; [|apply Ht]. by intros [= <-].
Qed.

Lemma fold_outputs_inputs ty l t :
  NoteTracker.input_notes (foldl (λ t note, insert_output_note t note ty) t l) = NoteTracker.input_notes t.
Proof. revert t. induction l as [|n l IH]; intros t; [done|]. cbn. by rewrite IH. Qed.

Lemma transaction_tracker_keyed news upds outs :
  inputs_keyed (NoteUpdateTracker_for_transaction_updates news upds outs).
Proof.
  intros id u. unfold NoteUpdateTracker_for_transaction_updates. rewrite fold_outputs_inputs.
  apply fold_inputs_keyed, fold_inputs_keyed. by intros ? ?.
Qed.

Lemma fold_inputs_lookup ty l t id :
  NoteTracker.input_notes (foldl (λ t note, insert_input_note t note ty) t l) !! id =
  match last (filter (λ n, InputNoteRecord_id n = id) l) with
  | Some n => Some {| iu_note := n; iu_update_type := ty |}
  | None => NoteTracker.input_notes t !! id
  end.
Proof.
  induction l as [|n l IH] using rev_ind; [done|].
  rewrite foldl_snoc, filter_app, filter_cons, filter_nil. cbn [insert_input_note NoteTracker.input_notes].
  rewrite lookup_insert. case_decide; [by rewrite last_snoc|]. by rewrite app_nil_r.
Qed.

(** An updated note of a transaction is in the tracker as updated. *)
Lemma transaction_tracker_updated news upds outs r :
  r ∈ upds → ∃ n, n ∈ upds ∧ InputNoteRecord_id n = InputNoteRecord_id r ∧
  NoteTracker.input_notes (NoteUpdateTracker_for_transaction_updates news upds outs) !! InputNoteRecord_id r =
    Some {| iu_note := n; iu_update_type := UpdateUpdate |}.
Proof.
  intros Hr. unfold NoteUpdateTracker_for_transaction_updates. rewrite fold_outputs_inputs, fold_inputs_lookup.
  destruct (last _) as [n|] eqn:El.
  - apply last_Some_elem_of, list_elem_of_filter in El as [Hid Hn]. by exists n.
  - apply last_None in El. exfalso. eapply (not_elem_of_nil r). rewrite <-El. by apply list_elem_of_filter.
Qed.

(** What is stored for a note that the tracker has as updated. *)
Lemma insert_notes_other l recs id :
  (∀ r, r ∈ l → InputNoteRecord_id r ≠ id) → foldl insert_note recs l !! id = recs !! id.
Proof.
  revert recs. induction l as [|r l IH]; intros recs Hl; [done|]. cbn [foldl]. rewrite IH by set_solver.
  unfold insert_note. apply lookup_insert_ne. apply Hl. left.
Qed.

Lemma update_notes_state (Q : InputNoteState → Prop) l recs id r :
  recs !! id = Some r → (∀ n, n ∈ l → InputNoteRecord_id n = id → Q (in_state n)) →
  (Q (in_state r) ∨ ∃ n, n ∈ l ∧ InputNoteRecord_id n = id) →
  ∃ r', foldl update_note recs l !! id = Some r' ∧ Q (in_state r').
Proof.
  revert recs r. induction l as [|n l IH]; intros recs r Hr Hl Hq; cbn [foldl].
  { destruct Hq as [?|(n & Hn%not_elem_of_nil & _)]; [eauto|done]. }
  assert (∀ n', n' ∈ l → InputNoteRecord_id n' = id → Q (in_state n')) by (intros; apply Hl; [by right|done]).
  destruct (decide (InputNoteRecord_id n = id)) as [Hid|Hid].
  - apply (IH _ (with_state r (in_state n))); [|done|left; apply (Hl n); [left|done]].
    unfold update_note. by rewrite Hid, lookup_alter_eq, Hr.
  - apply (IH _ r); [|done|].
    + unfold update_note. by rewrite lookup_alter_ne.
    + destruct Hq as [?|(n' & [->|Hn']%elem_of_cons & ?)]; [by left|done|right; eauto].
Qed.

(** A tracker that has a note as updated changes the state that is stored for it. *)
Lemma updated_note_stored recs t id n r :
  inputs_keyed t → NoteTracker.input_notes t !! id = Some {| iu_note := n; iu_update_type := UpdateUpdate |} →
  recs !! id = Some r →
  ∃ r', changed_input_records recs t !! id = Some r' ∧ in_state r' = in_state n.
Proof.
  intros Hk Hn Hr. unfold changed_input_records.
  assert (∀ u, u ∈ updated_input_notes t → InputNoteRecord_id (iu_note u) = id →
    u = {| iu_note := n; iu_update_type := UpdateUpdate |}) as Hu.
  { intros u [_ (id' & Hid')%elem_of_btree_values]%list_elem_of_filter Hid. pose proof (Hk _ _ Hid').
    congruence. }
  apply (update_notes_state (λ s, s = in_state n) _ _ _ r).
  - rewrite insert_notes_other; [done|].
    intros r' (u & -> & [Ht Hin]%list_elem_of_filter)%list_elem_of_fmap Hid.
    rewrite (Hu _ Hin Hid) in Ht. done.
  - intros r' (u & -> & [_ Hin]%list_elem_of_filter)%list_elem_of_fmap Hid. by rewrite (Hu _ Hin Hid).
  - right. exists n. pose proof (Hk _ _ Hn). split; [|done]. apply list_elem_of_fmap.
    exists {| iu_note := n; iu_update_type := UpdateUpdate |}. split; [done|].
    apply list_elem_of_filter. split; [done|]. apply list_elem_of_filter. split; [done|].
    apply elem_of_btree_values. by exists id.
Qed.
End spent.

Section consumed.
Context `{StoreLaws} `{!SmtForestLib} `{!ExecutedLib} `{!NoteChecker}.
Context {St : Type} `{!StoreOps St} `{!StoreContract St} `{!AccountOps St} `{!TransactionContract}.
Context (screener_store : St → ScreenerStore) (now : option u64) (store_now : u64).

(** A record that is being consumed by a transaction. *)
Definition consumed_by (tx : TransactionId) (s : InputNoteState) : Prop :=
  match s with
  | ProcessingAuthenticated _ | ProcessingUnauthenticated _ => state_consumer_transaction_id s = Some tx
  | _ => False
  end.

Lemma consumed_by_record tx r :
  consumed_by tx (in_state r) ↔
  InputNoteRecord_is_processing r = true ∧ InputNoteRecord_consumer_transaction_id r = Some tx.
Proof. destruct r as [? ? []]; unfold consumed_by; cbn; naive_solver. Qed.

(** The loop over the consumed notes returns each of them, being consumed. *)
Lemma consume_records_all tx l : ∀ updated0 updated,
  try_fold (λ updated input_note_record,
    '(changed, record) ← note_error (InputNoteRecord_consumed_locally input_note_record
      (executed_account_id tx) (executed_id tx) now);
    Ok (if (changed : bool) then updated ++ [record] else updated)) l updated0 = Ok updated →
  (∀ n, n ∈ updated0 → consumed_by (executed_id tx) (in_state n)) →
  (∀ n, n ∈ updated → consumed_by (executed_id tx) (in_state n)) ∧
  (∀ n, n ∈ updated0 → n ∈ updated) ∧
  ∀ r, r ∈ l → ∃ n, n ∈ updated ∧ InputNoteRecord_id n = InputNoteRecord_id r.
Proof.
  induction l as [|r l IH]; intros updated0 updated Hrun Hall; cbn [try_fold] in Hrun.
  { injection Hrun as <-. split_and!; [done..|]. by intros r ?%not_elem_of_nil. }
  destruct (InputNoteRecord_consumed_locally r _ _ _) as [[b r']|] eqn:Ec; [|done].
  destruct (consumed_locally_processing _ _ _ _ _ _ Ec) as (-> & Hid & Hproc).
  apply consumed_by_record in Hproc. apply IH in Hrun as (Hupd & Hmono & Hl).
  - split_and!; [done|intros; apply Hmono; set_solver|].
    intros r0 [->|Hr0]%elem_of_cons; [|by apply Hl]. exists r'. split; [apply Hmono; set_solver|done].
  - intros n [Hn|Hn]%elem_of_app; [by apply Hall|]. by apply list_elem_of_singleton in Hn as ->.
Qed.

(** C8: The notes that an applied transaction consumes cannot be spent again: every
    stored note among its inputs is stored as being consumed by it, also when the same
    note is an output of the transaction. *)
Theorem applied_inputs_are_processing d c c' tx_result height :
  holds d (cl_store c) → in_range U32_MAX (cd_height d) →
  (∀ id r, cd_notes d !! id = Some r → InputNoteRecord_id r = id) →
  apply_transaction screener_store now store_now tx_result height c = Finished (c', Ok ()) →
  let tx := tres_transaction tx_result in
  ∃ u, update_of screener_store now d (cl_store c) tx_result height u ∧
    (changes_fit (cd_outputs d) (tsu_note_updates u) →
     TransactionDetails_wf (tx_details (executed_record u store_now)) →
     holds (transacted_data d store_now u) (cl_store c')) ∧
    ∀ id r, id ∈ consumed_ids tx → cd_notes d !! id = Some r →
      ∃ r', cd_notes (transacted_data d store_now u) !! id = Some r' ∧
        InputNoteRecord_is_processing r' = true ∧
        InputNoteRecord_consumer_transaction_id r' = Some (executed_id tx) ∧
        note_matches NoteFilter_Committed r' = false.
Proof.
  intros Hd Hh Hkey Hrun tx.
  destruct (apply_transaction_steps _ _ _ _ _ _ _ _ Hd Hh Hrun) as (header & status & u & _ & _ & Hu & Hdone).
  exists u. split_and!; [done..|]. intros id r Hin Hr. pose proof (Hkey _ _ Hr) as Hid.
  destruct (uo_notes _ _ _ _ _ _ _ Hu) as (rel & consumed & updated & _ & Hperm & Hcons & Ht).
  destruct (consume_records_all _ _ _ _ Hcons) as (Hupd & _ & Hall); [by intros n ?%not_elem_of_nil|].
  destruct (Hall r) as (n & Hn & Hnid).
  { rewrite Hperm. apply list_elem_of_fmap. exists (id, r). split; [done|].
    apply list_elem_of_filter. split; [|by apply elem_of_map_to_list]. cbn. by rewrite Hid, bool_decide_true. }
  destruct (transaction_tracker_updated
    ((relevant_record now height <$> filter (λ note, is_Some (rel !! Note_id note))
      (notes_from_output (executed_output_note_iter (tres_transaction tx_result)))) ++
     (future_record (cd_height d) <$> tres_future_notes tx_result)) updated
    (output_records (tres_transaction tx_result) height) n Hn) as (n' & Hn' & Hid' & Hlook).
  rewrite <-Ht, Hnid, Hid in Hlook.
  destruct (updated_note_stored (cd_notes d) (tsu_note_updates u) id n' r) as (r' & Hr' & Hs); [|done..|].
  { rewrite Ht. apply transaction_tracker_keyed. }
  exists r'. split; [done|]. pose proof (Hupd _ Hn') as Hc. rewrite <-Hs in Hc.
  destruct (proj1 (consumed_by_record _ _) Hc) as [??]. split_and!; [done..|].
  destruct r' as [? ? []]; done.
Qed.
End consumed.

(** ** The notes that can be consumed *)

Class InputNotesLaws `{RequestLib} : Prop := {
  (* A list of notes that is accepted stays as it is; its sublists are accepted. *)
  InputNotes_new_same l l' : InputNotes_new l = Ok l' → l' = l;
  InputNotes_new_sublist l l' : InputNotes_new l = Ok l → l' `sublist_of` l → InputNotes_new l' = Ok l'
}.

Section valid_notes.
Context `{TxLib} `{!StoreLaws} `{!InputNotesLaws}.
Context {St : Type} `{!StoreOps St} `{!StoreContract St}.
Context (vm_failed_notes : Account → BlockNumber → list Note → TransactionArgs → client_m St (list NoteId)).

(** What the check of notes does: it comes to an end, leaves the data of the store as
    they are, and only names notes that it was given. *)
Definition checks_given_notes (d : ClientData) : Prop := ∀ account h notes args c,
  holds d (cl_store c) → ∃ c' r, vm_failed_notes account h notes args c = Finished (c', r) ∧
    holds d (cl_store c') ∧ ∀ failed, r = Ok failed → Forall (λ id, ∃ n, n ∈ notes ∧ Note_id n = id) failed.

(** The loop that leaves out the notes that cannot be consumed ends: one round more
    than there are notes is enough, and neither the loop nor the construction of the
    shorter lists panics.  What it returns are some of the notes, in their order, and the
    last check found nothing wrong with them. *)
Theorem valid_input_notes_terminates d account tx_args fuel notes c :
  holds d (cl_store c) → in_range U32_MAX (cd_height d) → checks_given_notes d →
  InputNotes_new notes = Ok notes → (length notes < fuel)%nat →
  ∃ c' r, get_valid_input_notes vm_failed_notes fuel account notes tx_args c = Finished (c', r) ∧
    holds d (cl_store c') ∧
    ∀ kept, r = Ok kept → kept `sublist_of` notes ∧ InputNotes_new kept = Ok kept ∧
      ∃ c1, vm_failed_notes account (cd_height d) (InputNote_note <$> kept) tx_args c1 = Finished (c', Ok []).
Proof.
  intros Hd Hh Hvm. revert notes c Hd.
  induction fuel as [|fuel IH]; intros notes c Hd Hnew Hfuel; [lia|].
  cbn [get_valid_input_notes]. unfold mbind, dbm_bind, on_store.
  rewrite (sc_sync_height _ _ Hd Hh). cbn [map_err]. rewrite set_same_store.
  destruct (Hvm account (cd_height d) (InputNote_note <$> notes) tx_args c Hd)
    as (c1 & r & Hrun & Hd1 & Hgiven). rewrite Hrun.
  destruct r as [failed|e]; [|by exists c1, (Err e)].
  case_bool_decide as Hf; [subst failed; exists c1, (Ok notes); split_and!; [done..|]; intros _ [= <-]; eauto|].
  set (kept := filter _ notes).
  assert (kept `sublist_of` notes) as Hsub by apply sublist_filter.
  rewrite (InputNotes_new_sublist _ _ Hnew Hsub).
  destruct (IH kept c1) as (c' & r & Hr & Hd' & Hkept); [done|by eapply InputNotes_new_sublist| |].
  - destruct failed as [|id failed]; [done|].
    destruct (Forall_cons_1 _ _ _ (Hgiven _ eq_refl)) as [(n & [input [-> Hin]]%list_elem_of_fmap & Hid) _].
    assert (length kept < length notes)%nat; [|lia]. apply (length_filter_lt _ _ input); [done|].
    intros Hnot. apply Hnot. rewrite Hid. left.
  - exists c', r. split_and!; [done..|]. intros k Hk. destruct (Hkept k Hk) as (? & ? & ?).
    split_and!; [by etrans|done..].
Qed.
End valid_notes.

(** ** Witnesses *)

(** A client with account 1 that expects a note: a transaction of the account consumes
    the note and makes another one, which the account may consume. *)
#[export] Instance toy_note_checker : @NoteChecker toy_protocol := {|
  NoteConsumptionStatus := bool;
  is_unconsumable := negb;
  check_can_consume := λ _ _ note, Ok (bool_decide (Note_id note = toy_noteid 9 2))
|}.

Definition toy_screener_store (s : StoreState) : ScreenerStore := {|
  scr_input_notes := λ _, Ok ([] : list (@InputNoteRecord toy_protocol));
  scr_output_notes := λ _, Ok [];
  scr_unique_note_tags := Ok ∅;
  scr_account_ids := Ok [(1 : @AccountId toy_protocol)];
  scr_sync_height := Ok 0;
  scr_account_code := λ _, Ok (Some (0 : @AccountCode toy_protocol toy_account_lib))
|}.

Definition toy_known : InputNoteState :=
  Expected {| Expected_metadata := Some ((1, true, 7) : @NoteMetadata toy_protocol);
    Expected_after_block_num := 3; Expected_tag := Some 1 |}.

Definition toy_tx_client : ClientState StoreState := {|
  cl_store := {|
    st_db := set_input_notes {[ note_key (toy_noteid 3 5) := input_row (toy_input_record toy_known) ]}
      (put_script (Word_to_hex (NoteScript_root (3 : @NoteScript toy_protocol))) [3] toy_tables);
    st_forest := st_forest toy_store |};
  cl_genesis_commitment := None;
  cl_rpc_limits := None |}.

Definition toy_tx_data : ClientData := {|
  cd_height := 0;
  cd_notes := {[ toy_noteid 3 5 := toy_input_record toy_known ]};
  cd_outputs := ∅;
  cd_txs := ∅;
  cd_tags := []
|}.

Definition toy_tx_result : TransactionResult := {|
  tres_transaction := {|
    toy_ex_id := 70; toy_ex_delta := ([(6, 5)], [], [(4, 8)], []);
    toy_ex_inputs := [InputNote_Unauthenticated toy_note];
    toy_ex_outputs := [RawOutputNote_Full (toy_paying 9 2 40)];
    toy_ex_initial := AccountUndo.toy_header 610 1; toy_ex_final := AccountUndo.toy_header 615 2;
    toy_ex_block := 9; toy_ex_expiration := 20 |};
  tres_future_notes := []
|}.

Lemma toy_tx_holds : holds (StoreContract:=sqlite_contract) toy_tx_data (cl_store toy_tx_client).
Proof.
  split.
  - reflexivity.
  - split; [apply (represents_insert note_key input_row ∅ ∅), represents_empty|..];
      intros id r Hr; cbn in Hr; apply lookup_singleton_Some in Hr as [<- <-]; [|done].
    split; [done| |by exists 7]. vm_compute. repeat split; congruence.
  - split; [apply represents_empty|done..].
  - by split.
  - done.
Qed.

Lemma toy_tx_height : in_range U32_MAX (cd_height toy_tx_data).
Proof. split; discriminate. Qed.

Lemma toy_applied : ∃ c',
  apply_transaction (St:=StoreState) toy_screener_store (Some 4) 5 toy_tx_result 10 toy_tx_client =
    Finished (c', Ok ()).
Proof.
  assert (match apply_transaction (St:=StoreState) toy_screener_store (Some 4) 5 toy_tx_result 10 toy_tx_client with
    | Finished (_, Ok ()) => true | _ => false end = true) as Hrun by by vm_compute.
  destruct (apply_transaction _ _ _ _ _ _) as [[c' [[]|]]| |]; [eauto|done..].
Qed.

Lemma applied_transaction_refines_witness : ∃ c' header status u,
  store_get_account_header (1 : @AccountId toy_protocol) (cl_store toy_tx_client) =
    Finished (cl_store toy_tx_client, Ok (Some (header, status))) ∧ AccountStatus_is_locked status = false ∧
  update_of toy_screener_store (Some 4) toy_tx_data (cl_store toy_tx_client) toy_tx_result 10 u ∧
  (changes_fit ∅ (tsu_note_updates u) → TransactionDetails_wf (tx_details (executed_record u 5)) →
   holds (StoreContract:=sqlite_contract) (transacted_data toy_tx_data 5 u) (cl_store c')).
Proof.
  destruct toy_applied as [c' Hrun]. exists c'.
  exact (applied_transaction_refines toy_screener_store (Some 4) 5 toy_tx_data toy_tx_client c'
    toy_tx_result 10 (Ok ()) toy_tx_holds toy_tx_height Hrun).
Defined.

Lemma applied_inputs_are_processing_witness : ∃ c' u r',
  update_of toy_screener_store (Some 4) toy_tx_data (cl_store toy_tx_client) toy_tx_result 10 u ∧
  (changes_fit ∅ (tsu_note_updates u) → TransactionDetails_wf (tx_details (executed_record u 5)) →
   holds (StoreContract:=sqlite_contract) (transacted_data toy_tx_data 5 u) (cl_store c')) ∧
  cd_notes (transacted_data toy_tx_data 5 u) !! toy_noteid 3 5 = Some r' ∧
  InputNoteRecord_is_processing r' = true ∧ InputNoteRecord_consumer_transaction_id r' = Some (toy_txid 70).
Proof.
  destruct toy_applied as [c' Hrun]. exists c'.
  destruct (applied_inputs_are_processing toy_screener_store (Some 4) 5 toy_tx_data toy_tx_client c'
    toy_tx_result 10 toy_tx_holds toy_tx_height) as (u & Hu & Hdone & Hnotes).
  - intros id r Hr. cbn in Hr. by apply lookup_singleton_Some in Hr as [<- <-].
  - exact Hrun.
  - destruct (Hnotes (toy_noteid 3 5) (toy_input_record toy_known)) as (r' & Hr' & Hp & Hc & _).
    + left.
    + exact (lookup_singleton_eq _ _).
    + exists u, r'. split; [exact Hu|]. split; [exact Hdone|]. split; [exact Hr'|]. split; [exact Hp|exact Hc].
Defined.

#[export] Instance toy_input_notes_laws : @InputNotesLaws _ _ toy_request_lib.
Proof. split; [by intros l l' [= ->]|done]. Qed.

#[export] Instance toy_tx_lib : @TxLib _ _ _ _ _ _ _ _ _ _ toy_foreign _ toy_request_lib := {|
  TransactionArgs := list Z;
  TransactionArgs_new := λ _, [];
  with_note_args := λ args _, args;
  with_tx_script := λ args _, args;
  with_tx_script_and_args := λ args _ _, args;
  with_auth_args := λ args _, args;
  extend_output_note_recipients := λ args _, args;
  MerkleStore_inner_nodes := λ _, [];
  extend_merkle_store := λ args _, args;
  AccountInterface := @Account toy_protocol;
  AccountInterface_from_account := λ a, a;
  build_send_notes_script := λ _ _ _, Err "not in this model"%string;
  compile_tx_script := λ _, Err "not in this model"%string;
  Account_is_faucet := λ _, false;
  NoteType_Public := true;
  NoteStorage_new := λ _, Err "not in this model"%string;
  NoteAssets_new := λ _, Err "not in this model"%string;
  Rng_draw_word := λ rng, (rng + 1, rng);
  RawOutputNote_recipient := λ _, None;
  ProvenTransaction := Z
|}.

(** A check that finds fault with the notes whose assets are [9]. *)
Definition toy_check (account : @Account toy_protocol) (h : BlockNumber) (notes : list (@Note toy_protocol))
    (args : TransactionArgs) : client_m StoreState (list NoteId) := λ c,
  Finished (c, Ok (Note_id <$> filter (λ n, Note_id n = toy_noteid 9 2) notes)).

Definition toy_args : TransactionArgs := ([] : list Z).

Definition toy_inputs : list (@InputNote toy_protocol) :=
  [InputNote_Unauthenticated (toy_paying 9 2 40); InputNote_Unauthenticated toy_note].

Lemma toy_check_given : checks_given_notes toy_check toy_tx_data.
Proof.
  intros account h notes args c Hd.
  exists c, (Ok (Note_id <$> filter (λ n, Note_id n = toy_noteid 9 2) notes)).
  split_and!; [done..|]. intros failed [= <-]. apply Forall_fmap, Forall_forall.
  intros n [_ Hn]%list_elem_of_filter. by exists n.
Qed.

Definition toy_client_account : @Account toy_protocol := ((1, 1), []).

Definition toy_valid_notes :=
  @get_valid_input_notes toy_protocol toy_account_lib toy_serde toy_mmr toy_store_lib
    toy_wire toy_forest_lib toy_proofs toy_partial_account toy_account_wire toy_foreign toy_note_wire
    toy_request_lib toy_tx_lib StoreState sqlite_store_ops toy_check 3 toy_client_account toy_inputs toy_args
    toy_tx_client.

Lemma toy_valid_run :
  match toy_valid_notes with
  | Finished (_, Ok [InputNote_Unauthenticated n]) => bool_decide (Note_id n = toy_noteid 3 5)
  | _ => false
  end = true.
Proof. by vm_compute. Qed.

Lemma valid_input_notes_terminates_witness : ∃ c' n,
  toy_valid_notes = Finished (c', Ok [InputNote_Unauthenticated n]) ∧ Note_id n = toy_noteid 3 5 ∧
  holds (StoreContract:=sqlite_contract) toy_tx_data (cl_store c') ∧
  ∃ c1, toy_check toy_client_account 0 [n] toy_args c1 = Finished (c', Ok []).
Proof.
  destruct (@valid_input_notes_terminates toy_protocol toy_account_lib toy_serde toy_mmr toy_store_lib
    toy_wire toy_forest_lib toy_proofs toy_partial_account toy_account_wire toy_foreign toy_note_wire
    toy_request_lib toy_tx_lib toy_store_laws toy_input_notes_laws StoreState sqlite_store_ops sqlite_contract
    toy_check toy_tx_data toy_client_account toy_args 3 toy_inputs toy_tx_client
    toy_tx_holds toy_tx_height toy_check_given eq_refl (le_n 3)) as (c' & r & Hrun & Hd & Hkept).
  pose proof toy_valid_run as Htest. unfold toy_valid_notes in *. rewrite Hrun in Htest |- *.
  destruct r as [[|[?|n] [|]]|]; try discriminate Htest. apply bool_decide_eq_true in Htest.
  exists c', n. split; [reflexivity|]. split; [exact Htest|]. split; [exact Hd|].
  destruct (Hkept _ eq_refl) as (_ & _ & Hlast). exact Hlast.
Defined.
