(* ===== verification/DataStore.v ===== *)
(** * The data store of a transaction's execution

    [store/data_store.rs]: what the executor of the VM asks for while it runs a
    transaction.  Inputs, witnesses and scripts come from the store of the client, from
    two caches, or from the node.  The Merkle paths of the blocks that a transaction
    refers to are put together from the nodes of the chain's MMR in the store. *)

From S2P Require Import Prelude Protocol Serde Model NoteStates InputNote OutputNote TxRecord.
From S2P Require Import NodeErrors TxTracker Errors NoteTracker Rpc Grpc SyncUpdate AccountTypes TxRequest.
From S2P Require Import SmtForest Sql Store Db AccountDb NoteDb AccountReaders TxDb SqliteStore Client ClientAccounts.
From S2P Require Import Proto ProtoNotes AccountProofs ForeignInputs ClientTx.
From Stdlib Require Import ZArith Lia.
From stdpp Require Import base gmap list strings sorting.

Open Scope Z_scope.

(** ** What the data store uses of the protocol and of the VM *)

Class DataStoreLib `{ForeignLib} := {
  (* [TransactionMastStore]: the code that the executor can look up. *)
  MastForest : Type;
  MastStore : Type;
  MastStore_new : MastStore;
  load_account_code : MastStore → AccountCode → MastStore;
  MastStore_get : MastStore → Word → option MastForest;
  StorageMap_open : StorageMap → StorageMapKey → StorageMapWitness;
  PartialStorageMap_root : PartialStorageMap → Word;
  PartialStorageMap_open : PartialStorageMap → StorageMapKey → result foreign StorageMapWitness;
  PartialAccount_from : Account → PartialAccount;
  (* [AssetWitness::new] of a proof that the vault opens. *)
  AssetVault_open_witness : AssetVault → AssetVaultKey → result foreign AssetWitness;
  PartialBlockchain : Type;
  PartialBlockchain_new : PartialMmr → list BlockHeader → result foreign PartialBlockchain
}.

(** Two more methods of the store. *)
Class DataStoreOps `{StoreLib} (S : Type) := {
  store_get_minimal_partial_account : AccountId → dbm StoreError S (option AccountRecord);
  store_get_note_script : Word → dbm StoreError S NoteScript
}.

#[export] Instance sqlite_data_store_ops `{StoreLib} `{!SmtForestLib} `{!PartialAccountLib} :
    DataStoreOps StoreState := {|
  store_get_minimal_partial_account := λ id, db_read_panics (λ s, get_minimal_partial_account (st_db s) id);
  store_get_note_script := λ root, on_tables (sqlite_get_note_script root)
|}.

(** ** Merkle paths of blocks *)

(** [usize::ilog2] panics on zero. *)
Definition ilog2 (n : Z) : option Z := if 0 <? n then Some (Z.log2 n) else None.

Definition mmr_merkle_path_len (leaf_index forest : Z) : option Z :=
  let before := Z.land forest leaf_index in
  let after := Z.lxor forest before in
  ilog2 after.

Section paths.
Context `{StoreLib} `{!MerklePathLib} {St : Type} `{!StoreOps St}.

(** The siblings on the way up, for a number of levels. *)
Fixpoint siblings (path_depth : nat) (idx : InOrderIndex) : list InOrderIndex :=
  match path_depth with
  | O => []
  | S path_depth => InOrderIndex_sibling idx :: siblings path_depth (InOrderIndex_parent idx)
  end.

(** The indices of the nodes for one block. *)
Definition block_node_indices (forest block_num : Z) : option (list InOrderIndex) :=
  path_depth ← mmr_merkle_path_len block_num forest;
  Some (siblings (Z.to_nat path_depth) (InOrderIndex_from_leaf_pos block_num)).

(** The path of one block from the nodes: upwards for as long as there is a sibling. *)
Fixpoint merkle_nodes (fuel : nat) (mmr_nodes : gmap InOrderIndex Word) (idx : InOrderIndex) :
    loop_result (list Word) :=
  match fuel with
  | O => OutOfFuel
  | S fuel =>
      match mmr_nodes !! InOrderIndex_sibling idx with
      | None => Finished []
      | Some node =>
          match merkle_nodes fuel mmr_nodes (InOrderIndex_parent idx) with
          | Finished nodes => Finished (node :: nodes)
          | Panicked => Panicked
          | OutOfFuel => OutOfFuel
          end
      end
  end.

(** One round more than there are nodes. *)
Definition authentication_path (mmr_nodes : gmap InOrderIndex Word) (block_num : Z) :
    loop_result MerklePath :=
  match merkle_nodes (S (size mmr_nodes)) mmr_nodes (InOrderIndex_from_leaf_pos block_num) with
  | Finished nodes => Finished (MerklePath_new nodes)
  | Panicked => Panicked
  | OutOfFuel => OutOfFuel
  end.

(** A loop without effects on the store. *)
Definition db_loop {E S A} (m : loop_result A) : dbm E S A := λ s,
  match m with
  | Finished a => Finished (s, Ok a)
  | Panicked => Panicked
  | OutOfFuel => OutOfFuel
  end.

Fixpoint authentication_paths (mmr_nodes : gmap InOrderIndex Word) (block_nums : list BlockNumber) :
    dbm StoreError St (list MerklePath) :=
  match block_nums with
  | [] => mret []
  | block_num :: block_nums =>
      path ← db_loop (authentication_path mmr_nodes block_num);
      paths ← authentication_paths mmr_nodes block_nums;
      mret (path :: paths)
  end.

Definition get_authentication_path_for_blocks (block_nums : list BlockNumber) (forest : Z) :
    dbm StoreError St (list MerklePath) :=
  match mapM (block_node_indices forest) block_nums with
  | None => db_panic
  | Some indices =>
      let node_indices : gset InOrderIndex := list_to_set (concat indices) in
      mmr_nodes ← get_partial_blockchain_nodes (PartialBlockchain_List (bset_elements node_indices));
      authentication_paths mmr_nodes block_nums
  end.
End paths.

(** ** The data store *)

Section data_store.
Context `{DataStoreLib} `{!MerklePathLib} `{!NoteWireLib} `{!RequestLib} `{!TxLib} `{!ExecutedLib}.
Context `{!NodeProofs} `{!NodeSubmit} {St : Type} `{!StoreOps St} `{!AccountOps St} `{!DataStoreOps St}.

(** [DataStoreError] of the VM crate; the source of an error is one of the client's. *)
Inductive ErrorSource :=
| Source_Client (e : client_error)
| Source_Store (e : StoreError)
| Source_Rpc (e : RpcError)
| Source_Other (e : foreign).

Inductive DataStoreError :=
| DataStore_AccountNotFound (id : AccountId)
| DataStore_BlockNotFound (block_num : BlockNumber)
| DataStore_Other (message : string) (source : option ErrorSource).

(** [From<StoreError> for DataStoreError]. *)
Definition DataStoreError_of_store (value : StoreError) : DataStoreError :=
  match value with
  | Store_AccountDataNotFound account_id => DataStore_AccountNotFound account_id
  | err => DataStore_Other "store error" (Some (Source_Store err))
  end.

(** The store and the node are shared with the client. *)
Record ClientDataStore := {
  ds_client : ClientState St;
  transaction_mast_store : MastStore;
  foreign_account_inputs_cache : gmap AccountId AccountInputs;
  storage_map_cache : gmap (Word * StorageMapKey) StorageMapWitness;
  ref_block : option BlockNumber
}.

Definition data_m (A : Type) : Type := dbm DataStoreError ClientDataStore A.

Definition ClientDataStore_new (client : ClientState St) : ClientDataStore := {|
  ds_client := client;
  transaction_mast_store := MastStore_new;
  foreign_account_inputs_cache := ∅;
  storage_map_cache := ∅;
  ref_block := None |}.

Definition set_ds_client (c : ClientState St) (d : ClientDataStore) : ClientDataStore := {|
  ds_client := c; transaction_mast_store := transaction_mast_store d;
  foreign_account_inputs_cache := foreign_account_inputs_cache d;
  storage_map_cache := storage_map_cache d; ref_block := ref_block d |}.
Definition set_mast_store (m : MastStore) (d : ClientDataStore) : ClientDataStore := {|
  ds_client := ds_client d; transaction_mast_store := m;
  foreign_account_inputs_cache := foreign_account_inputs_cache d;
  storage_map_cache := storage_map_cache d; ref_block := ref_block d |}.
Definition set_foreign_inputs (i : gmap AccountId AccountInputs) (d : ClientDataStore) : ClientDataStore := {|
  ds_client := ds_client d; transaction_mast_store := transaction_mast_store d;
  foreign_account_inputs_cache := i; storage_map_cache := storage_map_cache d; ref_block := ref_block d |}.
Definition set_map_cache (c : gmap (Word * StorageMapKey) StorageMapWitness) (d : ClientDataStore) :
    ClientDataStore := {|
  ds_client := ds_client d; transaction_mast_store := transaction_mast_store d;
  foreign_account_inputs_cache := foreign_account_inputs_cache d; storage_map_cache := c;
  ref_block := ref_block d |}.
Definition set_ref_block (n : option BlockNumber) (d : ClientDataStore) : ClientDataStore := {|
  ds_client := ds_client d; transaction_mast_store := transaction_mast_store d;
  foreign_account_inputs_cache := foreign_account_inputs_cache d; storage_map_cache := storage_map_cache d;
  ref_block := n |}.

(** Calls whose errors are looked at. *)
Definition with_client {A} (m : client_m St A) : data_m (result client_error A) := λ d,
  match m (ds_client d) with
  | Finished (c, r) => Finished (set_ds_client c d, Ok r)
  | Panicked => Panicked
  | OutOfFuel => OutOfFuel
  end.
Definition with_store {A} (m : dbm StoreError St A) : data_m (result StoreError A) := λ d,
  match m (cl_store (ds_client d)) with
  | Finished (s, r) => Finished (set_ds_client (set_cl_store s (ds_client d)) d, Ok r)
  | Panicked => Panicked
  | OutOfFuel => OutOfFuel
  end.
Definition data_try {A} (r : result DataStoreError A) : data_m A := λ d, Finished (d, r).
Definition data_update (f : ClientDataStore → ClientDataStore) : data_m () := λ d, Finished (f d, Ok ()).
Definition data_get {A} (f : ClientDataStore → A) : data_m A := λ d, Finished (d, Ok (f d)).

(** [?] on a call of the store. *)
Definition from_store {A} (m : dbm StoreError St A) : data_m A :=
  r ← with_store m; data_try (map_err DataStoreError_of_store r).
Definition other {A} (message : string) : result DataStoreError A := Err (DataStore_Other message None).
Definition other_with_source {A} (message : string) (source : ErrorSource) : result DataStoreError A :=
  Err (DataStore_Other message (Some source)).

Definition register_foreign_account_inputs (foreign_accounts : list AccountInputs) (self : ClientDataStore) :
    ClientDataStore :=
  set_foreign_inputs (foldl (λ cache account_inputs,
    <[partial_id (AccountInputs_account account_inputs) := account_inputs]> cache) ∅ foreign_accounts) self.

(** [MastForestStore::get]. *)
Definition mast_forest (self : ClientDataStore) (procedure_hash : Word) : option MastForest :=
  MastStore_get (transaction_mast_store self) procedure_hash.

(** *** Storage maps *)

Definition get_local_storage_map_witness (account_id : AccountId) (map_root : Word)
    (map_key : StorageMapKey) : data_m (option StorageMapWitness) :=
  r ← with_store (get_account_storage account_id (StorageFilter_Root map_root));
  match r with
  | Ok account_storage =>
      match snd <$> head (AccountStorage_slots account_storage) with
      | Some (inr map) => mret (Some (StorageMap_open map map_key))
      | Some (inl value) => data_try (other ("found StorageSlotContent::Value with " +:+
          Word_to_string value +:+ " as its value."))
      | None => mret None
      end
  | Err _ => mret None
  end.

Definition fetch_and_cache_foreign_account (account_id : AccountId) (account_state_at : AccountStateAt) :
    data_m AccountInputs :=
  r ← with_client (fetch_public_account_inputs account_id ∅ account_state_at);
  match r with
  | Err err => data_try (other_with_source "failed to fetch foreign account inputs" (Source_Client err))
  | Ok account_inputs =>
      data_update (λ d, set_mast_store (load_account_code (transaction_mast_store d)
        (partial_code (AccountInputs_account account_inputs))) d);;
      data_update (λ d, set_foreign_inputs
        (<[account_id := account_inputs]> (foreign_account_inputs_cache d)) d);;
      mret account_inputs
  end.

(** The witness in the answer to a request for one key of one map. *)
Definition witness_of_proof (account_id : AccountId) (map_key : StorageMapKey) (account_proof : AccountProof) :
    result DataStoreError StorageMapWitness :=
  match (AccountProof_into_parts account_proof).2 with
  | None => other ("RPC returned no account details for account " +:+ AccountId_to_hex account_id)
  | Some details =>
      match head (sd_map_details (det_storage_details details)) with
      | None => other ("RPC returned no storage map details for account " +:+ AccountId_to_hex account_id)
      | Some map_detail =>
          match md_entries map_detail with
          | EntriesWithProofs proofs =>
              match head proofs with
              | None => other "RPC returned no proofs for the requested key"
              | Some proof =>
                  match StorageMapWitness_new proof [map_key] with
                  | Ok witness => Ok witness
                  | Err err => other_with_source "failed to create storage map witness" (Source_Other err)
                  end
              end
          | AllEntries _ => other "unexpected AllEntries response; specific keys were requested"
          end
      end
  end.

Definition fetch_and_cache_storage_map_witness (account_id : AccountId) (map_root : Word)
    (slot_name : StorageSlotName) (map_key : StorageMapKey) (known_code : AccountCode) :
    data_m StorageMapWitness :=
  let storage_requirements := AccountStorageRequirements_new [(slot_name, [map_key])] in
  match rpc_get_account_proof account_id storage_requirements ChainTip (Some known_code) with
  | Finished (Err err) => data_try (other_with_source "failed to fetch storage map via RPC" (Source_Rpc err))
  | Finished (Ok (_, account_proof)) =>
      witness ← data_try (witness_of_proof account_id map_key account_proof);
      data_update (λ d, set_map_cache (<[(map_root, map_key) := witness]> (storage_map_cache d)) d);;
      mret witness
  | Panicked => λ _, Panicked
  | OutOfFuel => λ _, OutOfFuel
  end.

Definition resolve_slot_name_and_code (account_id : AccountId) (map_root : Word) (self : ClientDataStore) :
    result DataStoreError (StorageSlotName * AccountCode) :=
  match foreign_account_inputs_cache self !! account_id with
  | None => Err (DataStore_AccountNotFound account_id)
  | Some inputs =>
      let account := AccountInputs_account inputs in
      match head (filter (λ slot : StorageSlotName * StorageSlotType * Word,
          slot.1.2 = SlotType_Map ∧ slot.2 = map_root) (partial_storage_header account)) with
      | Some slot => Ok (slot.1.1, partial_code account)
      | None => other ("did not find map slot with root " +:+ Word_to_string map_root +:+
          " for foreign account " +:+ AccountId_to_hex account_id)
      end
  end.

(** What the cached inputs of an account know of a map. *)
Definition cached_partial_witness (account_id : AccountId) (map_root : Word) (map_key : StorageMapKey)
    (self : ClientDataStore) : option StorageMapWitness :=
  inputs ← foreign_account_inputs_cache self !! account_id;
  partial_map ← head (filter (λ m, PartialStorageMap_root m = map_root)
    (partial_maps (AccountInputs_account inputs)));
  match PartialStorageMap_open partial_map map_key with Ok witness => Some witness | Err _ => None end.

Definition get_storage_map_witness (account_id : AccountId) (map_root : Word) (map_key : StorageMapKey) :
    data_m StorageMapWitness :=
  cached ← data_get (λ d, storage_map_cache d !! (map_root, map_key));
  match cached with
  | Some witness => mret witness
  | None =>
      stored ← get_local_storage_map_witness account_id map_root map_key;
      match stored with
      | Some witness => mret witness
      | None =>
          known ← data_get (λ d, foreign_account_inputs_cache d !! account_id);
          match known with
          | Some _ => mret ()
          | None =>
              ref_block ← data_get ref_block;
              match ref_block with
              | None => λ _, Panicked
              | Some n => fetch_and_cache_foreign_account account_id (AtBlock n);; mret ()
              end
          end;;
          partial ← data_get (cached_partial_witness account_id map_root map_key);
          match partial with
          | Some witness => mret witness
          | None =>
              d ← data_get id;
              '(slot_name, known_code) ← data_try (resolve_slot_name_and_code account_id map_root d);
              fetch_and_cache_storage_map_witness account_id map_root slot_name map_key known_code
          end
      end
  end.

(** *** Foreign accounts and scripts *)

Definition get_foreign_account_inputs (foreign_account_id : AccountId) (ref_block : BlockNumber) :
    data_m AccountInputs :=
  cached ← data_get (λ d, foreign_account_inputs_cache d !! foreign_account_id);
  match cached with
  | Some inputs => mret inputs
  | None => fetch_and_cache_foreign_account foreign_account_id (AtBlock ref_block)
  end.

Definition get_note_script (script_root : Word) : data_m (option NoteScript) :=
  r ← with_store (store_get_note_script script_root);
  match r with
  | Ok note_script => mret (Some note_script)
  | Err (Store_NoteScriptNotFound _) =>
      match rpc_get_note_script_by_root script_root with
      | Err err => data_try (other_with_source "failed to fetch note script via RPC" (Source_Rpc err))
      | Ok note_script =>
          with_store (store_upsert_note_scripts [note_script]);;
          mret (Some note_script)
      end
  | Err err => data_try (other_with_source ("failed to get note script " +:+ Word_to_string script_root +:+
      " from store") (Source_Store err))
  end.

(** *** Vaults *)

Definition vault_asset_witness (account_id : AccountId) (vault_root : Word) (vault_key : AssetVaultKey) :
    data_m AssetWitness :=
  r ← with_store (store_get_account_asset account_id vault_key);
  match r with
  | Ok (Some (_, asset_witness)) => mret asset_witness
  | Ok None | Err (Store_MerkleStoreError (Merkle_RootNotInStore _)) =>
      vault ← from_store (get_account_vault account_id);
      if bool_decide (AssetVault_root vault ≠ vault_root) then data_try (other "Vault root mismatch")
      else data_try (match AssetVault_open_witness vault vault_key with
        | Ok witness => Ok witness
        | Err err => other_with_source "Failed to open vault asset tree" (Source_Other err)
        end)
  | Err err => data_try (other_with_source "Failed to get account asset" (Source_Store err))
  end.

Fixpoint vault_asset_witnesses (account_id : AccountId) (vault_root : Word) (vault_keys : list AssetVaultKey) :
    data_m (list AssetWitness) :=
  match vault_keys with
  | [] => mret []
  | vault_key :: vault_keys =>
      witness ← vault_asset_witness account_id vault_root vault_key;
      witnesses ← vault_asset_witnesses account_id vault_root vault_keys;
      mret (witness :: witnesses)
  end.

Definition get_vault_asset_witnesses (account_id : AccountId) (vault_root : Word)
    (vault_keys : gset AssetVaultKey) : data_m (list AssetWitness) :=
  vault_asset_witnesses account_id vault_root (bset_elements vault_keys).

(** *** The inputs of a transaction *)

Definition track_blocks (partial_mmr : PartialMmr) (blocks : list (BlockHeader * MerklePath)) :
    result DataStoreError PartialMmr :=
  try_fold (λ partial_mmr (block : BlockHeader * MerklePath),
    let '(header, path) := block in
    match mmr_track partial_mmr (BlockHeader_block_num header) (BlockHeader_commitment header) path with
    | (partial_mmr, Ok _) => Ok partial_mmr
    | (_, Err err) => other ("error constructing MMR: " +:+ err)
    end) blocks partial_mmr.

Definition build_partial_mmr_with_paths (forest : BlockNumber) (authenticated_blocks : list BlockHeader) :
    data_m PartialMmr :=
  current_peaks ← from_store (get_partial_blockchain_peaks_by_block_num forest);
  let partial_mmr := PartialMmr_from_peaks current_peaks in
  let block_nums := BlockHeader_block_num <$> authenticated_blocks in
  authentication_paths ← from_store
    (get_authentication_path_for_blocks block_nums (mmr_num_leaves partial_mmr));
  data_try (track_blocks partial_mmr (zip authenticated_blocks authentication_paths)).

(** [?] after a conversion whose error is replaced. *)
Definition or_account_not_found {A} (account_id : AccountId) (r : result ClientError A) : data_m A :=
  data_try (map_err (λ _, DataStore_AccountNotFound account_id) r).

Definition account_for_transaction (account_id : AccountId) : data_m PartialAccount :=
  partial_account_record ← from_store (store_get_minimal_partial_account account_id);
  partial_account_record ←
    data_try (ok_or partial_account_record (DataStore_AccountNotFound account_id));
  if AccountRecord_nonce partial_account_record =? 0 then
    full_record ← from_store (store_get_account account_id);
    full_record ← data_try (ok_or full_record (DataStore_AccountNotFound account_id));
    account ← or_account_not_found account_id (Account_try_from full_record);
    mret (PartialAccount_from account)
  else or_account_not_found account_id (PartialAccount_try_from partial_account_record).

Definition get_transaction_inputs (account_id : AccountId) (block_refs : gset BlockNumber) :
    data_m (PartialAccount * BlockHeader * PartialBlockchain) :=
  match last (merge_sort Z.le (elements block_refs)) with
  | None => data_try (other "block set is empty")
  | Some ref_block =>
      data_update (set_ref_block (Some ref_block));;
      partial_account ← account_for_transaction account_id;
      header ← from_store (get_block_header_by_num ref_block);
      '(block_header, _) ← data_try (ok_or header (DataStore_BlockNotFound ref_block));
      block_headers ← from_store (get_block_headers (block_refs ∖ {[ ref_block ]}));
      let block_headers := fst <$> block_headers in
      partial_mmr ← build_partial_mmr_with_paths ref_block block_headers;
      partial_blockchain ← data_try (match PartialBlockchain_new partial_mmr block_headers with
        | Ok chain => Ok chain
        | Err err => other_with_source "error creating PartialBlockchain from internal data" (Source_Other err)
        end);
      mret (partial_account, block_header, partial_blockchain)
  end.
End data_store.
