(* ===== verification/DataStoreSpec.v ===== *)
(** * Merkle paths of the data store

    The depth of a block's path is the height of its tree in the MMR, and the paths that
    the data store puts together are the siblings on the way to the peak of that tree.  The inputs of a
    transaction have the blocks that the store has headers for; others are left out. *)

From S2P Require Import Prelude Protocol Serde Model NoteStates InputNote OutputNote TxRecord.
From S2P Require Import Errors NoteTracker Rpc Grpc SyncUpdate AccountTypes SmtForest Sql Store Db AccountDb ChainDb.
From S2P Require Import NoteDb NoteSpec TxDb SqliteStore SqliteSync StoreContract Client ClientAccounts ClientSpec.
From S2P Require Import AccountUndo TxRequest AccountReaders AccountProofs Proto ProtoNotes ForeignInputs ClientTx ChainSpec AccountProofSpec DataStore.
From Stdlib Require Import ZArith Lia.
From stdpp Require Import base gmap list strings sorting.

Open Scope Z_scope.

(** ** The trees of an MMR *)

(** An MMR with [forest] leaves consists of a perfect tree of [2^h] leaves for each set
    bit [h], the larger ones first.  The height of the tree that holds a leaf, among the
    trees of height below [n]. *)
Fixpoint tree_height (n : nat) (forest leaf : Z) : option Z :=
  match n with
  | O => None
  | S n =>
      let h := Z.of_nat n in
      if Z.testbit forest h then
        if leaf <? 2 ^ h then Some h else tree_height n forest (leaf - 2 ^ h)
      else tree_height n forest leaf
  end.

Lemma lxor_land_ldiff a b : Z.lxor a (Z.land a b) = Z.ldiff a b.
Proof.
  apply Z.bits_inj'. intros n Hn. rewrite Z.lxor_spec, Z.land_spec, Z.ldiff_spec.
  by destruct (Z.testbit a n), (Z.testbit b n).
Qed.

(** The number with the low [n] bits of a forest. *)
Definition low_bits (n : nat) (forest : Z) : Z := forest mod 2 ^ Z.of_nat n.

Lemma low_bits_S n forest :
  low_bits (S n) forest = (if Z.testbit forest (Z.of_nat n) then 2 ^ Z.of_nat n else 0) + low_bits n forest.
Proof.
  unfold low_bits. rewrite Nat2Z.inj_succ, Z.pow_succ_r by lia.
  rewrite (Z.mul_comm 2), Z.rem_mul_r by (try apply Z.pow_nonzero; lia).
  rewrite Z.testbit_odd, Z.shiftr_div_pow2 by lia.
  rewrite (Zmod_odd (forest / _)). destruct (Z.odd _); lia.
Qed.

Lemma low_bits_range n forest : 0 ≤ low_bits n forest < 2 ^ Z.of_nat n.
Proof. apply Z.mod_pos_bound. lia. Qed.

Lemma testbit_low x n m : 0 ≤ x < 2 ^ Z.of_nat n → Z.of_nat n ≤ m → Z.testbit x m = false.
Proof.
  intros Hx Hm. destruct (decide (x = 0)) as [->|]; [apply Z.testbit_0_l|].
  apply Z.bits_above_log2; [lia|]. apply Z.log2_lt_pow2; [lia|].
  eapply Z.lt_le_trans; [apply Hx|]. apply Z.pow_le_mono_r; lia.
Qed.

Lemma testbit_top x n m : 0 ≤ x < 2 ^ Z.of_nat n →
  Z.testbit (2 ^ Z.of_nat n + x) m = (m =? Z.of_nat n) || Z.testbit x m.
Proof.
  intros Hx. destruct (Z.lt_ge_cases m 0); [rewrite !Z.testbit_neg_r by lia; destruct (Z.eqb_spec m (Z.of_nat n)); [lia|done]|].
  rewrite Z.add_nocarry_lxor.
  - rewrite Z.lxor_spec, Z.pow2_bits_eqb by lia. rewrite Z.eqb_sym. destruct (Z.eqb_spec m (Z.of_nat n)) as [->|]; cbn.
    + by rewrite (testbit_low _ n) by lia.
    + by destruct (Z.testbit x m).
  - apply Z.bits_inj'. intros k Hk. rewrite Z.land_spec, Z.pow2_bits_eqb, Z.testbit_0_l by lia.
    destruct (Z.eqb_spec (Z.of_nat n) k) as [<-|]; [|done]. by rewrite (testbit_low _ n) by lia.
Qed.

Lemma ldiff_below a b n : 0 ≤ a < 2 ^ Z.of_nat n → 0 ≤ Z.ldiff a b < 2 ^ Z.of_nat n.
Proof.
  intros Ha. assert (0 ≤ Z.ldiff a b) by (apply Z.ldiff_nonneg; lia). split; [done|].
  destruct (Z.lt_ge_cases (Z.ldiff a b) (2 ^ Z.of_nat n)) as [|Hge]; [done|]. exfalso.
  assert (0 < 2 ^ Z.of_nat n) by lia.
  pose proof (Z.bit_log2 (Z.ldiff a b) ltac:(lia)) as Hbit. rewrite Z.ldiff_spec in Hbit.
  rewrite (testbit_low a n) in Hbit; [done|done|]. apply Z.log2_le_pow2; lia.
Qed.

(** The highest bit in which a leaf is below the forest. *)
Lemma tree_height_log2 n forest : ∀ leaf, 0 ≤ leaf < low_bits n forest →
  0 < Z.ldiff (low_bits n forest) leaf ∧
  tree_height n forest leaf = Some (Z.log2 (Z.ldiff (low_bits n forest) leaf)).
Proof.
  induction n as [|n IH]; intros leaf Hleaf.
  { unfold low_bits in Hleaf. change (2 ^ Z.of_nat 0) with 1 in Hleaf. rewrite Z.mod_1_r in Hleaf. lia. }
  pose proof (low_bits_range n forest) as Hlow. rewrite low_bits_S in Hleaf |- *. cbn [tree_height].
  destruct (Z.testbit forest (Z.of_nat n)) eqn:Hbit; [|by apply IH].
  destruct (Z.ltb_spec leaf (2 ^ Z.of_nat n)) as [Hlt|Hge].
  - assert (Z.ldiff (2 ^ Z.of_nat n + low_bits n forest) leaf =
      2 ^ Z.of_nat n + Z.ldiff (low_bits n forest) leaf) as Heq.
    { assert (0 ≤ Z.ldiff (low_bits n forest) leaf < 2 ^ Z.of_nat n) by (by apply ldiff_below).
      apply Z.bits_inj'. intros m Hm. rewrite Z.ldiff_spec, !testbit_top, Z.ldiff_spec by lia.
      destruct (Z.eqb_spec m (Z.of_nat n)) as [->|]; [|done]. cbn.
      by rewrite (testbit_low leaf n) by lia. }
    assert (0 ≤ Z.ldiff (low_bits n forest) leaf < 2 ^ Z.of_nat n) by (by apply ldiff_below).
    rewrite Heq. split; [lia|]. f_equal. symmetry. apply Z.log2_unique; [lia|].
    rewrite Z.pow_succ_r by lia. lia.
  - assert (Z.ldiff (2 ^ Z.of_nat n + low_bits n forest) leaf =
      Z.ldiff (low_bits n forest) (leaf - 2 ^ Z.of_nat n)) as ->.
    { replace leaf with (2 ^ Z.of_nat n + (leaf - 2 ^ Z.of_nat n)) at 1 by lia.
      apply Z.bits_inj'. intros m Hm. rewrite !Z.ldiff_spec, !testbit_top by lia.
      destruct (Z.eqb_spec m (Z.of_nat n)) as [->|]; [|done]. cbn.
      by rewrite (testbit_low (low_bits n forest) n) by lia. }
    apply IH. lia.
Qed.

(** The bit trick of [mmr_merkle_path_len] computes the height of the tree that holds
    the leaf, for every leaf of the forest; it does not panic on them. *)
Theorem path_len_is_tree_height n forest leaf :
  0 ≤ leaf < forest → forest < 2 ^ Z.of_nat n →
  mmr_merkle_path_len leaf forest = tree_height n forest leaf ∧ is_Some (tree_height n forest leaf).
Proof.
  intros Hleaf Hf. assert (low_bits n forest = forest) as Hlow by (apply Z.mod_small; lia).
  destruct (tree_height_log2 n forest leaf) as [Hpos Hh]; [lia|]. rewrite Hlow in *.
  rewrite Hh. split; [|by eexists]. unfold mmr_merkle_path_len, ilog2. rewrite lxor_land_ldiff.
  by rewrite (proj2 (Z.ltb_lt _ _)).
Qed.

(** ** Paths *)

(** In-order indices name the nodes of the trees by a number: the node of a height and a
    position among the nodes of this height, its parent and its sibling. *)
Class InOrderLaws `{StoreLib} `{!MerklePathLib} := {
  node : Z → Z → InOrderIndex;
  node_inner h p : 0 ≤ h → 0 ≤ p → InOrderIndex_inner (node h p) = (2 * p + 1) * 2 ^ h;
  node_leaf i : InOrderIndex_from_leaf_pos i = node 0 i;
  node_parent h p : 0 ≤ h → 0 ≤ p → InOrderIndex_parent (node h p) = node (h + 1) (p / 2);
  node_sibling h p : 0 ≤ h → 0 ≤ p → InOrderIndex_sibling (node h p) = node h (Z.lxor p 1)
}.

Lemma odd_times_power p h p' h' : 0 ≤ h ≤ h' →
  (2 * p + 1) * 2 ^ h = (2 * p' + 1) * 2 ^ h' → h = h' ∧ p = p'.
Proof.
  intros Hh Heq. assert (0 < 2 ^ h) by lia.
  replace h' with ((h' - h) + h) in Heq by lia. rewrite Z.pow_add_r, Z.mul_assoc in Heq by lia.
  apply Z.mul_reg_r in Heq; [|lia]. destruct (decide (h' = h)) as [->|].
  - rewrite Z.sub_diag in Heq. lia.
  - exfalso. replace (h' - h) with (Z.succ (h' - h - 1)) in Heq by lia. rewrite Z.pow_succ_r in Heq by lia. lia.
Qed.

Lemma node_inj `{InOrderLaws} h p h' p' :
  0 ≤ h → 0 ≤ p → 0 ≤ h' → 0 ≤ p' → node h p = node h' p' → h = h' ∧ p = p'.
Proof.
  intros ???? Heq. apply (f_equal InOrderIndex_inner) in Heq. rewrite !node_inner in Heq by lia.
  destruct (Z.le_ge_cases h h').
  - by apply odd_times_power in Heq; [|lia].
  - symmetry in Heq. apply odd_times_power in Heq as [-> ->]; [done|lia].
Qed.

(** The nodes of an MMR with at most [2^32] leaves. *)
Definition valid_index `{InOrderLaws} (idx : InOrderIndex) : Prop :=
  ∃ h p, 0 ≤ h < 32 ∧ 0 ≤ p ∧ p * 2 ^ h < 2 ^ 33 ∧ idx = node h p.

Section paths.
Context `{StoreLib} `{!MerklePathLib} `{!InOrderLaws} {St : Type} `{!StoreOps St}.

(** The values of indices up to the first that is missing. *)
Fixpoint take_present (nodes : gmap InOrderIndex Word) (l : list InOrderIndex) : list Word :=
  match l with
  | [] => []
  | idx :: l =>
      match nodes !! idx with Some w => w :: take_present nodes l | None => [] end
  end.

Lemma take_present_size nodes l : NoDup l → (length (take_present nodes l) ≤ size nodes)%nat.
Proof.
  revert nodes. induction l as [|idx l IH]; intros nodes Hl; cbn; [lia|].
  destruct (nodes !! idx) as [w|] eqn:Hidx; [|cbn; lia]. apply NoDup_cons in Hl as [Hnot Hl].
  assert (take_present nodes l = take_present (base.delete idx nodes) l) as ->.
  { clear -Hnot. induction l as [|i l IH]; [done|]. cbn. rewrite lookup_delete_ne by set_solver.
    destruct (nodes !! i); [|done]. f_equal. apply IH. set_solver. }
  specialize (IH (base.delete idx nodes) Hl). assert (size nodes = S (size (base.delete idx nodes))) as ->; [|cbn; lia].
  rewrite <-(map_size_insert_None idx w (base.delete idx nodes)) by apply lookup_delete_eq.
  by rewrite insert_delete_id.
Qed.

Lemma take_present_ext nodes nodes' l :
  (∀ idx, idx ∈ l → nodes !! idx = nodes' !! idx) → take_present nodes l = take_present nodes' l.
Proof.
  induction l as [|idx l IH]; intros Hext; [done|]. cbn. rewrite (Hext idx) by set_solver.
  destruct (nodes' !! idx); [|done]. f_equal. apply IH. set_solver.
Qed.

Fixpoint ancestor (n : nat) (idx : InOrderIndex) : InOrderIndex :=
  match n with O => idx | S n => ancestor n (InOrderIndex_parent idx) end.

Lemma ancestor_node n : ∀ h p, 0 ≤ h → 0 ≤ p →
  ancestor n (node h p) = node (h + Z.of_nat n) (p / 2 ^ Z.of_nat n).
Proof.
  induction n as [|n IH]; intros h p Hh Hp; cbn [ancestor].
  { rewrite Z.div_1_r. f_equal. lia. }
  rewrite node_parent, IH by (try apply Z.div_pos; lia).
  rewrite Nat2Z.inj_succ, Z.pow_succ_r, Z.div_div by (try apply Z.pow_pos_nonneg; lia). f_equal. lia.
Qed.

Lemma elem_of_siblings n idx : ∀ h p, 0 ≤ h → 0 ≤ p →
  idx ∈ siblings n (node h p) →
  ∃ i, 0 ≤ i < Z.of_nat n ∧ idx = node (h + i) (Z.lxor (p / 2 ^ i) 1).
Proof.
  induction n as [|n IH]; intros h p Hh Hp; cbn [siblings]; [by intros ?%not_elem_of_nil|].
  intros [->|Hin]%elem_of_cons.
  - exists 0. split; [lia|]. rewrite node_sibling, Z.div_1_r by lia. f_equal. lia.
  - rewrite node_parent in Hin by lia. apply IH in Hin as (i & Hi & ->); [|lia|by apply Z.div_pos].
    exists (i + 1). split; [lia|]. rewrite Z.div_div, <-Z.pow_succ_r by (try apply Z.pow_pos_nonneg; lia).
    by replace (Z.succ i) with (i + 1) by lia; replace (0 + 1 + i) with (0 + (i + 1)) by lia; replace (h + 1 + i) with (h + (i + 1)) by lia.
Qed.

Lemma lxor_1_nonneg p : 0 ≤ p → 0 ≤ Z.lxor p 1.
Proof. intros Hp. apply Z.lxor_nonneg. lia. Qed.

Lemma lxor_1_le p : 0 ≤ p → Z.lxor p 1 ≤ p + 1.
Proof. destruct p as [|[p|p|]|p]; intros Hp; try (unfold Z.lxor, Z.of_N, Pos.lxor; lia). Qed.

Lemma siblings_NoDup n : ∀ h p, 0 ≤ h → 0 ≤ p → NoDup (siblings n (node h p)).
Proof.
  induction n as [|n IH]; intros h p Hh Hp; cbn [siblings]; [constructor|].
  rewrite node_parent, node_sibling by lia. constructor; [|apply IH; [lia|by apply Z.div_pos]].
  intros (i & Hi & Heq)%elem_of_siblings; [|lia|by apply Z.div_pos].
  apply node_inj in Heq as [? _]; [lia|lia|by apply lxor_1_nonneg|lia|].
  apply lxor_1_nonneg. repeat apply Z.div_pos; try done; try apply Z.pow_pos_nonneg; lia.
Qed.

Lemma merkle_nodes_present nodes n : ∀ fuel idx,
  (length (take_present nodes (siblings n idx)) < fuel)%nat →
  nodes !! InOrderIndex_sibling (ancestor n idx) = None →
  merkle_nodes fuel nodes idx = Finished (take_present nodes (siblings n idx)).
Proof.
  induction n as [|n IH]; intros fuel idx Hfuel Hend; destruct fuel as [|fuel]; try (cbn in Hfuel; lia).
  - cbn in *. by rewrite Hend.
  - cbn [siblings take_present ancestor merkle_nodes] in *.
    destruct (nodes !! InOrderIndex_sibling idx); [|done]. cbn in Hfuel. by rewrite IH by (done || lia).
Qed.

(** *** The siblings of one block end below those of the others *)

Lemma path_len_bits leaf forest k :
  0 ≤ leaf → 0 ≤ forest → mmr_merkle_path_len leaf forest = Some k →
  0 ≤ k ∧ Z.testbit forest k = true ∧ Z.testbit leaf k = false ∧
  ∀ m, k < m → Z.testbit forest m = true → Z.testbit leaf m = true.
Proof.
  intros Hl Hf. unfold mmr_merkle_path_len, ilog2. rewrite lxor_land_ldiff.
  destruct (Z.ltb_spec 0 (Z.ldiff forest leaf)) as [Hpos|]; [|done]. intros [= <-].
  pose proof (Z.bit_log2 _ Hpos) as Hbit. rewrite Z.ldiff_spec in Hbit.
  apply andb_true_iff in Hbit as [Hb1 Hb2%negb_true_iff].
  split_and!; [apply Z.log2_nonneg|done|done|]. intros m Hm Hbit.
  pose proof (Z.bits_above_log2 (Z.ldiff forest leaf) m ltac:(lia) Hm) as Hz.
  rewrite Z.ldiff_spec, Hbit in Hz. by apply negb_false_iff in Hz.
Qed.

(** The sibling of a peak is no node of any path. *)
Lemma peak_sibling_absent forest b b' k k' :
  0 ≤ b → 0 ≤ b' → 0 ≤ forest →
  mmr_merkle_path_len b forest = Some k → mmr_merkle_path_len b' forest = Some k' →
  InOrderIndex_sibling (node k (b / 2 ^ k)) ∉ siblings (Z.to_nat k') (node 0 b').
Proof.
  intros Hb Hb' Hf Hk Hk'.
  destruct (path_len_bits _ _ _ Hb Hf Hk) as (Hk0 & _ & _ & Habove).
  destruct (path_len_bits _ _ _ Hb' Hf Hk') as (Hk0' & Hbit & Hbit' & _).
  assert (0 ≤ b / 2 ^ k) by (apply Z.div_pos; lia).
  rewrite node_sibling by lia. intros (i & Hi & Heq)%elem_of_siblings; [|lia..].
  assert (0 ≤ b' / 2 ^ i) by (apply Z.div_pos; lia).
  apply node_inj in Heq as [Hik Hp]; [|lia|by apply lxor_1_nonneg|lia|by apply lxor_1_nonneg].
  rewrite Z.add_0_l in Hik. subst i.
  apply (f_equal (λ x, Z.lxor x 1)) in Hp. rewrite !Z.lxor_assoc, Z.lxor_nilpotent, !Z.lxor_0_r in Hp.
  assert (Z.testbit b k' = Z.testbit b' k') as Hsame.
  { rewrite <-!Z.shiftr_div_pow2 in Hp by lia. apply (f_equal (λ x, Z.testbit x (k' - k))) in Hp.
    rewrite !Z.shiftr_spec in Hp by lia. by replace (k' - k + k) with k' in Hp by lia. }
  rewrite Habove, Hbit' in Hsame by (done || lia). done.
Qed.

(** *** The paths *)

(** The store has these nodes, and answers with those it is asked for. *)
Definition nodes_answered (nodes : gmap InOrderIndex Word) (s : St) : Prop := ∀ ids,
  Forall valid_index ids →
  get_partial_blockchain_nodes (PartialBlockchain_List ids) s =
  Finished (s, Ok (filter (λ kv, kv.1 ∈ ids) nodes)).

(** The path of a block as far as its nodes are stored. *)
Definition stored_path (nodes : gmap InOrderIndex Word) (forest block_num : Z) (path : MerklePath) : Prop :=
  ∃ k, mmr_merkle_path_len block_num forest = Some k ∧
  path = MerklePath_new (take_present nodes (siblings (Z.to_nat k) (InOrderIndex_from_leaf_pos block_num))).

(** The nodes of a block's path, from its leaf to its peak, are stored. *)
Definition path_present (nodes : gmap InOrderIndex Word) (forest block_num : Z) : Prop :=
  ∀ k idx, mmr_merkle_path_len block_num forest = Some k →
  idx ∈ siblings (Z.to_nat k) (InOrderIndex_from_leaf_pos block_num) → is_Some (nodes !! idx).

(** The path with all of its nodes. *)
Definition complete_path (nodes : gmap InOrderIndex Word) (forest block_num : Z) (path : MerklePath) : Prop :=
  ∃ k ws, mmr_merkle_path_len block_num forest = Some k ∧
  Forall2 (λ idx w, nodes !! idx = Some w) (siblings (Z.to_nat k) (InOrderIndex_from_leaf_pos block_num)) ws ∧
  path = MerklePath_new ws.

Lemma take_present_all nodes l :
  (∀ idx, idx ∈ l → is_Some (nodes !! idx)) → Forall2 (λ idx w, nodes !! idx = Some w) l (take_present nodes l).
Proof.
  induction l as [|idx l IH]; intros Hl; cbn; [constructor|].
  destruct (Hl idx ltac:(left)) as [w Hw]. rewrite Hw. constructor; [done|]. apply IH. set_solver.
Qed.

Lemma stored_path_complete nodes forest b path :
  stored_path nodes forest b path → path_present nodes forest b → complete_path nodes forest b path.
Proof.
  intros (k & Hk & ->) Hall. eexists k, _. split_and!; [done| |done].
  apply take_present_all. intros idx. by apply Hall.
Qed.

Lemma authentication_path_stored nodes (ids : list InOrderIndex) forest b k :
  0 ≤ b → 0 ≤ forest → mmr_merkle_path_len b forest = Some k →
  (∀ idx, idx ∈ siblings (Z.to_nat k) (node 0 b) → idx ∈ ids) →
  InOrderIndex_sibling (node k (b / 2 ^ k)) ∉ ids →
  authentication_path (filter (λ kv, kv.1 ∈ ids) nodes) b =
    Finished (MerklePath_new (take_present nodes (siblings (Z.to_nat k) (InOrderIndex_from_leaf_pos b)))).
Proof.
  intros Hb Hf Hk Hin Hout. destruct (path_len_bits _ _ _ Hb Hf Hk) as (Hk0 & _).
  unfold authentication_path. rewrite (merkle_nodes_present _ (Z.to_nat k)).
  - do 2 f_equal. apply take_present_ext. intros idx Hidx. rewrite node_leaf in Hidx.
    rewrite map_lookup_filter. destruct (nodes !! idx) as [w|]; [|done]. cbn.
    by rewrite option_guard_True by auto.
  - rewrite node_leaf. apply Nat.lt_succ_r, take_present_size, siblings_NoDup; lia.
  - rewrite node_leaf, ancestor_node, Z2Nat.id, Z.add_0_l by lia.
    rewrite map_lookup_filter. destruct (nodes !! _); [|done]. cbn. by rewrite option_guard_False.
Qed.

Lemma path_index_valid forest b k idx :
  0 ≤ b < forest → forest ≤ 2 ^ 32 → mmr_merkle_path_len b forest = Some k →
  idx ∈ siblings (Z.to_nat k) (node 0 b) → valid_index idx.
Proof.
  intros Hb Hf Hk (i & Hi & ->)%elem_of_siblings; [|lia..].
  assert (k ≤ 32) as Hk32.
  { destruct (path_len_bits b forest k ltac:(lia) ltac:(lia) Hk) as (? & Hbit & _).
    destruct (Z.le_gt_cases k 32) as [|Hgt]; [done|]. rewrite (testbit_low forest 33) in Hbit; [done|lia|lia]. }
  exists i, (Z.lxor (b / 2 ^ i) 1). assert (0 ≤ b / 2 ^ i) by (apply Z.div_pos; lia).
  split_and!; [lia|lia|by apply lxor_1_nonneg| |f_equal; lia].
  pose proof (lxor_1_le (b / 2 ^ i)).
  assert (b / 2 ^ i * 2 ^ i ≤ b) by (rewrite Z.mul_comm; apply Z.mul_div_le; lia).
  assert (2 ^ i ≤ 2 ^ 31) by (apply Z.pow_le_mono_r; lia). nia.
Qed.

Lemma block_indices_total forest block_nums :
  Forall (λ b, 0 ≤ b < forest) block_nums →
  ∃ indices, mapM (block_node_indices forest) block_nums = Some indices ∧
  Forall2 (λ b l, ∃ k, mmr_merkle_path_len b forest = Some k ∧ l = siblings (Z.to_nat k) (node 0 b))
    block_nums indices.
Proof.
  induction 1 as [|b block_nums Hb _ (indices & IH & Hall)]; [by exists []|].
  destruct (path_len_is_tree_height (Z.to_nat (Z.log2_up forest + 1)) forest b Hb) as [Hlen [k Hk]].
  { rewrite Z2Nat.id by (pose proof (Z.log2_up_nonneg forest); lia). rewrite Z.pow_add_r by (try apply Z.log2_up_nonneg; lia).
    pose proof (Z.log2_up_le_pow2 forest (Z.log2_up forest) ltac:(lia)). lia. }
  rewrite Hk in Hlen. exists (siblings (Z.to_nat k) (node 0 b) :: indices). split.
  - assert (block_node_indices forest b = Some (siblings (Z.to_nat k) (node 0 b))) as Hb'.
    { unfold block_node_indices. by rewrite Hlen, node_leaf. }
    cbn. rewrite Hb'. cbn. by rewrite IH.
  - constructor; eauto.
Qed.

Lemma paths_stored nodes (ids : list InOrderIndex) forest s indices block_nums :
  0 ≤ forest → Forall (λ b, 0 ≤ b < forest) block_nums →
  Forall2 (λ b l, ∃ k, mmr_merkle_path_len b forest = Some k ∧ l = siblings (Z.to_nat k) (node 0 b))
    block_nums indices →
  (∀ idx, idx ∈ ids ↔ ∃ l, l ∈ indices ∧ idx ∈ l) →
  ∃ paths, authentication_paths (St:=St) (filter (λ kv, kv.1 ∈ ids) nodes) block_nums s = Finished (s, Ok paths) ∧
    Forall2 (stored_path nodes forest) block_nums paths.
Proof.
  intros Hf Hblocks Hall Hids.
  assert (∀ idx, idx ∈ ids → ∃ b' k', 0 ≤ b' ∧ mmr_merkle_path_len b' forest = Some k' ∧
    idx ∈ siblings (Z.to_nat k') (node 0 b')) as Hsome.
  { intros idx (l & Hl & Hidx)%Hids. apply list_elem_of_lookup in Hl as (i & Hi).
    destruct (Forall2_lookup_r _ _ _ _ _ Hall Hi) as (b' & Hb' & k' & Hk' & ->).
    exists b', k'. split_and!; [|done..]. apply (Forall_lookup_1 _ _ _ _ Hblocks) in Hb'. cbn in Hb'. lia. }
  assert (Forall2 (λ b l, (0 ≤ b < forest ∧ ∃ k, mmr_merkle_path_len b forest = Some k ∧
    l = siblings (Z.to_nat k) (node 0 b)) ∧ ∀ idx, idx ∈ l → idx ∈ ids) block_nums indices) as Hboth.
  { apply Forall2_same_length_lookup_2; [by eapply Forall2_length|]. intros i b l Hb Hl.
    split; [split; [exact (Forall_lookup_1 _ _ _ _ Hblocks Hb)|exact (Forall2_lookup_lr _ _ _ _ _ _ Hall Hb Hl)]|].
    intros idx Hidx. apply Hids. exists l. split; [by eapply list_elem_of_lookup_2|done]. }
  clear Hall Hblocks Hids.
  induction Hboth as [|b l block_nums indices [[Hb (k & Hk & ->)] Hin] _ (paths & IH & Hpaths)]; [by exists []|].
  exists (MerklePath_new (take_present nodes (siblings (Z.to_nat k) (InOrderIndex_from_leaf_pos b))) :: paths).
  split; [|constructor; [by exists k|done]]. cbn [authentication_paths]. unfold mbind, dbm_bind, db_loop.
  rewrite (authentication_path_stored nodes ids forest b k); [by rewrite IH|lia|done|done|done|].
  intros (b' & k' & Hb' & Hk' & Habs)%Hsome.
  by apply (peak_sibling_absent forest b b' k k' ltac:(lia) Hb' Hf Hk Hk').
Qed.

Lemma authentication_paths_stored nodes forest block_nums s :
  nodes_answered nodes s → 0 ≤ forest ≤ 2 ^ 32 → Forall (λ b, 0 ≤ b < forest) block_nums →
  ∃ paths, get_authentication_path_for_blocks block_nums forest s = Finished (s, Ok paths) ∧
    Forall2 (stored_path nodes forest) block_nums paths.
Proof.
  intros Hnodes [Hf Hmax] Hblocks. unfold get_authentication_path_for_blocks.
  destruct (block_indices_total forest block_nums Hblocks) as (indices & Hind & Hall). rewrite Hind.
  set (ids := bset_elements (list_to_set (concat indices) : gset InOrderIndex)).
  assert (∀ idx, idx ∈ ids ↔ ∃ l, l ∈ indices ∧ idx ∈ l) as Hids.
  { intros idx. unfold ids. rewrite elem_of_bset_elements, elem_of_list_to_set. rewrite list_elem_of_In, Stdlib.Lists.List.in_concat.
    by setoid_rewrite <-list_elem_of_In. }
  assert (Forall valid_index ids) as Hvalid.
  { apply Forall_forall. intros idx (l & Hl & Hidx)%Hids. apply list_elem_of_lookup in Hl as (i & Hi).
    destruct (Forall2_lookup_r _ _ _ _ _ Hall Hi) as (b & Hb & k & Hk & ->).
    apply (Forall_lookup_1 _ _ _ _ Hblocks) in Hb. cbn in Hb. by eapply (path_index_valid forest b k). }
  unfold mbind, dbm_bind. rewrite (Hnodes ids Hvalid).
  destruct (paths_stored nodes ids forest s indices block_nums Hf Hblocks Hall) as (paths & Hp & Hstored); [done..|].
  exists paths. split; [|done]. exact Hp.
Qed.

(** C13: The paths that the data store puts together are exact.  For blocks of the forest
    the function neither panics nor runs on: the path of each block consists of the
    stored siblings from its leaf upwards, stops at the peak of its tree even when other
    paths brought more nodes along, and is complete when the siblings are stored. *)
Theorem authentication_paths_exact nodes forest block_nums s :
  nodes_answered nodes s → 0 ≤ forest ≤ 2 ^ 32 → Forall (λ b, 0 ≤ b < forest) block_nums →
  ∃ paths, get_authentication_path_for_blocks block_nums forest s = Finished (s, Ok paths) ∧
    Forall2 (stored_path nodes forest) block_nums paths.
Proof. apply authentication_paths_stored. Qed.
End paths.

(** *** The SQLite store *)

Section sqlite.
Context `{StoreLaws} `{!AccountLaws} `{!SmtForestLib} `{!MerklePathLib} `{!InOrderLaws}.

(** The table of nodes stores a map of nodes. *)
Record nodes_stored (nodes : gmap InOrderIndex Word) (db : Db) : Prop := {
  nst_rows : partial_blockchain_nodes db = kmap InOrderIndex_inner (Word_to_hex <$> nodes);
  nst_index idx w : nodes !! idx = Some w → 0 < InOrderIndex_inner idx
}.

#[local] Instance InOrderIndex_inner_inj : Inj (=) (=) InOrderIndex_inner.
Proof. intros i j Hij. by rewrite <-(InOrderIndex_new_inner i), Hij, InOrderIndex_new_inner. Qed.

Definition node_row (kv : InOrderIndex * Word) : Z * string := (InOrderIndex_inner kv.1, Word_to_hex kv.2).

Lemma valid_index_id idx : valid_index idx → 0 < InOrderIndex_inner idx ≤ I64_MAX.
Proof.
  intros (h & p & Hh & Hp & Hb & ->). rewrite node_inner by lia.
  assert (0 < 2 ^ h) by lia. assert (2 ^ h ≤ 2 ^ 31) by (apply Z.pow_le_mono_r; lia).
  change I64_MAX with 9223372036854775807. nia.
Qed.

Lemma node_ids ids : Forall valid_index ids → mapM node_id ids = Some (InOrderIndex_inner <$> ids).
Proof.
  induction 1 as [|idx ids Hidx _ IH]; [done|]. assert (node_id idx = Some (InOrderIndex_inner idx)) as Hid.
  { unfold node_id. apply valid_index_id in Hidx. by rewrite (proj2 (Z.leb_le _ _)) by lia. }
  cbn. rewrite Hid. cbn. by rewrite IH.
Qed.

Lemma parse_rows l m :
  Forall (λ kv : InOrderIndex * Word, 0 < InOrderIndex_inner kv.1) l →
  foldl (λ acc row, m ← acc; entry ← parse_partial_blockchain_nodes row; mret (<[entry.1 := entry.2]> m))
    (mret m : eff StoreError (gmap InOrderIndex Word)) (node_row <$> l) =
  mret (foldl (λ m kv, <[kv.1 := kv.2]> m) m l).
Proof.
  intros Hl. revert m. induction Hl as [|[idx w] l Hidx _ IH]; intros m; [done|]. cbn [fmap list_fmap foldl].
  rewrite <-IH. f_equal. unfold parse_partial_blockchain_nodes, node_row. cbn [fst snd].
  cbn in Hidx. rewrite (proj2 (Z.ltb_ge _ _)), (proj2 (Z.eqb_neq _ _)) by lia.
  unfold mbind, eff_bind, mret, eff_ret, lift. by rewrite Word_hex_roundtrip, InOrderIndex_new_inner.
Qed.

Lemma insert_all_union (l : list (InOrderIndex * Word)) : ∀ m : gmap InOrderIndex Word, NoDup l.*1 →
  foldl (λ m kv, <[kv.1 := kv.2]> m) m l = list_to_map l ∪ m.
Proof.
  induction l as [|[k v] l IH]; intros m Hl; [cbn; by rewrite (left_id_L ∅ (∪))|]. apply NoDup_cons in Hl as [Hk Hl]. cbn.
  rewrite IH by done. rewrite <-insert_union_l, <-insert_union_r; [done|]. by apply not_elem_of_list_to_map_1.
Qed.

Lemma insert_all_map (l : list (InOrderIndex * Word)) nodes :
  l ≡ₚ map_to_list nodes → foldl (λ m kv, <[kv.1 := kv.2]> m) ∅ l = nodes.
Proof.
  intros Hl. assert (NoDup l.*1) by (rewrite Hl; apply NoDup_fst_map_to_list).
  rewrite insert_all_union, (right_id_L ∅ (∪)) by done. rewrite (list_to_map_proper _ _ ltac:(done) Hl). apply list_to_map_to_list.
Qed.

Lemma node_rows_selected nodes ids db :
  nodes_stored nodes db → Forall valid_index ids →
  select_where (λ id _, bool_decide (id ∈ InOrderIndex_inner <$> ids)) (partial_blockchain_nodes db) ≡ₚ
  node_row <$> map_to_list (filter (λ kv, kv.1 ∈ ids) nodes).
Proof.
  intros [Hrows _] _. rewrite Hrows. apply NoDup_Permutation.
  - apply NoDup_filter, NoDup_map_to_list.
  - apply NoDup_fmap_2_strong; [|apply NoDup_map_to_list].
    intros [i w] [j v] Hi Hj [= Hij Hw]. apply (inj InOrderIndex_inner) in Hij as ->.
    apply elem_of_map_to_list in Hi, Hj. congruence.
  - intros [n hex]. rewrite elem_of_select_where, (list_elem_of_fmap node_row). split.
    + intros [Hn Hid%bool_decide_eq_true]. apply lookup_kmap_Some in Hn as (idx & -> & Hidx); [|apply _].
      apply lookup_fmap_Some in Hidx as (w & <- & Hw). exists (idx, w). split; [done|].
      apply elem_of_map_to_list, map_lookup_filter_Some. split; [done|]. cbn.
      apply list_elem_of_fmap in Hid as (idx' & Heq & Hin). by apply (inj InOrderIndex_inner) in Heq as ->.
    + intros ([idx w] & [= -> ->] & Hin). apply elem_of_map_to_list, map_lookup_filter_Some in Hin as [Hw Hin].
      split; [|by apply bool_decide_eq_true, list_elem_of_fmap_2]. rewrite lookup_kmap by apply _. by rewrite lookup_fmap, Hw.
Qed.

Lemma sqlite_nodes_answered nodes (s : StoreState) :
  nodes_stored nodes (st_db s) → nodes_answered nodes s.
Proof.
  intros Hstored ids Hvalid. cbn [get_partial_blockchain_nodes sqlite_store_ops].
  assert (sqlite_get_partial_blockchain_nodes (PartialBlockchain_List ids) (st_db s) =
    Finished (st_db s, Ok (filter (λ kv, kv.1 ∈ ids) nodes))) as Hrun.
  { destruct ids as [|i ids].
    { assert (filter (λ kv : InOrderIndex * Word, kv.1 ∈ []) nodes = ∅) as ->; [|done].
      apply map_empty_filter. by intros k w _ ?%not_elem_of_nil. }
    unfold sqlite_get_partial_blockchain_nodes. rewrite node_ids by done.
    pose proof (node_rows_selected nodes (i :: ids) (st_db s) Hstored Hvalid) as Hp.
    apply Permutation_map_inv in Hp as (l & Hl & Hp).
    unfold db_get, query_partial_blockchain_nodes. rewrite Hl.
    rewrite parse_rows.
    - by rewrite (insert_all_map l (filter (λ kv, kv.1 ∈ i :: ids) nodes)).
    - apply Forall_forall. intros [idx w] Hin. rewrite <-Hp in Hin.
      apply elem_of_map_to_list, map_lookup_filter_Some in Hin as [Hw _].
      by apply (nst_index _ _ Hstored idx w). }
  unfold on_tables, zoom. rewrite Hrun. by destruct s.
Qed.
End sqlite.

(** ** The inputs of a transaction *)

Class DataStoreContract `{StoreContract} `{!SmtForestLib} `{!ExecutedLib} `{!AccountOps St}
    `{!DataStoreOps St} : Prop := {
  (* These only read. *)
  dc_get_minimal_account s id s' r : store_get_minimal_partial_account id s = Finished (s', r) → s' = s;
  dc_get_account s id s' r : store_get_account id s = Finished (s', r) → s' = s
}.

Section inputs.
Context `{DataStoreLib} `{!MerklePathLib} `{!InOrderLaws} `{!NoteWireLib} `{!RequestLib} `{!TxLib} `{!ExecutedLib}.
Context `{!NodeProofs} `{!NodeSubmit} `{!StoreLaws} {St : Type} `{!StoreOps St} `{!AccountOps St}.
Context `{!DataStoreOps St} `{!StoreContract St} `{!DataStoreContract}.

Definition ds_store (d : ClientDataStore (St:=St)) : St := cl_store (ds_client d).

Lemma from_store_Ok {A} (m : dbm StoreError St A) d d' a :
  (∀ s s' r, m s = Finished (s', r) → s' = s) → from_store m d = Finished (d', Ok a) →
  d' = d ∧ m (ds_store d) = Finished (ds_store d, Ok a).
Proof.
  intros Hm Hrun. unfold from_store in Hrun. apply dbm_bind_Ok in Hrun as (d1 & r & Hrun & Hr).
  unfold with_store in Hrun. unfold ds_store. destruct (m _) as [[s r']| |] eqn:E; [|done..].
  injection Hrun as <- <-. unfold data_try in Hr. injection Hr as <- Hr. apply Hm in E as E'. subst s.
  destruct r' as [a'|]; [|done]. injection Hr as <-. split; [|done]. destruct d as [[]]. done.
Qed.

Lemma data_try_Ok {A} (r : result DataStoreError A) d d' a :
  data_try (St:=St) r d = Finished (d', Ok a) → d' = d ∧ r = Ok a.
Proof. by intros [= <- ->]. Qed.

Lemma account_for_transaction_reads id d d' a :
  account_for_transaction id d = Finished (d', Ok a) → d' = d.
Proof.
  intros Hrun. unfold account_for_transaction in Hrun.
  apply dbm_bind_Ok in Hrun as (d1 & r & [-> _]%from_store_Ok & Hrun); [|intros ???; apply dc_get_minimal_account].
  apply dbm_bind_Ok in Hrun as (d2 & rec & [-> _]%data_try_Ok & Hrun).
  destruct (_ =? 0); [|by apply data_try_Ok in Hrun as [-> _]].
  apply dbm_bind_Ok in Hrun as (d3 & full & [-> _]%from_store_Ok & Hrun); [|intros ???; apply dc_get_account].
  apply dbm_bind_Ok in Hrun as (d4 & rec' & [-> _]%data_try_Ok & Hrun).
  apply dbm_bind_Ok in Hrun as (d5 & acc & [-> _]%data_try_Ok & Hrun). by injection Hrun.
Qed.

Lemma header_by_num_reads n s s' r : get_block_header_by_num (St:=St) n s = Finished (s', r) → s' = s.
Proof.
  unfold get_block_header_by_num, mbind, dbm_bind.
  destruct (get_block_headers _ s) as [[s1 [l|e]]| |] eqn:E; try done; apply sc_get_block_headers in E as ->;
    by intros [= <- _].
Qed.

Lemma from_store_run {A} (m : dbm StoreError St A) d a :
  m (ds_store d) = Finished (ds_store d, Ok a) → from_store m d = Finished (d, Ok a).
Proof.
  intros Hm. unfold from_store, mbind, dbm_bind, with_store. unfold ds_store in Hm. rewrite Hm.
  by destruct d as [[]].
Qed.

Lemma max_block (refs : gset BlockNumber) n :
  last (merge_sort Z.le (elements refs)) = Some n → n ∈ refs ∧ ∀ m, m ∈ refs → m ≤ n.
Proof.
  intros Hlast. assert (∀ m, m ∈ merge_sort Z.le (elements refs) ↔ m ∈ refs) as Hin.
  { intros m. by rewrite merge_sort_Permutation, elem_of_elements. }
  split; [by apply Hin, last_Some_elem_of|]. intros m Hm%Hin.
  pose proof (StronglySorted_merge_sort Z.le (elements refs)) as Hs.
  apply last_Some in Hlast as (l & Hl). rewrite Hl in Hm, Hs.
  apply elem_of_app in Hm as [Hm|Hm]; [|apply list_elem_of_singleton in Hm as ->; lia].
  eapply (StronglySorted_app_1_elem_of Z.le l [n]); [done..|]. by left.
Qed.

(** The blocks among those asked for that there are. *)
Definition found_blocks (blocks : gmap Z (BlockHeader * BlockRelevance)) (numbers : gset Z) :
    list (BlockHeader * BlockRelevance) :=
  (map_to_list (base.filter (λ nb : Z * (BlockHeader * BlockRelevance), nb.1 ∈ numbers) blocks)).*2.

(** The store has these headers, by their numbers, and answers with those it has among the
    ones it is asked for; the peaks of a block are those of the chain before it. *)
Record chain_answered (blocks : gmap Z (BlockHeader * BlockRelevance)) (s : St) : Prop := {
  ca_num n b : blocks !! n = Some b → BlockHeader_block_num b.1 = n;
  ca_headers numbers : ∃ headers, get_block_headers numbers s = Finished (s, Ok headers) ∧
    headers ≡ₚ found_blocks blocks numbers;
  ca_peaks n peaks : is_Some (blocks !! n) →
    get_partial_blockchain_peaks_by_block_num n s = Finished (s, Ok peaks) →
    mmr_num_leaves (PartialMmr_from_peaks peaks) = n
}.

(** The blocks of a list of headers are those that were asked for and that are stored. *)
Lemma answered_numbers blocks s numbers (headers : list (BlockHeader * BlockRelevance)) :
  chain_answered blocks s →
  headers ≡ₚ found_blocks blocks numbers →
  ∀ b, b ∈ headers ↔ BlockHeader_block_num b.1 ∈ numbers ∧ blocks !! BlockHeader_block_num b.1 = Some b.
Proof.
  intros Hchain Hp b. unfold found_blocks in Hp. rewrite Hp, list_elem_of_fmap. split.
  - intros ([n b'] & -> & Hin). apply elem_of_map_to_list, map_lookup_filter_Some in Hin as [Hb Hn].
    cbn in *. by rewrite (ca_num _ _ Hchain _ _ Hb).
  - intros [Hn Hb]. exists (BlockHeader_block_num b.1, b). split; [done|].
    by apply elem_of_map_to_list, map_lookup_filter_Some.
Qed.

Lemma answered_header blocks s n header :
  chain_answered blocks s → get_block_header_by_num n s = Finished (s, Ok (Some header)) →
  blocks !! n = Some header.
Proof.
  intros Hchain. unfold get_block_header_by_num, mbind, dbm_bind.
  destruct (ca_headers _ _ Hchain {[ n ]}) as (headers & -> & Hp). intros [= Hh].
  assert (header ∈ headers) as Hin by (by apply last_Some_elem_of).
  apply (answered_numbers _ _ _ _ Hchain Hp) in Hin as [Hn%elem_of_singleton Hb]. by rewrite Hn in Hb.
Qed.

(** C12: A transaction is given the chain that its blocks are authenticated against.  The
    reference block is the greatest block it refers to, and is remembered; its header
    comes from the store.  The partial chain starts from the peaks that the store has for
    it and tracks exactly those of the other blocks that the store has, each with the
    stored part of the path from its leaf to its peak, which is the whole path when its
    nodes are stored.  A block that the store does not have is left out without an error. *)
Theorem transaction_inputs_authenticated nodes blocks account_id block_refs d d' account header chain :
  nodes_answered nodes (ds_store d) → chain_answered blocks (ds_store d) →
  (∀ n, n ∈ block_refs → 0 ≤ n ≤ 2 ^ 32) →
  get_transaction_inputs account_id block_refs d = Finished (d', Ok (account, header, chain)) →
  ∃ n relevance peaks headers paths mmr,
    n ∈ block_refs ∧ (∀ m, m ∈ block_refs → m ≤ n) ∧ d' = set_ref_block (Some n) d ∧
    account_for_transaction account_id d' = Finished (d', Ok account) ∧
    blocks !! n = Some (header, relevance) ∧
    get_partial_blockchain_peaks_by_block_num n (ds_store d) = Finished (ds_store d, Ok peaks) ∧
    mmr_num_leaves (PartialMmr_from_peaks peaks) = n ∧
    headers ≡ₚ (found_blocks blocks (block_refs ∖ {[ n ]})).*1 ∧
    (∀ m, m ∈ BlockHeader_block_num <$> headers ↔ m ∈ block_refs ∧ m ≠ n ∧ is_Some (blocks !! m)) ∧
    Forall2 (λ h path, stored_path nodes n (BlockHeader_block_num h) path ∧
      (path_present nodes n (BlockHeader_block_num h) →
       complete_path nodes n (BlockHeader_block_num h) path)) headers paths ∧
    track_blocks (PartialMmr_from_peaks peaks) (zip headers paths) = Ok mmr ∧
    PartialBlockchain_new mmr headers = Ok chain.
Proof.
  intros Hnodes Hchain Hrange Hrun. unfold get_transaction_inputs in Hrun.
  destruct (last _) as [n|] eqn:Hlast; [|done]. apply max_block in Hlast as [Hn Hmax].
  apply dbm_bind_Ok in Hrun as (d1 & ? & [= <- _] & Hrun).
  apply dbm_bind_Ok in Hrun as (d2 & acc & Hacc & Hrun).
  pose proof (account_for_transaction_reads _ _ _ _ Hacc) as ->.
  apply dbm_bind_Ok in Hrun as (d3 & h & [-> Hheader]%from_store_Ok & Hrun);
    [|intros ???; apply header_by_num_reads].
  apply dbm_bind_Ok in Hrun as (d4 & [h' relevance] & [-> Hh]%data_try_Ok & Hrun).
  apply dbm_bind_Ok in Hrun as (d5 & headers & [-> Hheaders]%from_store_Ok & Hrun);
    [|intros ???; apply sc_get_block_headers]. cbv zeta in Hrun.
  apply dbm_bind_Ok in Hrun as (d6 & mmr & Hmmr & Hrun).
  apply dbm_bind_Ok in Hrun as (d7 & chain' & [-> Hnew]%data_try_Ok & Hrun). injection Hrun as <- <- <- <-.
  unfold build_partial_mmr_with_paths in Hmmr.
  apply dbm_bind_Ok in Hmmr as (d8 & peaks & [-> Hpeaks]%from_store_Ok & Hmmr);
    [|intros ???; apply sc_get_peaks]. cbv zeta in Hmmr.
  change (ds_store (set_ref_block (Some n) d)) with (ds_store d) in *.
  destruct h as [hr|]; [|discriminate Hh]. cbn in Hh. injection Hh as ->.
  apply (answered_header blocks) in Hheader; [|done].
  destruct (ca_headers _ _ Hchain (block_refs ∖ {[ n ]})) as (headers' & Hh' & Hp).
  rewrite Hheaders in Hh'. injection Hh' as <-.
  pose proof (answered_numbers _ _ _ _ Hchain Hp) as Hnum.
  pose proof (ca_peaks _ _ Hchain _ _ ltac:(by eexists) Hpeaks) as Hleaves. rewrite Hleaves in Hmmr.
  destruct (authentication_paths_stored nodes n (BlockHeader_block_num <$> headers.*1) (ds_store d))
    as (paths & Hpaths & Hstored); [done|by apply Hrange| |].
  { apply Forall_fmap, Forall_fmap, Forall_forall. intros b Hb%Hnum. cbn.
    destruct Hb as [[Hb Hne]%elem_of_difference _]. pose proof (Hmax _ Hb). pose proof (Hrange _ Hb). set_solver by lia. }
  apply dbm_bind_Ok in Hmmr as (d9 & paths' & Hps & Hmmr). rewrite (from_store_run _ (set_ref_block (Some n) d) _ Hpaths) in Hps.
  injection Hps as <- <-. apply data_try_Ok in Hmmr as [-> Htrack].
  exists n, relevance, peaks, headers.*1, paths, mmr. split_and!; try done.
  - by rewrite Hp.
  - intros m. rewrite list_elem_of_fmap. setoid_rewrite list_elem_of_fmap. split.
    + intros (h & -> & b & -> & [[Hb Hne]%elem_of_difference Hs]%Hnum). split_and!; [done|set_solver|by eexists].
    + intros (Hm & Hne & b & Hb). exists b.1. rewrite (ca_num _ _ Hchain _ _ Hb). split; [done|].
      exists b. split; [done|]. apply Hnum. rewrite (ca_num _ _ Hchain _ _ Hb). set_solver.
  - eapply Forall2_impl; [exact (proj1 (Forall2_fmap_l _ _ _ _) Hstored)|]. intros h path Hpath.
    split; [done|]. by apply stored_path_complete.
  - destruct (PartialBlockchain_new _ _); [by injection Hnew as ->|discriminate Hnew].
Qed.
End inputs.

Section sqlite_inputs.
Context `{StoreLaws} `{!SerdeLaws} `{!ProtocolLaws} `{!AccountLaws} `{!SmtForestLib} `{!PartialAccountLib} `{!ExecutedLib}.

#[export] Instance sqlite_data_store : DataStoreContract (St := StoreState).
Proof.
  split; intros s id s' r Hrun; cbn in Hrun; unfold db_read_panics in Hrun.
  - destruct (get_minimal_partial_account _ _); [by injection Hrun|done..].
  - destruct (get_account _ _); [by injection Hrun|done..].
Qed.

(** What the store answers about a block. *)
Definition stored_answer (b : StoredBlock) : BlockHeader * BlockRelevance :=
  (sb_header b, BlockRelevance_from_bool (sb_relevant b)).

Lemma sqlite_chain_answered m (s : StoreState) :
  blocks_stored m (st_db s) →
  (∀ n b, m !! n = Some b → vec_wf any (sb_peaks b) ∧
    ∀ peaks, MmrPeaks_new n (sb_peaks b) = Ok peaks → mmr_num_leaves (PartialMmr_from_peaks peaks) = n) →
  chain_answered (stored_answer <$> m) s.
Proof.
  intros [Hrows Hnum] Hleaves. split.
  - intros n b (b' & <- & Hb)%lookup_fmap_Some. by apply Hnum.
  - intros numbers. set (chosen := filter (λ nb : Z * StoredBlock, nb.1 ∈ numbers) m).
    assert (select_where (λ block_num _, bool_decide (block_num ∈ numbers)) (block_headers (st_db s)) ≡ₚ
      prod_map id block_row <$> map_to_list chosen) as Hsel.
    { rewrite <-map_to_list_fmap, Hrows. apply NoDup_Permutation.
      - apply NoDup_filter, NoDup_map_to_list.
      - apply NoDup_map_to_list.
      - intros [n row]. rewrite elem_of_select_where, elem_of_map_to_list, bool_decide_eq_true.
        unfold chosen. rewrite !lookup_fmap, map_lookup_filter. cbn.
        destruct (m !! n) as [b|]; cbn; [|naive_solver]. case_guard; cbn; naive_solver. }
    apply Permutation_map_inv in Hsel as (l & Hl & Hp).
    exists ((λ nb : Z * StoredBlock, stored_answer nb.2) <$> l). split.
    + cbn. unfold sqlite_get_block_headers, on_tables, zoom, db_read. rewrite Hl. destruct s. cbn.
      f_equal. f_equal. apply try_map_Ok, Forall2_fmap, Forall_Forall2_diag, Forall_true.
      intros [n b]. cbn. apply parse_block_row.
    + unfold found_blocks. rewrite map_filter_fmap, map_to_list_fmap. unfold chosen in Hp. rewrite Hp, <-list_fmap_compose.
      done.
  - intros n peaks Hn Hpeaks. cbn in Hpeaks.
    unfold on_tables, zoom, sqlite_get_partial_blockchain_peaks_by_block_num, db_read in Hpeaks.
    rewrite lookup_fmap in Hn. rewrite Hrows, lookup_fmap in Hpeaks. destruct (m !! n) as [b|] eqn:Hb; [|by destruct Hn].
    injection Hpeaks as _ Hpeaks. unfold parse_partial_blockchain_peaks in Hpeaks. destruct (Hleaves n b Hb) as [Hwf Hl].
    change (bhr_partial_blockchain_peaks (block_row b)) with (write_into (vec_codec Word_codec) (sb_peaks b)) in Hpeaks.
    rewrite (read_from_bytes_ok (vec_codec Word_codec) (vec_wf any)) in Hpeaks by done. cbn in Hpeaks.
    destruct (MmrPeaks_new n (sb_peaks b)) as [p|] eqn:Hp; [|done]. injection Hpeaks as <-.
    by apply Hl.
Qed.
End sqlite_inputs.

(** ** A concrete tree *)

(** In-order indices as they are: the lowest set bit gives the height. *)
Fixpoint low_bit (p : positive) : Z := match p with xO p => 2 * low_bit p | _ => 1 end.
Definition low (i : Z) : Z := match i with Zpos p => low_bit p | _ => 1 end.
Definition toy_position (i : Z) : Z := i / (2 * low i).

Lemma low_node h p : 0 ≤ h → 0 ≤ p → low ((2 * p + 1) * 2 ^ h) = 2 ^ h.
Proof.
  intros Hh Hp. pattern h. apply natlike_ind; [|clear h Hh; intros h Hh IH|done].
  - rewrite Z.mul_1_r. by destruct p.
  - rewrite Z.pow_succ_r by done. rewrite <-IH at 2.
    replace ((2 * p + 1) * (2 * 2 ^ h)) with (2 * ((2 * p + 1) * 2 ^ h)) by lia.
    destruct ((2 * p + 1) * 2 ^ h) eqn:E; [|done|]; assert (0 < 2 ^ h) by lia; nia.
Qed.

Lemma position_node h p : 0 ≤ h → 0 ≤ p → toy_position ((2 * p + 1) * 2 ^ h) = p.
Proof.
  intros Hh Hp. unfold toy_position. rewrite low_node by done. assert (0 < 2 ^ h) by lia.
  symmetry. apply (Z.div_unique_pos _ _ p (2 ^ h)); lia.
Qed.

Definition toy_tree_paths : @MerklePathLib toy_protocol toy_mmr := {|
  MmrProof_merkle_path := λ p, p;
  MerklePath_nodes := λ _, [];
  MerklePath_new := foldr (λ w acc, w + 100 * acc) 0;
  InOrderIndex_from_leaf_pos := λ i, 2 * i + 1;
  InOrderIndex_sibling := λ i, (2 * Z.lxor (toy_position i) 1 + 1) * low i;
  InOrderIndex_parent := λ i, (2 * (toy_position i / 2) + 1) * (2 * low i);
  Forest_leaf_to_corresponding_tree := λ _ _, None
|}.

#[export] Instance toy_in_order : @InOrderLaws _ _ _ _ toy_store_lib toy_tree_paths.
Proof.
  refine {| node := (λ h p, (2 * p + 1) * 2 ^ h) : Z → Z → @InOrderIndex toy_protocol toy_mmr |}; cbn.
  - done.
  - intros i. lia.
  - intros h p Hh Hp. rewrite position_node, low_node, <-Z.pow_succ_r by done. by rewrite Z.add_1_r.
  - intros h p Hh Hp. by rewrite position_node, low_node.
Defined.

Lemma path_len_is_tree_height_witness : mmr_merkle_path_len 5 7 = Some 1 ∧ tree_height 32 7 5 = Some 1.
Proof.
  destruct (path_len_is_tree_height 32 7 5) as [Hlen _]; [lia|reflexivity|].
  split; [rewrite Hlen; reflexivity|reflexivity].
Defined.

(** A chain of seven blocks with the nodes for the paths of the blocks [1] and [4]: the
    leaf [0], the node above the leaves [2] and [3], and the leaf [5]. *)
Definition toy_nodes : gmap (@InOrderIndex toy_protocol toy_mmr) (@Word toy_protocol) :=
  {[ 1 := 10; 6 := 11; 11 := 12 ]}.

Definition toy_nodes_store : StoreState := {|
  st_db := set_partial_blockchain_nodes
    {[ 1 := Word_to_hex (toy_word 10); 6 := Word_to_hex (toy_word 11); 11 := Word_to_hex (toy_word 12) ]} Db_new;
  st_forest := AccountSmtForest_new |}.

Lemma toy_nodes_stored : nodes_stored toy_nodes (st_db toy_nodes_store).
Proof.
  split; [by vm_compute|]. intros idx w Hidx. unfold toy_nodes in Hidx.
  do 2 (apply lookup_insert_Some in Hidx as [[<- _]|[_ Hidx]]; [done|]).
  by apply lookup_singleton_Some in Hidx as [<- _].
Qed.

Definition toy_found_paths : bool :=
  match get_authentication_path_for_blocks (H4 := toy_tree_paths) [1; 4] 7 toy_nodes_store with
  | Finished (_, Ok paths) => bool_decide ((paths : list Z) = [1110; 12])
  | _ => false
  end.

Lemma toy_paths_found : toy_found_paths = true.
Proof. by vm_compute. Qed.

Lemma authentication_paths_exact_witness :
  ∃ paths, get_authentication_path_for_blocks (H4 := toy_tree_paths) [1; 4] 7 toy_nodes_store =
      Finished (toy_nodes_store, Ok paths) ∧
    Forall2 (stored_path (H4 := toy_tree_paths) toy_nodes 7) [1; 4] paths ∧ (paths : list Z) = [1110; 12].
Proof.
  destruct (authentication_paths_exact (H4 := toy_tree_paths) toy_nodes 7 [1; 4] toy_nodes_store
    (sqlite_nodes_answered _ _ toy_nodes_stored)) as (paths & Hrun & Hpaths); [lia|repeat constructor; lia|].
  exists paths. split; [exact Hrun|]. split; [exact Hpaths|].
  pose proof toy_paths_found as Htest. unfold toy_found_paths in Htest. rewrite Hrun in Htest.
  exact (proj1 (bool_decide_eq_true _) Htest).
Defined.

#[export] Instance toy_data_store : @DataStoreLib _ _ _ _ _ _ _ _ _ _ toy_foreign := {|
  MastForest := Z;
  MastStore := list Z;
  MastStore_new := [];
  load_account_code := λ store (code : @AccountCode _ toy_account_lib), (code : Z) :: store;
  MastStore_get := λ store (root : @Word toy_protocol), find (Z.eqb root) store;
  StorageMap_open := λ _ _, ((∅ : gmap Z Z) : @StorageMapWitness _ _ toy_forest_lib);
  PartialStorageMap_root := λ m : @PartialStorageMap _ toy_account_lib, fst (m : Z * list (Z * Z));
  PartialStorageMap_open := λ _ _, Err "key is not tracked"%string;
  PartialAccount_from := λ a, {|
    partial_id := Account_id a; partial_nonce := Account_nonce a; partial_code := Account_code a;
    partial_storage_header := []; partial_maps := []; partial_vault := toy_vault_root (Account_vault a);
    partial_seed := None |};
  AssetVault_open_witness := λ _ _, Err "not in this model"%string;
  PartialBlockchain := Z * list (Z * Z);
  PartialBlockchain_new := λ (mmr : @PartialMmr _ toy_mmr) _, Ok (mmr : Z * list (Z * Z))
|}.

(** Account 1, a client at block 5, and a transaction that also refers to block 2 and to
    block 3, which is not stored: the path of leaf 2 consists of leaf 3 and of the node
    above the leaves 0 and 1. *)
Definition toy_input_blocks : gmap Z StoredBlock := {[
  5 := {| sb_header := ((5, 9) : @BlockHeader toy_protocol); sb_peaks := [5 : @Word toy_protocol]; sb_relevant := true |};
  2 := {| sb_header := ((2, 4) : @BlockHeader toy_protocol); sb_peaks := [2 : @Word toy_protocol]; sb_relevant := true |} ]}.

Definition toy_input_nodes : gmap (@InOrderIndex toy_protocol toy_mmr) (@Word toy_protocol) :=
  {[ 7 := 31; 2 := 32 ]}.

Definition toy_input_store : StoreState := {|
  st_db := set_block_headers (block_row <$> toy_input_blocks)
    (set_partial_blockchain_nodes
      {[ 7 := Word_to_hex (toy_word 31); 2 := Word_to_hex (toy_word 32) ]} AccountUndo.toy_tables);
  st_forest := AccountSmtForest_new |}.

Definition toy_inputs_store : ClientDataStore (St := StoreState) :=
  ClientDataStore_new {| cl_store := toy_input_store; cl_genesis_commitment := None; cl_rpc_limits := None |}.

Definition toy_inputs_run :=
  get_transaction_inputs (H11 := toy_tree_paths) (toy_account 1) {[ 2; 3; 5 ]} toy_inputs_store.
Definition toy_inputs_given : bool :=
  match toy_inputs_run with
  | Finished (d, Ok (account, header, chain)) =>
      bool_decide (header = ((5, 9) : @BlockHeader toy_protocol)) &&
      bool_decide ((chain : Z * list (Z * Z)) = (5, [(2, 2004)]))
  | _ => false
  end.

Lemma toy_inputs_are_given : toy_inputs_given = true.
Proof. by vm_compute. Qed.

Lemma toy_input_blocks_stored : blocks_stored toy_input_blocks (st_db toy_input_store).
Proof.
  split; [reflexivity|]. intros n b Hb. unfold toy_input_blocks in Hb.
  apply lookup_insert_Some in Hb as [[<- <-]|[_ Hb]]; [done|]. by apply lookup_singleton_Some in Hb as [<- <-].
Qed.

Lemma toy_input_nodes_stored :
  nodes_stored toy_input_nodes (st_db toy_input_store).
Proof.
  split; [by vm_compute|]. intros idx w Hidx. unfold toy_input_nodes in Hidx.
  apply lookup_insert_Some in Hidx as [[<- _]|[_ Hidx]]; [done|].
  by apply lookup_singleton_Some in Hidx as [<- _].
Qed.

Lemma toy_input_chain : chain_answered (stored_answer <$> toy_input_blocks) (ds_store toy_inputs_store).
Proof.
  apply (sqlite_chain_answered toy_input_blocks); [apply toy_input_blocks_stored|]. intros n b Hb. unfold toy_input_blocks in Hb.
  apply lookup_insert_Some in Hb as [[<- <-]|[_ Hb]].
  - split; [by apply vec_any|]. by intros ? [= <-].
  - apply lookup_singleton_Some in Hb as [<- <-]. split; [by apply vec_any|]. by intros ? [= <-].
Qed.

Lemma toy_greatest (n : Z) :
  n ∈ ({[ 2; 3; 5 ]} : gset Z) → (∀ m, m ∈ ({[ 2; 3; 5 ]} : gset Z) → m ≤ n) → n = 5.
Proof.
  intros Hn Hmax. specialize (Hmax 5). rewrite !elem_of_union, !elem_of_singleton in Hn, Hmax. lia.
Qed.

Lemma toy_blocks_tracked (m : Z) :
  m ∈ ({[ 2; 3; 5 ]} : gset Z) ∧ m ≠ 5 ∧ is_Some ((stored_answer <$> toy_input_blocks) !! m) ↔ m = 2.
Proof.
  rewrite !elem_of_union, !elem_of_singleton. split.
  - intros ([[->| ->]| ->] & Hne & [b Hb]); [done|by vm_compute in Hb|done].
  - intros ->. split_and!; [by left; left|done|by eexists].
Qed.

(** Only block 2 is tracked, and block 3 is missing without an error. *)
Lemma transaction_inputs_authenticated_witness : ∃ d' account header chain headers,
  toy_inputs_run = Finished (d', Ok (account, header, chain)) ∧
  d' = set_ref_block (Some 5) toy_inputs_store ∧
  (∀ m, m ∈ BlockHeader_block_num <$> headers ↔ m = 2) ∧
  ∃ mmr, PartialBlockchain_new mmr headers = Ok chain.
Proof.
  pose proof toy_inputs_are_given as Htest. unfold toy_inputs_given in Htest.
  destruct toy_inputs_run as [[d' [[[account header] chain]|]]| |] eqn:Hrun; [|done..].
  destruct (@transaction_inputs_authenticated _ _ _ _ _ _ _ _ _ _ _ toy_data_store toy_tree_paths
    toy_in_order _ _ StoreState _ _ _ _ sqlite_data_store toy_input_nodes (stored_answer <$> toy_input_blocks)
    (toy_account 1) {[ 2; 3; 5 ]} toy_inputs_store d' account header chain
    (sqlite_nodes_answered toy_input_nodes toy_input_store toy_input_nodes_stored) toy_input_chain)
    as (n & _ & _ & headers & _ & mmr & Hn & Hmax & Hd & _ & _ & _ & _ & _ & Hnum & _ & _ & Hnew).
  - intros m. rewrite !elem_of_union, !elem_of_singleton. lia.
  - exact Hrun.
  - apply (toy_greatest n Hn) in Hmax as ->.
    exists d', account, header, chain, headers. split; [reflexivity|]. split; [exact Hd|].
    split; [|exists mmr; exact Hnew]. intros m. exact (iff_trans (Hnum m) (toy_blocks_tracked m)).
Defined.
