(* ===== verification/RequestCodec.v ===== *)
(** * The encoding of a transaction request

    [Serializable] and [Deserializable] of [TransactionRequest]
    ([transaction/request/mod.rs]), [ForeignAccount] ([transaction/request/foreign.rs]) and
    [AccountStorageRequirements] ([rpc/domain/account.rs]).  The foreign accounts are
    written as a list and collected again under their identifiers, so a request comes back
    as it was only if its map has that shape: every request of the builder has it. *)

From S2P Require Import Prelude Protocol Serde Model NoteStates InputNote OutputNote TxRecord.
From S2P Require Import Errors NoteTracker Rpc AccountTypes SmtForest Sql Store TxRequest.
From Stdlib Require Import ZArith Lia.
From stdpp Require Import base gmap list strings sorting.

Open Scope Z_scope.

(** ** The codecs of the libraries *)

Class RequestWireLib `{StoreLib} `{!RequestLib} := {
  btree_codec {K V} `{!KeyType K} : codec K → codec V → codec (gmap K V);
  Note_codec : codec Note;
  PartialNote_codec : codec PartialNote;
  PartialAccount_codec : codec PartialAccount;
  StorageSlotName_codec : codec StorageSlotName;
  StorageMapKey_codec : codec StorageMapKey;
  AdviceMap_codec : codec AdviceMap;
  MerkleStore_codec : codec MerkleStore
}.

(** A map whose values are valid; its size is a [usize]. *)
Definition map_wf {K V} `{!KeyType K} (wf : V → Prop) (m : gmap K V) : Prop :=
  map_Forall (λ _, wf) m ∧ Z.of_nat (size m) ≤ U64_MAX.

Class RequestWireLaws `{RequestWireLib} : Prop := {
  btree_codec_ok K V `{!KeyType K} (c : codec K) (d : codec V) wf ::
    CodecOk c any → CodecOk d wf → CodecOk (btree_codec c d) (map_wf wf);
  Note_codec_ok :: CodecOk Note_codec any;
  PartialNote_codec_ok :: CodecOk PartialNote_codec any;
  PartialAccount_codec_ok :: CodecOk PartialAccount_codec any;
  StorageSlotName_codec_ok :: CodecOk StorageSlotName_codec any;
  StorageMapKey_codec_ok :: CodecOk StorageMapKey_codec any;
  AdviceMap_codec_ok :: CodecOk AdviceMap_codec any;
  MerkleStore_codec_ok :: CodecOk MerkleStore_codec any;
  request_TransactionScript_ok :: CodecOk TransactionScript_codec any;
  request_NoteScript_ok :: CodecOk NoteScript_codec any
}.

Section codec.
Context `{RequestWireLib}.

Definition AccountStorageRequirements_codec : codec AccountStorageRequirements :=
  btree_codec StorageSlotName_codec (vec_codec StorageMapKey_codec).

Definition ForeignAccount_codec : codec ForeignAccount := Codec
  (λ self,
    match self with
    | ForeignAccount_Public account_id storage_requirements =>
        write_u8 0 ++ write_into AccountId_codec account_id ++
        write_into AccountStorageRequirements_codec storage_requirements
    | ForeignAccount_Private partial_account =>
        write_u8 1 ++ write_into PartialAccount_codec partial_account
    end)
  (account_type <~ read_u8 ;;
   if account_type =? 0 then
     account_id <~ read_from AccountId_codec ;;
     storage_requirements <~ read_from AccountStorageRequirements_codec ;;
     rret (ForeignAccount_Public account_id storage_requirements)
   else if account_type =? 1 then
     foreign_inputs <~ read_from PartialAccount_codec ;;
     rret (ForeignAccount_Private foreign_inputs)
   else rerr (InvalidValue "Invalid account type")).

Definition script_template_codec : codec (option TransactionScriptTemplate) := Codec
  (λ template,
    match template with
    | None => write_u8 0
    | Some (CustomScript script) => write_u8 1 ++ write_into TransactionScript_codec script
    | Some (SendNotes notes) => write_u8 2 ++ write_into (vec_codec PartialNote_codec) notes
    end)
  (tag <~ read_u8 ;;
   if tag =? 0 then rret None
   else if tag =? 1 then
     transaction_script <~ read_from TransactionScript_codec ;;
     rret (Some (CustomScript transaction_script))
   else if tag =? 2 then
     notes <~ read_from (vec_codec PartialNote_codec) ;;
     rret (Some (SendNotes notes))
   else rerr (InvalidValue "Invalid script template type")).

(** The first account of an identifier is kept. *)
Definition collect_foreign_accounts (accounts : list ForeignAccount) : gmap AccountId ForeignAccount :=
  foldl (λ foreign_accounts foreign_account,
    btree_or_insert (ForeignAccount_account_id foreign_account) foreign_account foreign_accounts) ∅ accounts.

Definition TransactionRequest_codec : codec TransactionRequest := Codec
  (λ self,
    write_into (vec_codec Note_codec) (tr_input_notes self) ++
    write_into (vec_codec (pair_codec NoteId_codec (option_codec Word_codec))) (tr_input_notes_args self) ++
    write_into script_template_codec (tr_script_template self) ++
    write_into (btree_codec Word_codec NoteRecipient_codec) (tr_expected_output_recipients self) ++
    write_into (btree_codec NoteId_codec (pair_codec NoteDetails_codec NoteTag_codec))
      (tr_expected_future_notes self) ++
    write_into AdviceMap_codec (tr_advice_map self) ++
    write_into MerkleStore_codec (tr_merkle_store self) ++
    write_into (vec_codec ForeignAccount_codec) (btree_values (tr_foreign_accounts self)) ++
    write_into (option_codec u16_codec) (tr_expiration_delta self) ++
    write_u8 (if tr_ignore_invalid_input_notes self then 1 else 0) ++
    write_into (option_codec Word_codec) (tr_script_arg self) ++
    write_into (option_codec Word_codec) (tr_auth_arg self) ++
    write_into (vec_codec NoteScript_codec) (tr_expected_ntx_scripts self))
  (input_notes <~ read_from (vec_codec Note_codec) ;;
   input_notes_args <~ read_from (vec_codec (pair_codec NoteId_codec (option_codec Word_codec))) ;;
   script_template <~ read_from script_template_codec ;;
   expected_output_recipients <~ read_from (btree_codec Word_codec NoteRecipient_codec) ;;
   expected_future_notes <~ read_from (btree_codec NoteId_codec (pair_codec NoteDetails_codec NoteTag_codec)) ;;
   advice_map <~ read_from AdviceMap_codec ;;
   merkle_store <~ read_from MerkleStore_codec ;;
   foreign_accounts <~ read_from (vec_codec ForeignAccount_codec) ;;
   expiration_delta <~ read_from (option_codec u16_codec) ;;
   ignore_invalid_input_notes <~ read_u8 ;;
   script_arg <~ read_from (option_codec Word_codec) ;;
   auth_arg <~ read_from (option_codec Word_codec) ;;
   expected_ntx_scripts <~ read_from (vec_codec NoteScript_codec) ;;
   rret {| tr_input_notes := input_notes;
           tr_input_notes_args := input_notes_args;
           tr_script_template := script_template;
           tr_expected_output_recipients := expected_output_recipients;
           tr_expected_future_notes := expected_future_notes;
           tr_advice_map := advice_map;
           tr_merkle_store := merkle_store;
           tr_foreign_accounts := collect_foreign_accounts foreign_accounts;
           tr_expiration_delta := expiration_delta;
           tr_ignore_invalid_input_notes := ignore_invalid_input_notes =? 1;
           tr_script_arg := script_arg;
           tr_auth_arg := auth_arg;
           tr_expected_ntx_scripts := expected_ntx_scripts |}).
End codec.

(** ** Round trips *)

Section roundtrip.
Context `{RequestWireLaws} `{!SerdeLaws} `{!ProtocolLaws}.

(** The lengths of the collections, which are those of values in memory, and the [u16]. *)
Definition requirements_fit (r : AccountStorageRequirements) : Prop := map_wf (vec_wf any) r.

Definition ForeignAccount_fits (a : ForeignAccount) : Prop :=
  match a with ForeignAccount_Public _ r => requirements_fit r | ForeignAccount_Private _ => True end.

Definition template_fits (t : option TransactionScriptTemplate) : Prop :=
  match t with Some (SendNotes notes) => vec_wf any notes | _ => True end.

Record request_fits (r : TransactionRequest) : Prop := {
  rf_notes : vec_wf any (tr_input_notes r);
  rf_args : vec_wf any (tr_input_notes_args r);
  rf_template : template_fits (tr_script_template r);
  rf_recipients : map_wf any (tr_expected_output_recipients r);
  rf_future : map_wf any (tr_expected_future_notes r);
  rf_foreign : map_wf ForeignAccount_fits (tr_foreign_accounts r);
  rf_delta : opt_wf (in_range U16_MAX) (tr_expiration_delta r);
  rf_scripts : vec_wf any (tr_expected_ntx_scripts r)
}.

(** The foreign accounts are stored under their identifiers. *)
Definition foreign_keyed (m : gmap AccountId ForeignAccount) : Prop :=
  map_Forall (λ id a, ForeignAccount_account_id a = id) m.

#[export] Instance requirements_codec_ok : CodecOk AccountStorageRequirements_codec requirements_fit.
Proof. apply btree_codec_ok; apply _. Qed.

#[export] Instance ForeignAccount_codec_ok : CodecOk ForeignAccount_codec ForeignAccount_fits.
Proof. intros [id r|a] rest Ha; simpl in *; roundtrip. Qed.

#[export] Instance script_template_codec_ok : CodecOk script_template_codec template_fits.
Proof. intros [[s|notes]|] rest Ht; simpl in *; roundtrip. Qed.

(** *** The foreign accounts *)

Lemma collect_keyed_from (l : list (AccountId * ForeignAccount)) : ∀ acc,
  NoDup l.*1 → Forall (λ p, ForeignAccount_account_id p.2 = p.1) l →
  Forall (λ p, acc !! p.1 = None) l →
  foldl (λ m a, btree_or_insert (ForeignAccount_account_id a) a m) acc l.*2 = list_to_map l ∪ acc.
Proof.
  induction l as [|[id a] l IH]; intros acc Hnd Hkeys Hfresh; cbn; [by rewrite (left_id_L ∅ (∪))|].
  apply NoDup_cons in Hnd as [Hid Hnd]. apply Forall_cons in Hkeys as [Hkey Hkeys]. cbn in Hkey.
  apply Forall_cons in Hfresh as [Hacc Hfresh]. cbn in Hacc.
  assert (btree_or_insert (ForeignAccount_account_id a) a acc = <[id := a]> acc) as ->.
  { unfold btree_or_insert. by rewrite Hkey, Hacc. }
  rewrite IH; [|done|done|].
  - rewrite <-insert_union_l, <-insert_union_r; [done|]. by apply not_elem_of_list_to_map_1.
  - apply Forall_forall. intros [id' a'] Hin. pose proof (proj1 (Forall_forall _ _) Hfresh _ Hin) as Hf.
    cbn in *. rewrite lookup_insert_ne; [done|]. intros ->. apply Hid. by apply (list_elem_of_fmap_2 fst _ (id', a')).
Qed.

Lemma collect_foreign_values m : foreign_keyed m → collect_foreign_accounts (btree_values m) = m.
Proof.
  intros Hm. unfold collect_foreign_accounts, btree_values. rewrite collect_keyed_from.
  - rewrite (right_id_L ∅ (∪)). rewrite (list_to_map_proper _ (map_to_list m)).
    + apply list_to_map_to_list.
    + apply NoDup_btree_keys.
    + apply btree_to_list_perm.
  - apply NoDup_btree_keys.
  - apply Forall_forall. intros [id a] Hin%elem_of_btree_to_list. by apply (Hm id).
  - apply Forall_forall. intros [id a] _. apply lookup_empty.
Qed.

Lemma collect_foreign_keyed accounts : foreign_keyed (collect_foreign_accounts accounts).
Proof.
  unfold collect_foreign_accounts. assert (foreign_keyed ∅) as H0' by apply map_Forall_empty.
  revert H0'. generalize (∅ : gmap AccountId ForeignAccount).
  induction accounts as [|a accounts IH]; intros m Hm; [done|]. apply IH. unfold btree_or_insert.
  destruct (m !! _) eqn:E; [done|]. by apply map_Forall_insert_2.
Qed.

(** A request comes back when its foreign accounts are under their identifiers. *)
Lemma request_codec_ok :
  CodecOk TransactionRequest_codec (λ r, request_fits r ∧ foreign_keyed (tr_foreign_accounts r)).
Proof.
  intros r rest [[] Hkeyed]. unfold TransactionRequest_codec. cbn [write_into read_from].
  assert (vec_wf (λ p : NoteId * option Word, any p.1 ∧ opt_wf any p.2) (tr_input_notes_args r)) as Hargs.
  { split; [|apply rf_args0]. apply Forall_true. intros [? o]. split; [exact I|apply opt_any]. }
  assert (map_wf (λ p : NoteDetails * NoteTag, any p.1 ∧ any p.2) (tr_expected_future_notes r)) as Hfuture.
  { split; [|apply rf_future0]. intros ? ? _. by split. }
  assert (vec_wf ForeignAccount_fits (btree_values (tr_foreign_accounts r))) as Hforeign.
  { destruct rf_foreign0 as [Hall Hsize]. split.
    - apply Forall_forall. intros a (id & Ha)%elem_of_btree_values. by apply (Hall id).
    - unfold btree_values. by rewrite length_fmap, length_btree_to_list. }
  repeat rewrite <-app_assoc.
  rewrite (rbind_codec _ _) by eassumption. rewrite (rbind_codec _ _) by eassumption.
  rewrite (rbind_codec _ _) by eassumption. rewrite (rbind_codec _ _) by eassumption.
  rewrite (rbind_codec _ _) by eassumption. rewrite (rbind_codec _ any) by done.
  rewrite (rbind_codec _ any) by done. rewrite (rbind_codec _ _) by eassumption.
  rewrite (rbind_codec _ _) by eassumption. cbn [app write_u8]. rewrite rbind_u8.
  rewrite (rbind_codec _ (opt_wf any)) by apply opt_any. rewrite (rbind_codec _ (opt_wf any)) by apply opt_any.
  rewrite (rbind_codec _ _) by eassumption. unfold rret. rewrite collect_foreign_values by done.
  do 2 f_equal. by destruct r as [? ? ? ? ? ? ? ? ? []].
Qed.

(** *** The requests of the builder *)

(** Every call on a builder, the one that replaces the recipients too. *)
Inductive builder_call : TransactionRequestBuilder → TransactionRequestBuilder → Prop :=
| bc_step b b' : builder_step b b' → builder_call b b'
| bc_recipients b recipients : builder_call b (b_with_expected_output_recipients b recipients).

Lemma insert_foreign_keyed accounts : ∀ m, foreign_keyed m →
  foreign_keyed (foldl (λ m account, <[ForeignAccount_account_id account := account]> m) m accounts).
Proof.
  induction accounts as [|a accounts IH]; intros m Hm; [done|]. apply IH. by apply map_Forall_insert_2.
Qed.

Lemma builder_foreign_keyed b b' :
  rtc builder_call b b' → foreign_keyed (b_foreign_accounts b) → foreign_keyed (b_foreign_accounts b').
Proof.
  induction 1 as [|b1 b2 b3 Hcall _ IH]; [done|]. intros Hb. apply IH.
  destruct Hcall as [? ? []|]; cbn; try done. by apply insert_foreign_keyed.
Qed.

(** C39: A request of the builder survives its encoding.  Whatever calls the builder got,
    the request it builds is read back whole from its bytes, with its notes and their
    arguments, its script, the expected notes, the foreign accounts and their storage
    requirements, and nothing after it is consumed; and whatever is read from bytes has its
    foreign accounts under their own identifiers. *)
Theorem built_request_roundtrip b request rest :
  rtc builder_call TransactionRequestBuilder_new b → build b = Ok request → request_fits request →
  read_from TransactionRequest_codec (write_into TransactionRequest_codec request ++ rest) = Ok (request, rest) ∧
  (∀ src request' rest', read_from TransactionRequest_codec src = Ok (request', rest') →
    foreign_keyed (tr_foreign_accounts request')).
Proof.
  intros Hb Hbuild Hfits. split.
  - apply request_codec_ok. split; [done|]. apply build_ok in Hbuild as (_ & t & _ & ->). cbn.
    apply (builder_foreign_keyed _ _ Hb). apply map_Forall_empty.
  - intros src r' rest' Hread. cbn [read_from TransactionRequest_codec] in Hread. unfold rbind in Hread.
    repeat match type of Hread with
    | match ?m with Ok _ => _ | Err _ => _ end = _ => destruct m as [[? ?]|]; [|discriminate Hread]
    end.
    injection Hread as <- _. apply collect_foreign_keyed.
Qed.
End roundtrip.

(** ** A concrete request *)

Definition toy_btree_codec {K V} `{!KeyType K} (c : codec K) (d : codec V) : codec (gmap K V) :=
  iso_codec (le_vec_codec (le_pair_codec c d)) list_to_map btree_to_list.

Definition toy_partial_codec : codec (@PartialAccount toy_protocol toy_account_lib) :=
  let slot_codec := le_pair_codec (le_pair_codec cell_codec bool_codec) cell_codec in
  iso_codec
    (le_pair_codec (le_pair_codec (le_pair_codec cell_codec cell_codec) (le_pair_codec cell_codec cell_codec))
      (le_pair_codec (le_pair_codec (list_codec slot_codec)
        (list_codec (le_pair_codec cell_codec (list_codec (le_pair_codec cell_codec cell_codec)))))
        (le_option_codec cell_codec)))
    (λ p : ((Z * Z) * (Z * Z)) * ((list ((Z * bool) * Z) * list (Z * list (Z * Z))) * option Z),
      {| partial_id := (p.1.1.1 : @AccountId toy_protocol); partial_nonce := p.1.1.2;
         partial_code := (p.1.2.1 : @AccountCode toy_protocol toy_account_lib);
         partial_storage_header := (λ s, (s.1.1, if s.1.2 : bool then SlotType_Map else SlotType_Value, s.2)) <$> p.2.1.1;
         partial_maps := p.2.1.2; partial_vault := p.1.2.2; partial_seed := p.2.2 |})
    (λ a, ((((partial_id a : Z), partial_nonce a), ((partial_code a : Z), (partial_vault a : Z))),
      (((λ s, (s.1.1, match s.1.2 with SlotType_Map => true | SlotType_Value => false end, s.2)) <$>
        (partial_storage_header a : list (Z * StorageSlotType * Z)), (partial_maps a : list (Z * list (Z * Z)))),
       (partial_seed a : option Z)))).

Definition toy_note_codec : codec (toy_assets * toy_metadata * Z) :=
  le_pair_codec (le_pair_codec toy_assets_codec
    (le_pair_codec (le_pair_codec cell_codec bool_codec) cell_codec)) cell_codec.

#[export] Instance toy_request_wire : @RequestWireLib _ _ _ _ toy_store_lib toy_request_lib := {|
  btree_codec := @toy_btree_codec;
  Note_codec := toy_note_codec;
  PartialNote_codec := toy_note_codec;
  PartialAccount_codec := toy_partial_codec;
  StorageSlotName_codec := cell_codec;
  StorageMapKey_codec := cell_codec;
  AdviceMap_codec := list_codec (le_pair_codec cell_codec (list_codec cell_codec));
  MerkleStore_codec := list_codec cell_codec
|}.

Lemma toy_btree_codec_ok {K V} `{!KeyType K} (c : codec K) (d : codec V) wf :
  CodecOk c any → CodecOk d wf → CodecOk (toy_btree_codec c d) (map_wf wf).
Proof.
  intros Hc Hd. eapply (iso_codec_ok _ _ _ (vec_wf (λ p, any p.1 ∧ wf p.2))).
  - intros m. rewrite (list_to_map_proper _ (map_to_list m)); [apply list_to_map_to_list|..].
    + apply NoDup_btree_keys.
    + apply btree_to_list_perm.
  - intros m [Hm Hsize]. split; [|by rewrite length_btree_to_list].
    apply Forall_forall. intros [k v] Hin%elem_of_btree_to_list. split; [exact I|by apply (Hm k)].
  - by apply le_vec_codec_ok, le_pair_codec_ok.
Qed.

#[local] Hint Resolve cell_codec_ok bool_codec_ok list_codec_ok pair_any_ok toy_assets_codec_ok : codecs.

Lemma toy_option_ok {A} (c : codec A) : CodecOk c any → CodecOk (le_option_codec c) any.
Proof. intros Hc. eapply CodecOk_weaken; [|by apply le_option_codec_ok]. intros o _. apply opt_any. Qed.

Lemma toy_note_codec_ok : CodecOk toy_note_codec any.
Proof. unfold toy_note_codec. eauto 8 with codecs. Qed.

Lemma toy_partial_codec_ok : CodecOk toy_partial_codec any.
Proof.
  eapply (iso_codec_ok _ _ _ any); [|done|].
  - intros [id nonce code header maps vault seed]. cbn. f_equal. rewrite <-list_fmap_compose.
    rewrite <-(list_fmap_id header) at 2. apply list_fmap_ext. by intros ? [[n []] w].
  - repeat first [apply cell_codec_ok | apply bool_codec_ok | apply toy_option_ok | apply list_codec_ok | apply pair_any_ok].
Qed.

#[export] Instance toy_request_wire_laws : RequestWireLaws.
Proof.
  split; cbn; intros; try apply cell_codec_ok; try apply toy_note_codec_ok;
    [by apply toy_btree_codec_ok|apply toy_partial_codec_ok|eauto 6 with codecs..].
Qed.

(** A request with an own note, a future one, a foreign account with its storage
    requirements, and a time limit. *)
Definition toy_full_builder : TransactionRequestBuilder :=
  expiration_delta
    (foreign_accounts
      (b_with_expected_output_recipients (toy_payment 80) [Note_recipient (toy_paying 9 2 80)])
      [ForeignAccount_Public (toy_account 6) {[ 3 := [1; 2] ]}]) 12.

Lemma built_request_roundtrip_witness : ∃ request,
  build toy_full_builder = Ok request ∧
  read_from TransactionRequest_codec (write_into TransactionRequest_codec request ++ [7]) = Ok (request, [7]).
Proof.
  eexists. split; [reflexivity|].
  refine (proj1 (built_request_roundtrip toy_full_builder _ [7] _ eq_refl _)).
  - eapply rtc_l; [apply bc_step, bs_input_notes|]. eapply rtc_l; [apply bc_step, bs_own_output_notes|].
    eapply rtc_l; [apply bc_recipients|]. eapply rtc_l; [apply bc_step, bs_foreign_accounts|].
    apply rtc_once, bc_step, bs_expiration_delta.
  - split.
    1-3: by apply vec_any.
    + split; [by intros ? ? _|apply Z.leb_le; vm_compute; reflexivity].
    + split; [by intros ? ? _|apply Z.leb_le; vm_compute; reflexivity].
    + split; [|apply Z.leb_le; vm_compute; reflexivity].
      intros id a Ha. cbn in Ha. apply lookup_insert_Some in Ha as [[_ <-]|[_ Ha]]; [|by rewrite lookup_empty in Ha].
      split; [|apply Z.leb_le; vm_compute; reflexivity].
      intros slot keys Hkeys.
      change (({[3 := [1; 2]]} : gmap Z (list Z)) !! (slot : Z) = Some keys) in Hkeys. apply lookup_singleton_Some in Hkeys as [_ <-]. by apply vec_any.
    + by split.
    + by apply vec_any.
Defined.
