(* ===== verification/ClientNotes.v ===== *)
(** * The notes of the client

    The methods of [note/mod.rs], which read notes from the store and screen them, and the
    reader of [note/note_reader.rs], which goes through the consumed notes of an account
    with one query for each of them. *)

From S2P Require Import Prelude Protocol Serde Model NoteStates InputNote OutputNote TxRecord.
From S2P Require Import TxTracker Errors NoteTracker Rpc Grpc SyncUpdate StateSync AccountTypes.
From S2P Require Import SmtForest Sql Db AccountDb NoteDb NoteSpec Store TxDb SqliteStore SqliteSync StoreContract.
From S2P Require Import Client NoteImport ClientSync.
From Stdlib Require Import ZArith Lia.
From stdpp Require Import base gmap list strings sorting.

Open Scope Z_scope.

Class NoteIdText `{Protocol} := NoteId_to_hex : NoteId → string.

Class NoteReaderOps `{StoreLib} (S : Type) :=
  store_get_input_note_by_offset : NoteFilter → AccountId → option BlockNumber → option BlockNumber →
    u32 → dbm StoreError S (option InputNoteRecord).

#[export] Instance sqlite_note_reader `{StoreLib} `{!SmtForestLib} : NoteReaderOps StoreState :=
  λ filter consumer block_start block_end offset,
    on_tables (sqlite_get_input_note_by_offset filter consumer block_start block_end offset).

(** ** The reader *)

Section reader.
Context `{StoreLib} {St : Type} `{!NoteReaderOps St}.

Record InputNoteReader := {
  rdr_consumer : AccountId;
  rdr_block_range : option (BlockNumber * BlockNumber);
  rdr_offset : u32
}.

Definition InputNoteReader_new (consumer : AccountId) : InputNoteReader :=
  {| rdr_consumer := consumer; rdr_block_range := None; rdr_offset := 0 |}.
Definition in_block_range (self : InputNoteReader) (from to : BlockNumber) : InputNoteReader :=
  {| rdr_consumer := rdr_consumer self; rdr_block_range := Some (from, to); rdr_offset := rdr_offset self |}.
Definition set_offset (offset : u32) (self : InputNoteReader) : InputNoteReader :=
  {| rdr_consumer := rdr_consumer self; rdr_block_range := rdr_block_range self; rdr_offset := offset |}.
Definition reset (self : InputNoteReader) : InputNoteReader := set_offset 0 self.

(** The reader is changed in place; its offset is a [u32]. *)
Definition next (self : InputNoteReader) : dbm StoreError St (InputNoteReader * option InputNoteRecord) :=
  let '(block_start, block_end) :=
    match rdr_block_range self with
    | Some (from, to) => (Some from, Some to)
    | None => (None, None)
    end in
  note ← store_get_input_note_by_offset NoteFilter_Consumed (rdr_consumer self) block_start block_end
    (rdr_offset self);
  match note with
  | Some note =>
      match checked_add U32_MAX (rdr_offset self) 1 with
      | Some offset => mret (set_offset offset self, Some note)
      | None => db_panic
      end
  | None => mret (self, None)
  end.

(** [while let Some(note) = reader.next().await?], as the reader is meant to be used. *)
Fixpoint read_notes (fuel : nat) (self : InputNoteReader) :
    dbm StoreError St (InputNoteReader * list InputNoteRecord) :=
  match fuel with
  | O => λ _, OutOfFuel
  | S fuel =>
      '(self, note) ← next self;
      match note with
      | None => mret (self, [])
      | Some note => '(self, notes) ← read_notes fuel self; mret (self, note :: notes)
      end
  end.
End reader.

(** ** The methods of the client *)

Section notes.
Context `{StoreLib} `{!NoteChecker} `{!NoteIdText} {St : Type} `{!StoreOps St}.
(** The screener reads the store. *)
Context (screener_store : St → ScreenerStore).

Definition client_get_input_notes (filter : NoteFilter) : client_m St (list InputNoteRecord) :=
  on_store (get_input_notes filter).
Definition client_get_output_notes (filter : NoteFilter) : client_m St (list OutputNoteRecord) :=
  on_store (get_output_notes filter).

(** The list that comes back is popped from the end. *)
Definition get_input_note (note_id : NoteId) : client_m St (option InputNoteRecord) :=
  notes ← on_store (get_input_notes (NoteFilter_Unique note_id)); mret (last notes).
Definition get_output_note (note_id : NoteId) : client_m St (option OutputNoteRecord) :=
  notes ← on_store (get_output_notes (NoteFilter_Unique note_id)); mret (last notes).

Definition NoteConsumability : Type := AccountId * NoteConsumptionStatus.

(** The loop over the committed notes; the relevances of a note are taken out of the map. *)
Definition consumable_note (account_id : option AccountId)
    (acc : gmap NoteId (list NoteConsumability) * list (InputNoteRecord * list NoteConsumability))
    (input_note : InputNoteRecord) :
    gmap NoteId (list NoteConsumability) * list (InputNoteRecord * list NoteConsumability) :=
  let '(note_relevances, relevant_notes) := acc in
  let note_id := InputNoteRecord_id input_note in
  match note_relevances !! note_id with
  | None => (note_relevances, relevant_notes)
  | Some account_relevance =>
      let account_relevance :=
        match account_id with
        | Some account_id => filter (λ c : NoteConsumability, c.1 = account_id) account_relevance
        | None => account_relevance
        end in
      (delete note_id note_relevances,
       if bool_decide (account_relevance = []) then relevant_notes
       else relevant_notes ++ [(input_note, account_relevance)])
  end.

Definition get_consumable_notes (account_id : option AccountId) :
    client_m St (list (InputNoteRecord * list NoteConsumability)) :=
  committed_notes ← on_store (get_input_notes NoteFilter_Committed);
  notes ← client_try (note_error (try_map InputNoteRecord_try_into_note committed_notes));
  store ← db_read (λ c, Ok (cl_store c));
  note_relevances ← client_try (@can_consume_batch _ _ _ _ _ (screener_store store) _ notes);
  mret (foldl (consumable_note account_id) (note_relevances, []) committed_notes).2.

Definition get_note_consumability (note : InputNoteRecord) : client_m St (list NoteConsumability) :=
  note ← client_try (note_error (InputNoteRecord_try_into_note note));
  store ← db_read (λ c, Ok (cl_store c));
  client_try (@can_consume _ _ _ _ _ (screener_store store) _ note).

(** *** Notes by a prefix of their identifier *)

Inductive IdPrefixFetchError :=
| NoMatch (what : string)
| MultipleMatches (what : string).

(** Every error of the store becomes [NoMatch]. *)
Definition get_input_note_with_id_prefix (note_id_prefix : string) :
    dbm IdPrefixFetchError (ClientState St) InputNoteRecord := λ c,
  match client_get_input_notes NoteFilter_All c with
  | Finished (c, Err _) => Finished (c, Err (NoMatch ("note ID prefix " +:+ note_id_prefix)))
  | Finished (c, Ok notes) =>
      let input_note_records := filter (λ note_record,
        String.prefix note_id_prefix (NoteId_to_hex (InputNoteRecord_id note_record)) = true) notes in
      Finished (c,
        match input_note_records with
        | [] => Err (NoMatch ("note ID prefix " +:+ note_id_prefix))
        | [note] => Ok note
        | _ => Err (MultipleMatches ("note ID prefix " +:+ note_id_prefix))
        end)
  | Panicked => Panicked
  | OutOfFuel => OutOfFuel
  end.
End notes.

(** ** What the methods return *)

(** The notes of an account in a range of blocks come one at a time, in the order of their
    execution. *)
Class NoteReaderContract `{StoreContract} `{!NoteReaderOps St} : Prop :=
  nrc_by_offset d s consumer block_start block_end : holds d s →
    ∃ notes,
      Permutation notes (snd <$> base.filter
        (λ ir, consumed_in NoteFilter_Consumed consumer block_start block_end ir.2 = true)
        (map_to_list (cd_notes d))) ∧
      StronglySorted (order_le (KeyType0 := execution_order_key) record_order) notes ∧
      ∀ offset, 0 ≤ offset →
        store_get_input_note_by_offset NoteFilter_Consumed consumer block_start block_end offset s =
          Finished (s, Ok (notes !! Z.to_nat offset)).

Section reader_facts.
Context `{StoreContract} `{!NoteReaderOps St} `{!NoteReaderContract}.

(** The bounds of a reader. *)
Definition rdr_start (self : InputNoteReader) : option BlockNumber := fst <$> rdr_block_range self.
Definition rdr_end (self : InputNoteReader) : option BlockNumber := snd <$> rdr_block_range self.

Lemma next_lookup self s notes :
  (∀ offset, 0 ≤ offset →
    store_get_input_note_by_offset NoteFilter_Consumed (rdr_consumer self) (rdr_start self) (rdr_end self)
      offset s = Finished (s, Ok (notes !! Z.to_nat offset))) →
  0 ≤ rdr_offset self → Z.of_nat (length notes) ≤ U32_MAX →
  next self s = Finished (s, Ok (match notes !! Z.to_nat (rdr_offset self) with
    | Some note => (set_offset (rdr_offset self + 1) self, Some note)
    | None => (self, None)
    end)).
Proof.
  intros Hnotes Hoffset Hlen. unfold next. specialize (Hnotes _ Hoffset).
  destruct self as [consumer [[from to]|] offset]; cbn in *; unfold mbind, dbm_bind; rewrite Hnotes;
    (destruct (notes !! _) eqn:E; [|done]); apply lookup_lt_Some in E;
    unfold checked_add; rewrite (proj2 (Z.leb_le _ _)) by lia; done.
Qed.

Lemma read_notes_rest self s notes fuel :
  (∀ offset, 0 ≤ offset →
    store_get_input_note_by_offset NoteFilter_Consumed (rdr_consumer self) (rdr_start self) (rdr_end self)
      offset s = Finished (s, Ok (notes !! Z.to_nat offset))) →
  Z.of_nat (length notes) ≤ U32_MAX →
  ∀ k, (k ≤ length notes)%nat → (length notes < k + fuel)%nat →
  read_notes fuel (set_offset (Z.of_nat k) self) s =
    Finished (s, Ok (set_offset (Z.of_nat (length notes)) self, drop k notes)).
Proof.
  intros Hnotes Hlen. induction fuel as [|fuel IH]; intros k Hk Hfuel; [lia|]. cbn [read_notes].
  unfold mbind, dbm_bind at 1. rewrite (next_lookup (set_offset (Z.of_nat k) self) s notes Hnotes); [|cbn; lia|done].
  cbn [set_offset rdr_offset]. rewrite Nat2Z.id. destruct (notes !! k) as [note|] eqn:E.
  - apply lookup_lt_Some in E as Hlt.
    replace (set_offset _ _) with (set_offset (Z.of_nat (S k)) self)
      by (unfold set_offset; cbn; f_equal; lia).
    unfold mbind, dbm_bind. rewrite IH by lia. by rewrite (drop_S _ _ _ E).
  - apply lookup_ge_None in E. assert (k = length notes) as -> by lia. by rewrite drop_all.
Qed.

(** C14: A reader gives every consumed note of its account exactly once.  Reading until
    there is no more ends after as many queries as there are notes and one, and gives
    the notes that the account consumed in the range of blocks, in the order of their
    execution; the store is as before, the reader stays at its end, and a reset brings
    it back to the beginning. *)
Theorem reader_enumerates d s self fuel :
  holds d s → rdr_offset self = 0 →
  let matching := snd <$> base.filter (λ ir,
    consumed_in NoteFilter_Consumed (rdr_consumer self) (rdr_start self) (rdr_end self) ir.2 = true)
    (map_to_list (cd_notes d)) in
  Z.of_nat (length matching) ≤ U32_MAX → (length matching < fuel)%nat →
  ∃ self' notes, read_notes fuel self s = Finished (s, Ok (self', notes)) ∧
    Permutation notes matching ∧
    StronglySorted (order_le (KeyType0 := execution_order_key) record_order) notes ∧
    next self' s = Finished (s, Ok (self', None)) ∧ reset self' = self.
Proof.
  intros Hd Hself matching Hlen Hfuel.
  destruct (nrc_by_offset d s (rdr_consumer self) (rdr_start self) (rdr_end self) Hd) as (notes & Hp & Hs & Hrun).
  fold matching in Hp. apply Permutation_length in Hp as Hl. rewrite <-Hl in Hlen, Hfuel.
  exists (set_offset (Z.of_nat (length notes)) self), notes. split_and!; [|done|done|..].
  - replace self with (set_offset (Z.of_nat 0) self) at 1 by (destruct self; cbn in *; by subst).
    by rewrite (read_notes_rest self s notes fuel Hrun Hlen 0) by lia.
  - rewrite (next_lookup (set_offset (Z.of_nat (length notes)) self) s notes Hrun) by (cbn; lia). cbn [set_offset rdr_offset].
    by rewrite Nat2Z.id, lookup_ge_None_2.
  - destruct self; cbn in *; by subst.
Qed.
End reader_facts.

Section sqlite.
Context `{StoreLaws} `{!ProtocolLaws} `{!SerdeLaws} `{!AccountLaws}.
Context `{Forest : !SmtForestLib} `{!AccountReaders.PartialAccountLib} `{!ExecutedLib}.

#[export] Instance sqlite_note_reader_contract : NoteReaderContract (St := StoreState).
Proof.
  intros d s consumer block_start block_end Hd.
  destruct (notes_by_offset_enumerate _ _ NoteFilter_Consumed consumer block_start block_end
    (ds_notes _ _ Hd)) as (notes & Hp & Hs & Hrun).
  exists notes. split_and!; [done|done|]. intros offset Hoffset.
  unfold store_get_input_note_by_offset, sqlite_note_reader, on_tables, zoom. rewrite Hrun by done.
  by rewrite set_db_same.
Qed.
End sqlite.

Section consumable_facts.
Context `{StoreContract} `{!ProtocolLaws} `{!NoteChecker}.
Context (screener_store : St → ScreenerStore).

(** What a batch finds for a note: the accounts that may consume it. *)
Definition screened (scr : ScreenerStore) (accounts : list AccountId) (notes : list Note) (id : NoteId)
    (c : AccountId * NoteConsumptionStatus) : Prop :=
  c.1 ∈ accounts ∧ ∃ h note, scr_sync_height = Ok h ∧ note ∈ notes ∧ Note_id note = id ∧
    check_can_consume c.1 h note = Ok c.2 ∧ is_relevant c.2 = true.

Lemma check_notes_exact account h notes : ∀ m m' id c,
  try_fold (check_note account h) notes m = Ok m' →
  c ∈ default [] (m' !! id) ↔ c ∈ default [] (m !! id) ∨ ∃ note, note ∈ notes ∧ Note_id note = id ∧
    c.1 = account ∧ check_can_consume account h note = Ok c.2 ∧ is_relevant c.2 = true.
Proof.
  induction notes as [|note notes IH]; intros m m' id c Hrun; cbn [try_fold] in Hrun.
  { injection Hrun as <-. split; [by left|]. by intros [|(? & []%not_elem_of_nil & _)]. }
  apply bind_Ok in Hrun as (m1 & Hstep & Hrun). rewrite (IH _ _ _ _ Hrun). unfold check_note in Hstep.
  apply bind_Ok in Hstep as (status & Hstatus & Hm1). injection Hm1 as <-.
  unfold screener_error in Hstatus. destruct (check_can_consume account h note) as [st|] eqn:Ec; [|done].
  injection Hstatus as ->.
  assert (c ∈ default [] ((if is_relevant status
      then <[Note_id note := default [] (m !! Note_id note) ++ [(account, status)]]> m else m) !! id) ↔
    c ∈ default [] (m !! id) ∨ (Note_id note = id ∧ c = (account, status) ∧ is_relevant status = true)) as ->.
  { destruct (is_relevant status); [|split; [by left|by intros [?|(_ & _ & [=])]]]. destruct (decide (Note_id note = id)) as [<-|Hid].
    - rewrite lookup_insert_eq. cbn. rewrite elem_of_app, list_elem_of_singleton.
      split; [intros [?|?]; [by left|by right]|intros [?|(_ & ? & _)]; [by left|by right]].
    - rewrite lookup_insert_ne by done. split; [by left|by intros [?|(? & _)]]. }
  destruct c as [a st]. cbn. split.
  - intros [[?|(Hid & [= -> ->] & Hr)]|(n & Hn & Hrest)]; [by left|right; exists note|right; exists n].
    + split; [by left|]. by split_and!.
    + split; [by right|done].
  - intros [?|(n & [->|Hn]%elem_of_cons & Hid & -> & Hc & Hr)]; [by do 2 left|left; right|right; by exists n].
    rewrite Ec in Hc. injection Hc as ->. by split_and!.
Qed.

Lemma batch_exact (scr : ScreenerStore) notes m accounts :
  can_consume_batch notes = Ok m → scr_account_ids = Ok accounts →
  ∀ id c, c ∈ default [] (m !! id) ↔ screened scr accounts notes id c.
Proof.
  intros Hrun Haccounts id c. unfold can_consume_batch in Hrun. rewrite Haccounts in Hrun. cbn [screener_error map_err] in Hrun.
  cbn [mbind result_bind] in Hrun. destruct (bool_decide (notes = [])) eqn:En; cbn [orb] in Hrun.
  { injection Hrun as <-. apply bool_decide_eq_true in En as ->. rewrite lookup_empty. split; [by intros ?%not_elem_of_nil|].
    by intros (_ & h & note & _ & ?%not_elem_of_nil & _). }
  destruct (bool_decide (accounts = [])) eqn:Ea.
  { injection Hrun as <-. apply bool_decide_eq_true in Ea as ->. rewrite lookup_empty. split; [by intros ?%not_elem_of_nil|].
    by intros [?%not_elem_of_nil _]. }
  apply bind_Ok in Hrun as (h & Hh & Hrun). unfold screener_error in Hh.
  destruct scr_sync_height as [h'|] eqn:Esync; [|done]. injection Hh as ->. unfold screened. rewrite Esync.
  clear Haccounts Ea En. transitivity (c ∈ default [] ((∅ : gmap NoteId (list (AccountId * NoteConsumptionStatus))) !! id) ∨
    (c.1 ∈ accounts ∧ ∃ note, note ∈ notes ∧ Note_id note = id ∧ check_can_consume c.1 h note = Ok c.2 ∧
      is_relevant c.2 = true)).
  2:{ rewrite lookup_empty. split.
    - intros [?%not_elem_of_nil|(Hc & n & Hn)]; [done|]. split; [done|]. by exists h, n.
    - intros (Hc & h' & n & [= <-] & Hn). right. split; [done|]. by exists n. }
  revert Hrun. generalize (∅ : gmap NoteId (list (AccountId * NoteConsumptionStatus))).
  induction accounts as [|a accounts IH]; intros m0 Hrun; cbn [try_fold] in Hrun.
  { injection Hrun as <-. split; [by left|]. by intros [|[?%not_elem_of_nil _]]. }
  apply bind_Ok in Hrun as (m1 & Hstep & Hrun). rewrite (IH _ Hrun).
  apply bind_Ok in Hstep as (code & _ & Hstep). apply bind_Ok in Hstep as (code' & _ & Hstep).
  rewrite (check_notes_exact _ _ _ _ _ id c Hstep). rewrite elem_of_cons. destruct c as [a' st]. cbn. split.
  - intros [[?|(n & Hn & Hid & -> & ?)]|[Hin (n & ?)]]; [by left|right..].
    + split; [by left|]. by exists n.
    + split; [by right|]. by exists n.
  - intros [?|[[->|Hin] (n & Hn & Hid & ?)]]; [by do 2 left|left; right|right].
    + by exists n.
    + split; [done|]. by exists n.
Qed.

(** The consumabilities that are kept for an account. *)
Definition kept_for (account_id : option AccountId) (l : list NoteConsumability) :=
  match account_id with
  | Some a => filter (λ c : NoteConsumability, c.1 = a) l
  | None => l
  end.

(** What is left of a committed note. *)
Definition kept_note (account_id : option AccountId)
    (m : gmap NoteId (list NoteConsumability)) (r : InputNoteRecord) :=
  let kept := kept_for account_id (default [] (m !! InputNoteRecord_id r)) in
  if bool_decide (kept = []) then None else Some (r, kept).

Lemma omap_ext_in {A B} (f g : A → option B) (l : list A) : (∀ a, a ∈ l → f a = g a) → omap f l = omap g l.
Proof.
  induction l as [|a l IH]; intros Hl; [done|]. cbn. rewrite Hl by left. rewrite IH; [done|].
  intros a' Ha. apply Hl. by right.
Qed.

Lemma consumables_fold account_id l : ∀ m acc,
  NoDup (InputNoteRecord_id <$> l) →
  (foldl (consumable_note account_id) (m, acc) l).2 = acc ++ omap (kept_note account_id m) l.
Proof.
  induction l as [|r l IH]; intros m acc Hnd; [by rewrite app_nil_r|].
  rewrite fmap_cons in Hnd. apply NoDup_cons in Hnd as [Hr Hnd]. cbn [foldl].
  assert (∀ m' acc', (∀ r', r' ∈ l → m' !! InputNoteRecord_id r' = m !! InputNoteRecord_id r') →
    (foldl (consumable_note account_id) (m', acc') l).2 = acc' ++ omap (kept_note account_id m) l) as Hrest.
  { intros m' acc' Hm. rewrite IH by done. f_equal. apply omap_ext_in. intros r' Hin.
    unfold kept_note. by rewrite Hm. }
  unfold consumable_note at 2. cbn [omap list_omap]. unfold kept_note at 1.
  destruct (m !! InputNoteRecord_id r) as [rel|] eqn:E.
  - rewrite Hrest.
    + cbn. unfold kept_for. destruct account_id as [a|]; (case_bool_decide; [done|by rewrite <-app_assoc]).
    + intros r' Hin. apply lookup_delete_ne. intros Heq. apply Hr. rewrite Heq. by apply list_elem_of_fmap_2.
  - rewrite Hrest by done. destruct account_id; by rewrite bool_decide_true.
Qed.

Lemma elem_of_kept account_id m (l : list InputNoteRecord) r kept :
  (r, kept) ∈ omap (kept_note account_id m) l ↔
  r ∈ l ∧ kept = kept_for account_id (default [] (m !! InputNoteRecord_id r)) ∧ kept ≠ [].
Proof.
  rewrite list_elem_of_omap. unfold kept_note. split.
  - intros (r' & Hr & Hk). cbv zeta in Hk. case_bool_decide; [done|]. by injection Hk as -> <-.
  - intros (Hr & -> & Hne). exists r. split; [done|]. cbv zeta. by rewrite bool_decide_false.
Qed.

Lemma kept_notes_NoDup account_id m (l : list InputNoteRecord) :
  NoDup (InputNoteRecord_id <$> l) → NoDup (InputNoteRecord_id ∘ fst <$> omap (kept_note account_id m) l).
Proof.
  induction l as [|r l IH]; intros Hnd; [constructor|]. rewrite fmap_cons in Hnd. apply NoDup_cons in Hnd as [Hr Hnd].
  cbn [omap list_omap]. destruct (kept_note account_id m r) as [[r' kept]|] eqn:E; [|by apply IH].
  rewrite fmap_cons. constructor; [|by apply IH]. unfold kept_note in E. cbv zeta in E. case_bool_decide; [done|]. injection E as <- _.
  cbn. intros ([r'' kept'] & Heq & (Hin & _)%elem_of_kept)%list_elem_of_fmap. apply Hr. cbn in Heq. rewrite Heq.
  by apply list_elem_of_fmap_2.
Qed.

Lemma elem_of_kept_for account_id a status l :
  (a, status) ∈ kept_for account_id l ↔ (a, status) ∈ l ∧ ∀ a', account_id = Some a' → a = a'.
Proof.
  destruct account_id as [a0|]; cbn; [|naive_solver]. rewrite list_elem_of_filter. cbn. naive_solver.
Qed.

Lemma selected_keyed d filter r :
  (∀ id r, cd_notes d !! id = Some r → InputNoteRecord_id r = id) →
  r ∈ selected_notes filter d ↔ cd_notes d !! InputNoteRecord_id r = Some r ∧ note_matches filter r = true.
Proof.
  intros Hkeyed. unfold selected_notes. rewrite list_elem_of_fmap. split.
  - intros ([id r'] & -> & [Hm Hin%elem_of_map_to_list]%list_elem_of_filter). cbn in *. by rewrite (Hkeyed id r').
  - intros [Hin Hm]. exists (InputNoteRecord_id r, r). split; [done|]. apply list_elem_of_filter.
    split; [done|]. by apply elem_of_map_to_list.
Qed.

Lemma selected_NoDup d filter :
  (∀ id r, cd_notes d !! id = Some r → InputNoteRecord_id r = id) →
  NoDup (InputNoteRecord_id <$> selected_notes filter d).
Proof.
  intros Hkeyed. unfold selected_notes.
  assert (∀ l, (∀ ir, ir ∈ l → cd_notes d !! ir.1 = Some ir.2) → InputNoteRecord_id <$> (snd <$> l) = l.*1) as Hl.
  { induction l as [|[id r] l IH]; intros Hin; [done|]. cbn. f_equal; [by apply (Hkeyed id), (Hin (id, r)); left|].
    apply IH. intros ir Hir. apply Hin. by right. }
  rewrite Hl.
  - apply NoDup_fmap_filter, NoDup_fst_map_to_list.
  - by intros [id r] [_ Hin%elem_of_map_to_list]%list_elem_of_filter.
Qed.

Lemma try_into_note_id r note : InputNoteRecord_try_into_note r = Ok note → Note_id note = InputNoteRecord_id r.
Proof.
  unfold InputNoteRecord_try_into_note. destruct (InputNoteRecord_metadata r); [|done]. intros [= <-].
  rewrite !Note_id_spec, !NoteDetails_id_spec, !Note_details_assets, !Note_details_recipient,
    Note_new_assets, Note_new_recipient. unfold InputNoteRecord_id. by rewrite NoteDetails_id_spec.
Qed.

Lemma converted_in l notes r note :
  try_map InputNoteRecord_try_into_note l = Ok notes → r ∈ l → InputNoteRecord_try_into_note r = Ok note → note ∈ notes.
Proof.
  intros Hl%try_map_Ok Hr Hnote. apply list_elem_of_lookup in Hr as (i & Hi).
  destruct (Forall2_lookup_l _ _ _ _ _ Hl Hi) as (note' & Hn & Hc). rewrite Hnote in Hc. injection Hc as ->.
  by apply list_elem_of_lookup_2 in Hn.
Qed.

(** A note of the batch with the identifier of a record is that record's note. *)
Lemma converted_note l notes r note :
  try_map InputNoteRecord_try_into_note l = Ok notes → NoDup (InputNoteRecord_id <$> l) → r ∈ l →
  note ∈ notes → Note_id note = InputNoteRecord_id r → InputNoteRecord_try_into_note r = Ok note.
Proof.
  intros Hl%try_map_Ok Hnd Hr Hnote Hid. apply list_elem_of_lookup in Hnote as (i & Hi).
  destruct (Forall2_lookup_r _ _ _ _ _ Hl Hi) as (r' & Hr' & Hc).
  apply try_into_note_id in Hc as Hid'. apply list_elem_of_lookup in Hr as (j & Hj).
  assert (i = j) as ->; [|congruence].
  eapply (NoDup_lookup _ i j (InputNoteRecord_id r) Hnd); rewrite list_lookup_fmap.
  - rewrite Hr'. cbn. congruence.
  - by rewrite Hj.
Qed.

(** C15: The consumable notes are exactly those that pass the screening.  Each committed
    note appears at most once, with at least one account; an account appears with a note
    exactly if it is tracked, is the one that was asked for, if one was, and the trial
    execution at the sync height finds a relevant status; nothing changes. *)
Theorem consumable_notes_exact d (c c' : ClientState St) account_id accounts result :
  holds d (cl_store c) → (∀ id r, cd_notes d !! id = Some r → InputNoteRecord_id r = id) →
  @scr_account_ids _ _ _ _ _ (screener_store (cl_store c)) = Ok accounts →
  get_consumable_notes screener_store account_id c = Finished (c', Ok result) →
  c' = c ∧ NoDup (InputNoteRecord_id ∘ fst <$> result) ∧
  (∀ r kept, (r, kept) ∈ result → kept ≠ []) ∧
  ∀ r a status, (∃ kept, (r, kept) ∈ result ∧ (a, status) ∈ kept) ↔
    cd_notes d !! InputNoteRecord_id r = Some r ∧ InputNoteRecord_is_committed r = true ∧
    a ∈ accounts ∧ (∀ a', account_id = Some a' → a = a') ∧
    ∃ h note, @scr_sync_height _ _ _ _ _ (screener_store (cl_store c)) = Ok h ∧
      InputNoteRecord_try_into_note r = Ok note ∧
      check_can_consume a h note = Ok status ∧ is_relevant status = true.
Proof.
  intros Hd Hkeyed Haccounts Hrun. unfold get_consumable_notes in Hrun.
  destruct (sc_input_notes d (cl_store c) NoteFilter_Committed Hd) as (committed & Hnotes & Hp).
  apply dbm_bind_Ok in Hrun as (c1 & l & Hl & Hrun). unfold on_store in Hl. rewrite Hnotes in Hl.
  injection Hl as <- <-. replace (set_cl_store (cl_store c) c) with c in Hrun by by destruct c.
  apply dbm_bind_Ok in Hrun as (c2 & notes & Hconv & Hrun). injection Hconv as <- Hconv.
  unfold note_error in Hconv. destruct (try_map _ _) as [notes'|] eqn:Etry; [|done]. injection Hconv as ->.
  apply dbm_bind_Ok in Hrun as (c3 & st & Hst & Hrun). injection Hst as <- <-.
  apply dbm_bind_Ok in Hrun as (c4 & m & Hm & Hrun). injection Hm as <- Hm.
  destruct (can_consume_batch notes) as [m'|] eqn:Ebatch; [|done]. injection Hm as ->. injection Hrun as <- Hresult.
  assert (∀ r, r ∈ committed ↔ cd_notes d !! InputNoteRecord_id r = Some r ∧ InputNoteRecord_is_committed r = true) as Hin.
  { intros r. rewrite Hp. apply (selected_keyed d NoteFilter_Committed r Hkeyed). }
  assert (NoDup (InputNoteRecord_id <$> committed)) as Hnd by (rewrite Hp; by apply selected_NoDup).
  rewrite consumables_fold in Hresult by done. cbn [app] in Hresult. subst result.
  pose proof (batch_exact _ _ _ _ Ebatch Haccounts) as Hbatch.
  split_and!; [done|by apply kept_notes_NoDup|by intros r kept (_ & _ & ?)%elem_of_kept|].
  intros r a status. split.
  - intros (kept & (Hr & -> & _)%elem_of_kept & Ha). apply Hin in Hr as Hr'. destruct Hr' as [Hd' Hc'].
    apply elem_of_kept_for in Ha as [Ha Hasked]. apply Hbatch in Ha as (Hacc & h & note & Hh & Hnote & Hid & Hcheck & Hrel).
    split_and!; [done..|]. exists h, note. split_and!; [done| |done..].
    by apply (converted_note committed notes r note).
  - intros (Hd' & Hc' & Hacc & Hasked & h & note & Hh & Hnote & Hcheck & Hrel).
    assert (r ∈ committed) as Hr by (by apply Hin).
    assert ((a, status) ∈ kept_for account_id (default [] (m !! InputNoteRecord_id r))) as Ha.
    { apply elem_of_kept_for. split; [|done]. apply Hbatch. split; [done|]. exists h, note. split_and!; [done| | |done..].
      - by apply (converted_in committed notes r).
      - by apply try_into_note_id. }
    eexists. split; [apply elem_of_kept; split_and!; [done|reflexivity|]|done]. intros Hnil. rewrite Hnil in Ha. by apply not_elem_of_nil in Ha.
Qed.
End consumable_facts.

(** ** Notes by a prefix *)

Section prefix_facts.
Context `{StoreContract} `{!NoteIdText}.

(** A prefix finds the note whose identifier starts with it if there is exactly one; none
    and several are told apart. *)
Lemma prefix_lookup_exact d (c c' : ClientState St) prefix result :
  holds d (cl_store c) →
  get_input_note_with_id_prefix prefix c = Finished (c', result) →
  let matching := filter (λ r, String.prefix prefix (NoteId_to_hex (InputNoteRecord_id r)) = true)
    (selected_notes NoteFilter_All d) in
  c' = c ∧
  match result with
  | Ok r => matching = [r]
  | Err (NoMatch _) => matching = []
  | Err (MultipleMatches _) => (2 ≤ length matching)%nat
  end.
Proof.
  intros Hd Hrun matching. unfold get_input_note_with_id_prefix, client_get_input_notes, on_store in Hrun.
  destruct (sc_input_notes d (cl_store c) NoteFilter_All Hd) as (notes & Hnotes & Hp). rewrite Hnotes in Hrun.
  replace (set_cl_store (cl_store c) c) with c in Hrun by by destruct c.
  injection Hrun as <- <-. split; [done|].
  assert (Permutation (filter (λ r, String.prefix prefix (NoteId_to_hex (InputNoteRecord_id r)) = true) notes) matching)
    as Hm by (unfold matching; by rewrite Hp).
  destruct (filter _ notes) as [|r [|r' l]].
  - by apply Permutation_nil in Hm.
  - by apply Permutation_singleton_l in Hm.
  - apply Permutation_length in Hm. cbn in Hm. lia.
Qed.
End prefix_facts.

(** ** Witnesses *)

Definition toy_reader_data (r : InputNoteRecord) : ClientData := {|
  cd_height := 0; cd_notes := {[ toy_noteid 3 5 := r ]}; cd_outputs := ∅; cd_txs := ∅; cd_tags := [] |}.

Definition toy_reader_store (r : InputNoteRecord) : StoreState := {|
  st_db := set_input_notes {[ note_key (toy_noteid 3 5) := input_row r ]}
    (put_script (Word_to_hex (NoteScript_root (3 : @NoteScript toy_protocol))) [3] Db_new);
  st_forest := AccountSmtForest_new |}.

Lemma toy_reader_holds state :
  storable (toy_noteid 3 5) (toy_input_record state) →
  holds (StoreContract := sqlite_contract) (toy_reader_data (toy_input_record state))
    (toy_reader_store (toy_input_record state)).
Proof.
  intros Hst. split.
  - reflexivity.
  - split.
    + apply (represents_insert note_key input_row ∅ ∅), represents_empty.
    + intros id r Hr. cbn in Hr. by apply lookup_singleton_Some in Hr as [<- <-].
    + intros id r Hr. cbn in Hr. by apply lookup_singleton_Some in Hr as [<- <-].
  - split; [apply represents_empty|done..].
  - by split.
  - done.
Qed.

Lemma reader_enumerates_witness : ∃ reader,
  read_notes 2 (in_block_range (InputNoteReader_new (toy_account 4)) 5 20)
    (toy_reader_store (toy_input_record toy_local)) =
    Finished (toy_reader_store (toy_input_record toy_local), Ok (reader, [toy_input_record toy_local])) ∧
  reset reader = in_block_range (InputNoteReader_new (toy_account 4)) 5 20.
Proof.
  destruct (reader_enumerates (toy_reader_data (toy_input_record toy_local))
    (toy_reader_store (toy_input_record toy_local))
    (in_block_range (InputNoteReader_new (toy_account 4)) 5 20) 2) as (reader & notes & Hrun & Hp & _ & _ & Hreset).
  - apply toy_reader_holds. split; [done| |by exists 7]. vm_compute. repeat split; congruence.
  - reflexivity.
  - apply Z.leb_le. vm_compute. reflexivity.
  - apply Nat.ltb_lt. vm_compute. reflexivity.
  - exists reader. split; [|exact Hreset]. rewrite Hrun. do 3 f_equal.
    change (Permutation notes [toy_input_record toy_local]) in Hp. by apply Permutation_singleton_r in Hp as ->.
Defined.

(** The accounts 1 and 2 are tracked, and account 1 may consume the note. *)
Definition toy_one_checker : @NoteChecker toy_protocol := {|
  NoteConsumptionStatus := bool;
  is_unconsumable := negb;
  check_can_consume := λ (account : @AccountId toy_protocol) _ _, Ok (bool_decide ((account : Z) = 1))
|}.

Definition toy_two_accounts (s : StoreState) : ScreenerStore := {|
  scr_input_notes := λ _, Ok ([] : list (@InputNoteRecord toy_protocol));
  scr_output_notes := λ _, Ok [];
  scr_unique_note_tags := Ok ∅;
  scr_account_ids := Ok [(1 : @AccountId toy_protocol); (2 : @AccountId toy_protocol)];
  scr_sync_height := Ok 0;
  scr_account_code := λ _, Ok (Some (0 : @AccountCode toy_protocol toy_account_lib))
|}.

Definition toy_committed_state : InputNoteState :=
  Committed {| Committed_metadata := ((1, true, 7) : @NoteMetadata toy_protocol);
    Committed_inclusion_proof := toy_inclusion; Committed_block_note_root := (200 : @Word toy_protocol) |}.

Lemma toy_committed_storable : storable (toy_noteid 3 5) (toy_input_record toy_committed_state).
Proof. split; [done| |by exists 7]. vm_compute. repeat split; congruence. Qed.

Definition toy_notes_client : ClientState StoreState := {|
  cl_store := toy_reader_store (toy_input_record toy_committed_state);
  cl_genesis_commitment := None; cl_rpc_limits := None |}.

Definition toy_consumable_run :=
  @get_consumable_notes _ _ _ _ _ toy_one_checker StoreState _ toy_two_accounts None toy_notes_client.

Lemma toy_consumable_found :
  match toy_consumable_run with Finished (_, Ok [(r, [(a, _)])]) => bool_decide ((a : Z) = 1) | _ => false end = true.
Proof. by vm_compute. Qed.

Lemma consumable_notes_exact_witness : ∃ c' result,
  toy_consumable_run = Finished (c', Ok result) ∧ c' = toy_notes_client ∧
  ∀ r a status, (∃ kept, (r, kept) ∈ result ∧ (a, status) ∈ kept) →
    a ∈ [toy_account 1; toy_account 2] ∧ InputNoteRecord_is_committed r = true.
Proof.
  pose proof toy_consumable_found as Htest.
  destruct toy_consumable_run as [[c' [result|]]| |] eqn:Hrun; [|done..].
  destruct (@consumable_notes_exact _ _ _ _ _ _ StoreState _ sqlite_contract _ toy_one_checker toy_two_accounts
    (toy_reader_data (toy_input_record toy_committed_state)) toy_notes_client c' None
    [toy_account 1; toy_account 2] result) as (Hc & _ & _ & Hexact).
  - exact (toy_reader_holds _ toy_committed_storable).
  - intros id r Hr. cbn in Hr. by apply lookup_singleton_Some in Hr as [<- <-].
  - reflexivity.
  - exact Hrun.
  - exists c', result. split; [reflexivity|]. split; [exact Hc|]. intros r a status Hin.
    apply Hexact in Hin as (_ & Hcommitted & Ha & _). by split.
Defined.
