(* ===== verification/FileSystem.v ===== *)
(** * Files

    The calls of [std::fs] that the client makes, on a file system that may fail: the
    state is what the files contain and which faults are still to come.  A fault is the
    error of one call; a write that fails has written a part. *)

From S2P Require Import Prelude Sql.
From Stdlib Require Import ZArith Lia.
From stdpp Require Import base gmap list strings.

Open Scope Z_scope.

Abbreviation bytes := (list Z) (only parsing).

(** The components of a path; [join] with one name. *)
Definition path : Type := list string.
Definition path_join (p : path) (name : string) : path := p ++ [name].
Definition parent (p : path) : path := removelast p.

Record io_error := {
  ie_not_found : bool;
  (* [Debug] of the error. *)
  ie_debug : string
}.

Definition not_found : io_error := {| ie_not_found := true; ie_debug := "NotFound" |}.

Record fault := { f_error : io_error; f_written : nat }.

(** [None] is a call that works; after the list every call does. *)
Record Disk := {
  files : gmap path bytes;
  dirs : gset path;
  faults : list (option fault)
}.

Definition set_files (f : gmap path bytes) (d : Disk) : Disk :=
  {| files := f; dirs := dirs d; faults := faults d |}.
Definition set_dirs (s : gset path) (d : Disk) : Disk :=
  {| files := files d; dirs := s; faults := faults d |}.

Definition disk_m (A : Type) : Type := dbm io_error Disk A.

(** The fault of the next call. *)
Definition next_fault (d : Disk) : option fault * Disk :=
  match faults d with
  | [] => (None, d)
  | f :: fs => (f, {| files := files d; dirs := dirs d; faults := fs |})
  end.

(** A call that has no effect when it fails. *)
Definition fs_call {A} (f : Disk → Disk * result io_error A) : disk_m A := λ d,
  match next_fault d with
  | (Some e, d) => Finished (d, Err (f_error e))
  | (None, d) => Finished (f d)
  end.

(** [Path::exists]: false also when the look-up fails. *)
Definition fs_exists (p : path) : disk_m bool := λ d,
  match next_fault d with
  | (Some _, d) => Finished (d, Ok false)
  | (None, d) => Finished (d, Ok (bool_decide (is_Some (files d !! p) ∨ p ∈ dirs d)))
  end.

Definition prefixes (p : path) : list path := (λ n, take n p) <$> seq 0 (S (length p)).
Definition fs_create_dir_all (p : path) : disk_m () := fs_call (λ d,
  (set_dirs (list_to_set (prefixes p) ∪ dirs d) d, Ok ())).

Definition fs_read (p : path) : disk_m bytes := fs_call (λ d,
  (d, ok_or (files d !! p) not_found)).

(** Opening for writing with [create] and [truncate]; the file is then empty. *)
Definition fs_create (p : path) : disk_m () := fs_call (λ d,
  if bool_decide (parent p ∈ dirs d) then (set_files (<[p := []]> (files d)) d, Ok ())
  else (d, Err not_found)).

(** [write_all] on a file that was opened empty. *)
Definition fs_write_all (p : path) (content : bytes) : disk_m () := λ d,
  match next_fault d with
  | (Some e, d) => Finished (set_files (<[p := take (f_written e) content]> (files d)) d, Err (f_error e))
  | (None, d) => Finished (set_files (<[p := content]> (files d)) d, Ok ())
  end.

Definition fs_sync_all : disk_m () := fs_call (λ d, (d, Ok ())).

Definition fs_rename (from to : path) : disk_m () := fs_call (λ d,
  match files d !! from with
  | Some content =>
      if bool_decide (parent to ∈ dirs d)
      then (set_files (<[to := content]> (delete from (files d))) d, Ok ())
      else (d, Err not_found)
  | None => (d, Err not_found)
  end).

Definition fs_remove_file (p : path) : disk_m () := fs_call (λ d,
  match files d !! p with
  | Some _ => (set_files (delete p (files d)) d, Ok ())
  | None => (d, Err not_found)
  end).

(** The text of a file: its bytes have to be UTF-8. *)
Definition continuation (b : Z) : bool := (128 <=? b) && (b <=? 191).
Fixpoint utf8_valid (b : bytes) : bool :=
  match b with
  | [] => true
  | b0 :: rest =>
      if (0 <=? b0) && (b0 <=? 127) then utf8_valid rest
      else if (194 <=? b0) && (b0 <=? 223) then
        match rest with b1 :: rest => continuation b1 && utf8_valid rest | _ => false end
      else if (224 <=? b0) && (b0 <=? 239) then
        match rest with
        | b1 :: b2 :: rest =>
            (if b0 =? 224 then (160 <=? b1) && (b1 <=? 191)
             else if b0 =? 237 then (128 <=? b1) && (b1 <=? 159)
             else continuation b1) &&
            continuation b2 && utf8_valid rest
        | _ => false
        end
      else if (240 <=? b0) && (b0 <=? 244) then
        match rest with
        | b1 :: b2 :: b3 :: rest =>
            (if b0 =? 240 then (144 <=? b1) && (b1 <=? 191)
             else if b0 =? 244 then (128 <=? b1) && (b1 <=? 143)
             else continuation b1) &&
            continuation b2 && continuation b3 && utf8_valid rest
        | _ => false
        end
      else false
  end.

Definition fs_read_to_string (p : path) : disk_m bytes :=
  content ← fs_read p;
  if utf8_valid content then mret content
  else db_fail {| ie_not_found := false; ie_debug := "InvalidData" |}.

(** ** Facts *)

Section facts.
Implicit Types (d : Disk) (p : path).

Lemma path_join_parent p name : parent (path_join p name) = p.
Proof. unfold parent, path_join. apply removelast_last. Qed.

Lemma path_join_inj p q name name' : path_join p name = path_join q name' → p = q ∧ name = name'.
Proof. unfold path_join. intros Heq. by apply app_inj_2 in Heq as [-> [= ->]]. Qed.

(** Without faults. *)
Definition reliable d : Prop := faults d = [].

Lemma fs_call_reliable {A} (f : Disk → Disk * result io_error A) d : reliable d → fs_call f d = Finished (f d).
Proof. intros Hd. unfold fs_call, next_fault. by rewrite Hd. Qed.

Lemma fs_exists_reliable p d :
  reliable d → fs_exists p d = Finished (d, Ok (bool_decide (is_Some (files d !! p) ∨ p ∈ dirs d))).
Proof. intros Hd. unfold fs_exists, next_fault. by rewrite Hd. Qed.

Lemma fs_write_reliable p content d :
  reliable d → fs_write_all p content d = Finished (set_files (<[p := content]> (files d)) d, Ok ()).
Proof. intros Hd. unfold fs_write_all, next_fault. by rewrite Hd. Qed.

(** The files that a call leaves alone, whether it works or not. *)
Definition leaves_alone {A} (m : disk_m A) (p : path) : Prop :=
  ∀ d d' r, m d = Finished (d', r) → files d' !! p = files d !! p.

Lemma next_fault_files d e d' : next_fault d = (e, d') → files d' = files d ∧ dirs d' = dirs d.
Proof. unfold next_fault. destruct (faults d); by intros [= _ <-]. Qed.

Lemma leaves_call {A} (f : Disk → Disk * result io_error A) p :
  (∀ d, files (f d).1 !! p = files d !! p) → leaves_alone (fs_call f) p.
Proof.
  intros Hf d d' r. unfold fs_call. destruct (next_fault d) as [[e|] d1] eqn:E; apply next_fault_files in E as [E _].
  - intros [= <- _]. by rewrite E.
  - intros [= Hfd]. specialize (Hf d1). rewrite Hfd in Hf. cbn in Hf. by rewrite Hf, E.
Qed.

Lemma leaves_bind {A B} (m : disk_m A) (f : A → disk_m B) p :
  leaves_alone m p → (∀ a, leaves_alone (f a) p) → leaves_alone (m ≫= f) p.
Proof.
  intros Hm Hf d d' r. unfold mbind, dbm_bind. destruct (m d) as [[d1 [a|e]]| |] eqn:E; [|intros [= <- _]|done..].
  - intros Hrun. by rewrite (Hf a _ _ _ Hrun), (Hm _ _ _ E).
  - apply (Hm _ _ _ E).
Qed.

Lemma leaves_create q p : q ≠ p → leaves_alone (fs_create q) p.
Proof. intros Hne. apply leaves_call. intros d. case_bool_decide; [cbn; by rewrite lookup_insert_ne|done]. Qed.
Lemma leaves_write q content p : q ≠ p → leaves_alone (fs_write_all q content) p.
Proof.
  intros Hne d d' r. unfold fs_write_all. destruct (next_fault d) as [[e|] d1] eqn:E;
    apply next_fault_files in E as [E _]; intros [= <- _]; cbn; by rewrite lookup_insert_ne, E.
Qed.
Lemma leaves_sync p : leaves_alone fs_sync_all p.
Proof. by apply leaves_call. Qed.
Lemma leaves_read q p : leaves_alone (fs_read q) p.
Proof. by apply leaves_call. Qed.
Lemma leaves_remove q p : q ≠ p → leaves_alone (fs_remove_file q) p.
Proof. intros Hne. apply leaves_call. intros d. case_match; [cbn; by rewrite lookup_delete_ne|done]. Qed.
Lemma leaves_rename q q' p : q ≠ p → q' ≠ p → leaves_alone (fs_rename q q') p.
Proof.
  intros Hq Hq'. apply leaves_call. intros d. case_match; [|done]. case_bool_decide; [|done]. cbn.
  by rewrite lookup_insert_ne, lookup_delete_ne.
Qed.
End facts.
