(* ===== verification/KeyStore.v ===== *)
(** * The keys of the client

    [keystore/mod.rs] and [keystore/fs_keystore.rs]: secret keys in files, one for each
    key, under a hash of its public key, and an index of the keys of each account that is
    kept in memory and written to a file of its own after each change. *)

From S2P Require Import Prelude Protocol Serde Text AccountTypes Sql Store FileSystem.
From Stdlib Require Import ZArith Lia.
From stdpp Require Import base gmap list strings.

Open Scope Z_scope.

(** ** Keys *)

(** [PublicKeyCommitment] is a [Word].  The algorithm of [DefaultHasher] is not
    specified by the standard library. *)
Class KeyLib `{AccountLib} := {
  AuthSecretKey : Type;
  PublicKey : Type;
  Signature : Type;
  SigningInputs : Type;
  public_key : AuthSecretKey → PublicKey;
  PublicKey_to_commitment : PublicKey → Word;
  sign : AuthSecretKey → Word → Signature;
  SigningInputs_to_commitment : SigningInputs → Word;
  AuthSecretKey_codec : codec AuthSecretKey;
  DefaultHasher_hash : string → u64
}.

Inductive KeyStoreError :=
| StorageError (msg : string)
| DecodingError (msg : string).

(** ** The index *)

Definition INDEX_FILE_NAME : string := "key_index.json".
Definition INDEX_VERSION : u32 := 1.

(** From the account, in hex, to the commitments of its keys, in hex. *)
Record KeyIndex := {
  version : u32;
  mappings : gmap string (gset string)
}.

(** [serde_json]; the text is kept as its bytes. *)
Class IndexJson := {
  to_string_pretty : KeyIndex → result string bytes;
  json_from_str : bytes → result string KeyIndex
}.

Definition KeyIndex_new : KeyIndex := {| version := INDEX_VERSION; mappings := ∅ |}.
Definition set_mappings (m : gmap string (gset string)) (i : KeyIndex) : KeyIndex :=
  {| version := version i; mappings := m |}.

Definition keystore_error (context : string) (err : io_error) : KeyStoreError :=
  StorageError (context +:+ ": " +:+ ie_debug err).

(** [map_err] on a call of the file system. *)
Definition or_storage_error {A} (context : string) (m : disk_m A) : dbm KeyStoreError Disk A := λ d,
  match m d with
  | Finished (d, r) => Finished (d, map_err (keystore_error context) r)
  | Panicked => Panicked
  | OutOfFuel => OutOfFuel
  end.

Section index.
Context `{AccountLib} `{!IndexJson} (temp_dir : path).

Definition add_mapping (self : KeyIndex) (account_id : AccountId) (pub_key_commitment : Word) : KeyIndex :=
  let account_id_hex := AccountId_to_hex account_id in
  let pub_key_hex := Word_to_hex pub_key_commitment in
  set_mappings (<[account_id_hex := {[ pub_key_hex ]} ∪ default ∅ (mappings self !! account_id_hex)]>
    (mappings self)) self.

(** [retain] keeps the accounts that have a key left. *)
Definition remove_all_mappings_for_key (self : KeyIndex) (pub_key_commitment : Word) : KeyIndex :=
  let pub_key_hex := Word_to_hex pub_key_commitment in
  set_mappings (omap (λ commitments : gset string,
    let commitments := commitments ∖ {[ pub_key_hex ]} in
    if bool_decide (commitments = ∅) then None else Some commitments) (mappings self)) self.

Definition read_from_file (keys_directory : path) : dbm KeyStoreError Disk KeyIndex :=
  let index_path := path_join keys_directory INDEX_FILE_NAME in
  present ← or_storage_error "" (fs_exists index_path);
  if present : bool then
    contents ← or_storage_error "error reading index file" (fs_read_to_string index_path);
    db_read (λ _, map_err (λ err, DecodingError ("error parsing index file: " +:+ err))
      (json_from_str contents))
  else mret KeyIndex_new.

(** A temporary file that is renamed. *)
Definition write_to_file (self : KeyIndex) (keys_directory : path) : dbm KeyStoreError Disk () :=
  let index_path := path_join keys_directory INDEX_FILE_NAME in
  let temp_path := path_join temp_dir INDEX_FILE_NAME in
  contents ← db_read (λ _, map_err (λ err, StorageError ("error serializing index: " +:+ err))
    (to_string_pretty self));
  or_storage_error "error creating temp index file" (fs_create temp_path);;
  or_storage_error "error writing temp index file" (fs_write_all temp_path contents);;
  or_storage_error "error syncing temp index file" fs_sync_all;;
  or_storage_error "error renaming index file" (fs_rename temp_path index_path).

(** The first account, in the order of the hex texts, that has the key. *)
Definition index_get_account_id (self : KeyIndex) (pub_key_commitment : Word) : option AccountId :=
  let pub_key_hex := Word_to_hex pub_key_commitment in
  '(account_id_hex, _) ← head (filter (λ entry : string * gset string, pub_key_hex ∈ entry.2)
    (btree_to_list (KeyType0 := string_key) (mappings self)));
  AccountId_from_hex account_id_hex.

(** Texts that are not a word are left out. *)
Definition get_commitments (self : KeyIndex) (account_id : AccountId) : result KeyStoreError (gset Word) :=
  let account_id_hex := AccountId_to_hex account_id in
  ok_or ((λ commitments : gset string, list_to_set (omap Word_try_from (elements commitments))) <$>
      (mappings self !! account_id_hex))
    (StorageError ("account not found " +:+ account_id_hex)).
End index.

(** ** The keystore *)

Section keystore.
Context `{KeyLib} `{!IndexJson} (temp_dir : path).

(** The directory, the index in memory, and the files. *)
Record FilesystemKeyStore := {
  keys_directory : path;
  index : KeyIndex;
  disk : Disk
}.

Definition keys_m (A : Type) : Type := dbm KeyStoreError FilesystemKeyStore A.

Definition set_index (i : KeyIndex) (k : FilesystemKeyStore) : FilesystemKeyStore :=
  {| keys_directory := keys_directory k; index := i; disk := disk k |}.
Definition set_disk (d : Disk) (k : FilesystemKeyStore) : FilesystemKeyStore :=
  {| keys_directory := keys_directory k; index := index k; disk := d |}.
Definition on_disk {A} (m : dbm KeyStoreError Disk A) : keys_m A := zoom disk set_disk m.
Definition update_index (f : KeyIndex → KeyIndex) : keys_m () := db_exec (λ k, Ok (set_index (f (index k)) k)).

(** [new]: the directory is made and the index is read. *)
Definition FilesystemKeyStore_new (keys_directory : path) : dbm KeyStoreError Disk FilesystemKeyStore :=
  present ← or_storage_error "" (fs_exists keys_directory);
  (if present : bool then mret ()
   else or_storage_error "error creating keys directory" (fs_create_dir_all keys_directory));;
  index ← read_from_file keys_directory;
  d ← db_read (λ d, Ok d);
  mret {| keys_directory := keys_directory; index := index; disk := d |}.

(** A clone has an index of its own. *)
Definition FilesystemKeyStore_clone (self : FilesystemKeyStore) : FilesystemKeyStore :=
  {| keys_directory := keys_directory self; index := index self; disk := disk self |}.

(** *** Files of keys *)

Definition hash_pub_key (pub_key : Word) : string := u_to_string (DefaultHasher_hash (Word_to_hex pub_key)).

Definition key_file_path (keys_directory : path) (pub_key : Word) : path :=
  path_join keys_directory (hash_pub_key pub_key).

Definition write_secret_key_file (file_path : path) (key : AuthSecretKey) : dbm KeyStoreError Disk () :=
  or_storage_error "error writing secret key file" (fs_create file_path);;
  or_storage_error "error writing secret key file"
    (fs_write_all file_path (write_into AuthSecretKey_codec key)).

Definition key_commitment (key : AuthSecretKey) : Word := PublicKey_to_commitment (public_key key).

Definition add_key_without_account (key : AuthSecretKey) : keys_m () := λ self,
  on_disk (write_secret_key_file (key_file_path (keys_directory self) (key_commitment key)) key) self.

Definition get_key_sync (pub_key : Word) : keys_m (option AuthSecretKey) := λ self,
  match fs_read (key_file_path (keys_directory self) pub_key) (disk self) with
  | Finished (d, Ok bytes) => Finished (set_disk d self,
      match read_from_bytes AuthSecretKey_codec bytes with
      | Ok key => Ok (Some key)
      | Err _ => Err (DecodingError "error reading secret key from file")
      end)
  | Finished (d, Err e) => Finished (set_disk d self,
      if ie_not_found e then Ok None else Err (keystore_error "error reading secret key file" e))
  | Panicked => Panicked
  | OutOfFuel => OutOfFuel
  end.

Definition save_index : keys_m () := λ self,
  on_disk (write_to_file temp_dir (index self) (keys_directory self)) self.

(** *** [Keystore] *)

Definition add_key (key : AuthSecretKey) (account_id : AccountId) : keys_m () :=
  let pub_key_commitment := key_commitment key in
  add_key_without_account key;;
  update_index (λ index, add_mapping index account_id pub_key_commitment);;
  save_index.

(** A file that is not there is no error. *)
Definition remove_key_file (pub_key : Word) : keys_m () := λ self,
  match fs_remove_file (key_file_path (keys_directory self) pub_key) (disk self) with
  | Finished (d, Ok _) => Finished (set_disk d self, Ok ())
  | Finished (d, Err e) => Finished (set_disk d self,
      if ie_not_found e then Ok () else Err (keystore_error "error removing secret key file" e))
  | Panicked => Panicked
  | OutOfFuel => OutOfFuel
  end.

Definition remove_key (pub_key : Word) : keys_m () :=
  update_index (λ index, remove_all_mappings_for_key index pub_key);;
  save_index;;
  remove_key_file pub_key.

Definition get_key (pub_key : Word) : keys_m (option AuthSecretKey) := get_key_sync pub_key.

Definition get_account_id_by_key_commitment (pub_key_commitment : Word) : keys_m (option AccountId) :=
  db_read (λ self, Ok (index_get_account_id (index self) pub_key_commitment)).

Definition get_account_key_commitments (account_id : AccountId) : keys_m (gset Word) :=
  db_read (λ self, get_commitments (index self) account_id).

(** The loop of the default method; a key without a file is left out. *)
Fixpoint collect_keys (commitments : list Word) : keys_m (list AuthSecretKey) :=
  match commitments with
  | [] => mret []
  | commitment :: commitments =>
      key ← get_key commitment;
      keys ← collect_keys commitments;
      mret (match key with Some key => key :: keys | None => keys end)
  end.

Definition get_keys_for_account (account_id : AccountId) : keys_m (list AuthSecretKey) :=
  commitments ← get_account_key_commitments account_id;
  collect_keys (bset_elements commitments).

(** *** [TransactionAuthenticator] *)

Inductive AuthenticationError :=
| UnknownPublicKey (pub_key : Word)
| Authentication_Other (msg : string) (source : KeyStoreError).

Definition get_signature (pub_key : Word) (signing_info : SigningInputs) :
    dbm AuthenticationError FilesystemKeyStore Signature := λ self,
  let message := SigningInputs_to_commitment signing_info in
  match get_key_sync pub_key self with
  | Finished (self, r) => Finished (self,
      match r with
      | Err err => Err (Authentication_Other "failed to load secret key" err)
      | Ok None => Err (UnknownPublicKey pub_key)
      | Ok (Some secret_key) => Ok (sign secret_key message)
      end)
  | Panicked => Panicked
  | OutOfFuel => OutOfFuel
  end.

(** Every error is [None]. *)
Definition get_public_key (pub_key_commitment : Word) : dbm KeyStoreError FilesystemKeyStore (option PublicKey) :=
  λ self,
  match get_key pub_key_commitment self with
  | Finished (self, r) => Finished (self, Ok (match r with Ok (Some key) => Some (public_key key) | _ => None end))
  | Panicked => Panicked
  | OutOfFuel => OutOfFuel
  end.
End keystore.
