(* ===== verification/KeyStoreSpec.v ===== *)
(** * What the keystore promises

    A key ring is a map of keys and a set of keys for each account.  Without faults of
    the file system the files and the index implement it, also across a restart; with
    faults the index file is the whole old or the whole new index, except when the keys are
    kept in the temporary directory itself, where a failed write can cut it. *)

From S2P Require Import Prelude Protocol Serde Model Text AccountTypes Sql Store FileSystem KeyStore.
From Stdlib Require Import ZArith Lia.
From stdpp Require Import base gmap list strings sorting.

Open Scope Z_scope.

Class KeyLaws `{KeyLib} `{!IndexJson} : Prop := {
  AuthSecretKey_codec_ok :: CodecOk AuthSecretKey_codec any;
  DefaultHasher_range s : 0 ≤ DefaultHasher_hash s;
  json_roundtrip i :
    ∃ b, to_string_pretty i = Ok b ∧ utf8_valid b = true ∧ json_from_str b = Ok i
}.

(** ** The abstract key ring *)

Section ring.
Context `{KeyLib}.

Record KeyRing := {
  kr_keys : gmap Word AuthSecretKey;
  kr_accounts : gmap AccountId (gset Word)
}.

Definition ring_empty : KeyRing := {| kr_keys := ∅; kr_accounts := ∅ |}.

Definition ring_add (key : AuthSecretKey) (account_id : AccountId) (r : KeyRing) : KeyRing := {|
  kr_keys := <[key_commitment key := key]> (kr_keys r);
  kr_accounts := <[account_id := {[ key_commitment key ]} ∪ default ∅ (kr_accounts r !! account_id)]>
    (kr_accounts r) |}.

(** An account without keys is forgotten. *)
Definition ring_remove (c : Word) (r : KeyRing) : KeyRing := {|
  kr_keys := delete c (kr_keys r);
  kr_accounts := omap (λ s : gset Word, if bool_decide (s ∖ {[ c ]} = ∅) then None else Some (s ∖ {[ c ]}))
    (kr_accounts r) |}.

Inductive key_op :=
| KeyAdd (key : AuthSecretKey) (account_id : AccountId)
| KeyRemove (c : Word)
| KeyReopen.

Definition ring_op (r : KeyRing) (op : key_op) : KeyRing :=
  match op with
  | KeyAdd key account_id => ring_add key account_id r
  | KeyRemove c => ring_remove c r
  | KeyReopen => r
  end.

(** The keys that are used, whose file names differ. *)
Definition op_within (K : gset Word) (op : key_op) : Prop :=
  match op with
  | KeyAdd key _ => key_commitment key ∈ K
  | KeyRemove c => c ∈ K
  | KeyReopen => True
  end.
Definition distinct_files (K : gset Word) : Prop :=
  ∀ c c', c ∈ K → c' ∈ K → DefaultHasher_hash (Word_to_hex c) = DefaultHasher_hash (Word_to_hex c') → c = c'.

Record ring_ok (K : gset Word) (r : KeyRing) : Prop := {
  ro_commitment c key : kr_keys r !! c = Some key → key_commitment key = c ∧ c ∈ K;
  ro_nonempty a s : kr_accounts r !! a = Some s → s ≠ ∅;
  ro_present a s c : kr_accounts r !! a = Some s → c ∈ s → is_Some (kr_keys r !! c)
}.

Lemma ring_op_ok K r op : ring_ok K r → op_within K op → ring_ok K (ring_op r op).
Proof.
  intros [Hc Hn Hp] Hop. destruct op as [key a|c|]; [..|done]; split; cbn in *.
  - intros c k. rewrite lookup_insert. destruct (decide _) as [<-|]; [by intros [= <-]|apply Hc].
  - intros a' s. rewrite lookup_insert. destruct (decide _) as [<-|]; [intros [= <-]; set_solver|apply Hn].
  - intros a' s c. rewrite lookup_insert. destruct (decide _) as [<-|Hne].
    + intros [= <-] [->%elem_of_singleton|Hin]%elem_of_union; [rewrite lookup_insert_eq; eauto|].
      rewrite lookup_insert. destruct (decide _); [eauto|]. destruct (kr_accounts r !! a) as [s|] eqn:E; [by eapply Hp|set_solver].
    + intros Hs Hin. rewrite lookup_insert. destruct (decide _); [eauto|by eapply Hp].
  - intros c' k [Hne Hk]%lookup_delete_Some. by apply Hc.
  - intros a s. rewrite lookup_omap_Some. intros (s' & Hs & _). case_bool_decide; [done|]. by injection Hs as <-.
  - intros a s c'. rewrite lookup_omap_Some. intros (s' & Hs & Ha). case_bool_decide; [done|]. injection Hs as <-.
    intros [Hin Hne]%elem_of_difference. rewrite lookup_delete_ne by set_solver. by eapply Hp.
Qed.
End ring.

(** ** The index *)

Section index.
Context `{KeyLib} `{!AccountLaws} `{!IndexJson}.

Definition hexes (s : gset Word) : gset string := set_map Word_to_hex s.
Definition index_of (m : gmap AccountId (gset Word)) : KeyIndex :=
  {| version := INDEX_VERSION; mappings := kmap AccountId_to_hex (hexes <$> m) |}.

Lemma elem_of_hexes c s : Word_to_hex c ∈ hexes s ↔ c ∈ s.
Proof.
  unfold hexes. rewrite elem_of_map. split; [|by exists c]. by intros (c' & ->%(inj Word_to_hex) & ?).
Qed.

Lemma index_lookup m a : mappings (index_of m) !! AccountId_to_hex a = hexes <$> m !! a.
Proof. cbn. rewrite lookup_kmap by apply _. apply lookup_fmap. Qed.

Lemma index_lookup_Some m h s :
  mappings (index_of m) !! h = Some s ↔ ∃ a t, h = AccountId_to_hex a ∧ s = hexes t ∧ m !! a = Some t.
Proof.
  cbn. rewrite lookup_kmap_Some by apply _. setoid_rewrite lookup_fmap_Some. naive_solver.
Qed.

Lemma add_mapping_index m a c :
  add_mapping (index_of m) a c = index_of (<[a := {[ c ]} ∪ default ∅ (m !! a)]> m).
Proof.
  unfold add_mapping, set_mappings. rewrite index_lookup. unfold index_of. cbn. f_equal.
  rewrite fmap_insert, kmap_insert by apply _. f_equal. unfold hexes. rewrite set_map_union_L, set_map_singleton_L.
  f_equal. by destruct (m !! a).
Qed.

Lemma hexes_difference s c : hexes s ∖ {[ Word_to_hex c ]} = hexes (s ∖ {[ c ]}).
Proof.
  apply set_eq. intros h. rewrite elem_of_difference, elem_of_singleton. unfold hexes. rewrite !elem_of_map. split.
  - intros [(x & -> & Hx) Hne]. exists x. set_solver.
  - intros (x & -> & [Hx Hne]%elem_of_difference). split; [by exists x|]. intros ->%(inj Word_to_hex). set_solver.
Qed.

Lemma hexes_empty s : hexes s = ∅ ↔ s = ∅.
Proof.
  split; [|by intros ->]. intros Hs. apply set_eq. intros c. rewrite <-elem_of_hexes, Hs. set_solver.
Qed.

Lemma remove_mapping_index m c :
  remove_all_mappings_for_key (index_of m) c =
  index_of (omap (λ s : gset Word, if bool_decide (s ∖ {[ c ]} = ∅) then None else Some (s ∖ {[ c ]})) m).
Proof.
  unfold remove_all_mappings_for_key, set_mappings, index_of. cbn. f_equal. apply map_eq. intros h.
  apply option_eq. intros s. rewrite lookup_omap_Some, lookup_kmap_Some by apply _. split.
  - intros (t & Ht & Hl). apply lookup_kmap_Some in Hl as (a & -> & Ha); [|apply _].
    apply lookup_fmap_Some in Ha as (u & <- & Hu). exists a. split; [done|]. rewrite lookup_fmap, lookup_omap, Hu. cbn.
    rewrite hexes_difference in Ht. case_bool_decide as He; [done|]. injection Ht as <-.
    rewrite bool_decide_false; [done|]. intros Hnil. apply He. by rewrite Hnil.
  - intros (a & -> & Hl). rewrite lookup_fmap, lookup_omap in Hl. destruct (m !! a) as [u|] eqn:Hu; [|done].
    cbn in Hl. case_bool_decide as He; [done|]. injection Hl as <-. exists (hexes u).
    rewrite hexes_difference, bool_decide_false by (by rewrite hexes_empty). split; [done|].
    rewrite lookup_kmap by apply _. by rewrite lookup_fmap, Hu.
Qed.

Lemma index_account_spec m c :
  match index_get_account_id (index_of m) c with
  | Some a => ∃ s, m !! a = Some s ∧ c ∈ s
  | None => ∀ a s, m !! a = Some s → c ∉ s
  end.
Proof.
  unfold index_get_account_id. destruct (filter _ _) as [|[h t] l] eqn:E; cbn.
  - intros a s Ha Hc. assert ((AccountId_to_hex a, hexes s) ∈ ([] : list (string * gset string))) as Hin;
      [|by apply not_elem_of_nil in Hin]. rewrite <-E. apply list_elem_of_filter. cbn. split; [by apply elem_of_hexes|].
    apply (elem_of_btree_to_list (KeyType0 := string_key)), index_lookup_Some. eauto.
  - assert ((h, t) ∈ (h, t) :: l) as Hin by left. rewrite <-E in Hin. apply list_elem_of_filter in Hin as [Hc Hin].
    apply (elem_of_btree_to_list (KeyType0 := string_key)), index_lookup_Some in Hin as (a & s & -> & -> & Ha).
    rewrite AccountId_hex_roundtrip. exists s. split; [done|]. by apply elem_of_hexes.
Qed.

Lemma commitments_spec m a :
  get_commitments (index_of m) a =
  ok_or (m !! a) (StorageError ("account not found " +:+ AccountId_to_hex a)).
Proof.
  unfold get_commitments. rewrite index_lookup. destruct (m !! a) as [s|]; [|done]. cbn. f_equal.
  apply set_eq. intros c. rewrite elem_of_list_to_set, list_elem_of_omap. split.
  - intros (h & Hh & Hc). apply elem_of_elements in Hh. unfold hexes in Hh. apply elem_of_map in Hh as (c' & -> & Hin).
    rewrite Word_hex_roundtrip in Hc. by injection Hc as <-.
  - intros Hc. exists (Word_to_hex c). split; [by apply elem_of_elements, elem_of_hexes|apply Word_hex_roundtrip].
Qed.
End index.

(** ** The files *)

Section files.
Context `{KeyLib} `{!AccountLaws} `{!IndexJson} `{!KeyLaws} (temp_dir : path).
Implicit Types (d : Disk) (k : FilesystemKeyStore) (dir : path).

(** The directories are there; the temporary one may be that of the keys. *)
Record disk_ready dir d : Prop := {
  dr_dir : dir ∈ dirs d;
  dr_temp : temp_dir ∈ dirs d;
  dr_reliable : reliable d
}.

Definition index_path dir : path := path_join dir INDEX_FILE_NAME.

#[local] Arguments index_path : simpl never.
#[local] Arguments key_file_path : simpl never.

Lemma key_path_index dir dir' c : key_file_path dir c ≠ index_path dir'.
Proof.
  intros [_ Hname]%path_join_inj. unfold hash_pub_key in Hname.
  pose proof (u_to_string_value _ (DefaultHasher_range (Word_to_hex c))) as Hv. rewrite Hname in Hv. discriminate Hv.
Qed.

Lemma key_path_inj K dir c c' :
  distinct_files K → c ∈ K → c' ∈ K → key_file_path dir c = key_file_path dir c' → c = c'.
Proof.
  intros HK Hc Hc' [_ Hname]%path_join_inj. apply HK; [done..|]. unfold hash_pub_key in Hname.
  pose proof (u_to_string_value _ (DefaultHasher_range (Word_to_hex c))) as Hv.
  pose proof (u_to_string_value _ (DefaultHasher_range (Word_to_hex c'))) as Hv'. rewrite Hname in Hv. congruence.
Qed.

Lemma temp_not_index dir : temp_dir ≠ dir → path_join temp_dir INDEX_FILE_NAME ≠ index_path dir.
Proof. by intros Hne [? _]%path_join_inj. Qed.

(** *** With faults: every call ends *)

Lemma fs_call_total {A} (f : Disk → Disk * result io_error A) d : ∃ d' r, fs_call f d = Finished (d', r).
Proof. unfold fs_call. destruct (next_fault d) as [[e|] d1]; [eauto|]. destruct (f d1) as [d' r] eqn:E. by exists d', r. Qed.

Lemma or_storage_Finished {A} context (m : disk_m A) d d' r :
  or_storage_error context m d = Finished (d', r) → ∃ r', m d = Finished (d', r') ∧ r = map_err (keystore_error context) r'.
Proof. unfold or_storage_error. destruct (m d) as [[d1 r1]| |]; [|done..]. intros [= <- <-]. eauto. Qed.

(** Writing the index replaces it or leaves it. *)
Lemma write_index_atomic i dir d d' r :
  temp_dir ≠ dir → write_to_file temp_dir i dir d = Finished (d', r) →
  match r with
  | Ok _ => ∃ b, to_string_pretty i = Ok b ∧ files d' !! index_path dir = Some b
  | Err _ => files d' !! index_path dir = files d !! index_path dir
  end.
Proof.
  intros Hdir%temp_not_index. destruct (json_roundtrip i) as (b & Hb & _). unfold write_to_file.
  unfold mbind at 1, dbm_bind at 1, db_read at 1. rewrite Hb. cbn [map_err].
  set (temp := path_join temp_dir INDEX_FILE_NAME) in *. fold (index_path dir).
  unfold mbind, dbm_bind. destruct (or_storage_error _ (fs_create temp) d) as [[d1 r1]| |] eqn:E1; [|done..].
  apply or_storage_Finished in E1 as (r1' & E1 & ->). apply (leaves_create temp (index_path dir) Hdir) in E1 as Hl1.
  destruct r1' as [u|]; [|by intros [= <- <-]]. cbn [map_err].
  destruct (or_storage_error _ (fs_write_all temp b) d1) as [[d2 r2]| |] eqn:E2; [|done..].
  apply or_storage_Finished in E2 as (r2' & E2 & ->). apply (leaves_write temp b (index_path dir) Hdir) in E2 as Hl2.
  destruct r2' as [u2|]; [|intros [= <- <-]; cbn; congruence]. cbn [map_err].
  assert (files d2 !! temp = Some b) as Htemp.
  { unfold fs_write_all in E2. destruct (next_fault d1) as [[e|] d1']; [done|]. injection E2 as <-. apply lookup_insert_eq. }
  destruct (or_storage_error _ fs_sync_all d2) as [[d3 r3]| |] eqn:E3; [|done..].
  apply or_storage_Finished in E3 as (r3' & E3 & ->). apply (leaves_sync (index_path dir)) in E3 as Hl3.
  apply (leaves_sync temp) in E3. destruct r3' as [u3|]; [|intros [= <- <-]; cbn; congruence]. cbn [map_err].
  intros (r4 & E4 & ->)%or_storage_Finished. unfold fs_rename, fs_call in E4.
  destruct (next_fault d3) as [[e|] d3'] eqn:Ef; apply next_fault_files in Ef as [Ef _].
  - injection E4 as <- <-. cbn. rewrite Ef. congruence.
  - rewrite Ef, E3, Htemp in E4. case_bool_decide; injection E4 as <- <-; cbn; [|congruence].
    exists b. split; [done|apply lookup_insert_eq].
Qed.

(** When the keys are kept in the temporary directory, the temporary file is the index,
    which a failure leaves cut. *)
Lemma write_index_cut i dir d d' r :
  temp_dir = dir → write_to_file temp_dir i dir d = Finished (d', r) →
  ∃ b, to_string_pretty i = Ok b ∧
  match r with
  | Ok _ => files d' !! index_path dir = Some b
  | Err _ => files d' !! index_path dir = files d !! index_path dir ∨
      ∃ n, files d' !! index_path dir = Some (take n b)
  end.
Proof.
  intros <-. destruct (json_roundtrip i) as (b & Hb & _). intros Hrun. exists b. split; [done|]. revert Hrun.
  unfold write_to_file. fold (index_path temp_dir). set (temp := index_path temp_dir).
  unfold mbind at 1, dbm_bind at 1, db_read at 1. rewrite Hb. cbn [map_err]. unfold mbind, dbm_bind.
  destruct (or_storage_error _ (fs_create temp) d) as [[d1 r1]| |] eqn:E1; [|done..].
  apply or_storage_Finished in E1 as (r1' & E1 & ->). unfold fs_create, fs_call in E1.
  destruct (next_fault d) as [[e|] d0] eqn:Ef; apply next_fault_files in Ef as [Ef _].
  { injection E1 as <- <-. intros [= <- <-]. left. by rewrite Ef. }
  case_bool_decide; injection E1 as <- <-; cbn [map_err]; [|intros [= <- <-]; left; by rewrite Ef].
  clear Ef. destruct (or_storage_error _ (fs_write_all temp b) _) as [[d2 r2]| |] eqn:E2; [|done..].
  apply or_storage_Finished in E2 as (r2' & E2 & ->). unfold fs_write_all in E2.
  destruct (next_fault _) as [[e|] d3] in E2; injection E2 as <- <-; cbn [map_err].
  { intros [= <- <-]. right. exists (f_written e). apply lookup_insert_eq. }
  destruct (or_storage_error _ fs_sync_all _) as [[d4 r4]| |] eqn:E4; [|done..].
  apply or_storage_Finished in E4 as (r4' & E4 & ->). apply (leaves_sync temp) in E4.
  cbn in E4. rewrite lookup_insert_eq in E4.
  destruct r4' as [u4|]; [|intros [= <- <-]; right; exists (length b); by rewrite take_ge]. cbn [map_err].
  intros (r5 & E5 & ->)%or_storage_Finished. unfold fs_rename, fs_call in E5.
  destruct (next_fault d4) as [[e|] d5] eqn:Ef; apply next_fault_files in Ef as [Ef _].
  { injection E5 as <- <-. right. exists (length b). by rewrite Ef, take_ge. }
  rewrite Ef, E4 in E5. case_bool_decide; injection E5 as <- <-; cbn [map_err]; [apply lookup_insert_eq|].
  right. exists (length b). by rewrite Ef, take_ge.
Qed.

Lemma write_index_leaves i dir p :
  path_join temp_dir INDEX_FILE_NAME ≠ p → index_path dir ≠ p →
  ∀ d d' r, write_to_file temp_dir i dir d = Finished (d', r) → files d' !! p = files d !! p.
Proof.
  intros Ht Hi d d' r. destruct (json_roundtrip i) as (b & Hb & _). unfold write_to_file.
  unfold mbind at 1, dbm_bind at 1, db_read at 1. rewrite Hb. cbn [map_err].
  assert (∀ A context (m : disk_m A) d d' r, leaves_alone m p →
    or_storage_error context m d = Finished (d', r) → files d' !! p = files d !! p) as Hcall.
  { intros A context m d0 d0' r0 Hm (r' & E & _)%or_storage_Finished. by apply Hm in E. }
  unfold mbind, dbm_bind.
  destruct (or_storage_error _ (fs_create _) d) as [[d1 r1]| |] eqn:E1; [|done..].
  apply Hcall in E1; [|by apply leaves_create]. destruct r1; [|by intros [= <- _]].
  destruct (or_storage_error _ (fs_write_all _ _) d1) as [[d2 r2]| |] eqn:E2; [|done..].
  apply Hcall in E2; [|by apply leaves_write]. destruct r2; [|intros [= <- _]; congruence].
  destruct (or_storage_error _ fs_sync_all d2) as [[d3 r3]| |] eqn:E3; [|done..].
  apply Hcall in E3; [|apply leaves_sync]. destruct r3; [|intros [= <- _]; congruence].
  intros E4. apply Hcall in E4; [congruence|by apply leaves_rename].
Qed.

(** *** Without faults *)

Lemma write_index_run i dir d :
  disk_ready dir d → ∃ d' b, write_to_file temp_dir i dir d = Finished (d', Ok ()) ∧
    to_string_pretty i = Ok b ∧ utf8_valid b = true ∧ json_from_str b = Ok i ∧ disk_ready dir d' ∧ dirs d' = dirs d ∧
    files d' = <[index_path dir := b]> (delete (path_join temp_dir INDEX_FILE_NAME) (files d)).
Proof.
  intros [Hdir Htemp Hr]. destruct (json_roundtrip i) as (b & Hb & Hu & Hj).
  exists (set_files (<[index_path dir := b]> (delete (path_join temp_dir INDEX_FILE_NAME) (files d))) d), b.
  split; [|by split_and!]. unfold write_to_file. set (temp := path_join temp_dir INDEX_FILE_NAME).
  unfold mbind, dbm_bind, db_read. rewrite Hb. cbn [map_err]. unfold or_storage_error at 1, fs_create.
  rewrite fs_call_reliable, bool_decide_true by (done || (unfold temp; by rewrite path_join_parent)). cbn [map_err].
  unfold or_storage_error at 1. rewrite fs_write_reliable by done. cbn [map_err].
  unfold or_storage_error at 1, fs_sync_all. rewrite fs_call_reliable by done. cbn [map_err].
  unfold or_storage_error, fs_rename. rewrite fs_call_reliable by done. cbn [set_files files dirs].
  rewrite lookup_insert_eq. unfold index_path. rewrite path_join_parent, bool_decide_true by done. cbn.
  do 2 f_equal. unfold set_files. cbn. f_equal. by rewrite insert_insert_eq, delete_insert_eq.
Qed.

Lemma write_key_run dir c key d :
  disk_ready dir d → write_secret_key_file (key_file_path dir c) key d =
    Finished (set_files (<[key_file_path dir c := write_into AuthSecretKey_codec key]> (files d)) d, Ok ()).
Proof.
  intros [Hdir _ Hr]. unfold write_secret_key_file, mbind, dbm_bind, or_storage_error, fs_create.
  rewrite fs_call_reliable by done. unfold key_file_path. rewrite path_join_parent, bool_decide_true by done. cbn [map_err].
  rewrite fs_write_reliable by done. cbn. do 2 f_equal. unfold set_files. cbn. f_equal. apply insert_insert_eq.
Qed.

Lemma read_index_run dir d b i :
  disk_ready dir d → files d !! index_path dir = Some b → utf8_valid b = true → json_from_str b = Ok i →
  read_from_file dir d = Finished (d, Ok i).
Proof.
  intros [_ _ Hr] Hf Hu Hj. unfold read_from_file. fold (index_path dir).
  unfold mbind, dbm_bind, or_storage_error at 1. rewrite fs_exists_reliable by done. rewrite Hf.
  rewrite bool_decide_true by eauto. cbn [map_err].
  unfold or_storage_error, fs_read_to_string, mbind, dbm_bind, fs_read. rewrite fs_call_reliable by done. rewrite Hf. cbn.
  rewrite Hu. cbn. unfold db_read. by rewrite Hj.
Qed.
End files.

(** ** The keystore implements the ring *)

Section store.
Context `{KeyLib} `{!AccountLaws} `{!IndexJson} `{!KeyLaws} (temp_dir : path).
Implicit Types (k : FilesystemKeyStore) (r : KeyRing).

#[local] Arguments index_path : simpl never.
#[local] Arguments key_file_path : simpl never.

(** The index file holds the index in memory, or there is none yet. *)
Definition index_saved k : Prop :=
  match files (disk k) !! index_path (keys_directory k) with
  | Some b => utf8_valid b = true ∧ json_from_str b = Ok (index k)
  | None => index k = KeyIndex_new
  end ∧ index_path (keys_directory k) ∉ dirs (disk k).

Record stores_ring (K : gset Word) (k : FilesystemKeyStore) (r : KeyRing) : Prop := {
  sr_ready : disk_ready temp_dir (keys_directory k) (disk k);
  sr_index : index k = index_of (kr_accounts r);
  sr_keys c : c ∈ K → files (disk k) !! key_file_path (keys_directory k) c =
    write_into AuthSecretKey_codec <$> kr_keys r !! c;
  sr_saved : index_saved k;
  sr_ring : ring_ok K r
}.

Definition run_op (op : key_op) : keys_m () :=
  match op with
  | KeyAdd key account_id => add_key temp_dir key account_id
  | KeyRemove c => remove_key temp_dir c
  | KeyReopen => λ k,
      match FilesystemKeyStore_new (keys_directory k) (disk k) with
      | Finished (d, Ok k') => Finished (k', Ok ())
      | Finished (d, Err e) => Finished (set_disk d k, Err e)
      | Panicked => Panicked
      | OutOfFuel => OutOfFuel
      end
  end.

Lemma temp_not_key k c : path_join temp_dir INDEX_FILE_NAME ≠ key_file_path (keys_directory k) c.
Proof. apply not_eq_sym, (key_path_index (keys_directory k) temp_dir). Qed.

Lemma save_index_run k :
  disk_ready temp_dir (keys_directory k) (disk k) → ∃ d b, save_index temp_dir k = Finished (set_disk d k, Ok ()) ∧
    utf8_valid b = true ∧ json_from_str b = Ok (index k) ∧ disk_ready temp_dir (keys_directory k) d ∧
    dirs d = dirs (disk k) ∧
    files d = <[index_path (keys_directory k) := b]>
      (delete (path_join temp_dir INDEX_FILE_NAME) (files (disk k))).
Proof.
  intros Hready. destruct (write_index_run temp_dir (index k) _ _ Hready) as (d & b & Hrun & _ & Hu & Hj & Hd & Hdirs & Hf).
  exists d, b. unfold save_index, on_disk, zoom. rewrite Hrun. by split_and!.
Qed.

(** The keys and the index file after the index was written over. *)
Lemma saved_files K k r d b :
  stores_ring K k r →
  files d = <[index_path (keys_directory k) := b]> (delete (path_join temp_dir INDEX_FILE_NAME) (files (disk k))) →
  (∀ c, files d !! key_file_path (keys_directory k) c = files (disk k) !! key_file_path (keys_directory k) c) ∧
  files d !! index_path (keys_directory k) = Some b.
Proof.
  intros Hk ->. split; [|apply lookup_insert_eq]. intros c.
  rewrite lookup_insert_ne by (intros Heq; by apply (key_path_index (keys_directory k) (keys_directory k) c)).
  by rewrite lookup_delete_ne by (by apply temp_not_key).
Qed.

Lemma add_key_run K k r key a :
  distinct_files K → stores_ring K k r → key_commitment key ∈ K →
  ∃ k', add_key temp_dir key a k = Finished (k', Ok ()) ∧ stores_ring K k' (ring_add key a r).
Proof.
  intros HK Hk Hc. pose proof Hk as [Hready Hindex Hkeys [_ Hdirs] Hring].
  pose proof (write_key_run temp_dir (keys_directory k) (key_commitment key) key (disk k) Hready) as Hwrite.
  set (d1 := set_files (<[key_file_path (keys_directory k) (key_commitment key) :=
    write_into AuthSecretKey_codec key]> (files (disk k))) (disk k)) in *.
  set (k2 := set_index (add_mapping (index k) a (key_commitment key)) (set_disk d1 k)).
  destruct (save_index_run k2) as (d & b & Hsave & Hu & Hj & Hd & Hdirs' & Hf); [by destruct Hready|].
  exists (set_disk d k2). split.
  - unfold add_key, mbind, dbm_bind, add_key_without_account, on_disk, zoom. rewrite Hwrite.
    unfold update_index, db_exec. exact Hsave.
  - split; cbn.
    + exact Hd.
    + rewrite Hindex. apply add_mapping_index.
    + intros c Hin. rewrite Hf. cbn.
      rewrite lookup_insert_ne by (intros Heq; by apply (key_path_index (keys_directory k) (keys_directory k) c)).
      rewrite lookup_delete_ne by (by apply temp_not_key). rewrite !lookup_insert.
      destruct (decide (key_commitment key = c)) as [<-|Hne]; [by rewrite decide_True|].
      rewrite decide_False; [by apply Hkeys|]. intros Heq. by apply (key_path_inj K) in Heq.
    + split; cbn; [|by rewrite Hdirs']. rewrite Hf. cbn. by rewrite lookup_insert_eq.
    + by apply (ring_op_ok K r (KeyAdd key a)).
Qed.

Lemma remove_key_run K k r c :
  distinct_files K → stores_ring K k r → c ∈ K →
  ∃ k', remove_key temp_dir c k = Finished (k', Ok ()) ∧ stores_ring K k' (ring_remove c r).
Proof.
  intros HK Hk Hc. pose proof Hk as [Hready Hindex Hkeys [_ Hdirs] Hring].
  set (k1 := set_index (remove_all_mappings_for_key (index k) c) k).
  destruct (save_index_run k1) as (d & b & Hsave & Hu & Hj & Hd & Hdirs' & Hf); [by destruct Hready|].
  cbn in Hf, Hd, Hdirs'. destruct (saved_files K k r d b Hk Hf) as [Hpaths Hidx].
  assert (∃ d', fs_remove_file (key_file_path (keys_directory k) c) d =
      Finished (d', if bool_decide (is_Some (files d !! key_file_path (keys_directory k) c)) then Ok () else Err not_found) ∧
    dirs d' = dirs d ∧ reliable d' ∧ files d' = delete (key_file_path (keys_directory k) c) (files d)) as (d' & Hrm & Hd1 & Hd2 & Hd3).
  { unfold fs_remove_file. rewrite fs_call_reliable by (by destruct Hd).
    destruct (files d !! key_file_path (keys_directory k) c) as [x|] eqn:E.
    - exists (set_files (delete (key_file_path (keys_directory k) c) (files d)) d).
      rewrite bool_decide_true by eauto. split_and!; try done. by destruct Hd.
    - exists d. rewrite bool_decide_false by (by intros []). split_and!; try done; [by destruct Hd|by rewrite delete_id]. }
  exists (set_disk d' (set_disk d k1)). split.
  - unfold remove_key, update_index, mbind, dbm_bind, db_exec. fold k1. rewrite Hsave. unfold remove_key_file.
    change (keys_directory (set_disk d k1)) with (keys_directory k). cbn [disk set_disk].
    rewrite Hrm. by case_bool_decide.
  - split; cbn.
    + destruct Hd as [Hd Ht _]. split; by rewrite ?Hd1.
    + rewrite Hindex. apply remove_mapping_index.
    + intros c' Hin. rewrite Hd3. destruct (decide (c' = c)) as [->|Hne]; [by rewrite !lookup_delete_eq|].
      rewrite !lookup_delete_ne by (done || (intros Heq; by apply (key_path_inj K) in Heq)).
      etrans; [exact (Hpaths c')|]. by apply Hkeys.
    + split; [|cbn; by rewrite Hd1, Hdirs'].
      assert (files d' !! index_path (keys_directory k) = Some b) as Hb.
      { rewrite Hd3, lookup_delete_ne by (by apply key_path_index). exact Hidx. }
      cbn in *. by rewrite Hb.
    + by apply (ring_op_ok K r (KeyRemove c)).
Qed.

Lemma reopen_run K k r :
  stores_ring K k r → ∃ k', run_op KeyReopen k = Finished (k', Ok ()) ∧ stores_ring K k' r.
Proof.
  intros Hk. pose proof Hk as [Hready Hindex Hkeys [Hsaved Hdirs] Hring]. exists k. split; [|done].
  cbn. unfold FilesystemKeyStore_new, mbind, dbm_bind. unfold or_storage_error at 1.
  destruct Hready as [Hdir Ht Hr]. rewrite fs_exists_reliable, bool_decide_true by (done || by right). cbn [map_err].
  assert (read_from_file (keys_directory k) (disk k) = Finished (disk k, Ok (index k))) as Hread.
  { destruct (files (disk k) !! index_path (keys_directory k)) as [b|] eqn:E.
    - destruct Hsaved as [Hu Hj]. by apply (read_index_run temp_dir (keys_directory k) (disk k) b (index k)).
    - unfold read_from_file, mbind, dbm_bind, or_storage_error at 1. fold (index_path (keys_directory k)).
      rewrite fs_exists_reliable, E by done. rewrite bool_decide_false by (intros [[]|]; done). cbn. by rewrite Hsaved. }
  unfold mret, dbm_ret at 1. rewrite Hread. unfold db_read. by destruct k.
Qed.
End store.

(** ** The theorems *)

Section theorems.
Context `{KeyLib} `{!AccountLaws} `{!IndexJson} `{!KeyLaws} (temp_dir : path).
Implicit Types (k : FilesystemKeyStore) (r : KeyRing).

#[local] Arguments index_path : simpl never.
#[local] Arguments key_file_path : simpl never.

Definition run_ops (ops : list key_op) : keys_m () := db_each (run_op temp_dir) ops.

Lemma run_ops_stored K ops : distinct_files K → ∀ k r, stores_ring temp_dir K k r → Forall (op_within K) ops →
  ∃ k', run_ops ops k = Finished (k', Ok ()) ∧ stores_ring temp_dir K k' (foldl ring_op r ops).
Proof.
  intros HK. induction ops as [|op ops IH]; intros k r Hk Hops; [by exists k|].
  apply Forall_cons in Hops as [Hop Hops].
  assert (∃ k1, run_op temp_dir op k = Finished (k1, Ok ()) ∧ stores_ring temp_dir K k1 (ring_op r op)) as (k1 & Hrun & Hk1).
  { destruct op as [key a|c|].
    - by apply add_key_run.
    - by apply remove_key_run.
    - by eapply reopen_run. }
  destruct (IH k1 _ Hk1 Hops) as (k' & Hrest & Hk'). exists k'. split; [|done].
  cbn [run_ops db_each]. unfold mbind, dbm_bind. by rewrite Hrun.
Qed.

Lemma set_same_disk k : set_disk (disk k) k = k.
Proof. by destruct k. Qed.

Lemma get_key_stored K k r c :
  stores_ring temp_dir K k r → c ∈ K → get_key c k = Finished (k, Ok (kr_keys r !! c)).
Proof.
  intros Hk Hc. unfold get_key, get_key_sync, fs_read. destruct (sr_ready _ _ _ _ Hk) as [_ _ Hr].
  rewrite fs_call_reliable by done. rewrite (sr_keys _ _ _ _ Hk) by done.
  destruct (kr_keys r !! c) as [key|]; cbn; rewrite set_same_disk; [|done].
  by rewrite (read_from_bytes_ok AuthSecretKey_codec any).
Qed.

Lemma collect_keys_stored K k r l :
  stores_ring temp_dir K k r → Forall (λ c, c ∈ K ∧ is_Some (kr_keys r !! c)) l →
  ∃ keys, collect_keys l k = Finished (k, Ok keys) ∧ key_commitment <$> keys = l.
Proof.
  intros Hk. induction 1 as [|c l [Hc [key Hkey]] _ (keys & IH & Hkeys)]; [by exists []|].
  exists (key :: keys). cbn [collect_keys]. unfold mbind, dbm_bind.
  rewrite (get_key_stored K k r c Hk Hc), IH, Hkey. split; [done|].
  rewrite fmap_cons, Hkeys. by rewrite (proj1 (ro_commitment _ _ (sr_ring _ _ _ _ Hk) _ _ Hkey)).
Qed.

(** A directory that is empty or not there yet. *)
Record fresh_directory (dir : path) (d : Disk) : Prop := {
  fd_temp : temp_dir ∈ dirs d;
  fd_no_files p name : p = dir ∨ p = path_join dir name → files d !! p = None;
  fd_no_dirs name : path_join dir name ∉ dirs d;
  fd_reliable : reliable d
}.

Lemma new_store_empty K dir d :
  fresh_directory dir d →
  ∃ k, FilesystemKeyStore_new dir d = Finished (disk k, Ok k) ∧ stores_ring temp_dir K k ring_empty.
Proof.
  intros [Htemp Hfiles Hdirs Hr].
  set (d1 := if bool_decide (dir ∈ dirs d) then d else set_dirs (list_to_set (prefixes dir) ∪ dirs d) d).
  assert (files d1 = files d ∧ reliable d1 ∧ dir ∈ dirs d1 ∧ temp_dir ∈ dirs d1 ∧ index_path dir ∉ dirs d1)
    as (Hf1 & Hr1 & Hd1 & Ht1 & Hi1).
  { unfold d1. case_bool_decide as Hin; [by split_and!; try apply Hdirs|]. cbn [files dirs set_dirs]. split_and!; [done|done|..].
    - apply elem_of_union_l, elem_of_list_to_set. unfold prefixes. apply list_elem_of_fmap.
      exists (length dir). rewrite take_ge by lia. split; [done|]. apply elem_of_seq. lia.
    - by apply elem_of_union_r.
    - intros [Hp|Hp]%elem_of_union; [|by apply Hdirs in Hp].
      apply elem_of_list_to_set, list_elem_of_fmap in Hp as (n & Hn & _). apply (f_equal length) in Hn.
      unfold index_path, path_join in Hn. rewrite length_app, length_take in Hn. cbn in Hn. lia. }
  exists {| keys_directory := dir; index := KeyIndex_new; disk := d1 |}. split.
  - unfold FilesystemKeyStore_new, mbind, dbm_bind. unfold or_storage_error at 1.
    rewrite fs_exists_reliable by done. rewrite (Hfiles dir "") by by left. cbn [map_err].
    assert (read_from_file dir d1 = Finished (d1, Ok KeyIndex_new)) as Hread.
    { unfold read_from_file, mbind, dbm_bind, or_storage_error at 1. fold (index_path dir).
      rewrite fs_exists_reliable by done. rewrite Hf1, (Hfiles (index_path dir) INDEX_FILE_NAME) by by right.
      by rewrite bool_decide_false by (intros [[]|]; done). }
    destruct (decide (dir ∈ dirs d)) as [Hin|Hin].
    + assert (d1 = d) as Hsame by (unfold d1; by rewrite bool_decide_true).
      rewrite bool_decide_true by (by right). cbn. rewrite <-Hsame. by rewrite Hread.
    + assert (d1 = set_dirs (list_to_set (prefixes dir) ∪ dirs d) d) as Hsame by (unfold d1; by rewrite bool_decide_false).
      rewrite bool_decide_false by (by intros [[]|]). unfold or_storage_error, fs_create_dir_all.
      rewrite fs_call_reliable by done. cbn [map_err]. rewrite <-Hsame. by rewrite Hread.
  - split; cbn [keys_directory index disk].
    + by split.
    + unfold index_of, ring_empty, kr_accounts. by rewrite fmap_empty, kmap_empty.
    + intros c _. rewrite Hf1. rewrite (Hfiles _ (hash_pub_key c)) by by right. done.
    + split; cbn [keys_directory index disk]; [|done].
      by rewrite Hf1, (Hfiles (index_path dir) INDEX_FILE_NAME) by by right.
    + by split.
Qed.

(** C16: Without faults of the file system the keystore is a key ring.  Opened on a
    directory without files, which may be the temporary one, after any additions and removals of keys, and whenever it
    was opened again in between, every key is found under its commitment, an account has
    the commitments of the keys that were added for it and not removed, its keys are all
    there, an account with a key is found from the key, and an account without keys is
    not found; provided the hashes that name the files of the keys differ. *)
Theorem keystore_refines K dir d ops :
  distinct_files K → Forall (op_within K) ops → fresh_directory dir d →
  let r := foldl ring_op ring_empty ops in
  ∃ k0 k, FilesystemKeyStore_new dir d = Finished (disk k0, Ok k0) ∧ run_ops ops k0 = Finished (k, Ok ()) ∧
    (∀ c, c ∈ K → get_key c k = Finished (k, Ok (kr_keys r !! c))) ∧
    (∀ a, get_account_key_commitments a k = Finished (k,
      ok_or (kr_accounts r !! a) (StorageError ("account not found " +:+ AccountId_to_hex a)))) ∧
    (∀ a s, kr_accounts r !! a = Some s →
      ∃ keys, get_keys_for_account a k = Finished (k, Ok keys) ∧ key_commitment <$> keys = bset_elements s) ∧
    (∀ c, ∃ found, get_account_id_by_key_commitment c k = Finished (k, Ok found) ∧
      match found with
      | Some a => ∃ s, kr_accounts r !! a = Some s ∧ c ∈ s
      | None => ∀ a s, kr_accounts r !! a = Some s → c ∉ s
      end).
Proof.
  intros HK Hops Hdir r. destruct (new_store_empty K dir d Hdir) as (k0 & Hnew & Hk0).
  destruct (run_ops_stored K ops HK k0 _ Hk0 Hops) as (k & Hrun & Hk). fold r in Hk.
  exists k0, k. split_and!; [done|done|..].
  - intros c Hc. by apply (get_key_stored K).
  - intros a. unfold get_account_key_commitments, db_read. by rewrite (sr_index _ _ _ _ Hk), commitments_spec.
  - intros a s Hs. unfold get_keys_for_account, get_account_key_commitments, mbind, dbm_bind, db_read.
    rewrite (sr_index _ _ _ _ Hk), commitments_spec, Hs. cbn [ok_or]. apply (collect_keys_stored K k r _ Hk).
    apply Forall_forall. intros c Hc%elem_of_bset_elements.
    destruct (ro_present _ _ (sr_ring _ _ _ _ Hk) _ _ _ Hs Hc) as [key Hkey].
    split; [|eauto]. by destruct (ro_commitment _ _ (sr_ring _ _ _ _ Hk) _ _ Hkey).
  - intros c. eexists. split; [reflexivity|]. rewrite (sr_index _ _ _ _ Hk). apply index_account_spec.
Qed.
End theorems.

(** ** Faults *)

Section with_faults.
Context `{KeyLib} `{!AccountLaws} `{!IndexJson} `{!KeyLaws} (temp_dir : path).
Implicit Types (k : FilesystemKeyStore).

#[local] Arguments index_path : simpl never.
#[local] Arguments key_file_path : simpl never.

(** Every call ends, with or without an error. *)
Definition ends {E S A} (m : dbm E S A) : Prop := ∀ s, ∃ s' r, m s = Finished (s', r).

Lemma ends_bind {E S A B} (m : dbm E S A) (f : A → dbm E S B) : ends m → (∀ a, ends (f a)) → ends (m ≫= f).
Proof.
  intros Hm Hf s. unfold mbind, dbm_bind. destruct (Hm s) as (s1 & [a|e] & ->); [apply Hf|eauto].
Qed.
Lemma ends_or_storage {A} context (m : disk_m A) : ends m → ends (or_storage_error context m).
Proof. intros Hm d. unfold or_storage_error. destruct (Hm d) as (d' & r & ->). eauto. Qed.
Lemma ends_call {A} (f : Disk → Disk * result io_error A) : ends (fs_call f).
Proof. intros d. apply fs_call_total. Qed.
Lemma ends_write_all p b : ends (fs_write_all p b).
Proof. intros d. unfold fs_write_all. destruct (next_fault d) as [[e|] d1]; eauto. Qed.
Lemma ends_read {E S A} (f : S → result E A) : ends (db_read f).
Proof. intros s. unfold db_read. eauto. Qed.

Lemma write_index_ends i dir : ends (write_to_file temp_dir i dir).
Proof.
  unfold write_to_file. repeat (apply ends_bind; [|intros ?]);
    first [apply ends_read | apply ends_or_storage, ends_write_all | apply ends_or_storage, ends_call].
Qed.
Lemma write_key_ends p key : ends (write_secret_key_file p key).
Proof.
  unfold write_secret_key_file. apply ends_bind; [|intros ?]; apply ends_or_storage; [apply ends_call|apply ends_write_all].
Qed.

Lemma write_key_leaves p key q d d' r :
  p ≠ q → write_secret_key_file p key d = Finished (d', r) → files d' !! q = files d !! q.
Proof.
  intros Hne. unfold write_secret_key_file, mbind, dbm_bind.
  destruct (or_storage_error _ (fs_create p) d) as [[d1 r1]| |] eqn:E1; [|done..].
  apply or_storage_Finished in E1 as (r1' & E1 & ->). apply (leaves_create p q Hne) in E1.
  destruct r1'; [|by intros [= <- _]]. cbn [map_err]. intros (r2 & E2 & _)%or_storage_Finished.
  apply (leaves_write p _ q Hne) in E2. congruence.
Qed.

(** The file of the index and the other keys' files, before and after. *)
Definition others_kept (k k' : FilesystemKeyStore) (c : Word) : Prop :=
  ∀ c', key_file_path (keys_directory k) c' ≠ key_file_path (keys_directory k) c →
    files (disk k') !! key_file_path (keys_directory k) c' = files (disk k) !! key_file_path (keys_directory k) c'.
Definition index_kept k k' : Prop :=
  files (disk k') !! index_path (keys_directory k) = files (disk k) !! index_path (keys_directory k).
Definition index_written k k' : Prop := ∃ b,
  files (disk k') !! index_path (keys_directory k) = Some b ∧ utf8_valid b = true ∧ json_from_str b = Ok (index k').

Lemma remove_file_ends c k : ∃ d r,
  remove_key_file c k = Finished (set_disk d k, r) ∧
  ∀ q, key_file_path (keys_directory k) c ≠ q → files d !! q = files (disk k) !! q.
Proof.
  unfold remove_key_file.
  assert (ends (fs_remove_file (key_file_path (keys_directory k) c))) as Hends by apply ends_call.
  destruct (Hends (disk k)) as (d & r & Hrun). rewrite Hrun. exists d.
  destruct r as [u|e]; eexists; (split; [reflexivity|]); intros q Hq; exact (leaves_remove _ q Hq _ _ _ Hrun).
Qed.

(** What a failure may leave when the temporary file is the index: a part of the new one. *)
Definition index_cut k k' : Prop := ∃ b n,
  to_string_pretty (index k') = Ok b ∧ files (disk k') !! index_path (keys_directory k) = Some (take n b).

(** What may have become of the file of the index. *)
Definition index_outcome k k' : Prop :=
  index_kept k k' ∨ index_written k k' ∨ temp_dir = keys_directory k ∧ index_cut k k'.

Lemma save_index_faults k :
  ∃ d r, save_index temp_dir k = Finished (set_disk d k, r) ∧
    index_outcome k (set_disk d k) ∧ (r = Ok () → index_written k (set_disk d k)) ∧
    ∀ c, files d !! key_file_path (keys_directory k) c = files (disk k) !! key_file_path (keys_directory k) c.
Proof.
  unfold save_index, on_disk, zoom.
  destruct (write_index_ends (index k) (keys_directory k) (disk k)) as (d & r & Hrun). rewrite Hrun.
  assert (∀ b, to_string_pretty (index k) = Ok b → files d !! index_path (keys_directory k) = Some b →
    index_written k (set_disk d k)) as Hwritten.
  { intros b Hb Hf. destruct (json_roundtrip (index k)) as (b' & Hb' & Hu & Hj). exists b.
    assert (b' = b) as -> by congruence. done. }
  exists d, r. split; [done|]. apply and_assoc. split.
  - destruct (decide (temp_dir = keys_directory k)) as [Heq|Hne].
    + destruct (write_index_cut temp_dir _ _ _ _ _ Heq Hrun) as (b & Hb & Hf). destruct r as [[]|e].
      * split; [right; left|intros _]; by eapply Hwritten.
      * split; [|done]. destruct Hf as [Hf|[n Hf]]; [by left|right; right]. split; [done|]. by exists b, n.
    + pose proof (write_index_atomic temp_dir _ _ _ _ _ Hne Hrun) as Hf. destruct r as [[]|e].
      * destruct Hf as (b & Hb & Hf). split; [right; left|intros _]; by eapply Hwritten.
      * split; [by left|done].
  - intros c. eapply (write_index_leaves temp_dir); [|apply not_eq_sym, key_path_index|exact Hrun].
    apply not_eq_sym, (key_path_index (keys_directory k) temp_dir).
Qed.

(** C17: The file of the index survives faults, unless the keys are kept in the temporary
    directory.  Whatever calls of the file system fail while a key is added or removed, the
    call ends, and when it succeeds the file of the index is read back as the index in
    memory.  When it fails and the directory of the keys is not the temporary directory, the
    file is the one from before or such a whole one.  In the temporary directory, where the
    temporary file and the index are one file, it may also be a part of the new one.  In
    each case the files of the other keys are left as they were. *)
Theorem index_survives_faults k op key account c :
  (op = add_key temp_dir key account ∧ c = key_commitment key) ∨ op = remove_key temp_dir c →
  ∃ k' r, op k = Finished (k', r) ∧ keys_directory k' = keys_directory k ∧
    (r = Ok () → index_written k k') ∧
    (temp_dir ≠ keys_directory k → index_kept k k' ∨ index_written k k') ∧
    (temp_dir = keys_directory k → index_kept k k' ∨ index_written k k' ∨ index_cut k k') ∧
    others_kept k k' c.
Proof.
  assert (∀ k', index_outcome k k' →
    (temp_dir ≠ keys_directory k → index_kept k k' ∨ index_written k k') ∧
    (temp_dir = keys_directory k → index_kept k k' ∨ index_written k k' ∨ index_cut k k')) as Hsplit.
  { unfold index_outcome. tauto. }
  intros Hop. cut (∃ k' r, op k = Finished (k', r) ∧ keys_directory k' = keys_directory k ∧
    (r = Ok () → index_written k k') ∧ index_outcome k k' ∧ others_kept k k' c).
  { intros (k' & r & ? & ? & ? & [? ?]%Hsplit & ?). exists k', r. by split_and!. }
  destruct Hop as [[-> ->]| ->].
  - unfold add_key, mbind, dbm_bind, add_key_without_account, on_disk, zoom.
    destruct (write_key_ends (key_file_path (keys_directory k) (key_commitment key)) key (disk k)) as (d1 & r1 & Hrun1).
    pose proof (λ q Hq, write_key_leaves _ _ q _ _ _ Hq Hrun1) as Hleaves.
    rewrite Hrun1. destruct r1 as [u|e].
    2:{ exists (set_disk d1 k), (Err e). split_and!; [done|done|done|left|].
      - apply Hleaves, key_path_index.
      - intros c' Hc'. by apply Hleaves. }
    unfold update_index, db_exec. set (k2 := set_index _ _).
    destruct (save_index_faults k2) as (d2 & r2 & Hrun2 & Hidx & Hok & Hkeys). cbn in Hkeys. rewrite Hrun2.
    exists (set_disk d2 k2), r2. split_and!; [done|done|exact Hok|..].
    + destruct Hidx as [Hidx|Hidx]; [left|by right]. unfold index_kept in *. cbn in *. rewrite Hidx.
      apply Hleaves, key_path_index.
    + intros c' Hc'. cbn. rewrite Hkeys. by apply Hleaves.
  - unfold remove_key, update_index, mbind, dbm_bind, db_exec. set (k1 := set_index _ k).
    destruct (save_index_faults k1) as (d2 & r2 & Hrun2 & Hidx & Hok & Hkeys). cbn in Hkeys. rewrite Hrun2.
    destruct r2 as [[]|e].
    2:{ exists (set_disk d2 k1), (Err e). split_and!; [done|done|done|exact Hidx|]. intros c' _. apply Hkeys. }
    destruct (remove_file_ends c (set_disk d2 k1)) as (d3 & r3 & Hrun3 & Hleaves). rewrite Hrun3.
    assert (index_written k (set_disk d3 (set_disk d2 k1))) as Hwritten.
    { destruct (Hok eq_refl) as (b & Hb & Hj). exists b. split; [|done]. etrans; [|exact Hb].
      apply Hleaves, key_path_index. }
    exists (set_disk d3 (set_disk d2 k1)), r3. split_and!; [done|done|done|by right; left|].
    intros c' Hc'. etrans; [apply Hleaves; by apply not_eq_sym|]. apply Hkeys.
Qed.
End with_faults.

(** ** A concrete keystore *)

#[export] Instance toy_keys : @KeyLib toy_protocol toy_account_lib := {|
  AuthSecretKey := Z;
  PublicKey := Z;
  Signature := Z * Z;
  SigningInputs := Z;
  public_key := λ key, key + 1;
  PublicKey_to_commitment := λ pk, (pk : @Word toy_protocol);
  sign := λ key w, (key, w);
  SigningInputs_to_commitment := λ i, (i : @Word toy_protocol);
  AuthSecretKey_codec := cell_codec;
  DefaultHasher_hash := λ s, match text_to_z s with Some z => Z.abs z | None => 0 end
|}.

Definition toy_key (z : Z) : @AuthSecretKey _ _ toy_keys := z.

(** A text of cells below 128, so that it is valid. *)
Fixpoint toy_bits (p : positive) : list Z :=
  match p with xH => [49] | xO p => 48 :: toy_bits p | xI p => 50 :: toy_bits p end.
Fixpoint toy_pos (l : list Z) : positive :=
  match l with
  | b :: l => if b =? 48 then xO (toy_pos l) else if b =? 50 then xI (toy_pos l) else xH
  | [] => xH
  end.

#[export] Instance toy_json : IndexJson := {|
  to_string_pretty := λ i, Ok (toy_bits (encode (version i, mappings i)));
  json_from_str := λ b, match decode (toy_pos b) with
    | Some (v, m) => Ok {| version := v; mappings := m |}
    | None => Err "not an index"%string
    end
|}.

Lemma toy_bits_roundtrip p : toy_pos (toy_bits p) = p.
Proof. induction p as [p IH|p IH|]; cbn; by rewrite ?IH. Qed.

Lemma toy_bits_valid p : utf8_valid (toy_bits p) = true.
Proof. induction p as [p IH|p IH|]; cbn; by rewrite ?IH. Qed.

#[export] Instance toy_key_laws : @KeyLaws _ _ toy_keys toy_json.
Proof.
  split.
  - apply cell_codec_ok.
  - intros s. cbn. destruct (text_to_z s); lia.
  - intros [v m]. eexists. split; [reflexivity|]. split; [apply toy_bits_valid|].
    cbn. by rewrite toy_bits_roundtrip, decode_encode.
Qed.

Definition toy_temp : path := ["tmp"%string].
Definition toy_dir : path := ["keys"%string].
Definition toy_disk : Disk := {| files := ∅; dirs := {[ [] ; toy_temp ]}; faults := [] |}.

Definition toy_ops : list key_op :=
  [KeyAdd (toy_key 8) (toy_account 1); KeyAdd (toy_key 5) (toy_account 1); KeyReopen;
   KeyRemove (toy_word 9); KeyReopen].

Lemma toy_distinct : distinct_files ({[ toy_word 9; toy_word 6 ]} : gset Word).
Proof.
  intros c c' Hc Hc' Hhash. cbn in Hhash. rewrite !text_roundtrip in Hhash.
  apply elem_of_union in Hc as [->%elem_of_singleton| ->%elem_of_singleton];
    apply elem_of_union in Hc' as [->%elem_of_singleton| ->%elem_of_singleton]; (done || discriminate Hhash).
Qed.

Lemma toy_fresh : fresh_directory toy_temp toy_dir toy_disk.
Proof.
  split; [by apply elem_of_union_r, elem_of_singleton|done| |done].
  intros name Hin. apply elem_of_union in Hin as [Hin|Hin]; apply elem_of_singleton in Hin; discriminate Hin.
Qed.

Lemma keystore_refines_witness : ∃ k0 k,
  FilesystemKeyStore_new toy_dir toy_disk = Finished (disk k0, Ok k0) ∧
  run_ops toy_temp toy_ops k0 = Finished (k, Ok ()) ∧
  get_key (toy_word 9) k = Finished (k, Ok None) ∧
  get_key (toy_word 6) k = Finished (k, Ok (Some (toy_key 5))).
Proof.
  destruct (keystore_refines toy_temp {[ toy_word 9; toy_word 6 ]} toy_dir toy_disk toy_ops toy_distinct)
    as (k0 & k & Hnew & Hrun & Hkeys & _).
  - repeat constructor; try exact I; first [by apply elem_of_union_l, elem_of_singleton|by apply elem_of_union_r, elem_of_singleton].
  - apply toy_fresh.
  - exists k0, k. split; [exact Hnew|]. split; [exact Hrun|]. split.
    + apply (Hkeys (toy_word 9)). by apply elem_of_union_l, elem_of_singleton.
    + apply (Hkeys (toy_word 6)). by apply elem_of_union_r, elem_of_singleton.
Defined.

(** The temporary file cannot be written whole. *)
Definition toy_full_disk : FilesystemKeyStore := {|
  keys_directory := toy_dir; index := KeyIndex_new;
  disk := {| files := ∅; dirs := {[ toy_dir; toy_temp ]};
    faults := [None; None; None; Some {| f_error := {| ie_not_found := false; ie_debug := "no space left" |};
      f_written := 3 |}] |} |}.

Lemma index_survives_faults_witness : ∃ k' r,
  add_key toy_temp (toy_key 8) (toy_account 1) toy_full_disk = Finished (k', r) ∧
  (index_kept toy_full_disk k' ∨ index_written toy_full_disk k').
Proof.
  destruct (index_survives_faults toy_temp toy_full_disk (add_key toy_temp (toy_key 8) (toy_account 1))
    (toy_key 8) (toy_account 1) (toy_word 9)) as (k' & r & Hrun & _ & _ & Hindex & _).
  - left. by split.
  - exists k', r. split; [exact Hrun|]. by apply Hindex.
Defined.

(** The same fault when the keys are in the temporary directory: an index that was whole is
    cut, and the keystore can not be opened any more. *)
Definition toy_shared_disk : FilesystemKeyStore := {|
  keys_directory := toy_temp; index := KeyIndex_new;
  disk := {| files := {[ index_path toy_temp := toy_bits (encode (version KeyIndex_new, mappings KeyIndex_new)) ]};
    dirs := {[ toy_temp ]}; faults := faults (disk toy_full_disk) |} |}.

Example shared_directory_cuts_index :
  match FilesystemKeyStore_new toy_temp {| files := files (disk toy_shared_disk); dirs := {[ toy_temp ]}; faults := [] |} with
  | Finished (_, Ok k) => bool_decide (mappings (index k) = ∅)
  | _ => false
  end = true ∧
  match add_key toy_temp (toy_key 8) (toy_account 1) toy_shared_disk with
  | Finished (k', Err _) =>
      match FilesystemKeyStore_new toy_temp {| files := files (disk k'); dirs := {[ toy_temp ]}; faults := [] |} with
      | Finished (_, Err (DecodingError _)) => true
      | _ => false
      end
  | _ => false
  end = true.
Proof. split; by vm_compute. Qed.
