(* ===== verification/GrpcClient.v ===== *)
(** * The connection of the gRPC client

    [rpc/tonic_client/mod.rs] and [rpc/tonic_client/api_client.rs]: the state of the
    client, how it connects, the [accept] header that each of its requests carries, the
    retries of a call over that state, and the requests whose answers are not paged.
    Transport, messages on the wire and other crates are parameters. *)

From S2P Require Import Prelude Protocol Serde Model NoteStates InputNote OutputNote TxRecord.
From S2P Require Import NodeErrors Errors NoteTracker TxOrdering Rpc Grpc Text Endpoint.
From S2P Require Import AccountTypes SmtForest Sql Store AccountReaders Proto ProtoNotes AccountProofs.
From Stdlib Require Import ZArith Lia Ascii.
From stdpp Require Import base gmap list strings.

Open Scope Z_scope.

(** ** The calls of the node's service *)

Section calls.
Context `{AccountWireLib} `{!NoteWireLib}.

Record ProtoBlockHeaderResponse := {
  pbh_block_header : option ProtoBlockHeader;
  pbh_chain_length : option u32;
  pbh_mmr_path : option (list ProtoDigest)
}.

Record ProtoSyncNullifiersResponse := {
  psn_nullifiers : list ProtoNullifierUpdate;
  psn_pagination_info : option ProtoPaginationInfo
}.

(** A call with its message; the index is the message of the answer. *)
Inductive api_call : Type → Type :=
| Call_status : api_call ProtoRpcStatus
| Call_submit_proven_transaction (transaction : bytes) (transaction_inputs : option bytes) :
    api_call u32
| Call_get_block_header_by_number (block_num : option u32) (include_mmr_proof : option bool) :
    api_call ProtoBlockHeaderResponse
| Call_sync_chain_mmr (block_range : option ProtoBlockRange) (finality : Z) :
    api_call ProtoSyncChainMmrResponse
| Call_sync_notes (block_range : option ProtoBlockRange) (note_tags : list u32) :
    api_call ProtoSyncNotesResponse
| Call_get_block_by_number (block_num : u32) : api_call (option bytes)
| Call_get_note_script_by_root (root : option ProtoDigest) : api_call (option ProtoNoteScript)
| Call_sync_transactions (block_range : option ProtoBlockRange) (account_ids : list bytes) :
    api_call ProtoSyncTransactionsResponse
| Call_get_limits : api_call proto_limits
| Call_get_account (request : ProtoAccountRequest) : api_call ProtoAccountResponse
| Call_get_notes_by_id (ids : list (option ProtoDigest)) : api_call (list ProtoCommittedNote)
| Call_check_nullifiers (nullifiers : list ProtoDigest) : api_call (list ProtoSmtOpening)
| Call_sync_nullifiers (nullifiers : list u32) (prefix_len : u32) (block_range : option ProtoBlockRange) :
    api_call ProtoSyncNullifiersResponse
| Call_sync_account_storage_maps (block_range : option ProtoBlockRange) (account_id : option bytes) :
    api_call (ProtoPage ProtoStorageMapUpdate)
| Call_sync_account_vault (block_range : option ProtoBlockRange) (account_id : option bytes) :
    api_call (ProtoPage ProtoVaultUpdate).
End calls.

(** ** Transport *)

(** [tonic]: an address is parsed and configured, and connected to get a channel; a call
    on a channel carries metadata.  The network is the state of everything outside. *)
Class Tonic `{AccountWireLib} `{!NoteWireLib} := {
  CARGO_PKG_VERSION : string;
  (* [proto::rpc::Finality::Committed as i32]. *)
  Finality_Committed : Z;
  AsciiMetadataValue : Type;
  AsciiMetadataValue_try_from : string → result foreign AsciiMetadataValue;
  TransportEndpoint : Type;
  TransportEndpoint_try_from : string → result foreign TransportEndpoint;
  TransportEndpoint_timeout : TransportEndpoint → u64 → TransportEndpoint;
  TransportEndpoint_tls_config : TransportEndpoint → result foreign TransportEndpoint;
  Channel : Type;
  Network : Type;
  TransportEndpoint_connect : TransportEndpoint → Network → Network * result foreign Channel;
  Channel_call : ∀ {A}, Channel → gmap string AsciiMetadataValue → api_call A →
    Network → Network * result Status A;
  async_sleep : Z → Network → Network
}.

(** Other parts of the protocol crate that the answers are made into. *)
Class GrpcLib `{NoteWireLib} := {
  GrpcProvenTransaction : Type;
  ProvenTransaction_to_bytes : GrpcProvenTransaction → bytes;
  GrpcTransactionInputs : Type;
  TransactionInputs_to_bytes : GrpcTransactionInputs → bytes;
  ProvenBlock : Type;
  ProvenBlock_read_from_bytes : bytes → result string ProvenBlock;
  (* Forest, position, path and leaf. *)
  MmrProof_of_path : u64 → u32 → MerklePath → Word → MmrProof;
  NetworkId : Type;
  NetworkId_Testnet : NetworkId;
  NetworkId_Devnet : NetworkId;
  NetworkId_new : string → option NetworkId
}.

(** ** The interceptor ([api_client.rs]) *)

Section api_client.
Context `{Tonic}.

Record MetadataInterceptor := { metadata : gmap string AsciiMetadataValue }.

Definition MetadataInterceptor_default : MetadataInterceptor := {| metadata := ∅ |}.

Definition with_metadata (self : MetadataInterceptor) (key value : string) :
    result foreign MetadataInterceptor :=
  value ← AsciiMetadataValue_try_from value;
  Ok {| metadata := <[key := value]> (metadata self) |}.

(** [Interceptor::call] inserts each entry in the metadata of the request. *)
Definition Interceptor_call (self : MetadataInterceptor) (request : gmap string AsciiMetadataValue) :
    gmap string AsciiMetadataValue :=
  map_fold (λ key value request, <[key := value]> request) request (metadata self).

Definition accept_value (genesis_digest : option Word) : string :=
  "application/vnd.miden; version=" +:+ CARGO_PKG_VERSION +:+
  match genesis_digest with
  | Some commitment => "; genesis=" +:+ Word_to_hex commitment
  | None => ""
  end.

(** The [expect] is on the value of the header. *)
Definition accept_header_interceptor (genesis_digest : option Word) : loop_result MetadataInterceptor :=
  match with_metadata MetadataInterceptor_default "accept" (accept_value genesis_digest) with
  | Ok interceptor => Finished interceptor
  | Err _ => Panicked
  end.

(** ** The connected client *)

(** [InterceptedService] around a channel. *)
Record InnerClient := { ic_channel : Channel; ic_interceptor : MetadataInterceptor }.

Definition with_interceptor (channel : Channel) (interceptor : MetadataInterceptor) : InnerClient :=
  {| ic_channel := channel; ic_interceptor := interceptor |}.

(** A call on it. *)
Definition InnerClient_call {A} (self : InnerClient) (call : api_call A) (n : Network) :
    Network * result Status A :=
  Channel_call (ic_channel self) (Interceptor_call (ic_interceptor self) ∅) call n.

Record ApiClient := { ac_client : InnerClient; ac_channel : Channel }.

(** The channel of an address. *)
Definition connect_channel (endpoint : string) (timeout_ms : u64) : dbm RpcError Network Channel := λ n,
  match TransportEndpoint_try_from endpoint with
  | Err err => Finished (n, Err (Rpc_ConnectionError err))
  | Ok endpoint =>
      match TransportEndpoint_tls_config (TransportEndpoint_timeout endpoint timeout_ms) with
      | Err err => Finished (n, Err (Rpc_ConnectionError err))
      | Ok endpoint =>
          let '(n, channel) := TransportEndpoint_connect endpoint n in
          Finished (n, map_err Rpc_ConnectionError channel)
      end
  end.

Definition db_finish {E S A} (m : loop_result A) : dbm E S A := λ s,
  match m with
  | Finished a => Finished (s, Ok a)
  | Panicked => Panicked
  | OutOfFuel => OutOfFuel
  end.

Definition new_client (endpoint : string) (timeout_ms : u64) (genesis_commitment : option Word) :
    dbm RpcError Network ApiClient :=
  channel ← connect_channel endpoint timeout_ms;
  interceptor ← db_finish (accept_header_interceptor genesis_commitment);
  mret {| ac_client := with_interceptor channel interceptor; ac_channel := channel |}.

Definition new_client_without_accept_header (endpoint : string) (timeout_ms : u64) :
    dbm RpcError Network ApiClient :=
  channel ← connect_channel endpoint timeout_ms;
  mret {| ac_client := with_interceptor channel MetadataInterceptor_default; ac_channel := channel |}.

Definition ApiClient_set_genesis_commitment (self : ApiClient) (genesis_commitment : Word) :
    loop_result ApiClient :=
  match accept_header_interceptor (Some genesis_commitment) with
  | Finished interceptor => Finished
      {| ac_client := with_interceptor (ac_channel self) interceptor; ac_channel := ac_channel self |}
  | Panicked => Panicked
  | OutOfFuel => OutOfFuel
  end.

(** ** The state of the client ([mod.rs]) *)

(** The fields of the client, and the network it talks to. *)
Record GrpcClient := {
  client : option ApiClient;
  endpoint : string;
  timeout_ms : u64;
  genesis_commitment : option Word;
  limits : option RpcLimits;
  gc_max_retries : u32;
  gc_retry_interval_ms : u64;
  network : Network
}.

Definition grpc_m (A : Type) : Type := dbm RpcError GrpcClient A.

Definition set_client (c : option ApiClient) (self : GrpcClient) : GrpcClient := {|
  client := c; endpoint := endpoint self; timeout_ms := timeout_ms self;
  genesis_commitment := genesis_commitment self; limits := limits self;
  gc_max_retries := gc_max_retries self; gc_retry_interval_ms := gc_retry_interval_ms self;
  network := network self |}.
Definition set_genesis (w : option Word) (self : GrpcClient) : GrpcClient := {|
  client := client self; endpoint := endpoint self; timeout_ms := timeout_ms self;
  genesis_commitment := w; limits := limits self;
  gc_max_retries := gc_max_retries self; gc_retry_interval_ms := gc_retry_interval_ms self;
  network := network self |}.
Definition set_limits (l : option RpcLimits) (self : GrpcClient) : GrpcClient := {|
  client := client self; endpoint := endpoint self; timeout_ms := timeout_ms self;
  genesis_commitment := genesis_commitment self; limits := l;
  gc_max_retries := gc_max_retries self; gc_retry_interval_ms := gc_retry_interval_ms self;
  network := network self |}.
Definition set_network (n : Network) (self : GrpcClient) : GrpcClient := {|
  client := client self; endpoint := endpoint self; timeout_ms := timeout_ms self;
  genesis_commitment := genesis_commitment self; limits := limits self;
  gc_max_retries := gc_max_retries self; gc_retry_interval_ms := gc_retry_interval_ms self;
  network := n |}.

(** A step on the network. *)
Definition on_network {A} (m : dbm RpcError Network A) : grpc_m A := zoom network set_network m.

Definition GrpcClient_new (e : Endpoint) (timeout_ms : u64) (n : Network) : GrpcClient := {|
  client := None; endpoint := Endpoint_fmt e; timeout_ms := timeout_ms;
  genesis_commitment := None; limits := None;
  gc_max_retries := DEFAULT_MAX_RETRIES; gc_retry_interval_ms := DEFAULT_RETRY_INTERVAL_MS;
  network := n |}.

Definition with_max_retries (self : GrpcClient) (max_retries : u32) : GrpcClient := {|
  client := client self; endpoint := endpoint self; timeout_ms := timeout_ms self;
  genesis_commitment := genesis_commitment self; limits := limits self;
  gc_max_retries := max_retries; gc_retry_interval_ms := gc_retry_interval_ms self;
  network := network self |}.

Definition with_retry_interval_ms (self : GrpcClient) (retry_interval_ms : u64) : GrpcClient := {|
  client := client self; endpoint := endpoint self; timeout_ms := timeout_ms self;
  genesis_commitment := genesis_commitment self; limits := limits self;
  gc_max_retries := gc_max_retries self; gc_retry_interval_ms := retry_interval_ms;
  network := network self |}.

Definition connect : grpc_m () :=
  self ← db_read Ok;
  new_client ← on_network (new_client (endpoint self) (timeout_ms self) (genesis_commitment self));
  db_exec (λ self, Ok (set_client (Some new_client) self)).

Definition ensure_connected : grpc_m ApiClient :=
  self ← db_read Ok;
  (if client self is None then connect else mret ());;
  self ← db_read Ok;
  match client self with Some rpc_api => mret rpc_api | None => db_panic end.

(** The error of a status, with the commitment the client has by then. *)
Definition fail_with_status {A} (rpc_endpoint : RpcEndpoint) (status : Status) : grpc_m A := λ self,
  Finished (self, Err (rpc_error_from_status CARGO_PKG_VERSION Word_to_hex
    (genesis_commitment self) rpc_endpoint status)).

(** A call, whose status is not yet an error. *)
Definition send {A} (rpc_api : ApiClient) (call : api_call A) : grpc_m (result Status A) :=
  on_network (λ n, let '(n, answer) := InnerClient_call (ac_client rpc_api) call n in
    Finished (n, Ok answer)).

(** The loop of [call_with_retry]. *)
Fixpoint retry_calls {A} (fuel : nat) (retry_state : RetryState) (rpc_endpoint : RpcEndpoint)
    (call : api_call A) : grpc_m A :=
  match fuel with
  | O => λ _, OutOfFuel
  | S fuel =>
      rpc_api ← ensure_connected;
      answer ← send rpc_api call;
      match answer with
      | Ok response => mret response
      | Err status =>
          match should_retry retry_state status with
          | Some (delay, retry_state) =>
              on_network (λ n, Finished (async_sleep delay n, Ok ()));;
              retry_calls fuel retry_state rpc_endpoint call
          | None => fail_with_status rpc_endpoint status
          end
      end
  end.

Definition grpc_call {A} (rpc_endpoint : RpcEndpoint) (call : api_call A) : grpc_m A := λ self,
  retry_calls (S (Z.to_nat (gc_max_retries self)))
    (RetryState_new (gc_max_retries self) (gc_retry_interval_ms self)) rpc_endpoint call self.

(** A step that cannot change the state. *)
Definition grpc_lift {A} (r : result RpcError A) : grpc_m A := db_read (λ _, r).
Definition grpc_eff {A} (m : eff RpcError A) : grpc_m A := λ self,
  match m with
  | Finished r => Finished (self, r)
  | Panicked => Panicked
  | OutOfFuel => OutOfFuel
  end.

(** ** Methods that run at the same time

    The methods take the client by a shared reference, and give up the locks between
    their uses: a task is a call of [ensure_connected] or of [set_genesis_commitment]
    from the next use of a lock on. *)

Inductive task :=
| Task_ensure_connected
| Task_connect
| Task_connecting (genesis : option Word)
| Task_set_genesis (commitment : Word)
| Task_store (commitment : Word)
| Task_update (commitment : Word)
| Task_done.

(** One use of the locks; connecting is between two of them. *)
Inductive task_step : GrpcClient → task → GrpcClient → task → Prop :=
| TS_connected s api : client s = Some api → task_step s Task_ensure_connected s Task_done
| TS_not_connected s : client s = None → task_step s Task_ensure_connected s Task_connect
| TS_read_genesis s : task_step s Task_connect s (Task_connecting (genesis_commitment s))
| TS_new_client s g n api :
    new_client (endpoint s) (timeout_ms s) g (network s) = Finished (n, Ok api) →
    task_step s (Task_connecting g) (set_client (Some api) (set_network n s)) Task_done
| TS_no_client s g n err :
    new_client (endpoint s) (timeout_ms s) g (network s) = Finished (n, Err err) →
    task_step s (Task_connecting g) (set_network n s) Task_done
| TS_already_set s w w' :
    genesis_commitment s = Some w' → task_step s (Task_set_genesis w) s Task_done
| TS_not_set s w :
    genesis_commitment s = None → task_step s (Task_set_genesis w) s (Task_store w)
| TS_store s w : task_step s (Task_store w) (set_genesis (Some w) s) (Task_update w)
| TS_update_client s w api api' :
    client s = Some api → ApiClient_set_genesis_commitment api w = Finished api' →
    task_step s (Task_update w) (set_client (Some api') s) Task_done
| TS_update_none s w : client s = None → task_step s (Task_update w) s Task_done.

(** Any of the tasks takes the next step. *)
Inductive tasks_step : GrpcClient * list task → GrpcClient * list task → Prop :=
| TS_one s s' l1 t t' l2 :
    task_step s t s' t' → tasks_step (s, l1 ++ t :: l2) (s', l1 ++ t' :: l2).

(** ** Without an accept header *)

Definition get_status_unversioned : grpc_m RpcStatusInfo :=
  self ← db_read Ok;
  rpc_api ← on_network (new_client_without_accept_header (endpoint self) (timeout_ms self));
  answer ← send rpc_api Call_status;
  match answer with
  | Ok response => grpc_lift (RpcStatusInfo_try_from response)
  | Err status => fail_with_status Status_ status
  end.

(** ** The genesis commitment *)

Definition has_genesis_commitment : grpc_m (option Word) := db_read (λ self, Ok (genesis_commitment self)).

Definition set_genesis_commitment (commitment : Word) : grpc_m () :=
  self ← db_read Ok;
  if genesis_commitment self is Some _ then mret ()
  else
    db_exec (λ self, Ok (set_genesis (Some commitment) self));;
    self ← db_read Ok;
    match client self with
    | Some rpc_api =>
        rpc_api ← db_finish (ApiClient_set_genesis_commitment rpc_api commitment);
        db_exec (λ self, Ok (set_client (Some rpc_api) self))
    | None => mret ()
    end.

(** ** Limits *)

Definition grpc_get_rpc_limits : grpc_m RpcLimits :=
  self ← db_read Ok;
  match limits self with
  | Some limits => mret limits
  | None =>
      response ← grpc_call GetLimits Call_get_limits;
      limits ← grpc_lift (conversion (map_err (Conv_MissingField "RpcLimits") (RpcLimits_try_from response)));
      db_exec (λ self, Ok (set_limits (Some limits) self));;
      mret limits
  end.

Definition has_rpc_limits : grpc_m (option RpcLimits) := db_read (λ self, Ok (limits self)).
Definition set_rpc_limits (l : RpcLimits) : grpc_m () := db_exec (λ self, Ok (set_limits (Some l) self)).

(** ** Requests *)

Context `{!GrpcLib}.

Definition grpc_submit_proven_transaction (proven_transaction : GrpcProvenTransaction)
    (transaction_inputs : GrpcTransactionInputs) : grpc_m BlockNumber :=
  grpc_call SubmitProvenTx (Call_submit_proven_transaction
    (ProvenTransaction_to_bytes proven_transaction)
    (Some (TransactionInputs_to_bytes transaction_inputs))).

(** The forest, a [u32] of the message, fits in a [usize]. *)
Definition grpc_get_block_header_by_number (block_num : option BlockNumber) (include_mmr_proof : bool) :
    grpc_m (BlockHeader * option MmrProof) :=
  response ← grpc_call GetBlockHeaderByNumber
    (Call_get_block_header_by_number block_num (Some include_mmr_proof));
  block_header ← grpc_lift (ok_or (pbh_block_header response) (Rpc_ExpectedDataMissing "BlockHeader"));
  block_header ← grpc_lift (conversion (BlockHeader_try_from block_header));
  if include_mmr_proof then
    forest ← grpc_lift (ok_or (pbh_chain_length response) (Rpc_ExpectedDataMissing "ChainLength"));
    merkle_path ← grpc_lift (ok_or (pbh_mmr_path response) (Rpc_ExpectedDataMissing "MmrPath"));
    merkle_path ← grpc_lift (conversion (MerklePath_try_from merkle_path));
    mret (block_header, Some (MmrProof_of_path forest (BlockHeader_block_num block_header) merkle_path
      (BlockHeader_commitment block_header)))
  else mret (block_header, None).

Definition block_range (block_from : BlockNumber) (block_to : option BlockNumber) : option ProtoBlockRange :=
  Some {| pbr_block_from := block_from; pbr_block_to := block_to |}.

Definition grpc_sync_chain_mmr (block_from : BlockNumber) (block_to : option BlockNumber) :
    grpc_m ChainMmrInfo :=
  response ← grpc_call SyncChainMmr (Call_sync_chain_mmr (block_range block_from block_to)
    Finality_Committed);
  grpc_lift (ChainMmrInfo_try_from response).

(** The tags are a [BTreeSet]. *)
Definition grpc_sync_notes (block_num : BlockNumber) (block_to : option BlockNumber)
    (note_tags : gset NoteTag) : grpc_m NoteSyncInfo :=
  response ← grpc_call SyncNotes (Call_sync_notes (block_range block_num block_to)
    (NoteTag_as_u32 <$> bset_elements note_tags));
  grpc_eff (NoteSyncInfo_try_from response).

Definition grpc_get_block_by_number (block_num : BlockNumber) : grpc_m ProvenBlock :=
  response ← grpc_call GetBlockByNumber (Call_get_block_by_number block_num);
  block ← grpc_lift (ok_or response (Rpc_ExpectedDataMissing "GetBlockByNumberResponse.block"));
  grpc_lift (map_err Rpc_DeserializationError (ProvenBlock_read_from_bytes block)).

Definition grpc_get_note_script_by_root (root : Word) : grpc_m NoteScript :=
  response ← grpc_call GetNoteScriptByRoot
    (Call_get_note_script_by_root (Some (ProtoDigest_of_word root)));
  script ← grpc_lift (ok_or response (Rpc_ExpectedDataMissing "GetNoteScriptByRoot.script"));
  grpc_lift (conversion (NoteScript_try_from script)).

Definition grpc_sync_transactions (block_from : BlockNumber) (block_to : option BlockNumber)
    (account_ids : list AccountId) : grpc_m TransactionsInfo :=
  response ← grpc_call SyncTransactions (Call_sync_transactions (block_range block_from block_to)
    (AccountId_to_bytes <$> account_ids));
  grpc_eff (TransactionsInfo_try_from response).

(** The message of [u16]'s [parse], which is the only error of an address: a digit is
    read before the product that it is added to is found to be too large. *)
Fixpoint parse_int_error (max acc : Z) (s : string) : string :=
  match s with
  | EmptyString => ""
  | String c s =>
      match digit c with
      | None => "invalid digit found in string"
      | Some d =>
          if max <? acc * 10 + d then "number too large to fit in target type"
          else parse_int_error max (acc * 10 + d) s
      end
  end.

Definition u16_error (s : string) : string :=
  match s with
  | EmptyString => "cannot parse integer from empty string"
  | String "+"%char EmptyString => "invalid digit found in string"
  | String "+"%char s => parse_int_error U16_MAX 0 s
  | s => parse_int_error U16_MAX 0 s
  end.

(** The text of the port, after the last colon. *)
Definition port_text (endpoint : string) : string :=
  match str_rfind ":"%char endpoint with
  | Some i => trim_end_matches "/"%char (default "" (slice_from (S i) endpoint))
  | None => ""
  end.

Definition get_network_id : grpc_m NetworkId :=
  self ← db_read Ok;
  e ← grpc_eff (eff_map_err (λ _, Rpc_InvalidNodeEndpoint (u16_error (port_text (endpoint self))))
    (Endpoint_try_from (endpoint self)));
  db_finish (to_network_id NetworkId_Testnet NetworkId_Devnet NetworkId_new e).
End api_client.
