(* ===== verification/GrpcRequests.v ===== *)
(** * Requests of the gRPC client in several calls

    [rpc/tonic_client/mod.rs]: the methods that ask in chunks or page by page, and the
    requests for an account, over the state of the client.  [Grpc.v] and
    [AccountProofs.v] define the same methods over the answers of a node; here each call
    goes through the connection, and the two are related: for a node that gives these
    answers, the method over the state is the method over the answers. *)

From S2P Require Import Prelude Protocol Serde Model NoteStates InputNote OutputNote TxRecord.
From S2P Require Import NodeErrors Errors NoteTracker TxOrdering Rpc Grpc Text Endpoint.
From S2P Require Import AccountTypes SmtForest Sql Store AccountReaders Proto Stable ProtoNotes AccountProofs GrpcClient.
From Stdlib Require Import ZArith Lia.
From stdpp Require Import base gmap list strings.

Open Scope Z_scope.

Section requests.
Context `{Tonic}.

(** A loop over a list. *)
Fixpoint grpc_fold {A B} (f : B → A → grpc_m B) (l : list A) (b : B) : grpc_m B :=
  match l with
  | [] => mret b
  | a :: l => b ← f b a; grpc_fold f l b
  end.

(** ** Chunks *)

(** The answers to the chunks of a list, one after another. *)
Definition in_chunks {A B} (limit : u32) (request : list A → grpc_m (list B)) (l : list A) :
    grpc_m (list B) :=
  match chunks limit l with
  | None => db_panic
  | Some cs => grpc_fold (λ acc chunk, batch ← request chunk; mret (acc ++ batch)) cs []
  end.

Definition notes_by_id_request (chunk : list NoteId) : grpc_m (list FetchedNote) :=
  api_response ← grpc_call GetNotesById
    (Call_get_notes_by_id ((λ id, Some (ProtoDigest_of_word (NoteId_as_word id))) <$> chunk));
  grpc_eff (eff_map_err RpcError_of_conversion (eff_try_map FetchedNote_try_from api_response)).

Definition tonic_get_notes_by_id (note_ids : list NoteId) : grpc_m (list FetchedNote) :=
  limits ← grpc_get_rpc_limits;
  in_chunks (note_ids_limit limits) notes_by_id_request note_ids.

Definition check_nullifiers_request (chunk : list Nullifier) : grpc_m (list SmtProof) :=
  response ← grpc_call CheckNullifiers
    (Call_check_nullifiers ((λ nul, ProtoDigest_of_word (Nullifier_as_word nul)) <$> chunk));
  grpc_lift (conversion (try_map SmtProof_try_from response)).

Definition tonic_check_nullifiers (nullifiers : list Nullifier) : grpc_m (list SmtProof) :=
  limits ← grpc_get_rpc_limits;
  in_chunks (nullifiers_limit limits) check_nullifiers_request nullifiers.

(** ** Nullifiers *)

(** A page, with the message of a failed conversion. *)
Definition nullifiers_request (chunk : list u16) (current_block_from : BlockNumber)
    (block_to : option BlockNumber) : grpc_m (PageResponse string NullifierUpdate) :=
  response ← grpc_call SyncNullifiers
    (Call_sync_nullifiers chunk 16 (block_range current_block_from block_to));
  mret {| pr_page := (λ page, (ppi_block_num page, ppi_chain_tip page)) <$> psn_pagination_info response;
          pr_items := map_err RpcConversionError_to_string
            (try_map NullifierUpdate_try_from (psn_nullifiers response)) |}.

Fixpoint tonic_nullifier_pages (iters : nat) (chunk : list u16) (current_block_from : BlockNumber)
    (block_to : option BlockNumber) (all_nullifiers : updates_set) : grpc_m updates_set :=
  match iters with
  | O => db_fail too_many_iterations
  | S iters =>
      response ← nullifiers_request chunk current_block_from block_to;
      batch ← grpc_lift (map_err Rpc_InvalidResponse (pr_items response));
      let all_nullifiers := all_nullifiers ∪ list_to_set (update_key <$> batch) in
      match pr_page response with
      | None => tonic_nullifier_pages iters chunk current_block_from block_to all_nullifiers
      | Some (page_block_num, page_chain_tip) =>
          if page_block_num <? current_block_from then db_fail went_backwards
          else if target_block block_to page_chain_tip <=? page_block_num then mret all_nullifiers
          else
            match checked_add U32_MAX page_block_num 1 with
            | None => db_panic
            | Some next => tonic_nullifier_pages iters chunk next block_to all_nullifiers
            end
      end
  end.

Definition tonic_sync_nullifiers (prefixes : list u16) (block_num : BlockNumber)
    (block_to : option BlockNumber) : grpc_m (list NullifierUpdate) :=
  limits ← grpc_get_rpc_limits;
  match chunks (nullifiers_limit limits) prefixes with
  | None => db_panic
  | Some cs =>
      all_nullifiers ← grpc_fold (λ all_nullifiers chunk,
        tonic_nullifier_pages (Z.to_nat MAX_ITERATIONS) chunk block_num block_to all_nullifiers) cs ∅;
      mret (key_update <$> bset_elements all_nullifiers)
  end.

(** ** The vault and the storage maps of an account *)

(** The loop over the pages. *)
Fixpoint tonic_block_pages {A}
    (request : BlockNumber → option BlockNumber → grpc_m (PageResponse RpcError A))
    (fuel : nat) (pagination : BlockPagination) (updates : list A) :
    grpc_m (BlockNumber * BlockNumber * list A) :=
  match fuel with
  | O => λ _, OutOfFuel
  | S fuel =>
      response ← request (current_block_from pagination) (bp_block_to pagination);
      page ← grpc_lift (ok_or (pr_page response) (Rpc_ExpectedDataMissing "pagination_info"));
      batch ← grpc_lift (pr_items response);
      let updates := updates ++ batch in
      let '(pagination, advanced) := advance pagination page.1 page.2 in
      advanced ← grpc_lift advanced;
      match advanced with
      | Continue => tonic_block_pages request fuel pagination updates
      | Done chain_tip block_num => mret (chain_tip, block_num, updates)
      end
  end.

Definition storage_maps_request (account_id : AccountId) (block_from : BlockNumber)
    (block_to : option BlockNumber) : grpc_m (PageResponse RpcError StorageMapUpdate) :=
  response ← grpc_call SyncStorageMaps (Call_sync_account_storage_maps (block_range block_from block_to)
    (Some (proto_of_account_id account_id)));
  mret {| pr_page := page_info response;
          pr_items := conversion (try_map StorageMapUpdate_try_from (page_updates response)) |}.

Definition tonic_sync_storage_maps (block_from : BlockNumber) (block_to : option BlockNumber)
    (account_id : AccountId) : grpc_m (StorageMapInfo StorageMapUpdate) :=
  '(chain_tip, block_number, updates) ← tonic_block_pages (storage_maps_request account_id) page_fuel
    (BlockPagination_new block_from block_to) [];
  mret {| smi_chain_tip := chain_tip; smi_block_number := block_number; smi_updates := updates |}.

Definition vault_request (account_id : AccountId) (block_from : BlockNumber)
    (block_to : option BlockNumber) : grpc_m (PageResponse RpcError AccountVaultUpdate) :=
  response ← grpc_call SyncAccountVault (Call_sync_account_vault (block_range block_from block_to)
    (Some (proto_of_account_id account_id)));
  mret {| pr_page := page_info response;
          pr_items := try_map AccountVaultUpdate_try_from (page_updates response) |}.

Definition tonic_sync_account_vault (block_from : BlockNumber) (block_to : option BlockNumber)
    (account_id : AccountId) : grpc_m (AccountVaultInfo AccountVaultUpdate) :=
  '(chain_tip, block_number, updates) ← tonic_block_pages (vault_request account_id) page_fuel
    (BlockPagination_new block_from block_to) [];
  mret {| avi_chain_tip := chain_tip; avi_block_number := block_number; avi_updates := updates |}.

(** ** Accounts *)

Definition account_request (request : ProtoAccountRequest) : grpc_m ProtoAccountResponse :=
  grpc_call GetAccount (Call_get_account request).

Definition tonic_fetch_full_account_proof (account_id : AccountId) : grpc_m (BlockNumber * AccountProof) :=
  let has_public_state := AccountId_has_public_state account_id in
  account_response ← account_request
    (full_request account_id (if has_public_state then Some [] else None));
  block_number ← grpc_lift (ok_or (pres_block_num account_response) (Rpc_ExpectedDataMissing
    "GetAccountDetails returned an account without a matching block number for the witness"));
  account_proof ←
    (if has_public_state then
       account_details ← grpc_lift (ok_or (pres_details account_response)
         (Rpc_ExpectedDataMissing "details in public account"));
       account_details ← grpc_lift (into_domain account_details ∅ ∅);
       let storage_header := sd_header (det_storage_details account_details) in
       let maps_to_request := (λ slot, StorageSlotName_to_string slot.1.1) <$>
         filter (λ slot : StorageSlotName * StorageSlotType * Word, slot.1.2 = SlotType_Map)
           storage_header in
       response ← account_request (full_request account_id (Some
         ((λ slot_name, {| smr_slot_name := slot_name;
             smr_slot_data := Some (SlotData_AllEntries true) |}) <$> maps_to_request)));
       grpc_eff (AccountProof_try_from response)
     else grpc_eff (AccountProof_try_from account_response));
  mret (block_number, account_proof).

Definition tonic_build_storage_slot (account_id : AccountId) (storage_details : AccountStorageDetails)
    (acc : list (StorageSlotName * (Word + StorageMap)) * option (StorageMapInfo StorageMapUpdate))
    (slot_header : StorageSlotName * StorageSlotType * Word) :
    grpc_m (list (StorageSlotName * (Word + StorageMap)) * option (StorageMapInfo StorageMapUpdate)) :=
  let '(slots, map_cache) := acc in
  let name := slot_header.1.1 in
  match slot_header.1.2 with
  | SlotType_Value => mret (slots ++ [(name, inl slot_header.2)], map_cache)
  | SlotType_Map =>
      map_details ← grpc_lift (ok_or (find_map_details storage_details name) (Rpc_ExpectedDataMissing
        ("slot named '" +:+ StorageSlotName_to_string name +:+
         "' was reported as a map, but it does not have a matching map_detail entry")));
      '(storage_map, map_cache) ←
        (if md_too_many_entries map_details then
           map_info ← match map_cache with
             | Some info => mret info
             | None => tonic_sync_storage_maps 0 None account_id
             end;
           mret (StorageMap_with_entries (latest_entries (smi_updates map_info) name), Some map_info)
         else
           m ← grpc_lift (ok_or (into_storage_map (md_entries map_details)) (Rpc_ExpectedDataMissing
             "expected AllEntries for full account fetch, got EntriesWithProofs"));
           mret (m, map_cache));
      storage_map ← grpc_lift (map_err (λ err, Rpc_InvalidResponse
        ("the rpc api returned a non-valid map entry: " +:+ err)) storage_map);
      mret (slots ++ [(name, inr storage_map)], map_cache)
  end.

Definition tonic_build_storage_slots (account_id : AccountId) (storage_details : AccountStorageDetails) :
    grpc_m (list (StorageSlotName * (Word + StorageMap))) :=
  '(slots, _) ← grpc_fold (tonic_build_storage_slot account_id storage_details)
    (sd_header storage_details) ([], None);
  mret slots.

Definition tonic_get_account_details (account_id : AccountId) : grpc_m FetchedAccount :=
  '(block_number, full_account_proof) ← tonic_fetch_full_account_proof account_id;
  let update_summary := {| aus_commitment := AccountProof_account_commitment full_account_proof;
    aus_last_block_num := block_number |} in
  if AccountId_is_private account_id then mret (FetchedAccount_Private account_id update_summary)
  else
    details ← grpc_lift (ok_or (AccountProof_into_parts full_account_proof).2 (Rpc_ExpectedDataMissing
      "GetAccountDetails returned a public account without details"));
    let account_id := AccountHeader_id (det_header details) in
    let nonce := AccountHeader_nonce (det_header details) in
    assets ←
      (if vd_too_many_assets (det_vault_details details) then
         vault_info ← tonic_sync_account_vault 0 None account_id;
         mret (latest_assets (avi_updates vault_info))
       else mret (vd_assets (det_vault_details details)));
    slots ← tonic_build_storage_slots account_id (det_storage_details details);
    asset_vault ← grpc_lift (map_err (λ err, Rpc_InvalidResponse
      ("api rpc returned non-valid assets: " +:+ err)) (AssetVault_new assets));
    account_storage ← grpc_lift (map_err (λ err, Rpc_InvalidResponse
      ("api rpc returned non-valid storage slots: " +:+ err)) (AccountStorage_new slots));
    account ← grpc_lift (map_err (λ err, Rpc_InvalidResponse
      ("failed to instance an account from the rpc api response: " +:+ err))
      (Account_new account_id asset_vault account_storage (det_code details) nonce None));
    mret (FetchedAccount_Public account update_summary).

Definition tonic_get_account_proof (account_id : AccountId)
    (storage_requirements : AccountStorageRequirements) (account_state : AccountStateAt)
    (known_account_code : option AccountCode) : grpc_m (BlockNumber * AccountProof) :=
  let known_codes_by_commitment : gmap Word AccountCode :=
    match known_account_code with
    | Some account_code => {[ AccountCode_commitment account_code := account_code ]}
    | None => ∅
    end in
  let account_details :=
    if AccountId_has_public_state account_id then Some {|
      pdr_code_commitment := EMPTY_DIGEST;
      pdr_asset_vault_commitment := None;
      pdr_storage_maps := map_detail_requests storage_requirements |}
    else None in
  let block_num := match account_state with AtBlock number => Some number | ChainTip => None end in
  response ← account_request {| par_account_id := Some (proto_of_account_id account_id);
    par_block_num := block_num; par_details := account_details |};
  account_witness ← grpc_lift (ok_or (pres_witness response) (Rpc_ExpectedDataMissing "AccountWitness"));
  account_witness ← grpc_eff (AccountWitness_try_from account_witness);
  headers ←
    (if AccountId_has_public_state (AccountWitness_id account_witness) then
       details ← grpc_lift (ok_or (pres_details response) (Rpc_ExpectedDataMissing "Account.Details"));
       details ← grpc_lift (into_domain details known_codes_by_commitment storage_requirements);
       mret (Some details)
     else mret None);
  proof ← grpc_lift (map_err (λ err, Rpc_InvalidResponse (AccountProofError_to_string err))
    (AccountProof_new account_witness headers));
  block_num ← grpc_lift (ok_or (pres_block_num response) (Rpc_ExpectedDataMissing "response block num"));
  mret (block_num, proof).
End requests.

(** ** The methods over the answers of a node *)

Section refinement.
Context `{Tonic}.
(** The states of a client whose node gives the answers below. *)
Variable I : GrpcClient → Prop.

(** A method over the state does what a computation on the answers does. *)
Definition implements {A} (m : grpc_m A) (e : eff RpcError A) : Prop := ∀ s, I s →
  match e with
  | Finished r => ∃ s', m s = Finished (s', r) ∧ I s'
  | Panicked => m s = Panicked
  | OutOfFuel => m s = OutOfFuel
  end.

Lemma implements_bind {A B} (m : grpc_m A) (f : A → grpc_m B) e (g : A → eff RpcError B) :
  implements m e → (∀ a, implements (f a) (g a)) → implements (m ≫= f) (e ≫= g).
Proof.
  intros Hm Hf s Hs. specialize (Hm s Hs). cbv [mbind dbm_bind eff_bind].
  destruct e as [[a|err]| |]; [|by destruct Hm as (s' & -> & Hs'); exists s'|by rewrite Hm..].
  destruct Hm as (s' & -> & Hs'). by apply Hf.
Qed.

Lemma implements_ret {A} (a : A) : implements (mret a) (mret a).
Proof. intros s Hs. by exists s. Qed.
Lemma implements_lift {A} (r : result RpcError A) : implements (grpc_lift r) (lift r).
Proof. intros s Hs. by exists s. Qed.
Lemma implements_eff {A} (e : eff RpcError A) : implements (grpc_eff e) e.
Proof. intros s Hs. unfold grpc_eff. destruct e; [by exists s|done..]. Qed.
Lemma implements_fail {A} err : implements (db_fail err : grpc_m A) (Finished (Err err)).
Proof. intros s Hs. by exists s. Qed.

Lemma implements_fold {A B} (f : B → A → grpc_m B) (g : B → A → eff RpcError B) l :
  (∀ b a, implements (f b a) (g b a)) → ∀ b, implements (grpc_fold f l b) (eff_fold g l b).
Proof.
  intros Hf. induction l as [|a l IH]; intros b; [apply implements_ret|].
  cbn [grpc_fold eff_fold]. apply implements_bind; [apply Hf|apply IH].
Qed.

(** The same computation, written in another way. *)
Lemma implements_eq {A} (m : grpc_m A) e e' : e = e' → implements m e → implements m e'.
Proof. by intros ->. Qed.

(** *** Chunks *)

Lemma in_chunks_implements {A B} limit (request : list A → grpc_m (list B))
    (answer : list A → result RpcError (list B)) l :
  (∀ chunk, implements (request chunk) (lift (answer chunk))) →
  implements (in_chunks limit request l) (chunked_requests limit answer l).
Proof.
  intros Hr. unfold in_chunks, chunked_requests. destruct (chunks limit l) as [cs|]; [|by intros s Hs].
  generalize (@nil B). induction cs as [|chunk cs IH]; intros acc; [apply implements_ret|].
  cbn [grpc_fold try_fold]. apply (implements_eq _
    (lift (batch ← answer chunk; Ok (acc ++ batch)) ≫= λ acc, Finished (try_fold (λ acc chunk,
      batch ← answer chunk; Ok (acc ++ batch)) cs acc))).
  { by destruct (answer chunk). }
  apply implements_bind; [|apply IH]. apply (implements_eq _ (lift (answer chunk) ≫= λ batch, mret (acc ++ batch))).
  { by destruct (answer chunk). }
  apply implements_bind; [apply Hr|intros batch; apply implements_ret].
Qed.

(** *** Nullifiers *)

Section nullifiers.
Variable page : list u16 → BlockNumber → option BlockNumber → result RpcError (PageResponse string NullifierUpdate).
Hypothesis Hpage : ∀ chunk from to, implements (nullifiers_request chunk from to) (lift (page chunk from to)).

Abbreviation request := (λ _ : nat, page).

Lemma nullifier_pages_implements iters t chunk from to all :
  implements (tonic_nullifier_pages iters chunk from to all)
    ('(all, _) ← nullifier_pages request iters t chunk from to all; mret all).
Proof.
  revert t from all. induction iters as [|iters IH]; intros t from all; [apply implements_fail|].
  cbn [tonic_nullifier_pages nullifier_pages].
  set (go := λ from all, '(all, _) ← nullifier_pages request iters (S t) chunk from to all; mret all : eff RpcError _).
  apply (implements_eq _ (lift (page chunk from to) ≫= λ response,
    batch ← lift (map_err Rpc_InvalidResponse (pr_items response));
    let all := all ∪ list_to_set (update_key <$> batch) in
    match pr_page response with
    | None => go from all
    | Some (n, tip) =>
        if n <? from then Finished (Err went_backwards)
        else if target_block to tip <=? n then mret all
        else match checked_add U32_MAX n 1 with None => Panicked | Some next => go next all end
    end)).
  { unfold go. destruct (page chunk from to) as [response|]; [|done]. cbn. destruct (pr_items response) as [batch|]; [|done].
    cbn. destruct (pr_page response) as [[n tip]|]; [|done]. destruct (n <? from); [done|].
    destruct (_ <=? n); [done|]. by destruct (checked_add _ _ _). }
  apply implements_bind; [apply Hpage|intros response].
  apply implements_bind; [apply implements_lift|intros batch]. cbv zeta.
  destruct (pr_page response) as [[n tip]|]; [|apply IH]. destruct (n <? from); [apply implements_fail|].
  destruct (_ <=? n); [apply implements_ret|]. destruct (checked_add _ _ _); [apply IH|by intros s Hs].
Qed.

Lemma nullifier_chunks_implements block_num to cs : ∀ all t,
  implements (grpc_fold (λ all chunk, tonic_nullifier_pages (Z.to_nat MAX_ITERATIONS) chunk block_num to all) cs all)
    ('(all, _) ← foldl (λ acc chunk,
        match acc with
        | Finished (Ok (all, t)) => nullifier_pages request (Z.to_nat MAX_ITERATIONS) t chunk block_num to all
        | _ => acc
        end) (Finished (Ok (all, t))) cs; mret all).
Proof.
  induction cs as [|chunk cs IH]; intros all t; [apply implements_ret|]. cbn [grpc_fold foldl].
  pose proof (nullifier_pages_implements (Z.to_nat MAX_ITERATIONS) t chunk block_num to all) as Hp.
  assert (∀ e : eff RpcError (updates_set * nat), match e with Finished (Ok _) => False | _ => True end →
    foldl (λ acc chunk, match acc with
      | Finished (Ok (all, t)) => nullifier_pages request (Z.to_nat MAX_ITERATIONS) t chunk block_num to all
      | _ => acc end) e cs = e) as Hstop.
  { clear. intros e He. induction cs as [|c cs IH]; [done|]. cbn [foldl]. by destruct e as [[[]|]| |]. }
  intros s Hs. specialize (Hp s Hs). cbv [mbind dbm_bind eff_bind].
  destruct (nullifier_pages _ _ _ _ _ _ _) as [[[all' t']|e]| |]; cbn in Hp.
  - destruct Hp as (s1 & -> & Hs1). exact (IH all' t' s1 Hs1).
  - destruct Hp as (s1 & -> & Hs1). rewrite Hstop by done. by exists s1.
  - rewrite Hp, Hstop by done. done.
  - rewrite Hp, Hstop by done. done.
Qed.

(** For a node that gives these limits and pages, it is [sync_nullifiers] of [Grpc]. *)
Lemma sync_nullifiers_implements limits prefixes block_num to :
  implements grpc_get_rpc_limits (lift (Ok limits)) →
  implements (tonic_sync_nullifiers prefixes block_num to)
    (sync_nullifiers request limits prefixes block_num to).
Proof.
  intros Hl. unfold tonic_sync_nullifiers, sync_nullifiers.
  apply (implements_eq _ (lift (Ok limits) ≫= λ limits, sync_nullifiers request limits prefixes block_num to)); [done|].
  apply implements_bind; [done|]. intros l. unfold sync_nullifiers.
  destruct (chunks _ prefixes) as [cs|]; [|by intros s Hs].
  apply (implements_eq _ (('(all, _) ← nullifier_chunks request cs block_num to; mret all) ≫=
    λ all, mret (key_update <$> bset_elements all))).
  { by destruct (nullifier_chunks _ _ _ _) as [[[]|]| |]. }
  apply implements_bind; [apply nullifier_chunks_implements|intros all; apply implements_ret].
Qed.
End nullifiers.

(** *** Pages of blocks *)

Lemma block_pages_implements {A} (request : BlockNumber → option BlockNumber → grpc_m (PageResponse RpcError A))
    (page : BlockNumber → option BlockNumber → result RpcError (PageResponse RpcError A)) :
  (∀ from to, implements (request from to) (lift (page from to))) →
  ∀ fuel t pagination updates, implements (tonic_block_pages request fuel pagination updates)
    (sync_block_pages (λ _, page) fuel t pagination updates).
Proof.
  intros Hpage. induction fuel as [|fuel IH]; intros t pagination updates; [by intros s Hs|].
  cbn [tonic_block_pages sync_block_pages].
  apply (implements_eq _ (lift (page (current_block_from pagination) (bp_block_to pagination)) ≫= λ response,
    p ← lift (ok_or (pr_page response) (Rpc_ExpectedDataMissing "pagination_info"));
    batch ← lift (pr_items response);
    let '(pagination, advanced) := advance pagination p.1 p.2 in
    advanced ← lift advanced;
    match advanced with
    | Continue => sync_block_pages (λ _, page) fuel (S t) pagination (updates ++ batch)
    | Done tip n => mret (tip, n, updates ++ batch)
    end)).
  { destruct (page _ _) as [response|]; [|done]. cbn. destruct (pr_page response) as [[n tip]|]; [|done]. cbn.
    destruct (pr_items response) as [batch|]; [|done]. cbn. by destruct (advance _ _ _) as [p [[]|]]. }
  apply implements_bind; [apply Hpage|intros response]. apply implements_bind; [apply implements_lift|intros p].
  apply implements_bind; [apply implements_lift|intros batch]. cbv zeta.
  destruct (advance _ _ _) as [pagination' advanced].
  apply implements_bind; [apply implements_lift|intros [|tip n]]; [apply IH|apply implements_ret].
Qed.

(** *** Accounts *)

Section accounts.
(** The answers of the node about accounts. *)
Variable get_account_at : ProtoAccountRequest → result RpcError ProtoAccountResponse.
Variable vault_page : AccountId → BlockNumber → option BlockNumber → result RpcError (ProtoPage ProtoVaultUpdate).
Variable maps_page : AccountId → BlockNumber → option BlockNumber → result RpcError (ProtoPage ProtoStorageMapUpdate).
Hypothesis Haccount : ∀ request, implements (account_request request) (lift (get_account_at request)).
Hypothesis Hvault : ∀ id from to, implements
  (grpc_call SyncAccountVault (Call_sync_account_vault (block_range from to) (Some (proto_of_account_id id))))
  (lift (vault_page id from to)).
Hypothesis Hmaps : ∀ id from to, implements
  (grpc_call SyncStorageMaps (Call_sync_account_storage_maps (block_range from to) (Some (proto_of_account_id id))))
  (lift (maps_page id from to)).

Abbreviation account_at := (λ _ : nat, get_account_at).
Abbreviation vault_at := (λ id (_ : nat), vault_page id).
Abbreviation maps_at := (λ id (_ : nat), maps_page id).

(** Follow the steps of both. *)
Ltac follow :=
  repeat first
    [ apply implements_bind; [|intros ?]
    | apply implements_ret | apply implements_lift | apply implements_eff | apply Haccount
    | progress cbv zeta | case_match ].

Lemma sync_storage_maps_implements from to id :
  implements (tonic_sync_storage_maps from to id) (grpc_sync_storage_maps maps_at from to id).
Proof.
  unfold tonic_sync_storage_maps, grpc_sync_storage_maps, sync_storage_maps.
  set (page := λ from to, p ← maps_page id from to;
    Ok {| pr_page := page_info p; pr_items := conversion (try_map StorageMapUpdate_try_from (page_updates p)) |}).
  apply (implements_eq _ ('(chain_tip, block_number, updates) ←
    sync_block_pages (λ _, page) page_fuel 0 (BlockPagination_new from to) [];
    mret {| smi_chain_tip := chain_tip; smi_block_number := block_number; smi_updates := updates |})).
  { by destruct (sync_block_pages _ _ _ _ _) as [[[[]]|]| |]. }
  apply implements_bind; [|by intros [[tip n] updates]; apply implements_ret].
  apply block_pages_implements. intros from' to'. unfold storage_maps_request, page.
  apply (implements_eq _ (p ← lift (maps_page id from' to'); mret {| pr_page := page_info p;
    pr_items := conversion (try_map StorageMapUpdate_try_from (page_updates p)) |})).
  { by destruct (maps_page _ _ _). }
  apply implements_bind; [apply Hmaps|intros p; apply implements_ret].
Qed.

Lemma sync_account_vault_implements from to id :
  implements (tonic_sync_account_vault from to id) (grpc_sync_account_vault vault_at from to id).
Proof.
  unfold tonic_sync_account_vault, grpc_sync_account_vault, sync_account_vault.
  set (page := λ from to, p ← vault_page id from to;
    Ok {| pr_page := page_info p; pr_items := try_map AccountVaultUpdate_try_from (page_updates p) |}).
  apply (implements_eq _ ('(chain_tip, block_number, updates) ←
    sync_block_pages (λ _, page) page_fuel 0 (BlockPagination_new from to) [];
    mret {| avi_chain_tip := chain_tip; avi_block_number := block_number; avi_updates := updates |})).
  { by destruct (sync_block_pages _ _ _ _ _) as [[[[]]|]| |]. }
  apply implements_bind; [|by intros [[tip n] updates]; apply implements_ret].
  apply block_pages_implements. intros from' to'. unfold vault_request, page.
  apply (implements_eq _ (p ← lift (vault_page id from' to'); mret {| pr_page := page_info p;
    pr_items := try_map AccountVaultUpdate_try_from (page_updates p) |})).
  { by destruct (vault_page _ _ _). }
  apply implements_bind; [apply Hvault|intros p; apply implements_ret].
Qed.

Lemma fetch_full_account_proof_implements id :
  implements (tonic_fetch_full_account_proof id) (fetch_full_account_proof account_at id).
Proof. unfold tonic_fetch_full_account_proof, fetch_full_account_proof. follow. Qed.

Lemma build_storage_slots_implements id details :
  implements (tonic_build_storage_slots id details) (build_storage_slots maps_at id details).
Proof.
  unfold tonic_build_storage_slots, build_storage_slots. apply implements_bind; [|by intros [? ?]; apply implements_ret].
  apply implements_fold. intros [slots cache] header. unfold tonic_build_storage_slot, build_storage_slot. cbv zeta.
  destruct (header.1.2); [apply implements_ret|].
  apply implements_bind; [apply implements_lift|intros map_details].
  apply implements_bind.
  - destruct (md_too_many_entries map_details); [|follow].
    apply implements_bind; [|intros ?; apply implements_ret].
    destruct cache; [apply implements_ret|apply sync_storage_maps_implements].
  - intros [m cache']. follow.
Qed.

(** For a node that gives these answers, it is [get_account_details] over them. *)
Lemma get_account_details_implements id :
  implements (tonic_get_account_details id) (get_account_details account_at vault_at maps_at id).
Proof.
  unfold tonic_get_account_details, get_account_details.
  apply implements_bind; [apply fetch_full_account_proof_implements|intros [n proof]]. cbv zeta.
  destruct (AccountId_is_private id); [apply implements_ret|].
  apply implements_bind; [apply implements_lift|intros details]. cbv zeta.
  apply implements_bind.
  - destruct (vd_too_many_assets _); [|apply implements_ret].
    apply implements_bind; [apply sync_account_vault_implements|intros ?; apply implements_ret].
  - intros assets. apply implements_bind; [apply build_storage_slots_implements|intros slots]. follow.
Qed.

Lemma get_account_proof_implements id requirements state known_code :
  implements (tonic_get_account_proof id requirements state known_code)
    (get_account_proof account_at id requirements state known_code).
Proof. unfold tonic_get_account_proof, get_account_proof. cbv zeta. follow. Qed.
End accounts.
End refinement.
