(* ===== verification/GrpcClientSpec.v ===== *)
(** * What the connection of the gRPC client guarantees

    The requests of a client name the genesis block that the client was given, whatever
    sequence of its methods was called; a call is retried as the loop over the node's
    answers in [Grpc] says.  Methods of one client can also run at the same time: their
    steps between two uses of the client's locks are interleaved here. *)

From S2P Require Import Prelude Protocol Serde Model NoteStates InputNote OutputNote TxRecord.
From S2P Require Import NodeErrors Errors NoteTracker TxOrdering Rpc Grpc Text Endpoint.
From S2P Require Import AccountTypes SmtForest Sql Store AccountReaders ChainSpec Proto Stable ProtoNotes.
From S2P Require Import AccountProofs AccountProofSpec GrpcClient GrpcRequests.
From Stdlib Require Import ZArith Lia.
From stdpp Require Import base gmap list strings relations.

Open Scope Z_scope.

Section spec.
Context `{Tonic} `{!GrpcLib}.

(** ** The header *)

Lemma accept_header_Finished g h :
  accept_header_interceptor g = Finished h ↔
  ∃ v, AsciiMetadataValue_try_from (accept_value g) = Ok v ∧ metadata h = {[ "accept" := v ]}.
Proof.
  unfold accept_header_interceptor, with_metadata.
  destruct (AsciiMetadataValue_try_from (accept_value g)) as [v|e]; simpl; split.
  - intros [= <-]. by eexists.
  - intros (v' & [= <-] & Hm). destruct h as [m]. simpl in Hm. by rewrite Hm.
  - done.
  - by intros (? & ? & _).
Qed.

Lemma Interceptor_call_accept g h :
  accept_header_interceptor g = Finished h → Interceptor_call h ∅ = metadata h.
Proof.
  intros (v & _ & Hm)%accept_header_Finished. unfold Interceptor_call. rewrite Hm.
  rewrite map_fold_singleton. done.
Qed.

(** The client's requests carry the header of the genesis commitment it has. *)
Definition announces (g : option Word) (api : ApiClient) : Prop :=
  accept_header_interceptor g = Finished (ic_interceptor (ac_client api)).
Definition connected_ok (self : GrpcClient) : Prop :=
  ∀ api, client self = Some api → announces (genesis_commitment self) api.

(** ** What a method does to the client and to the network *)

Section trace.
(** A property of the network that connecting, waiting, and calls with the header of
    the commitment [g] preserve. *)
Variables (g : option Word) (P : Network → Prop).
Definition closed_under_calls : Prop :=
  (∀ e n, P n → P (TransportEndpoint_connect e n).1) ∧
  (∀ delay n, P n → P (async_sleep delay n)) ∧
  (∀ v, AsciiMetadataValue_try_from (accept_value g) = Ok v →
    ∀ A channel (call : api_call A) n, P n → P (Channel_call channel {[ "accept" := v ]} call n).1).

Definition good (self : GrpcClient) : Prop :=
  connected_ok self ∧ genesis_commitment self = g ∧ P (network self).
Definition stays_good (s s' : GrpcClient) : Prop := good s → good s'.

#[local] Instance stays_good_preorder : PreOrder stays_good.
Proof. split; [by intros s Hs|intros s1 s2 s3 H12 H23 Hs; by apply H23, H12]. Qed.

Hypothesis Hcalls : closed_under_calls.

Lemma good_bind {A B} (m : grpc_m A) (f : A → grpc_m B) :
  preserves stays_good m → (∀ a, preserves stays_good (f a)) → preserves stays_good (m ≫= f).
Proof. apply preserves_bind, _. Qed.
Lemma good_ret {A} (a : A) : preserves stays_good (mret a : grpc_m A).
Proof. apply preserves_ret, _. Qed.
Lemma good_read {A} (f : GrpcClient → result RpcError A) : preserves stays_good (db_read f).
Proof. apply preserves_read, _. Qed.

(** A step on the network that preserves [P]. *)
Lemma good_network {A} (m : dbm RpcError Network A) :
  (∀ n n' r, m n = Finished (n', r) → P n → P n') → preserves stays_good (on_network m).
Proof.
  intros Hm s s' r. unfold on_network, zoom.
  destruct (m (network s)) as [[n r']| |] eqn:En; [|done..]. intros [= <- <-] (Hc & Hg & Hn).
  split_and!; [done|done|by eapply Hm].
Qed.

Lemma connect_channel_P e t n n' r : connect_channel e t n = Finished (n', r) → P n → P n'.
Proof.
  unfold connect_channel. destruct (TransportEndpoint_try_from e) as [e'|]; [|by intros [= <- _]].
  destruct (TransportEndpoint_tls_config _) as [e''|]; [|by intros [= <- _]].
  destruct (TransportEndpoint_connect e'' n) as [n1 c] eqn:Ec. intros [= <- _] Hn.
  pose proof (proj1 Hcalls e'' n Hn) as HA. by rewrite Ec in HA.
Qed.

(** A new client has the header it was made for. *)
Lemma new_client_spec e t w n n' r :
  new_client e t w n = Finished (n', r) →
  (P n → P n') ∧ ∀ api, r = Ok api → announces w api.
Proof.
  unfold new_client, mbind, dbm_bind.
  destruct (connect_channel e t n) as [[n1 [c|err]]| |] eqn:Ec; [| |done..].
  - unfold db_finish. destruct (accept_header_interceptor w) as [h| |] eqn:Eh; [|done..].
    intros [= <- <-]. split; [by eapply connect_channel_P|]. by intros api [= <-].
  - intros [= <- <-]. split; [by eapply connect_channel_P|done].
Qed.

Lemma good_connect : preserves stays_good connect.
Proof.
  intros s s' r. unfold connect, mbind at 1, dbm_bind at 1, db_read at 1.
  unfold mbind, dbm_bind, on_network, zoom.
  destruct (new_client _ _ _ _) as [[n [api|err]]| |] eqn:En; [| |done..].
  - intros [= <- _] (Hc & Hg & Hn). apply new_client_spec in En as [HP Ha].
    split_and!; [|done|by apply HP]. intros ? [= <-]. by apply Ha.
  - intros [= <- _] (Hc & Hg & Hn). apply new_client_spec in En as [HP _].
    split_and!; [done|done|by apply HP].
Qed.

(** The client that a call gets has the header of the state. *)
Lemma ensure_connected_good s s' api :
  good s → ensure_connected s = Finished (s', Ok api) → good s' ∧ announces g api.
Proof.
  intros Hs. unfold ensure_connected, mbind at 1, dbm_bind at 1, db_read at 1.
  intros (s1 & [] & HA & (s2 & ? & [= <- <-] & HB)%dbm_bind_Ok)%dbm_bind_Ok.
  assert (Hs1 : good s1).
  { destruct (client s); [by injection HA as <-|]. by eapply good_connect. }
  destruct (client s1) as [api'|] eqn:Ec; [|done]. injection HB as <- <-.
  destruct Hs1 as (Hc & Hg & Hn). split; [by split_and!|]. rewrite <-Hg. by apply Hc.
Qed.

Lemma good_ensure_connected : preserves stays_good ensure_connected.
Proof.
  unfold ensure_connected. apply good_bind; [apply good_read|intros self].
  apply good_bind; [destruct (client self); [apply good_ret|apply good_connect]|intros _].
  apply good_bind; [apply good_read|intros self']. destruct (client self'); [apply good_ret|].
  apply preserves_panic.
Qed.

Lemma good_send {A} api (call : api_call A) :
  announces g api → preserves stays_good (send api call).
Proof.
  intros Ha. apply good_network. intros n n' r. unfold InnerClient_call.
  rewrite (Interceptor_call_accept _ _ Ha). apply accept_header_Finished in Ha as (v & Hv & ->).
  destruct (Channel_call _ _ _ _) as [n1 a] eqn:Ec. intros [= <- _] Hn.
  pose proof (proj2 (proj2 Hcalls) v Hv A (ic_channel (ac_client api)) call n Hn) as HA. by rewrite Ec in HA.
Qed.

Lemma good_connected_bind {B} (f : ApiClient → grpc_m B) :
  (∀ api, announces g api → preserves stays_good (f api)) →
  preserves stays_good (ensure_connected ≫= f).
Proof.
  intros Hf s s' r. unfold mbind, dbm_bind.
  destruct (ensure_connected s) as [[s1 [api|e]]| |] eqn:Ee; [| |done..].
  - intros Hr Hs. apply ensure_connected_good in Ee as [Hs1 Ha]; [|done]. by eapply Hf.
  - intros [= <- _]. by eapply good_ensure_connected.
Qed.

Lemma good_fail {A} e status : preserves stays_good (fail_with_status (A:=A) e status).
Proof. intros s s' r [= <- _]. reflexivity. Qed.

Lemma good_retry_calls {A} fuel rs e (call : api_call A) : preserves stays_good (retry_calls fuel rs e call).
Proof.
  revert rs. induction fuel as [|fuel IH]; intros rs; [by intros s s' r|]. cbn [retry_calls].
  apply good_connected_bind. intros api Ha. apply good_bind; [by apply good_send|intros [a|status]].
  - apply good_ret.
  - destruct (should_retry rs status) as [[delay rs']|]; [|apply good_fail].
    apply good_bind; [|intros _; apply IH]. apply good_network. intros n n' r [= <- _].
    apply (proj1 (proj2 Hcalls)).
Qed.

Lemma good_call {A} e (call : api_call A) : preserves stays_good (grpc_call e call).
Proof. intros s s' r. unfold grpc_call. apply good_retry_calls. Qed.

Lemma good_lift {A} (r : result RpcError A) : preserves stays_good (grpc_lift r).
Proof. apply good_read. Qed.
Lemma good_eff {A} (m : eff RpcError A) : preserves stays_good (grpc_eff m).
Proof. intros s s' r. unfold grpc_eff. destruct m; [intros [= <- _]|done..]. reflexivity. Qed.
Lemma good_finish {A} (m : loop_result A) : preserves stays_good (db_finish m : grpc_m A).
Proof. intros s s' r. unfold db_finish. destruct m; [intros [= <- _]|done..]. reflexivity. Qed.
Lemma good_fail_with {A} e : preserves stays_good (db_fail e : grpc_m A).
Proof. apply preserves_fail, _. Qed.
Lemma good_panic {A} : preserves stays_good (db_panic : grpc_m A).
Proof. by intros s s' r. Qed.
Lemma good_fold {A B} (f : B → A → grpc_m B) l :
  (∀ b a, preserves stays_good (f b a)) → ∀ b, preserves stays_good (grpc_fold f l b).
Proof.
  intros Hf. induction l as [|a l IH]; intros b; [apply good_ret|]. cbn [grpc_fold].
  apply good_bind; [apply Hf|apply IH].
Qed.
Lemma good_limits l : preserves stays_good (db_exec (λ self, Ok (set_limits l self)) : grpc_m ()).
Proof. intros s s' r [= <- _] Hs. exact Hs. Qed.
End trace.

Create HintDb grpc.
#[local] Hint Resolve good_call good_lift good_eff good_finish good_ret good_read good_limits
  good_fail_with good_panic : grpc.

(** Follow the steps of a request. *)
Ltac keep_good :=
  repeat first
    [ solve [eauto with grpc]
    | apply good_bind; [assumption || solve [eauto with grpc]|intros ?]
    | apply good_bind; [|intros ?]
    | case_match ].

(** *** Requests in several calls *)

Section loops.
Variables (g : option Word) (P : Network → Prop).
Hypothesis Hcalls : closed_under_calls g P.
Abbreviation keeps m := (preserves (stays_good g P) m).

Lemma good_get_limits : keeps grpc_get_rpc_limits.
Proof. unfold grpc_get_rpc_limits. keep_good. Qed.

Lemma good_in_chunks {A B} limit (request : list A → grpc_m (list B)) l :
  (∀ chunk, keeps (request chunk)) → keeps (in_chunks limit request l).
Proof.
  intros Hr. unfold in_chunks. destruct (chunks limit l) as [cs|]; [|apply good_panic].
  apply good_fold. intros acc chunk. apply good_bind; [apply Hr|intros batch; apply good_ret].
Qed.

Lemma good_notes_by_id ids : keeps (tonic_get_notes_by_id ids).
Proof.
  apply good_bind; [apply good_get_limits|intros l]. apply good_in_chunks. intros chunk.
  unfold notes_by_id_request. keep_good.
Qed.

Lemma good_check_nullifiers nullifiers : keeps (tonic_check_nullifiers nullifiers).
Proof.
  apply good_bind; [apply good_get_limits|intros l]. apply good_in_chunks. intros chunk.
  unfold check_nullifiers_request. keep_good.
Qed.

Lemma good_nullifier_pages iters chunk to : ∀ from all, keeps (tonic_nullifier_pages iters chunk from to all).
Proof.
  induction iters as [|iters IH]; intros from all; [apply good_fail_with|]. cbn [tonic_nullifier_pages].
  apply good_bind; [unfold nullifiers_request; keep_good|intros response].
  apply good_bind; [apply good_lift|intros batch]. cbv zeta.
  destruct (pr_page response) as [[n tip]|]; [|apply IH].
  destruct (n <? from); [apply good_fail_with|]. destruct (_ <=? n); [apply good_ret|].
  destruct (checked_add _ _ _); [apply IH|apply good_panic].
Qed.

Lemma good_sync_nullifiers prefixes from to : keeps (tonic_sync_nullifiers prefixes from to).
Proof.
  apply good_bind; [apply good_get_limits|intros l].
  destruct (chunks _ prefixes) as [cs|]; [|apply good_panic].
  apply good_bind; [|intros all; apply good_ret]. apply good_fold. intros all chunk. apply good_nullifier_pages.
Qed.

Lemma good_block_pages {A} (request : BlockNumber → option BlockNumber → grpc_m (PageResponse RpcError A)) :
  (∀ from to, keeps (request from to)) →
  ∀ fuel pagination updates, keeps (tonic_block_pages request fuel pagination updates).
Proof.
  intros Hr. induction fuel as [|fuel IH]; intros pagination updates; [by intros s s' r|]. cbn [tonic_block_pages].
  apply good_bind; [apply Hr|intros response]. apply good_bind; [apply good_lift|intros page].
  apply good_bind; [apply good_lift|intros batch]. cbv zeta. destruct (advance _ _ _) as [p' r].
  apply good_bind; [apply good_lift|intros [|tip n]]; [apply IH|apply good_ret].
Qed.

Lemma good_storage_maps from to id : keeps (tonic_sync_storage_maps from to id).
Proof.
  apply good_bind; [|intros [[tip n] updates]; apply good_ret]. apply good_block_pages. intros from' to'.
  unfold storage_maps_request. keep_good.
Qed.

Lemma good_account_vault from to id : keeps (tonic_sync_account_vault from to id).
Proof.
  apply good_bind; [|intros [[tip n] updates]; apply good_ret]. apply good_block_pages. intros from' to'.
  unfold vault_request. keep_good.
Qed.

Lemma good_full_account_proof id : keeps (tonic_fetch_full_account_proof id).
Proof. unfold tonic_fetch_full_account_proof, account_request. cbv zeta. keep_good. Qed.

Lemma good_storage_slots id details : keeps (tonic_build_storage_slots id details).
Proof.
  apply good_bind; [|intros [slots cache]; apply good_ret]. apply good_fold. intros [slots cache] header.
  unfold tonic_build_storage_slot. cbv zeta. destruct (header.1.2); [apply good_ret|].
  apply good_bind; [apply good_lift|intros map_details]. apply good_bind; [|intros [m cache']; keep_good].
  destruct (md_too_many_entries _); [|keep_good]. apply good_bind; [|intros info; apply good_ret].
  destruct cache; [apply good_ret|apply good_storage_maps].
Qed.

Lemma good_account_details id : keeps (tonic_get_account_details id).
Proof.
  apply good_bind; [apply good_full_account_proof|intros [n proof]]. cbv zeta.
  destruct (AccountId_is_private id); [apply good_ret|]. apply good_bind; [apply good_lift|intros details].
  apply good_bind.
  - destruct (vd_too_many_assets _); [|apply good_ret].
    apply good_bind; [apply good_account_vault|intros info; apply good_ret].
  - intros assets. apply good_bind; [apply good_storage_slots|intros slots]. keep_good.
Qed.

Lemma good_account_proof id requirements state known_code :
  keeps (tonic_get_account_proof id requirements state known_code).
Proof. unfold tonic_get_account_proof, account_request. cbv zeta. keep_good. Qed.
End loops.
#[local] Hint Resolve good_notes_by_id good_check_nullifiers good_sync_nullifiers good_storage_maps
  good_account_vault good_full_account_proof good_account_details good_account_proof : grpc.

(** ** The methods *)

(** What a user of the client can call, but for [set_genesis_commitment] and
    [get_status_unversioned]: the methods of its interface, [fetch_full_account_proof], and the
    default methods, which are sequences of the others. *)
Inductive request_method : ∀ {A}, grpc_m A → Prop :=
| M_has_genesis_commitment : request_method has_genesis_commitment
| M_get_rpc_limits : request_method grpc_get_rpc_limits
| M_has_rpc_limits : request_method has_rpc_limits
| M_set_rpc_limits l : request_method (set_rpc_limits l)
| M_submit t i : request_method (grpc_submit_proven_transaction t i)
| M_block_header b p : request_method (grpc_get_block_header_by_number b p)
| M_chain_mmr b1 b2 : request_method (grpc_sync_chain_mmr b1 b2)
| M_notes b1 b2 tags : request_method (grpc_sync_notes b1 b2 tags)
| M_block b : request_method (grpc_get_block_by_number b)
| M_script root : request_method (grpc_get_note_script_by_root root)
| M_transactions b1 b2 ids : request_method (grpc_sync_transactions b1 b2 ids)
| M_network_id : request_method get_network_id
| M_notes_by_id ids : request_method (tonic_get_notes_by_id ids)
| M_check_nullifiers nullifiers : request_method (tonic_check_nullifiers nullifiers)
| M_sync_nullifiers prefixes from to : request_method (tonic_sync_nullifiers prefixes from to)
| M_storage_maps from to id : request_method (tonic_sync_storage_maps from to id)
| M_account_vault from to id : request_method (tonic_sync_account_vault from to id)
| M_full_account_proof id : request_method (tonic_fetch_full_account_proof id)
| M_account_details id : request_method (tonic_get_account_details id)
| M_account_proof id requirements state code :
    request_method (tonic_get_account_proof id requirements state code)
| M_then {A B} (m : grpc_m A) (f : A → grpc_m B) :
    request_method m → (∀ a, request_method (f a)) → request_method (m ≫= f)
| M_step {A} (e : eff RpcError A) : request_method (grpc_eff e).

Inductive method : ∀ {A}, grpc_m A → Prop :=
| M_set_genesis_commitment w : method (set_genesis_commitment w)
| M_request {A} (m : grpc_m A) : request_method m → method m.

(** A client after any sequence of calls, each run to its end. *)
Inductive reachable : GrpcClient → Prop :=
| R_new e timeout_ms n : reachable (GrpcClient_new e timeout_ms n)
| R_max_retries s max_retries : reachable s → reachable (with_max_retries s max_retries)
| R_retry_interval s interval : reachable s → reachable (with_retry_interval_ms s interval)
| R_status s s' r : reachable s → get_status_unversioned s = Finished (s', r) → reachable s'
| R_method {A} (m : grpc_m A) s s' r :
    reachable s → method m → m s = Finished (s', r) → reachable s'.

Lemma set_genesis_cases w s s' r :
  set_genesis_commitment w s = Finished (s', r) →
  (s' = s ∧ genesis_commitment s ≠ None) ∨
  (genesis_commitment s = None ∧ genesis_commitment s' = Some w ∧ network s' = network s ∧
   ∀ api, client s' = Some api → announces (Some w) api).
Proof.
  unfold set_genesis_commitment. cbv [mbind dbm_bind db_read db_exec mret dbm_ret].
  destruct (genesis_commitment s) as [w'|] eqn:Eg; [intros [= <- _]; by left|]. simpl.
  destruct (client s) as [api|] eqn:Ec; [|intros [= <- _]; right; split_and!; [done..|]].
  - unfold db_finish, ApiClient_set_genesis_commitment.
    destruct (accept_header_interceptor (Some w)) as [h| |] eqn:Eh; [|done..].
    intros [= <- _]. right. split_and!; [done..|]. by intros ? [= <-].
  - simpl. intros api. by rewrite Ec.
Qed.

Lemma request_good {A} (m : grpc_m A) g P :
  request_method m → closed_under_calls g P → preserves (stays_good g P) m.
Proof.
  intros Hm Hcl. induction Hm.
  21: by apply good_bind.
  all: unfold has_genesis_commitment, grpc_get_rpc_limits, has_rpc_limits, set_rpc_limits,
    grpc_submit_proven_transaction, grpc_get_block_header_by_number, grpc_sync_chain_mmr,
    grpc_sync_notes, grpc_get_block_by_number, grpc_get_note_script_by_root,
    grpc_sync_transactions, get_network_id; keep_good.
Qed.

(** A method keeps what a good client is, or sets the first commitment without sending
    anything. *)
Lemma method_good {A} (m : grpc_m A) s s' r P :
  method m → m s = Finished (s', r) → connected_ok s →
  closed_under_calls (genesis_commitment s) P → P (network s) → connected_ok s' ∧ P (network s').
Proof.
  intros Hm Hr Hc Hcl Hn. destruct Hm as [w|A m Hm].
  - apply set_genesis_cases in Hr as [[-> _]|(_ & Hg & -> & Ha)]; [done|].
    split; [|done]. unfold connected_ok. by rewrite Hg.
  - assert (Hs : good (genesis_commitment s) P s) by by split_and!.
    by destruct (request_good m _ P Hm Hcl _ _ _ Hr Hs) as (? & _ & ?).
Qed.

(** What never changes the connection. *)
Definition same_client (s s' : GrpcClient) : Prop :=
  client s' = client s ∧ genesis_commitment s' = genesis_commitment s.
#[local] Instance same_client_preorder : PreOrder same_client.
Proof.
  split; [by intros s|]. intros s1 s2 s3 [Hc Hg] [Hc' Hg']. unfold same_client. by rewrite Hc', Hg'.
Qed.

Lemma network_keeps_client {A} (m : dbm RpcError Network A) : preserves same_client (on_network m).
Proof.
  intros s s' r. unfold on_network, zoom. destruct (m (network s)) as [[n r2]| |]; [|done..].
  by intros [= <- _].
Qed.

Lemma status_keeps_client : preserves same_client get_status_unversioned.
Proof.
  unfold get_status_unversioned. apply preserves_bind; [apply _|apply preserves_read, _|intros self].
  apply preserves_bind; [apply _|apply network_keeps_client|intros api].
  apply preserves_bind; [apply _|apply network_keeps_client|intros [a|status]].
  - apply preserves_read, _.
  - by intros s s' r [= <- _].
Qed.

Lemma reachable_connected_ok s : reachable s → connected_ok s.
Proof.
  induction 1 as [e t n|s m _ IH|s i _ IH|s s' r _ IH Hr|A m s s' r _ IH Hm Hr]; [done|exact IH|exact IH| |].
  - destruct (status_keeps_client _ _ _ Hr) as [Hc Hg]. unfold connected_ok. by rewrite Hc, Hg.
  - by apply (method_good m s s' r (λ _, True) Hm Hr IH).
Qed.

(** A property of the network that connecting and a status request without metadata preserve. *)
Definition closed_under_status (P : Network → Prop) : Prop :=
  (∀ e n, P n → P (TransportEndpoint_connect e n).1) ∧
  ∀ channel n, P n → P (Channel_call channel ∅ Call_status n).1.

Lemma status_keeps_property P s s' r :
  closed_under_status P → get_status_unversioned s = Finished (s', r) → P (network s) → P (network s').
Proof.
  intros [Hconnect Hcall]. unfold get_status_unversioned. cbv [mbind dbm_bind db_read on_network zoom].
  unfold new_client_without_accept_header, connect_channel. cbv [mbind dbm_bind mret dbm_ret].
  destruct (TransportEndpoint_try_from _) as [e|]; [|by intros [= <- _]].
  destruct (TransportEndpoint_tls_config _) as [e'|]; [|by intros [= <- _]].
  destruct (TransportEndpoint_connect e' (network s)) as [n channel] eqn:Ec.
  assert (HP : P (network s) → P n) by (intros HP; specialize (Hconnect e' _ HP); by rewrite Ec in Hconnect).
  destruct channel as [channel|err]; cbn [map_err]; [|intros [= <- _]; exact HP].
  unfold send, on_network, zoom, InnerClient_call. cbn.
  destruct (Channel_call channel _ Call_status n) as [n' answer] eqn:Ea.
  assert (HP' : P (network s) → P n').
  { intros Hs%HP. specialize (Hcall channel _ Hs). unfold Interceptor_call in Ea. cbn in Ea.
    rewrite map_fold_empty in Ea. by rewrite Ea in Hcall. }
  destruct answer as [response|status]; intros [= <- _]; exact HP'.
Qed.

(** C19: After any sequence of calls of a client's methods, its connection carries the [accept]
    header of the commitment to the genesis block that it has; and whatever property of the
    network survives connections, waiting, and calls with exactly that header survives every
    method of the client's interface, those that ask in several calls and the default methods,
    which are sequences of the others, included: none of them sends a request with another
    header.  The one request without the header is that of
    [get_status_unversioned], which sends nothing else, over a connection of its own. *)
Theorem requests_name_the_genesis s :
  reachable s →
  connected_ok s ∧
  (∀ A (m : grpc_m A) s' r P,
    method m → m s = Finished (s', r) → closed_under_calls (genesis_commitment s) P →
    P (network s) → P (network s')) ∧
  ∀ s' r P, get_status_unversioned s = Finished (s', r) → closed_under_status P →
    P (network s) → P (network s') ∧ client s' = client s.
Proof.
  intros Hs%reachable_connected_ok. split; [done|]. split.
  - intros A m s' r P Hm Hr Hcl Hn. by apply (method_good m s s' r P).
  - intros s' r P Hr Hcl Hn. split; [by eapply status_keeps_property|]. by apply status_keeps_client in Hr as [? _].
Qed.

(** ** Retries over the state *)

Section retries.
Context {A : Type} (api : ApiClient) (rpc_endpoint : RpcEndpoint) (call : api_call A) (interval : u64).

(** The network before the [t]-th attempt, and the answer it gets. *)
Fixpoint network_at (n : Network) (t : nat) : Network :=
  match t with
  | O => n
  | S t =>
      match InnerClient_call (ac_client api) call (network_at n t) with
      | (n, Err status) => async_sleep (retry_delay status interval) n
      | (n, Ok _) => n
      end
  end.
Definition answer_at (n : Network) (t : nat) : result Status A :=
  (InnerClient_call (ac_client api) call (network_at n t)).2.

Lemma ensure_connected_connected s : client s = Some api → ensure_connected s = Finished (s, Ok api).
Proof.
  intros Hc. unfold ensure_connected. cbv [mbind dbm_bind db_read mret dbm_ret]. rewrite Hc. cbn.
  by rewrite Hc.
Qed.

Lemma retry_calls_loop s fuel rs t slept :
  client s = Some api → retry_interval_ms rs = interval →
  (Z.to_nat (max_retries rs - attempt rs) < fuel)%nat →
  ∃ n slept' r,
    retry_loop (λ _, Ok ()) (answer_at (network s))
      (rpc_error_from_status CARGO_PKG_VERSION Word_to_hex (genesis_commitment s) rpc_endpoint)
      fuel rs t slept = Finished (r, slept') ∧
    retry_calls fuel rs rpc_endpoint call (set_network (network_at (network s) t) s) =
      Finished (set_network n s, r).
Proof.
  intros Hc. revert rs t slept. induction fuel as [|fuel IH]; intros rs t slept Hi Hf; [lia|].
  cbn [retry_loop retry_calls]. unfold mbind, dbm_bind.
  rewrite (ensure_connected_connected (set_network _ s)) by done.
  unfold answer_at at 1. unfold send, on_network, zoom. cbn [network set_network].
  assert (Hnext : network_at (network s) (S t) =
    match InnerClient_call (ac_client api) call (network_at (network s) t) with
    | (n, Err status) => async_sleep (retry_delay status interval) n
    | (n, Ok _) => n
    end) by done.
  destruct (InnerClient_call (ac_client api) call (network_at (network s) t)) as [n [a|status]] eqn:Ea;
    cbn [snd].
  - by exists n, slept, (Ok a).
  - destruct (should_retry rs status) as [[delay rs']|] eqn:Es.
    + unfold should_retry in Es. destruct (_ || _) eqn:Eo; [done|]. injection Es as <- <-.
      apply orb_false_elim in Eo as [Eo _]. cbn. rewrite Hi, <-Hnext. apply IH; cbn; [done|lia].
    + by exists n, slept, (Err (rpc_error_from_status CARGO_PKG_VERSION Word_to_hex
        (genesis_commitment s) rpc_endpoint status)).
Qed.
End retries.

(** A call on a connected client ends, without a panic, with what the loop of retries of
    [Grpc] makes of the successive answers of the network; nothing but the network changes. *)
Theorem grpc_call_is_retried {A} (api : ApiClient) rpc_endpoint (call : api_call A) s :
  client s = Some api → 0 ≤ gc_max_retries s →
  ∃ n slept r,
    call_with_retry (λ _, Ok ()) (answer_at api call (gc_retry_interval_ms s) (network s))
      (rpc_error_from_status CARGO_PKG_VERSION Word_to_hex (genesis_commitment s) rpc_endpoint)
      (gc_max_retries s) (gc_retry_interval_ms s) = Finished (r, slept) ∧
    grpc_call rpc_endpoint call s = Finished (set_network n s, r).
Proof.
  intros Hc Hm.
  destruct (retry_calls_loop api rpc_endpoint call (gc_retry_interval_ms s) s
    (S (Z.to_nat (gc_max_retries s))) (RetryState_new (gc_max_retries s) (gc_retry_interval_ms s)) 0 [])
    as (n & slept & r & Hl & Hr); [done|done|cbn; lia|].
  exists n, slept, r. split; [exact Hl|]. unfold grpc_call. rewrite <-Hr. by destruct s.
Qed.

(** ** Methods at the same time *)

(** A task is about the one commitment of the network [w]. *)
Definition task_about (w : Word) (t : task) : Prop :=
  match t with
  | Task_set_genesis w' | Task_store w' | Task_update w' => w' = w
  | Task_ensure_connected | Task_done => True
  | Task_connect | Task_connecting _ => False
  end.

(** The header is up to date, or a task that updates it is still to run. *)
Definition header_pending (w : Word) (x : GrpcClient * list task) : Prop :=
  (∃ api, client x.1 = Some api) ∧ Forall (task_about w) x.2 ∧
  (Task_update w ∈ x.2 → genesis_commitment x.1 = Some w) ∧
  (connected_ok x.1 ∨ Task_update w ∈ x.2).

Lemma pending_mono w s s' l1 t t' l2 :
  t ≠ Task_update w → (connected_ok s → connected_ok s') →
  connected_ok s ∨ Task_update w ∈ l1 ++ t :: l2 → connected_ok s' ∨ Task_update w ∈ l1 ++ t' :: l2.
Proof.
  intros Hne Hk [Hp|Hp]; [left; auto|right]. rewrite elem_of_app, elem_of_cons in Hp |- *.
  destruct Hp as [?|[?|?]]; [by left|by destruct Hne|by right; right].
Qed.

Lemma update_mono {w l1 t t' l2} :
  t' ≠ Task_update w → Task_update w ∈ l1 ++ t' :: l2 → Task_update w ∈ l1 ++ t :: l2.
Proof. rewrite !elem_of_app, !elem_of_cons. intros Hne [?|[?|?]]; [by left|done|by right; right]. Qed.

Lemma header_pending_step w x y : tasks_step x y → header_pending w x → header_pending w y.
Proof.
  intros [s s' l1 t t' l2 Ht] ([api Hapi] & Ha & Hg & Hp). cbn [fst snd] in *.
  apply Forall_app in Ha as [Hal [Hat Har]%Forall_cons_1].
  unfold header_pending. cbn [fst snd]. rewrite Forall_app, Forall_cons.
  destruct Ht as [s api1 Hc|s Hc|s|s g n api1 Hn|s g n err Hn|s w1 w2 Hw|s w1 Hw|s w1|s w1 api1 api2 Hc Hs|s w1 Hc];
    cbn [task_about] in *; subst; try done; try congruence.
  1-3: split_and!; [by eexists|done..|intros Hu; eapply Hg, update_mono; [|exact Hu]; done|];
    eapply pending_mono; [..|exact Hp]; done.
  - split_and!; [by eexists|done..|]. right. rewrite elem_of_app, elem_of_cons. auto.
  - assert (Hw : genesis_commitment s = Some w) by (apply Hg; rewrite elem_of_app, elem_of_cons; auto).
    split_and!; [by eexists|done..|]. left. intros ? [= <-]. unfold announces. cbn. rewrite Hw.
    unfold ApiClient_set_genesis_commitment in Hs.
    destruct (accept_header_interceptor (Some w)); [|done..]. by injection Hs as <-.
Qed.

(** On a client that is already connected, calls that need the connection and calls that set
    the commitment to the genesis block of one network can run at the same time in any order
    of their steps: when all have ended, the connection carries the header of the commitment
    that the client has. *)
Theorem connected_header_settles w s ts s' ts' :
  client s ≠ None → connected_ok s →
  Forall (λ t, t = Task_ensure_connected ∨ t = Task_set_genesis w) ts →
  rtc tasks_step (s, ts) (s', ts') → Forall (λ t, t = Task_done) ts' →
  client s' ≠ None ∧ connected_ok s'.
Proof.
  intros Hc Hok Hts Hr Hd.
  assert (Hi : header_pending w (s, ts)).
  { destruct (client s) as [api|] eqn:Ec; [|done]. split_and!; [by eexists| | |by left].
    - eapply Forall_impl; [exact Hts|]. intros t [->| ->]; done.
    - intros Hin. rewrite Forall_forall in Hts. destruct (Hts _ Hin); done. }
  assert (Hf : header_pending w (s', ts')).
  { revert Hr Hi. generalize (s, ts) (s', ts'). induction 1 as [x|x y z Hxy _ IH]; [done|].
    intros Hx. eapply IH, header_pending_step; eassumption. }
  destruct Hf as ([api Hapi] & _ & _ & [Hok'|Hu]); cbn [fst snd] in *; [by rewrite Hapi|].
  rewrite Forall_forall in Hd. by specialize (Hd _ Hu).
Qed.

(** Once there are a connection and a commitment, new calls change neither. *)
Definition fresh_call (t : task) : Prop :=
  match t with Task_ensure_connected | Task_set_genesis _ | Task_done => True | _ => False end.

Lemma connection_is_final s ts s' ts' :
  client s ≠ None → genesis_commitment s ≠ None → Forall fresh_call ts →
  rtc tasks_step (s, ts) (s', ts') →
  client s' = client s ∧ genesis_commitment s' = genesis_commitment s.
Proof.
  intros Hc Hg Hts Hr.
  cut (same_client s s' ∧ Forall fresh_call ts'); [by intros [? _]|].
  revert Hr. generalize (eq_refl (s', ts')). generalize (s', ts') at 1 3. intros y Hy Hr. revert Hy.
  assert (Hx : same_client s (s, ts).1 ∧ Forall fresh_call (s, ts).2) by done. revert Hx.
  induction Hr as [x|x x' y Hxx' _ IH]; intros Hx; [by intros ->|]. intros Hy. apply IH; [|done]. clear IH Hy.
  destruct Hxx' as [s1 s2 l1 t t' l2 Ht]. cbn [fst snd] in *. destruct Hx as [[Hc1 Hg1] Hf].
  rewrite Forall_app, Forall_cons in Hf |- *. destruct Hf as (Hl1 & Ht1 & Hl2).
  destruct Ht; cbn [fresh_call] in *; try done; congruence.
Qed.

(** C20: Connecting reads the commitment before it waits for the network.  If the first
    commitment is set in between, the connection that is then made keeps the header
    without a commitment: it is not the header of the client's commitment, and no later
    call changes it. *)
Theorem concurrent_connection_misses_genesis s w n api :
  client s = None → genesis_commitment s = None →
  new_client (endpoint s) (timeout_ms s) None (network s) = Finished (n, Ok api) →
  ∃ s', rtc tasks_step (s, [Task_ensure_connected; Task_set_genesis w]) (s', [Task_done; Task_done]) ∧
    genesis_commitment s' = Some w ∧ announces None api ∧
    ∀ ts s'' ts', Forall fresh_call ts → rtc tasks_step (s', ts) (s'', ts') →
      client s'' = Some api ∧ genesis_commitment s'' = Some w.
Proof.
  intros Hc Hg Hn.
  exists (set_client (Some api) (set_network n (set_genesis (Some w) s))). split_and!.
  - eapply rtc_l; [eapply (TS_one _ _ []), TS_not_connected, Hc|].
    eapply rtc_l; [eapply (TS_one _ _ []), TS_read_genesis|]. rewrite Hg.
    eapply rtc_l; [eapply (TS_one _ _ [Task_connecting None]), TS_not_set, Hg|].
    eapply rtc_l; [eapply (TS_one _ _ [Task_connecting None]), TS_store|].
    eapply rtc_l; [eapply (TS_one _ _ [Task_connecting None]), TS_update_none, Hc|].
    eapply rtc_once. apply (TS_one _ _ []). by apply TS_new_client.
  - done.
  - destruct (new_client_spec None (λ _, True) ltac:(by split_and!) _ _ _ _ _ _ Hn) as [_ Ha]. by apply Ha.
  - intros ts s'' ts' Hts Hr. by apply connection_is_final in Hr.
Qed.

(** ** A request that is answered *)

Lemma grpc_call_answered {A} (api : ApiClient) rpc_endpoint (call : api_call A) s n response :
  client s = Some api → InnerClient_call (ac_client api) call (network s) = (n, Ok response) →
  grpc_call rpc_endpoint call s = Finished (set_network n s, Ok response).
Proof.
  intros Hc Ha. unfold grpc_call. cbn [retry_calls]. unfold mbind, dbm_bind.
  rewrite (ensure_connected_connected api) by done. unfold send, on_network, zoom. by rewrite Ha.
Qed.
(** The block header and the proof of its place in the chain that a node sends are what the
    request returns: the header with none of its commitments mixed up, and a proof for the
    forest, the number of the block, the path and the commitment of the header. *)
Theorem block_header_request_exact (api : ApiClient) s n b h forest path :
  WireLaws → client s = Some api → Forall word_ok (header_words h) → Forall word_ok (MerklePath_words path) →
  MerklePath_of_words (MerklePath_words path) = path →
  InnerClient_call (ac_client api) (Call_get_block_header_by_number b (Some true)) (network s) =
    (n, Ok {| pbh_block_header := Some (proto_of_block_header h); pbh_chain_length := Some forest;
              pbh_mmr_path := Some (proto_of_merkle_path path) |}) →
  grpc_get_block_header_by_number b true s = Finished (set_network n s,
    Ok (h, Some (MmrProof_of_path forest (BlockHeader_block_num h) path (BlockHeader_commitment h)))).
Proof.
  intros Hlaws Hc Hh Hp Hpath Ha. unfold grpc_get_block_header_by_number. unfold mbind at 1, dbm_bind at 1.
  rewrite (grpc_call_answered _ _ _ _ _ _ Hc Ha). cbn -[BlockHeader_try_from MerklePath_try_from conversion].
  unfold mbind, dbm_bind, grpc_lift, db_read. rewrite block_header_roundtrip by done. cbn -[MerklePath_try_from].
  unfold MerklePath_try_from, proto_of_merkle_path. rewrite words_roundtrip by done. cbn. by rewrite Hpath.
Qed.
End spec.

(** ** A network that logs the headers of the calls *)

#[export] Instance toy_tonic : @Tonic _ _ _ _ _ _ _ _ _ toy_account_wire toy_note_wire := {|
  CARGO_PKG_VERSION := "0.14.0";
  Finality_Committed := 0;
  AsciiMetadataValue := string;
  AsciiMetadataValue_try_from := Ok;
  TransportEndpoint := string;
  TransportEndpoint_try_from := Ok;
  TransportEndpoint_timeout := λ e _, e;
  TransportEndpoint_tls_config := Ok;
  Channel := ();
  Network := list (gmap string string);
  TransportEndpoint_connect := λ _ n, (n, Ok ());
  Channel_call := λ A _ metadata call n, (n ++ [metadata],
    match call in api_call A return result Status A with
    | Call_get_block_header_by_number _ _ => Ok
        {| pbh_block_header := Some (proto_of_block_header toy_header);
           pbh_chain_length := Some 9;
           pbh_mmr_path := Some (proto_of_merkle_path (MerklePath_of_words [toy_word 5])) |}
    | _ => Err toy_busy
    end);
  async_sleep := λ _ n, n
|}.

#[export] Instance toy_grpc_lib : @GrpcLib _ _ _ _ _ _ toy_note_wire := {|
  GrpcProvenTransaction := ();
  ProvenTransaction_to_bytes := λ _, [];
  GrpcTransactionInputs := ();
  TransactionInputs_to_bytes := λ _, [];
  ProvenBlock := bytes;
  ProvenBlock_read_from_bytes := Ok;
  MmrProof_of_path := λ forest b path w, path;
  NetworkId := string;
  NetworkId_Testnet := "mtst";
  NetworkId_Devnet := "mdev";
  NetworkId_new := Some
|}.

Definition toy_new : GrpcClient := GrpcClient_new testnet 10000 [].
(** The state a computation leaves. *)
Definition after {A} (m : grpc_m A) (s : GrpcClient) : GrpcClient :=
  match m s with Finished (s', _) => s' | _ => s end.
Definition toy_set : GrpcClient := after (set_genesis_commitment (toy_word 7)) toy_new.
Definition toy_connected : GrpcClient := after ensure_connected toy_set.
Definition toy_api : ApiClient :=
  default {| ac_client := {| ic_channel := (); ic_interceptor := MetadataInterceptor_default |};
             ac_channel := () |} (client toy_connected).
Definition toy_headers (g : option (@Word toy_protocol)) : gmap string string :=
  {[ "accept" := accept_value g ]}.

Definition toy_unnamed : ApiClient :=
  {| ac_client := {| ic_channel := (); ic_interceptor := {| metadata := toy_headers None |} |};
     ac_channel := () |}.

Lemma requests_name_the_genesis_witness :
  ∃ s', grpc_get_block_header_by_number (Some 10) true toy_set =
      Finished (s', Ok (toy_header, Some 5)) ∧
    network s' = [toy_headers (Some (toy_word 7))] ∧
    Forall (λ m, m = toy_headers (Some (toy_word 7))) (network s').
Proof.
  exists (after (grpc_get_block_header_by_number (Some 10) true) toy_set).
  assert (Hr : grpc_get_block_header_by_number (Some 10) true toy_set =
    Finished (after (grpc_get_block_header_by_number (Some 10) true) toy_set,
      Ok (toy_header, Some 5))) by reflexivity.
  split; [exact Hr|]. split; [reflexivity|].
  assert (Hs : reachable toy_set).
  { apply (R_method (set_genesis_commitment (toy_word 7)) toy_new toy_set (Ok ()));
      [apply R_new|apply M_set_genesis_commitment|reflexivity]. }
  apply (proj1 (proj2 (requests_name_the_genesis toy_set Hs)) _ _ _ _
    (λ n, Forall (λ m, m = toy_headers (Some (toy_word 7))) n)
    (M_request _ (M_block_header (Some 10) true)) Hr).
  - split_and!; [intros e n Hn; exact Hn|intros d n Hn; exact Hn|].
    intros v Hv A ch call n Hn. injection Hv as <-. cbn [fst Channel_call toy_tonic].
    apply Forall_app. split; [exact Hn|]. apply Forall_singleton. reflexivity.
  - by apply Forall_nil.
Defined.

Lemma grpc_call_is_retried_witness :
  ∃ n r, grpc_call GetLimits Call_get_limits toy_connected = Finished (set_network n toy_connected, r).
Proof.
  destruct (grpc_call_is_retried toy_api GetLimits Call_get_limits toy_connected) as (n & slept & r & _ & Hr);
    [reflexivity|vm_compute; discriminate|].
  exists n, r. exact Hr.
Defined.

Lemma connected_header_settles_witness :
  ∃ s', rtc tasks_step (toy_connected, [Task_ensure_connected]) (s', [Task_done]) ∧ connected_ok s'.
Proof.
  assert (Hr : rtc tasks_step (toy_connected, [Task_ensure_connected]) (toy_connected, [Task_done])).
  { eapply rtc_once. apply (TS_one toy_connected toy_connected [] Task_ensure_connected Task_done []).
    apply (TS_connected toy_connected toy_api). reflexivity. }
  exists toy_connected. split; [exact Hr|].
  apply (connected_header_settles (toy_word 7) toy_connected [Task_ensure_connected] toy_connected [Task_done]).
  - discriminate.
  - intros api Ha. injection Ha as <-. reflexivity.
  - apply Forall_singleton. left. reflexivity.
  - exact Hr.
  - apply Forall_singleton. reflexivity.
Defined.

Lemma concurrent_connection_misses_genesis_witness :
  ∃ s' api, rtc tasks_step (toy_new, [Task_ensure_connected; Task_set_genesis (toy_word 7)])
      (s', [Task_done; Task_done]) ∧
    genesis_commitment s' = Some (toy_word 7) ∧ announces None api ∧
    metadata (ic_interceptor (ac_client api)) ≠ toy_headers (genesis_commitment s').
Proof.
  destruct (concurrent_connection_misses_genesis toy_new (toy_word 7) [] toy_unnamed)
    as (s' & Hr & Hg & Ha & _); [reflexivity..|].
  exists s', toy_unnamed.
  split; [exact Hr|]. split; [exact Hg|]. split; [exact Ha|]. rewrite Hg.
  intros Heq. apply (f_equal (λ m : gmap string string, m !! "accept")) in Heq.
  vm_compute in Heq. discriminate Heq.
Defined.

Lemma block_header_request_exact_witness :
  grpc_get_block_header_by_number (Some 10) true toy_connected =
    Finished (set_network [toy_headers (Some (toy_word 7))] toy_connected,
      Ok (toy_header, Some (MmrProof_of_path 9 10 5 (BlockHeader_commitment toy_header)))).
Proof.
  apply (block_header_request_exact toy_api toy_connected [toy_headers (Some (toy_word 7))] (Some 10)
    toy_header 9 5).
  - exact toy_wire_laws.
  - reflexivity.
  - apply Forall_forall. intros w Hw. apply (toy_word_ok w).
    unfold header_words in Hw. cbn in Hw. unfold Felt_ORDER. decompose_list_elem_of; subst; lia.
  - apply Forall_singleton. apply (toy_word_ok 5). unfold Felt_ORDER. lia.
  - reflexivity.
  - reflexivity.
Defined.
