(* ===== verification/GrpcTransport.v ===== *)
(** * The note transport network over gRPC

    [note_transport/grpc.rs] and the serialization in [note_transport/mod.rs]: the client
    of the transport network that [NoteImport.v] takes as an interface.  A note that was
    sent is rebuilt, from what any number of fetches or a stream deliver, as it was. *)

From S2P Require Import Prelude Protocol Serde Model NoteStates InputNote OutputNote TxRecord.
From S2P Require Import NodeErrors Errors NoteTracker TxOrdering Rpc Grpc AccountTypes Sql Store.
From S2P Require Import SyncUpdate StateSync SmtForest AccountReaders Proto ProtoNotes AccountProofs AccountProofSpec.
From S2P Require Import GrpcClient GrpcClientSpec Client NoteImport.
From S2P Require Import Db AccountDb SqliteStore SqliteSync ClientSync ClientSpec.
From Stdlib Require Import ZArith Lia.
From stdpp Require Import base gmap list strings.

Open Scope Z_scope.

(** ** The service *)

Inductive TransportError :=
| TransportDisabled
| TransportConnection (e : foreign)
| TransportDeserialization (e : DeserializationError)
| TransportNetwork (msg : string).

Record TransportNote := { tn_header : bytes; tn_details : bytes }.

Inductive poll (A : Type) := Ready (a : A) | Pending.
Arguments Ready {A} a.
Arguments Pending {A}.

(** The generated clients of the two services on a channel, the stream of an answer,
    and how a status is printed. *)
Class TransportService `{Tonic} := {
  NoteHeader_codec : codec (NoteId * NoteMetadata);
  svc_send_note : Channel → option TransportNote → Network → Network * result Status ();
  svc_fetch_notes :
    Channel → list u32 → u64 → Network → Network * result Status (list TransportNote * u64);
  Streaming : Type;
  svc_stream_notes : Channel → u32 → u64 → Network → Network * result Status Streaming;
  Streaming_poll_next : Streaming → Streaming * poll (option (result Status (list TransportNote)));
  (* Whether the status of the health check is [Serving]. *)
  svc_check : Channel → string → Network → Network * result Status bool;
  Status_debug : Status → string;
  Status_display : Status → string;
  DeserializationError_display : DeserializationError → string
}.

(** ** Serialization ([mod.rs]) *)

Definition u8_codec : codec u8 := Codec write_u8 read_u8.

Definition NoteInfo_codec `{TransportService} : codec NoteInfo := Codec
  (λ i, write_into NoteHeader_codec (ni_header i) ++ write_into (vec_codec u8_codec) (ni_details_bytes i))
  (header <~ read_from NoteHeader_codec ;;
   details_bytes <~ read_from (vec_codec u8_codec) ;;
   rret {| ni_header := header; ni_details_bytes := details_bytes |}).

(** The cursor is a [u64]. *)
Definition NoteTransportCursor_init : u64 := 0.
Definition NoteTransportCursor_codec `{SerdeLib} : codec u64 := Codec
  (λ cursor, write_into u64_codec cursor)
  (value <~ read_from u64_codec ;; rret value).

(** ** The client *)

Section transport.
Context `{TransportService}.

Record GrpcNoteTransportClient := { nt_client : Channel; nt_health_client : Channel }.

Definition transport_m (A : Type) : Type := dbm TransportError Network A.

Definition transport_connect (endpoint : string) (timeout_ms : u64) :
    transport_m GrpcNoteTransportClient := λ n,
  match TransportEndpoint_try_from endpoint with
  | Err e => Finished (n, Err (TransportConnection e))
  | Ok endpoint =>
      match TransportEndpoint_tls_config (TransportEndpoint_timeout endpoint timeout_ms) with
      | Err e => Finished (n, Err (TransportConnection e))
      | Ok endpoint =>
          let '(n, channel) := TransportEndpoint_connect endpoint n in
          Finished (n, channel ← map_err TransportConnection channel;
            Ok {| nt_client := channel; nt_health_client := channel |})
      end
  end.

(** A call, whose status becomes the text of the error. *)
Definition transport_call {A} (context : string) (print : Status → string)
    (call : Network → Network * result Status A) : transport_m A := λ n,
  let '(n, r) := call n in
  Finished (n, map_err (λ e, TransportNetwork (context +:+ ": " +:+ print e)) r).

Definition send_note (self : GrpcNoteTransportClient) (header : NoteId * NoteMetadata) (details : bytes) :
    transport_m () :=
  transport_call "Send note failed" Status_debug (svc_send_note (nt_client self)
    (Some {| tn_header := write_into NoteHeader_codec header; tn_details := details |})).

(** The loop over the notes of an answer; the bytes after a header are not looked at. *)
Definition note_info_of (pnote : TransportNote) : result TransportError NoteInfo :=
  header ← map_err TransportDeserialization (read_from_bytes NoteHeader_codec (tn_header pnote));
  Ok {| ni_header := header; ni_details_bytes := tn_details pnote |}.

Definition fetch_notes (self : GrpcNoteTransportClient) (tags : list NoteTag) (cursor : u64) :
    transport_m (list NoteInfo * u64) :=
  '(notes, rcursor) ← transport_call "Fetch notes failed" Status_debug
    (svc_fetch_notes (nt_client self) (NoteTag_as_u32 <$> tags) cursor);
  notes ← db_read (λ _, try_map note_info_of notes);
  mret (notes, rcursor).

(** The adapter of a stream is the stream. *)
Definition stream_notes (self : GrpcNoteTransportClient) (tag : NoteTag) (cursor : u64) :
    transport_m Streaming :=
  transport_call "Stream notes failed" Status_debug
    (svc_stream_notes (nt_client self) (NoteTag_as_u32 tag) cursor).

(** [NoteStreamAdapter::poll_next]: [?] makes an item of the error of a header. *)
Definition poll_next (inner : Streaming) :
    Streaming * poll (option (result TransportError (list NoteInfo))) :=
  let '(inner, p) := Streaming_poll_next inner in
  (inner, match p with
    | Ready (Some (Ok notes)) => Ready (Some (try_map note_info_of notes))
    | Ready (Some (Err status)) =>
        Ready (Some (Err (TransportNetwork ("tonic status: " +:+ Status_display status))))
    | Ready None => Ready None
    | Pending => Pending
    end).

Definition health_check (self : GrpcNoteTransportClient) : transport_m () :=
  serving ← transport_call "Health check failed" Status_display (svc_check (nt_health_client self) "");
  if serving : bool then mret () else db_fail (TransportNetwork "Service is not serving").

Definition TransportError_to_string (self : TransportError) : string :=
  match self with
  | TransportDisabled =>
      "note transport is disabled; enable it in the client configuration to send or receive notes via P2P"
  | TransportConnection e => "connection error: " +:+ e
  | TransportDeserialization e => "deserialization error: " +:+ DeserializationError_display e
  | TransportNetwork msg => "note transport network error: " +:+ msg
  end.

(** What the interface of the transport network answers at a state of the network. *)
Definition transport_answer {A} (m : transport_m A) (n : Network) : result foreign A :=
  match m n with
  | Finished (_, r) => map_err TransportError_to_string r
  | Panicked | OutOfFuel => Err ""
  end.

Definition grpc_transport (self : GrpcNoteTransportClient) (n : Network) : NoteTransportClient := {|
  transport_fetch_notes := λ tags cursor, transport_answer (fetch_notes self tags cursor) n;
  transport_send_note := λ header details, transport_answer (send_note self header details) n
|}.
End transport.

(** ** What is sent is delivered *)

Section delivery.
Context `{TransportService} `{!SerdeLaws} `{!ProtocolLaws} `{Hheader : !CodecOk NoteHeader_codec any}.

#[export] Instance u8_codec_ok : CodecOk u8_codec any.
Proof. done. Qed.

#[export] Instance NoteInfo_codec_ok : CodecOk NoteInfo_codec (λ i, vec_wf any (ni_details_bytes i)).
Proof. intros [header details] rest Hd. unfold NoteInfo_codec. cbn in *. roundtrip. Qed.

#[export] Instance NoteTransportCursor_codec_ok : CodecOk NoteTransportCursor_codec (in_range U64_MAX).
Proof. intros cursor rest Hc. unfold NoteTransportCursor_codec. cbn. roundtrip. Qed.

(** The message of a note: its header in plain and its details. *)
Definition message_of (note : Note) : TransportNote := {|
  tn_header := write_into NoteHeader_codec (Note_id note, Note_metadata note);
  tn_details := write_into NoteDetails_codec (Note_into_details note)
|}.
Definition info_of (note : Note) : NoteInfo := {|
  ni_header := (Note_id note, Note_metadata note);
  ni_details_bytes := write_into NoteDetails_codec (Note_into_details note)
|}.

Lemma note_info_of_message note : note_info_of (message_of note) = Ok (info_of note).
Proof. unfold note_info_of, message_of. cbn [tn_header tn_details]. by rewrite (read_from_bytes_ok _ any). Qed.

Lemma rejoin_info note : rejoin_note (info_of note) = Ok note.
Proof.
  unfold rejoin_note, info_of. cbn [ni_details_bytes ni_header]. rewrite (read_from_bytes_ok _ any) by done.
  cbn. by rewrite Note_details_assets, Note_details_recipient, Note_eta.
Qed.

(** C21: The client sends a private note as the message of the note; a page of such messages is
    fetched as notes that are rebuilt as they were, in order and with the cursor of the
    page; and a stream delivers the same. *)
Theorem delivered_notes_are_rebuilt self tags cursor n n' rcursor notes :
  svc_fetch_notes (nt_client self) (NoteTag_as_u32 <$> tags) cursor n =
    (n', Ok (message_of <$> notes, rcursor)) →
  (∀ note,
    transport_send_note (NoteTransportClient := grpc_transport self n) (Note_id note, Note_metadata note)
      (write_into NoteDetails_codec (Note_into_details note)) =
    transport_answer (transport_call "Send note failed" Status_debug
      (svc_send_note (nt_client self) (Some (message_of note)))) n) ∧
  ∃ infos,
    transport_fetch_notes (NoteTransportClient := grpc_transport self n) tags cursor = Ok (infos, rcursor) ∧
    try_map rejoin_note infos = Ok notes ∧
    ∀ inner inner',
      Streaming_poll_next inner = (inner', Ready (Some (Ok (message_of <$> notes)))) →
      poll_next inner = (inner', Ready (Some (Ok infos))).
Proof.
  intros Hpage. split; [done|]. exists (info_of <$> notes).
  assert (Hinfos : try_map note_info_of (message_of <$> notes) = Ok (info_of <$> notes)).
  { apply try_map_Ok, Forall2_fmap, Forall_Forall2_diag, Forall_true.
    apply note_info_of_message. }
  split_and!.
  - cbn [transport_fetch_notes grpc_transport]. unfold transport_answer, fetch_notes, transport_call.
    unfold mbind, dbm_bind. rewrite Hpage. cbn -[try_map]. by rewrite Hinfos.
  - apply try_map_Ok, Forall2_fmap_l, Forall_Forall2_diag, Forall_true, rejoin_info.
  - intros inner inner' Hp. unfold poll_next. by rewrite Hp, Hinfos.
Qed.
End delivery.

(** ** A note that cannot be rebuilt *)

Section blocked.
Context `{StoreLib} {Node : NodeRpcClient} `{!NodeLimits} `{!MerklePathLib} `{!NoteTransportClient}.
Context {St : Type} `{!StoreOps St} (note_screener : St → OnNoteReceived).
Context (now : option u64) (fuel : nat) (config : ClientConfig).

Lemma try_map_bad {E A B} (f : A → result E B) l a e : a ∈ l → f a = Err e → ∃ e', try_map f l = Err e'.
Proof.
  intros Ha Hf. destruct (try_map f l) as [bs|e'] eqn:E'; [|by eexists].
  apply try_map_Ok in E'. apply list_elem_of_lookup in Ha as [i Hi].
  eapply Forall2_lookup_l in Hi as (b & _ & Hb); [|exact E']. cbn in Hb. congruence.
Qed.

(** C18: One note of the page at the cursor whose details cannot be read makes the whole sync
    fail before anything is stored: the cursor stays, and the next sync gets the same page. *)
Theorem undecodable_note_blocks_sync c cursor tags infos rcursor info e :
  cc_note_transport_enabled config = true →
  ensure_genesis_in_place c = Finished (c, Ok ()) →
  ensure_rpc_limits_in_place c = Finished (c, Ok ()) →
  get_note_transport_cursor (cl_store c) = Finished (cl_store c, Ok cursor) →
  get_unique_note_tags (cl_store c) = Finished (cl_store c, Ok tags) →
  transport_fetch_notes (bset_elements tags) cursor = Ok (infos, rcursor) →
  info ∈ infos → rejoin_note info = Err e →
  ∃ e', client_sync_state note_screener now fuel config c = Finished (c, Err (From_DeserializationError e')).
Proof.
  intros Hen Hg Hl Hcur Htags Hfetch Hin Hbad.
  destruct (try_map_bad _ _ _ _ Hin Hbad) as [e' He']. exists e'.
  assert (Hc : set_cl_store (cl_store c) c = c) by by destruct c.
  assert (Hf : fetch_transport_notes now fuel true cursor tags c =
    Finished (c, Err (From_DeserializationError e'))).
  { unfold fetch_transport_notes, get_note_transport_api, mbind, dbm_bind, mret, dbm_ret.
    rewrite Hfetch. cbn [map_err]. by rewrite He'. }
  unfold client_sync_state. unfold mbind, dbm_bind. rewrite Hg, Hl, Hen. unfold on_store. rewrite Hcur.
  cbn [map_err]. rewrite Hc, Htags. cbn [map_err]. by rewrite Hc, Hf.
Qed.
End blocked.

(** ** Witnesses *)

#[export] Instance toy_service : @TransportService _ _ _ _ _ _ _ _ _ _ _ toy_tonic := {|
  NoteHeader_codec := pair_codec NoteId_codec NoteMetadata_codec;
  svc_send_note := λ _ _ n, (n, Ok ());
  svc_fetch_notes := λ _ tags cursor n, (n, Ok ([{|
    tn_header := write_into (pair_codec NoteId_codec NoteMetadata_codec)
      (Note_id toy_note, Note_metadata toy_note);
    tn_details := write_into NoteDetails_codec (Note_into_details toy_note) |}], cursor + 1));
  Streaming := ();
  svc_stream_notes := λ _ _ _ n, (n, Ok ());
  Streaming_poll_next := λ s, (s, Ready None);
  svc_check := λ _ _ n, (n, Ok true);
  Status_debug := st_message;
  Status_display := st_message;
  DeserializationError_display := λ _, "invalid value"
|}.

Definition toy_channel : @Channel _ _ _ _ _ _ _ _ _ _ _ toy_tonic := ().

Lemma toy_header_codec_ok : CodecOk (NoteHeader_codec (TransportService := toy_service)) any.
Proof. intros p rest _. by apply (pair_codec_ok _ _ NoteId_codec NoteMetadata_codec any any _ _). Qed.

Lemma delivered_notes_are_rebuilt_witness : ∃ infos,
  transport_fetch_notes (NoteTransportClient :=
    grpc_transport {| nt_client := toy_channel; nt_health_client := toy_channel |} []) [] 4 = Ok (infos, 5) ∧
  try_map rejoin_note infos = Ok [toy_note].
Proof.
  destruct (delivered_notes_are_rebuilt (Hheader := toy_header_codec_ok)
    {| nt_client := toy_channel; nt_health_client := toy_channel |} [] 4 [] [] 5 [toy_note]) as (_ & infos & Hf & Hn & _);
    [reflexivity|].
  exists infos. split; [exact Hf|exact Hn].
Defined.

(** A page with a note that has no details. *)
#[local] Instance toy_poisoned : @NoteTransportClient toy_protocol := {|
  transport_fetch_notes := λ _ cursor, Ok ([{| ni_header := (Note_id toy_note,
    Note_metadata toy_note); ni_details_bytes := [] |}], cursor + 1);
  transport_send_note := λ _ _, Ok ()
|}.

(** The cursor is stored when it is first asked for. *)
Definition toy_ready : ClientState StoreState :=
  match on_store (St := StoreState) get_note_transport_cursor
    (set_genesis_commitment (toy_word 7) toy_client) with
  | Finished (c, _) => c
  | _ => toy_client
  end.
Definition toy_transport_config : ClientConfig :=
  {| cc_tx_discard_delta := Some 15; cc_note_transport_enabled := true |}.

Lemma undecodable_note_blocks_sync_witness : ∃ e,
  client_sync_state (Node := toy_good) (St := StoreState)
    (λ _, toy_screener) None 10 toy_transport_config toy_ready =
  Finished (toy_ready, Err (From_DeserializationError e)).
Proof.
  apply (undecodable_note_blocks_sync (Node := toy_good)
    (St := StoreState) (λ _, toy_screener) None 10 toy_transport_config toy_ready 0 ∅
    [{| ni_header := (Note_id toy_note, Note_metadata toy_note); ni_details_bytes := [] |}]
    1 {| ni_header := (Note_id toy_note, Note_metadata toy_note); ni_details_bytes := [] |}
    UnexpectedEOF).
  all: try reflexivity.
  apply list_elem_of_here.
Defined.
