(* ===== verification/Migrations.v ===== *)
(** * Opening a database

    [db_management/utils.rs] of the SQLite store: the migrations of the schema and the
    hash of the scripts that were applied, which is compared when a database is opened
    again.  The migration library and the hash function are parameters. *)

From S2P Require Import Prelude Protocol Serde Text AccountTypes Sql.
From Stdlib Require Import ZArith Lia Ascii.
From stdpp Require Import base gmap list strings.

Open Scope Z_scope.

Inductive SqliteStoreError :=
| SqliteDatabaseError (msg : string)
| MigrationError (msg : string)
| MissingMigrationsTable
| MigrationHashMismatch.

(** The version of a schema: no migration, the number of migrations applied, or a number
    that is larger than that of the scripts. *)
Inductive SchemaVersion :=
| NoneSet
| Inside (ver : nat)
| Outside (ver : nat).
#[export] Instance SchemaVersion_eq_dec : EqDecision SchemaVersion.
Proof. solve_decision. Defined.

(** [rusqlite_migration], the statements on the table [migrations] (a statement fails with
    the text of its error), and [Blake3_256]. *)
Class MigrationLib := {
  Connection : Type;
  current_version : list string → Connection → result string SchemaVersion;
  to_latest : list string → Connection → Connection * result string ();
  begin_transaction : Connection → result string ();
  query_table_exists : Connection → string → result string bool;
  select_migrations_value : Connection → string → result string (option bytes);
  replace_migrations_value : string → bytes → Connection → result string Connection;
  Hash : Type;
  Hash_default : Hash;
  Hash_bytes : Hash → bytes;
  Blake3_hash : string → Hash;
  Blake3_merge : Hash → Hash → Hash
}.

Section migrations.
Context `{MigrationLib}.
(** The texts of the scripts, of which the first one is [store.sql]. *)
Context (MIGRATION_SCRIPTS : list string).

Definition DB_MIGRATION_HASH_FIELD : string := "db-migration-hash".

(** [char::is_whitespace] on the characters of the scripts, which are ASCII. *)
Definition is_whitespace (c : ascii) : bool :=
  let n := nat_of_ascii c in ((9 <=? n) && (n <=? 13))%nat || (n =? 32)%nat.

Fixpoint remove_spaces (str : string) : string :=
  match str with
  | EmptyString => EmptyString
  | String c str => if is_whitespace c then remove_spaces str else String c (remove_spaces str)
  end.
Definition preprocess_sql (sql : string) : string := remove_spaces sql.

(** The hash after each script covers the scripts before it. *)
Fixpoint migration_hashes (accumulator : Hash) (scripts : list string) : list Hash :=
  match scripts with
  | [] => []
  | sql :: scripts =>
      let accumulator := Blake3_merge accumulator (Blake3_hash (preprocess_sql sql)) in
      accumulator :: migration_hashes accumulator scripts
  end.
Definition compute_migration_hashes : list Hash := migration_hashes Hash_default MIGRATION_SCRIPTS.

Definition open_m (A : Type) : Type := dbm SqliteStoreError Connection A.

(** [?] on a statement, and on a call of the migration library. *)
Definition or_database_error {A} (f : Connection → result string A) : open_m A :=
  db_read (λ conn, map_err SqliteDatabaseError (f conn)).
Definition or_migration_error {A} (f : Connection → result string A) : open_m A :=
  db_read (λ conn, map_err MigrationError (f conn)).
Definition migrate : open_m () := λ conn,
  let '(conn, r) := to_latest MIGRATION_SCRIPTS conn in Finished (conn, map_err MigrationError r).

Definition table_exists (table_name : string) : open_m bool :=
  or_database_error begin_transaction;;
  or_database_error (λ conn, query_table_exists conn table_name).

Definition get_migrations_value (name : string) : open_m (option bytes) :=
  or_database_error begin_transaction;;
  or_database_error (λ conn, select_migrations_value conn name).

Definition set_migrations_value (name : string) (value : bytes) : open_m () :=
  db_exec (λ conn, map_err SqliteDatabaseError (replace_migrations_value name value conn)).

(** [let Ok(Some(v)) = m else { e }]. *)
Definition or_else_error {A} (m : open_m (option A)) (e : SqliteStoreError) : open_m A := λ conn,
  match m conn with
  | Finished (conn, Ok (Some a)) => Finished (conn, Ok a)
  | Finished (conn, _) => Finished (conn, Err e)
  | Panicked => Panicked
  | OutOfFuel => OutOfFuel
  end.

(** An index out of the bounds of a list is a panic; so is subtracting from zero. *)
Definition hash_at (i : option nat) : open_m Hash :=
  match i ≫= λ i, compute_migration_hashes !! i with Some hash => mret hash | None => db_panic end.

(** The hash that the database has is that of the scripts it was made with. *)
Definition check_migration_hash (ver : nat) : open_m () :=
  present ← table_exists "migrations";
  if present : bool then
    expected_hash ← hash_at (match ver with O => None | S i => Some i end);
    actual_hash ← or_else_error (get_migrations_value DB_MIGRATION_HASH_FIELD)
      (SqliteDatabaseError "Migration hash not found");
    if bool_decide (actual_hash = Hash_bytes expected_hash) then mret ()
    else db_fail MigrationHashMismatch
  else db_fail MissingMigrationsTable.

Definition record_migration_hash : open_m () :=
  new_hash ← hash_at (match length compute_migration_hashes with O => None | S i => Some i end);
  set_migrations_value DB_MIGRATION_HASH_FIELD (Hash_bytes new_hash).

Definition apply_migrations : open_m () :=
  version_before ← or_migration_error (current_version MIGRATION_SCRIPTS);
  match version_before with
  | Inside ver => check_migration_hash ver
  | NoneSet | Outside _ => mret ()
  end;;
  migrate;;
  version_after ← or_migration_error (current_version MIGRATION_SCRIPTS);
  if bool_decide (version_before = version_after) then mret () else record_migration_hash.
End migrations.

(** What the migration library documents: it brings a database to the last version, in
    one transaction, or leaves it; a database at the last version is left as it is; one
    without a migration then has the table that the first script creates, empty; and what
    the other statements on this table do.  A database that has a version may lack it. *)
Class MigrationLaws `{MigrationLib} (scripts : list string) : Prop := {
  scripts_nonempty : scripts ≠ [];
  to_latest_version c c' : to_latest scripts c = (c', Ok ()) →
    current_version scripts c' = Ok (Inside (length scripts));
  to_latest_fails c c' e : to_latest scripts c = (c', Err e) → c' = c;
  to_latest_done c : current_version scripts c = Ok (Inside (length scripts)) →
    to_latest scripts c = (c, Ok ());
  to_latest_fresh c c' : current_version scripts c = Ok NoneSet → to_latest scripts c = (c', Ok ()) →
    query_table_exists c' "migrations" = Ok true ∧
    select_migrations_value c' DB_MIGRATION_HASH_FIELD = Ok None;
  to_latest_too_far c n : current_version scripts c = Ok (Outside n) →
    ∃ c' e, to_latest scripts c = (c', Err e);
  version_inside c n : current_version scripts c = Ok (Inside n) → (0 < n ≤ length scripts)%nat;
  replace_selects name v c c' : replace_migrations_value name v c = Ok c' →
    select_migrations_value c' name = Ok (Some v) ∧ query_table_exists c' "migrations" = Ok true ∧
    current_version scripts c' = current_version scripts c
}.

(** ** Facts *)

Section facts.
Context `{MigrationLaws}.
Abbreviation hashes := (compute_migration_hashes scripts).

Lemma migration_hashes_length a l : length (migration_hashes a l) = length l.
Proof. revert a. induction l as [|s l IH]; intros a; [done|]. simpl. by rewrite IH. Qed.

(** The database is at the last version with the hash of all scripts. *)
Definition migrated (c : Connection) : Prop :=
  current_version scripts c = Ok (Inside (length scripts)) ∧
  query_table_exists c "migrations" = Ok true ∧
  ∃ h, last hashes = Some h ∧ select_migrations_value c DB_MIGRATION_HASH_FIELD = Ok (Some (Hash_bytes h)).

Lemma hash_at_last c :
  ∃ h, last hashes = Some h ∧
    hash_at scripts (match length hashes with O => None | S i => Some i end) c = Finished (c, Ok h).
Proof.
  assert (Hl : length hashes = length scripts) by apply migration_hashes_length.
  destruct (length hashes) as [|i] eqn:Ei.
  { by destruct scripts_nonempty; destruct scripts. }
  destruct (lookup_lt_is_Some_2 hashes i) as [h Hh]; [lia|]. exists h. split.
  - rewrite last_lookup, Ei. exact Hh.
  - unfold hash_at. cbn. by rewrite Hh.
Qed.

Lemma last_hash_at c : ∀ n, n = length scripts →
  ∃ h, last hashes = Some h ∧
    hash_at scripts (match n with O => None | S i => Some i end) c = Finished (c, Ok h).
Proof. intros n ->. rewrite <-(migration_hashes_length Hash_default scripts). apply hash_at_last. Qed.

Lemma or_error_Ok {A} (f : Connection → result string A) (g : string → SqliteStoreError) c c' a :
  db_read (λ conn, map_err g (f conn)) c = Finished (c', Ok a) → c' = c ∧ f c = Ok a.
Proof. unfold db_read. destruct (f c); [by intros [= <- <-]|done]. Qed.

Lemma table_exists_Ok name c c' b :
  table_exists name c = Finished (c', Ok b) → c' = c ∧ query_table_exists c name = Ok b.
Proof.
  unfold table_exists, or_database_error. intros (c1 & u & H1 & H2)%dbm_bind_Ok.
  apply or_error_Ok in H1 as [-> _]. by apply or_error_Ok in H2.
Qed.

Lemma get_migrations_value_state name c :
  ∃ r, get_migrations_value name c = Finished (c, r) ∧
    ∀ v, r = Ok v → select_migrations_value c name = Ok v.
Proof.
  unfold get_migrations_value, or_database_error, mbind, dbm_bind, db_read.
  destruct (begin_transaction c); cbn; [|by eexists].
  eexists. split; [done|]. intros v. destruct (select_migrations_value c name); [|done]. by intros [= <-].
Qed.

Lemma check_migration_hash_Ok ver c c' :
  check_migration_hash scripts ver c = Finished (c', Ok ()) →
  c' = c ∧ query_table_exists c "migrations" = Ok true ∧
  ∃ i h, ver = S i ∧ hashes !! i = Some h ∧
    select_migrations_value c DB_MIGRATION_HASH_FIELD = Ok (Some (Hash_bytes h)).
Proof.
  unfold check_migration_hash. intros (c1 & b & Ht & Hr)%dbm_bind_Ok. apply table_exists_Ok in Ht as [-> Ht].
  destruct b; [|done]. apply dbm_bind_Ok in Hr as (c1 & h & Hh & Hr).
  unfold hash_at in Hh. destruct ver as [|i]; [done|]. cbn in Hh.
  destruct (hashes !! i) as [h'|] eqn:Ei; [|done]. injection Hh as <- <-.
  apply dbm_bind_Ok in Hr as (c1 & actual & Ha & Hr). unfold or_else_error in Ha.
  destruct (get_migrations_value_state DB_MIGRATION_HASH_FIELD c) as (r & Hg & Hv). rewrite Hg in Ha.
  destruct r as [[v|]|e]; [|done..]. injection Ha as <- <-.
  case_bool_decide as He; [|done]. injection Hr as <-. split; [done|]. split; [done|].
  exists i, h'. split_and!; [done..|]. rewrite <-He. by apply Hv.
Qed.

Lemma record_migration_hash_Ok c c' :
  current_version scripts c = Ok (Inside (length scripts)) →
  record_migration_hash scripts c = Finished (c', Ok ()) → migrated c'.
Proof.
  intros Hv. unfold record_migration_hash. intros (c1 & h & Hh & Hr)%dbm_bind_Ok.
  destruct (hash_at_last c) as (h' & Hl & Hh'). rewrite Hh' in Hh. injection Hh as <- <-.
  unfold set_migrations_value in Hr. apply db_exec_Ok in Hr.
  destruct (replace_migrations_value _ _ c) as [c2|] eqn:Er; [|done]. injection Hr as <-.
  apply replace_selects in Er as (Hs & Ht & Hcv). rewrite Hv in Hcv. split_and!; [done..|by exists h'].
Qed.

Lemma migrate_Ok c c' : migrate scripts c = Finished (c', Ok ()) → to_latest scripts c = (c', Ok ()).
Proof.
  unfold migrate. destruct (to_latest scripts c) as [c1 [[]|e]]; [|done]. by intros [= <-].
Qed.

Lemma opened_migrated c c' : apply_migrations scripts c = Finished (c', Ok ()) → migrated c'.
Proof.
  unfold apply_migrations. intros (c1 & vb & Hb & Hr)%dbm_bind_Ok. apply or_error_Ok in Hb as [-> Hb].
  apply dbm_bind_Ok in Hr as (c1 & [] & Hcheck & Hr). apply dbm_bind_Ok in Hr as (c2 & [] & Hm%migrate_Ok & Hr).
  apply dbm_bind_Ok in Hr as (c3 & va & Ha & Hr). apply or_error_Ok in Ha as [-> Ha].
  pose proof (to_latest_version _ _ Hm) as Hlast. rewrite Hlast in Ha. injection Ha as <-.
  case_bool_decide as He; [|by eapply record_migration_hash_Ok]. injection Hr as <-. subst vb.
  apply check_migration_hash_Ok in Hcheck as (-> & Htab & i & h & Hi & Hh & Hs).
  rewrite (to_latest_done _ Hb) in Hm. injection Hm as <-. split_and!; [done..|]. exists h. split; [|done].
  rewrite last_lookup, <-Hh. f_equal. unfold compute_migration_hashes. rewrite migration_hashes_length. lia.
Qed.

Lemma check_last_hash c h v :
  begin_transaction c = Ok () → query_table_exists c "migrations" = Ok true →
  select_migrations_value c DB_MIGRATION_HASH_FIELD = Ok v → last hashes = Some h →
  check_migration_hash scripts (length scripts) c = Finished (c,
    match v with
    | Some v => if bool_decide (v = Hash_bytes h) then Ok () else Err MigrationHashMismatch
    | None => Err (SqliteDatabaseError "Migration hash not found")
    end).
Proof.
  intros Hbegin Ht Hs Hl. unfold check_migration_hash, mbind at 1, dbm_bind at 1.
  unfold table_exists, or_database_error, mbind at 1, dbm_bind at 1, db_read at 1 2. rewrite Hbegin. cbn [map_err].
  rewrite Ht. cbn [map_err]. unfold mbind at 1, dbm_bind at 1.
  destruct (last_hash_at c (length scripts) eq_refl) as (h' & Hl' & Hat). rewrite Hl in Hl'.
  injection Hl' as <-. rewrite Hat. unfold mbind, dbm_bind, or_else_error, get_migrations_value.
  unfold or_database_error, mbind, dbm_bind, db_read. rewrite Hbegin. cbn [map_err]. rewrite Hs. cbn [map_err].
  destruct v as [v|]; [|done]. by case_bool_decide.
Qed.

(** A database at the last version is opened by the check of its hash. *)
Lemma apply_at_latest c r :
  current_version scripts c = Ok (Inside (length scripts)) →
  check_migration_hash scripts (length scripts) c = Finished (c, r) →
  apply_migrations scripts c = Finished (c, r).
Proof.
  intros Hv Hc. unfold apply_migrations, or_migration_error, mbind, dbm_bind, db_read. rewrite Hv. cbn [map_err].
  rewrite Hc. destruct r as [[]|e]; [|done]. unfold migrate. rewrite (to_latest_done _ Hv). cbn [map_err].
  rewrite Hv. cbn [map_err]. by rewrite bool_decide_eq_true_2.
Qed.

(** A database with a version but without the table is refused and left as it is. *)
Lemma missing_table_refused c n :
  begin_transaction c = Ok () → current_version scripts c = Ok (Inside n) →
  query_table_exists c "migrations" = Ok false →
  apply_migrations scripts c = Finished (c, Err MissingMigrationsTable).
Proof.
  intros Hbegin Hv Ht. unfold apply_migrations, or_migration_error, mbind, dbm_bind, db_read. rewrite Hv. cbn [map_err].
  unfold check_migration_hash, table_exists, or_database_error, mbind, dbm_bind, db_read. rewrite Hbegin. cbn [map_err].
  by rewrite Ht.
Qed.

(** C23: A database that was opened is at the last version and has the hash of all scripts,
    whatever it was before; opening it again changes nothing; and with other scripts
    applied before, it is refused and left as it is. *)
Theorem open_migrates_once c c' :
  apply_migrations scripts c = Finished (c', Ok ()) →
  migrated c' ∧
  (begin_transaction c' = Ok () → apply_migrations scripts c' = Finished (c', Ok ())) ∧
  ∀ c1 v, begin_transaction c1 = Ok () →
    current_version scripts c1 = Ok (Inside (length scripts)) →
    query_table_exists c1 "migrations" = Ok true →
    select_migrations_value c1 DB_MIGRATION_HASH_FIELD = Ok (Some v) →
    select_migrations_value c' DB_MIGRATION_HASH_FIELD ≠ Ok (Some v) →
    apply_migrations scripts c1 = Finished (c1, Err MigrationHashMismatch).
Proof.
  intros Ho. assert (Hm : migrated c') by by eapply opened_migrated. destruct Hm as (Hv & Ht & h & Hl & Hs).
  split_and!; [by split_and!; [| |exists h]| |].
  - intros Hbegin. apply apply_at_latest; [done|]. rewrite (check_last_hash _ h (Some (Hash_bytes h))) by done.
    by rewrite bool_decide_eq_true_2.
  - intros c1 v Hbegin Hv1 Ht1 Hs1 Hne. apply apply_at_latest; [done|].
    rewrite (check_last_hash _ h (Some v)) by done. rewrite bool_decide_eq_false_2; [done|].
    intros ->. by apply Hne.
Qed.

(** The hash is written after the migrations were committed: when the program stops in
    between, the database cannot be opened again. *)
Theorem interrupted_migration_is_fatal c c1 :
  current_version scripts c = Ok NoneSet → to_latest scripts c = (c1, Ok ()) →
  begin_transaction c1 = Ok () →
  apply_migrations scripts c1 = Finished (c1, Err (SqliteDatabaseError "Migration hash not found")).
Proof.
  intros Hn Hl Hbegin. pose proof (to_latest_version _ _ Hl) as Hv.
  destruct (to_latest_fresh _ _ Hn Hl) as [Ht Hs]. destruct (hash_at_last c1) as (h & Hh & _).
  apply apply_at_latest; [done|]. by rewrite (check_last_hash _ h None).
Qed.
End facts.

(** ** A database in memory *)

(** The number of migrations after the first one, and the table that the first one makes,
    unless it was dropped. *)
#[export] Instance toy_migrations : MigrationLib := {|
  Connection := option (nat * option (gmap string bytes));
  current_version := λ scripts c,
    Ok match c with
       | None => NoneSet
       | Some (n, _) => if decide (S n ≤ length scripts)%nat then Inside (S n) else Outside (S n)
       end;
  to_latest := λ scripts c,
    match c with
    | Some (n, t) =>
        if decide (S n ≤ length scripts)%nat then (Some (length scripts - 1, t)%nat, Ok ())
        else (c, Err "database too far ahead"%string)
    | None => (Some (length scripts - 1, Some ∅)%nat, Ok ())
    end;
  begin_transaction := λ _, Ok ();
  query_table_exists := λ c name, Ok (bool_decide (is_Some (c ≫= snd)));
  select_migrations_value := λ c name,
    ok_or ((λ t : gmap string bytes, t !! name) <$> (c ≫= snd)) "no such table: migrations"%string;
  replace_migrations_value := λ name v c,
    match c with
    | Some (n, Some t) => Ok (Some (n, Some (<[name := v]> t)))
    | _ => Err "no such table: migrations"%string
    end;
  Hash := Z;
  Hash_default := 0;
  Hash_bytes := λ h, [h];
  Blake3_hash := λ s, Z.of_nat (String.length s);
  Blake3_merge := λ a b, 31 * a + b
|}.

Definition toy_scripts : list string := ["CREATE TABLE migrations"%string].

#[export] Instance toy_migration_laws : MigrationLaws toy_scripts.
Proof.
  split; cbn.
  - done.
  - intros [[n t]|] c'; [destruct (decide _); [|done]|]; by intros [= <-].
  - intros [[n t]|] c' e; [destruct (decide _); [done|]|done]. by intros [= <- _].
  - intros [[n t]|]; [|done]. destruct (decide _); [|done]. by intros [= ->].
  - intros [[n t]|] c'; [destruct (decide _); done|]. by intros _ [= <-].
  - intros [[n t]|] k; [|done]. destruct (decide _); [done|]. eauto.
  - intros [[n t]|] k; [|done]. destruct (decide _); [|done]. intros [= <-]. lia.
  - intros name v [[n [t|]]|] c'; [|done..]. intros [= <-]. cbn. by rewrite lookup_insert_eq.
Qed.

Definition toy_opened : @Connection toy_migrations := Some (O, Some {[ DB_MIGRATION_HASH_FIELD := [21] ]}).

Definition toy_fresh : @Connection toy_migrations := None.
Definition toy_other : @Connection toy_migrations := Some (O, Some {[ DB_MIGRATION_HASH_FIELD := [1] ]}).
Definition toy_interrupted : @Connection toy_migrations := Some (O, Some ∅).
Definition toy_dropped : @Connection toy_migrations := Some (O, None).

Lemma open_migrates_once_witness :
  migrated (scripts := toy_scripts) toy_opened ∧
  apply_migrations toy_scripts toy_opened = Finished (toy_opened, Ok ()) ∧
  apply_migrations toy_scripts toy_other = Finished (toy_other, Err MigrationHashMismatch).
Proof.
  destruct (open_migrates_once (scripts := toy_scripts) toy_fresh toy_opened eq_refl) as (Hm & Hre & Hother).
  split; [exact Hm|]. split; [apply Hre; reflexivity|].
  apply (Hother toy_other [1]); [reflexivity..|]. discriminate.
Defined.

Lemma interrupted_migration_is_fatal_witness :
  apply_migrations toy_scripts toy_interrupted =
    Finished (toy_interrupted, Err (SqliteDatabaseError "Migration hash not found")).
Proof. apply (interrupted_migration_is_fatal (scripts := toy_scripts) toy_fresh toy_interrupted); reflexivity. Defined.

Example dropped_table_refused :
  apply_migrations toy_scripts toy_dropped = Finished (toy_dropped, Err MissingMigrationsTable).
Proof. apply (missing_table_refused (scripts := toy_scripts) toy_dropped 1); reflexivity. Qed.
