(* ===== verification/ClientBuild.v ===== *)
(** * Building a client

    [builder.rs], [grpc_support/mod.rs] and [settings/mod.rs]: how the parts of a client
    are put together, with the defaults of the networks, what a new client takes over
    from its store, and the settings that are kept there. *)

From S2P Require Import Prelude Protocol Serde Model NoteStates InputNote OutputNote TxRecord.
From S2P Require Import TxTracker NodeErrors Errors NoteTracker TxOrdering Rpc Grpc SyncUpdate Endpoint.
From S2P Require Import AccountTypes SmtForest Sql Store AccountReaders Proto ProtoNotes AccountProofs AccountProofSpec GrpcClient GrpcClientSpec.
From S2P Require Import Db AccountDb ChainDb NoteSpec TxDb ChainSpec SqliteStore SqliteSync Client NoteImport ClientSync ClientSpec GrpcTransport.
From Stdlib Require Import ZArith Lia.
From stdpp Require Import base gmap list strings.

Open Scope Z_scope.

(** ** What a client is made of *)

(** The node interface that the builder sets up. *)
Class RpcApi `{Protocol} (R : Type) := {
  api_set_genesis_commitment : Word → dbm RpcError R ();
  api_set_rpc_limits : RpcLimits → dbm RpcError R ()
}.

#[export] Instance GrpcClient_api `{Tonic} : RpcApi GrpcClient := {|
  api_set_genesis_commitment := GrpcClient.set_genesis_commitment;
  api_set_rpc_limits := GrpcClient.set_rpc_limits
|}.

(** Random numbers, provers and the executor belong to other crates. *)
Class BuildLib `{Protocol} := {
  Rng : Type;
  RandomCoin_new : u64 * u64 * u64 * u64 → Rng;
  Prover : Type;
  RemoteTransactionProver_new : string → Prover;
  LocalTransactionProver_default : Prover;
  ExecutionOptions : Type;
  (* The options of the client in or not in debug mode. *)
  ExecutionOptions_new : bool → result foreign ExecutionOptions
}.

Inductive DebugMode := Enabled | Disabled.
Definition bool_of_debug_mode (debug_mode : DebugMode) : bool :=
  match debug_mode with Enabled => true | Disabled => false end.
Definition debug_mode_of_bool (debug_mode : bool) : DebugMode :=
  if debug_mode then Enabled else Disabled.

Definition TX_DISCARD_DELTA : u32 := 20.
Definition TESTNET_PROVER_ENDPOINT : string := "https://tx-prover.testnet.miden.io".
Definition DEVNET_PROVER_ENDPOINT : string := "https://tx-prover.devnet.miden.io".
Definition NOTE_TRANSPORT_DEFAULT_TIMEOUT_MS : u64 := 10000.
Definition NOTE_TRANSPORT_TESTNET_ENDPOINT : string := "https://transport.miden.io".
Definition NOTE_TRANSPORT_DEVNET_ENDPOINT : string := "https://transport.devnet.miden.io".

Record NoteTransportConfig := { ntc_endpoint : string; ntc_timeout_ms : u64 }.

(** A store, or how to make one. *)
Inductive StoreBuilder `{Protocol} (St : Type) :=
| StoreBuilder_Store (store : St)
| StoreBuilder_Factory (build : result StoreError St).
Arguments StoreBuilder_Store {_ St} store.
Arguments StoreBuilder_Factory {_ St} build.

Section builder.
Context `{TransportService} `{!BuildLib} {St R Auth Transport : Type} `{!StoreOps St} `{!RpcApi R}.
(** A client of the transport network that the user gives, or the one that is connected. *)
Context (of_grpc_transport : GrpcNoteTransportClient → Transport).

Record ClientBuilder := {
  cb_rpc_api : option R;
  cb_store : option (StoreBuilder St);
  cb_rng : option Rng;
  cb_authenticator : option Auth;
  cb_in_debug_mode : DebugMode;
  cb_tx_discard_delta : option u32;
  cb_max_block_number_delta : option u32;
  cb_note_transport_api : option Transport;
  cb_note_transport_config : option NoteTransportConfig;
  cb_tx_prover : option Prover;
  cb_endpoint : option Endpoint
}.

Definition ClientBuilder_default : ClientBuilder := {|
  cb_rpc_api := None; cb_store := None; cb_rng := None; cb_authenticator := None;
  cb_in_debug_mode := Disabled; cb_tx_discard_delta := Some TX_DISCARD_DELTA;
  cb_max_block_number_delta := None; cb_note_transport_api := None;
  cb_note_transport_config := None; cb_tx_prover := None; cb_endpoint := None |}.

(** The client that is built. *)
Record BuiltClient := {
  bc_store : St;
  bc_rng : Rng;
  bc_rpc_api : R;
  bc_tx_prover : Prover;
  bc_authenticator : option Auth;
  bc_exec_options : ExecutionOptions;
  bc_tx_discard_delta : option u32;
  bc_max_block_number_delta : option u32;
  bc_note_transport_api : option Transport
}.

(** Each setter replaces one field. *)
Definition set_rpc_api (x : option R) (b : ClientBuilder) : ClientBuilder := {|
  cb_rpc_api := x; cb_store := cb_store b; cb_rng := cb_rng b;
  cb_authenticator := cb_authenticator b; cb_in_debug_mode := cb_in_debug_mode b;
  cb_tx_discard_delta := cb_tx_discard_delta b;
  cb_max_block_number_delta := cb_max_block_number_delta b;
  cb_note_transport_api := cb_note_transport_api b;
  cb_note_transport_config := cb_note_transport_config b; cb_tx_prover := cb_tx_prover b;
  cb_endpoint := cb_endpoint b |}.
Definition set_store (x : option (StoreBuilder St)) (b : ClientBuilder) : ClientBuilder := {|
  cb_rpc_api := cb_rpc_api b; cb_store := x; cb_rng := cb_rng b;
  cb_authenticator := cb_authenticator b; cb_in_debug_mode := cb_in_debug_mode b;
  cb_tx_discard_delta := cb_tx_discard_delta b;
  cb_max_block_number_delta := cb_max_block_number_delta b;
  cb_note_transport_api := cb_note_transport_api b;
  cb_note_transport_config := cb_note_transport_config b; cb_tx_prover := cb_tx_prover b;
  cb_endpoint := cb_endpoint b |}.
Definition set_rng (x : option Rng) (b : ClientBuilder) : ClientBuilder := {|
  cb_rpc_api := cb_rpc_api b; cb_store := cb_store b; cb_rng := x;
  cb_authenticator := cb_authenticator b; cb_in_debug_mode := cb_in_debug_mode b;
  cb_tx_discard_delta := cb_tx_discard_delta b;
  cb_max_block_number_delta := cb_max_block_number_delta b;
  cb_note_transport_api := cb_note_transport_api b;
  cb_note_transport_config := cb_note_transport_config b; cb_tx_prover := cb_tx_prover b;
  cb_endpoint := cb_endpoint b |}.
Definition set_authenticator (x : option Auth) (b : ClientBuilder) : ClientBuilder := {|
  cb_rpc_api := cb_rpc_api b; cb_store := cb_store b; cb_rng := cb_rng b;
  cb_authenticator := x; cb_in_debug_mode := cb_in_debug_mode b;
  cb_tx_discard_delta := cb_tx_discard_delta b;
  cb_max_block_number_delta := cb_max_block_number_delta b;
  cb_note_transport_api := cb_note_transport_api b;
  cb_note_transport_config := cb_note_transport_config b; cb_tx_prover := cb_tx_prover b;
  cb_endpoint := cb_endpoint b |}.
Definition set_in_debug_mode (x : DebugMode) (b : ClientBuilder) : ClientBuilder := {|
  cb_rpc_api := cb_rpc_api b; cb_store := cb_store b; cb_rng := cb_rng b;
  cb_authenticator := cb_authenticator b; cb_in_debug_mode := x;
  cb_tx_discard_delta := cb_tx_discard_delta b;
  cb_max_block_number_delta := cb_max_block_number_delta b;
  cb_note_transport_api := cb_note_transport_api b;
  cb_note_transport_config := cb_note_transport_config b; cb_tx_prover := cb_tx_prover b;
  cb_endpoint := cb_endpoint b |}.
Definition set_tx_discard_delta (x : option u32) (b : ClientBuilder) : ClientBuilder := {|
  cb_rpc_api := cb_rpc_api b; cb_store := cb_store b; cb_rng := cb_rng b;
  cb_authenticator := cb_authenticator b; cb_in_debug_mode := cb_in_debug_mode b;
  cb_tx_discard_delta := x; cb_max_block_number_delta := cb_max_block_number_delta b;
  cb_note_transport_api := cb_note_transport_api b;
  cb_note_transport_config := cb_note_transport_config b; cb_tx_prover := cb_tx_prover b;
  cb_endpoint := cb_endpoint b |}.
Definition set_max_block_number_delta (x : option u32) (b : ClientBuilder) : ClientBuilder := {|
  cb_rpc_api := cb_rpc_api b; cb_store := cb_store b; cb_rng := cb_rng b;
  cb_authenticator := cb_authenticator b; cb_in_debug_mode := cb_in_debug_mode b;
  cb_tx_discard_delta := cb_tx_discard_delta b; cb_max_block_number_delta := x;
  cb_note_transport_api := cb_note_transport_api b;
  cb_note_transport_config := cb_note_transport_config b; cb_tx_prover := cb_tx_prover b;
  cb_endpoint := cb_endpoint b |}.
Definition set_note_transport_api (x : option Transport) (b : ClientBuilder) : ClientBuilder := {|
  cb_rpc_api := cb_rpc_api b; cb_store := cb_store b; cb_rng := cb_rng b;
  cb_authenticator := cb_authenticator b; cb_in_debug_mode := cb_in_debug_mode b;
  cb_tx_discard_delta := cb_tx_discard_delta b;
  cb_max_block_number_delta := cb_max_block_number_delta b; cb_note_transport_api := x;
  cb_note_transport_config := cb_note_transport_config b; cb_tx_prover := cb_tx_prover b;
  cb_endpoint := cb_endpoint b |}.
Definition set_tx_prover (x : option Prover) (b : ClientBuilder) : ClientBuilder := {|
  cb_rpc_api := cb_rpc_api b; cb_store := cb_store b; cb_rng := cb_rng b;
  cb_authenticator := cb_authenticator b; cb_in_debug_mode := cb_in_debug_mode b;
  cb_tx_discard_delta := cb_tx_discard_delta b;
  cb_max_block_number_delta := cb_max_block_number_delta b;
  cb_note_transport_api := cb_note_transport_api b;
  cb_note_transport_config := cb_note_transport_config b; cb_tx_prover := x;
  cb_endpoint := cb_endpoint b |}.

(** ** Networks *)

(** [new_client] makes the gRPC client of an endpoint with a timeout. *)
Context (new_grpc_client : Endpoint → u64 → R).

Definition set_endpoint (endpoint : Endpoint) (config : option NoteTransportConfig) (b : ClientBuilder) :
    ClientBuilder := {|
  cb_rpc_api := Some (new_grpc_client endpoint 10000); cb_store := cb_store b; cb_rng := cb_rng b;
  cb_authenticator := cb_authenticator b; cb_in_debug_mode := cb_in_debug_mode b;
  cb_tx_discard_delta := cb_tx_discard_delta b;
  cb_max_block_number_delta := cb_max_block_number_delta b;
  cb_note_transport_api := cb_note_transport_api b; cb_note_transport_config := config;
  cb_tx_prover := cb_tx_prover b; cb_endpoint := Some endpoint |}.

Definition for_testnet : ClientBuilder :=
  set_tx_prover (Some (RemoteTransactionProver_new TESTNET_PROVER_ENDPOINT))
    (set_endpoint testnet (Some {| ntc_endpoint := NOTE_TRANSPORT_TESTNET_ENDPOINT;
      ntc_timeout_ms := NOTE_TRANSPORT_DEFAULT_TIMEOUT_MS |}) ClientBuilder_default).
Definition for_devnet : ClientBuilder :=
  set_tx_prover (Some (RemoteTransactionProver_new DEVNET_PROVER_ENDPOINT))
    (set_endpoint devnet (Some {| ntc_endpoint := NOTE_TRANSPORT_DEVNET_ENDPOINT;
      ntc_timeout_ms := NOTE_TRANSPORT_DEFAULT_TIMEOUT_MS |}) ClientBuilder_default).
Definition for_localhost : ClientBuilder := set_endpoint localhost None ClientBuilder_default.

(** ** Setters *)

Definition cb_rpc (client : R) : ClientBuilder → ClientBuilder := set_rpc_api (Some client).
Definition cb_grpc_client (endpoint : Endpoint) (timeout_ms : option u64) : ClientBuilder → ClientBuilder :=
  set_rpc_api (Some (new_grpc_client endpoint (default 10000 timeout_ms))).
Definition cb_with_store (store : St) : ClientBuilder → ClientBuilder :=
  set_store (Some (StoreBuilder_Store store)).
Definition cb_with_rng (rng : Rng) : ClientBuilder → ClientBuilder := set_rng (Some rng).
Definition cb_with_authenticator (authenticator : Auth) : ClientBuilder → ClientBuilder :=
  set_authenticator (Some authenticator).
Definition cb_with_debug_mode (debug : DebugMode) : ClientBuilder → ClientBuilder := set_in_debug_mode debug.
Definition cb_with_max_block_number_delta (delta : u32) : ClientBuilder → ClientBuilder :=
  set_max_block_number_delta (Some delta).
Definition cb_with_tx_discard_delta (delta : option u32) : ClientBuilder → ClientBuilder :=
  set_tx_discard_delta delta.
Definition cb_tx_graceful_blocks (delta : option u32) : ClientBuilder → ClientBuilder :=
  set_tx_discard_delta delta.
Definition cb_note_transport (client : Transport) : ClientBuilder → ClientBuilder :=
  set_note_transport_api (Some client).
Definition cb_prover (prover : Prover) : ClientBuilder → ClientBuilder := set_tx_prover (Some prover).

(** ** Building *)

(** A step of [build]: [?] with the conversion of an error. *)
Definition build_m (A : Type) : Type := dbm client_error Network A.

(** A computation on a part that the builder owns, which is returned with the result. *)
Definition run_part {E S A} (f : E → client_error) (m : dbm E S A) (s : S) : build_m (S * A) := λ n,
  match m s with
  | Finished (s, r) => Finished (n, a ← map_err f r; Ok (s, a))
  | Panicked => Panicked
  | OutOfFuel => OutOfFuel
  end.
Definition From_RpcError (e : RpcError) : client_error := From_ClientError (Client_RpcError e).
Definition made_store (r : result StoreError St) : build_m St :=
  match r with Ok store => mret store | Err e => db_fail (From_StoreError e) end.
Definition initialization_error {A} (msg : string) : build_m A :=
  db_fail (From_ClientError (Client_ClientInitializationError msg)).

(** The commitment of the genesis block in the store is given to the node interface, and
    so are the limits that are kept there. *)
Definition init_genesis (store : St) (rpc_api : R) : build_m (St * R) :=
  '(store, genesis) ← run_part From_StoreError (get_block_header_by_num 0) store;
  match genesis with
  | Some (genesis, _) =>
      '(rpc_api, _) ← run_part From_RpcError
        (api_set_genesis_commitment (BlockHeader_commitment genesis)) rpc_api;
      mret (store, rpc_api)
  | None => mret (store, rpc_api)
  end.

Definition init_limits (store : St) (rpc_api : R) : build_m (St * R) :=
  '(store, limits) ← run_part From_StoreError store_get_rpc_limits store;
  match limits with
  | Some limits =>
      '(rpc_api, _) ← run_part From_RpcError (api_set_rpc_limits limits) rpc_api;
      mret (store, rpc_api)
  | None => mret (store, rpc_api)
  end.

(** The given transport client, or the one of the configuration, which is connected. *)
Definition init_note_transport (self : ClientBuilder) : build_m (option Transport) :=
  match cb_note_transport_api self, cb_note_transport_config self with
  | None, Some config => λ n,
      match transport_connect (ntc_endpoint config) (ntc_timeout_ms config) n with
      | Finished (n, Ok transport) => Finished (n, Ok (Some (of_grpc_transport transport)))
      | Finished (n, Err e) => initialization_error
          ("Failed to connect to note transport: " +:+ TransportError_to_string e) n
      | Panicked => Panicked
      | OutOfFuel => OutOfFuel
      end
  | api, _ => mret api
  end.

(** [coin_seed] is what the random number generator of the system gives.  A store and a
    node interface that the caller shares are returned only by a build that succeeds. *)
Definition client_build (self : ClientBuilder) (coin_seed : u64 * u64 * u64 * u64) : build_m BuiltClient :=
  rpc_api ← match cb_rpc_api self with
    | Some client => mret client
    | None => initialization_error "RPC client is required. Call `.rpc(...)` or `.grpc_client(...)`."
    end;
  store ← match cb_store self with
    | Some (StoreBuilder_Store store) => mret store
    | Some (StoreBuilder_Factory build) => made_store build
    | None => initialization_error "Store must be specified. Call `.store(...)`."
    end;
  let rng := default (RandomCoin_new coin_seed) (cb_rng self) in
  let tx_prover := default LocalTransactionProver_default (cb_tx_prover self) in
  '(store, rpc_api) ← init_genesis store rpc_api;
  '(store, rpc_api) ← init_limits store rpc_api;
  note_transport_api ← init_note_transport self;
  exec_options ← match ExecutionOptions_new (bool_of_debug_mode (cb_in_debug_mode self)) with
    | Ok options => mret options
    | Err _ => db_panic
    end;
  mret {| bc_store := store; bc_rng := rng; bc_rpc_api := rpc_api; bc_tx_prover := tx_prover;
          bc_authenticator := cb_authenticator self; bc_exec_options := exec_options;
          bc_tx_discard_delta := cb_tx_discard_delta self;
          bc_max_block_number_delta := cb_max_block_number_delta self;
          bc_note_transport_api := note_transport_api |}.
End builder.

(** ** Settings *)

Section settings.
Context `{StoreLib} {St : Type} `{!StoreOps St}.

Definition settings_m (A : Type) : Type := client_m St A.

Definition client_set_setting {A} (c : codec A) (key : string) (value : A) : settings_m () :=
  on_store (set_setting key (write_into c value)).

Definition client_get_setting {A} (c : codec A) (key : string) : settings_m (option A) :=
  value ← on_store (get_setting key);
  match value with
  | None => mret None
  | Some value => db_read (λ _, map_err From_DeserializationError (Some <$> read_from_bytes c value))
  end.
End settings.

(** ** What a new client takes over *)

Section facts.
Context `{TransportService} `{!GrpcLib} `{!BuildLib} {St Auth Transport : Type} `{!StoreOps St}.
Context (of_grpc_transport : GrpcNoteTransportClient → Transport).
Implicit Types (b : ClientBuilder (St := St) (R := GrpcClient) (Auth := Auth) (Transport := Transport)).

Lemma run_part_Ok {E S A} (f : E → client_error) (m : dbm E S A) s n n' s' a :
  run_part f m s n = Finished (n', Ok (s', a)) → n' = n ∧ m s = Finished (s', Ok a).
Proof. unfold run_part. destruct (m s) as [[s1 [a'|e]]| |]; [|done..]. by intros [= <- <- <-]. Qed.

Lemma run_part_network {E S A} (f : E → client_error) (m : dbm E S A) s n n' a :
  run_part f m s n = Finished (n', Ok a) → n' = n.
Proof. destruct a. intros Hrun. by apply run_part_Ok in Hrun as [-> _]. Qed.

Lemma init_genesis_network store (rpc : GrpcClient) n n' a :
  init_genesis store rpc n = Finished (n', Ok a) → n' = n.
Proof.
  unfold init_genesis. intros (n1 & [s g] & ->%run_part_network & Hb)%dbm_bind_Ok.
  destruct g as [[g rel]|]; [|by injection Hb].
  apply dbm_bind_Ok in Hb as (n2 & [rpc1 u] & ->%run_part_network & Hb). by injection Hb.
Qed.

Lemma init_limits_network store (rpc : GrpcClient) n n' a :
  init_limits store rpc n = Finished (n', Ok a) → n' = n.
Proof.
  unfold init_limits. intros (n1 & [s l] & ->%run_part_network & Hb)%dbm_bind_Ok.
  destruct l as [l|]; [|by injection Hb].
  apply dbm_bind_Ok in Hb as (n2 & [rpc1 u] & ->%run_part_network & Hb). by injection Hb.
Qed.

Lemma init_genesis_Ok store store1 store' rpc rpc' n n' genesis :
  get_block_header_by_num 0 store = Finished (store1, Ok (Some genesis)) →
  reachable rpc → genesis_commitment rpc = None →
  init_genesis store rpc n = Finished (n', Ok (store', rpc')) →
  store' = store1 ∧ reachable rpc' ∧ limits rpc' = limits rpc ∧
  genesis_commitment rpc' = Some (BlockHeader_commitment genesis.1).
Proof.
  intros Hg Hr Hnone. unfold init_genesis. intros (n1 & [s1 g] & Hs & Hb)%dbm_bind_Ok.
  apply run_part_Ok in Hs as [-> Hs]. rewrite Hg in Hs. injection Hs as <- <-. destruct genesis as [genesis rel].
  apply dbm_bind_Ok in Hb as (n2 & [rpc1 u] & Hb & Hm). injection Hm as <- <- <-.
  apply run_part_Ok in Hb as [-> Hb]. cbn [api_set_genesis_commitment GrpcClient_api] in Hb. destruct u.
  split; [done|]. split; [by eapply R_method, Hb; [|apply M_set_genesis_commitment]|].
  split; [|by apply set_genesis_cases in Hb as [[_ ?]|(_ & Hg1 & _)]].
  unfold GrpcClient.set_genesis_commitment in Hb. cbv [mbind dbm_bind db_read db_exec mret dbm_ret] in Hb.
  rewrite Hnone in Hb. cbn in Hb. destruct (client rpc) as [api|]; [|by injection Hb as <-].
  unfold db_finish in Hb. destruct (ApiClient_set_genesis_commitment _ _); [|done..]. by injection Hb as <-.
Qed.

Lemma init_limits_Ok store store' stored s2 rpc rpc' n n' :
  store_get_rpc_limits store = Finished (s2, Ok stored) →
  init_limits store rpc n = Finished (n', Ok (store', rpc')) →
  store' = s2 ∧ genesis_commitment rpc' = genesis_commitment rpc ∧
  limits rpc' = match stored with Some l => Some l | None => limits rpc end ∧
  (reachable rpc → reachable rpc').
Proof.
  intros Hl. unfold init_limits. intros (n1 & [s1 l] & Hs & Hb)%dbm_bind_Ok.
  apply run_part_Ok in Hs as [-> Hs]. rewrite Hl in Hs. injection Hs as <- <-.
  destruct stored as [l|]; [|by injection Hb as <- <- <-].
  apply dbm_bind_Ok in Hb as (n2 & [rpc1 u] & Hb & Hm). injection Hm as <- <- <-.
  apply run_part_Ok in Hb as [-> Hb]. pose proof Hb as Hset. cbn in Hb. injection Hb as <-. destruct u.
  split_and!; [done..|]. intros Hr. by eapply R_method, Hset; [|apply M_request, M_set_rpc_limits].
Qed.

(** The transport client of a builder that finds the network in a state. *)
Definition transport_of b (n n' : Network) (api : option Transport) : Prop :=
  match cb_note_transport_api b, cb_note_transport_config b with
  | Some given, _ => n' = n ∧ api = Some given
  | None, Some config => ∃ t,
      transport_connect (ntc_endpoint config) (ntc_timeout_ms config) n = Finished (n', Ok t) ∧
      api = Some (of_grpc_transport t)
  | None, None => n' = n ∧ api = None
  end.

Lemma init_note_transport_Ok b n n' api :
  init_note_transport of_grpc_transport b n = Finished (n', Ok api) → transport_of b n n' api.
Proof.
  unfold init_note_transport, transport_of.
  destruct (cb_note_transport_api b), (cb_note_transport_config b) as [config|]; try (by intros [= <- <-]).
  destruct (transport_connect _ _ n) as [[n1 [t|e]]| |]; try done. intros [= <- <-]. by exists t.
Qed.

(** C22: A client that is built over a store which has the genesis block, with a fresh node
    client, takes over the commitment to that block and the limits that the store keeps:
    its node client is one whose connection announces that commitment.  The store is the
    given one after these two queries.  The random numbers and the prover are those given
    to the builder, by default those of the seed and the local prover; the execution options
    are those of the debug mode; the authenticator and the two block deltas are those of
    the builder; and the transport client is the one given, else one connected as the
    configuration says, else none. *)
Theorem built_client_takes_over b rpc store s1 s2 genesis stored seed n n' c :
  cb_rpc_api b = Some rpc → reachable rpc → genesis_commitment rpc = None →
  cb_store b = Some (StoreBuilder_Store store) →
  get_block_header_by_num 0 store = Finished (s1, Ok (Some genesis)) →
  store_get_rpc_limits s1 = Finished (s2, Ok stored) →
  client_build of_grpc_transport b seed n = Finished (n', Ok c) →
  bc_store c = s2 ∧ reachable (bc_rpc_api c) ∧ connected_ok (bc_rpc_api c) ∧
  genesis_commitment (bc_rpc_api c) = Some (BlockHeader_commitment genesis.1) ∧
  limits (bc_rpc_api c) = match stored with Some l => Some l | None => limits rpc end ∧
  bc_rng c = match cb_rng b with Some rng => rng | None => RandomCoin_new seed end ∧
  bc_tx_prover c = match cb_tx_prover b with Some prover => prover | None => LocalTransactionProver_default end ∧
  ExecutionOptions_new (bool_of_debug_mode (cb_in_debug_mode b)) = Ok (bc_exec_options c) ∧
  bc_authenticator c = cb_authenticator b ∧
  bc_tx_discard_delta c = cb_tx_discard_delta b ∧
  bc_max_block_number_delta c = cb_max_block_number_delta b ∧
  transport_of b n n' (bc_note_transport_api c).
Proof.
  intros Hrpc Hreach Hnone Hstore Hg Hl. unfold client_build. rewrite Hrpc, Hstore.
  intros (n1 & r & Hm & Hb)%dbm_bind_Ok. injection Hm as <- <-.
  apply dbm_bind_Ok in Hb as (n2 & s & Hm & Hb). injection Hm as <- <-.
  apply dbm_bind_Ok in Hb as (n3 & [s3 r3] & Hi & Hb). pose proof (init_genesis_network _ _ _ _ _ Hi) as ->.
  apply (init_genesis_Ok _ _ _ _ _ _ _ _ Hg Hreach Hnone) in Hi as (-> & Hr3 & Hl3 & Hg3).
  apply dbm_bind_Ok in Hb as (n4 & [s4 r4] & Hi & Hb). pose proof (init_limits_network _ _ _ _ _ Hi) as ->.
  apply (init_limits_Ok _ _ _ _ _ _ _ _ Hl) in Hi as (-> & Hg4 & Hl4 & Hr4).
  apply dbm_bind_Ok in Hb as (n5 & api & Ht%init_note_transport_Ok & Hb).
  apply dbm_bind_Ok in Hb as (n6 & opts & Ho & Hb). injection Hb as <- <-. cbn.
  destruct (ExecutionOptions_new _) as [opts'|]; [|done]. injection Ho as <- <-.
  rewrite Hg4, Hg3, Hl4, Hl3. specialize (Hr4 Hr3).
  split_and!; try done; by apply reachable_connected_ok.
Qed.
End facts.

(** A setting is read back from the SQLite store as it was set. *)
Lemma setting_roundtrip `{StoreLaws} `{Forest : !SmtForestLib} `{!ExecutedLib}
    {A} (c : codec A) wf `{!CodecOk c wf} key value (s s' : ClientState StoreState) :
  wf value → client_set_setting c key value s = Finished (s', Ok ()) →
  client_get_setting c key s' = Finished (s', Ok (Some value)).
Proof.
  intros Hv. unfold client_set_setting, client_get_setting, on_store, mbind, dbm_bind.
  cbn [set_setting get_setting sqlite_store_ops]. unfold on_tables, zoom, sqlite_set_setting.
  destruct (bool_decide (key = EmptyString)); [done|]. unfold db_do, db_exec. intros [= <-].
  unfold sqlite_get_setting, db_read. cbn. rewrite lookup_insert_eq. cbn. by rewrite (read_from_bytes_ok c wf).
Qed.

(** ** Witness *)

#[export] Instance toy_build : @BuildLib toy_protocol := {|
  Rng := Z;
  RandomCoin_new := λ seed, seed.1.1.1;
  Prover := string;
  RemoteTransactionProver_new := λ e, e;
  LocalTransactionProver_default := "local"%string;
  ExecutionOptions := bool;
  ExecutionOptions_new := Ok
|}.

Definition toy_genesis_store : StoreState := {|
  st_db := set_block_headers (block_row <$> {[ 0 := {|
      sb_header := ((0, 8) : @BlockHeader toy_protocol); sb_peaks := [0 : @Word toy_protocol];
      sb_relevant := false |} ]}) (st_db (cl_store toy_client));
  st_forest := AccountSmtForest_new |}.

Definition toy_builder : ClientBuilder (St := StoreState) (R := GrpcClient) (Auth := ())
    (Transport := GrpcNoteTransportClient) :=
  cb_with_max_block_number_delta 256 (cb_with_store toy_genesis_store (for_testnet (λ e t, GrpcClient_new e t (network toy_new)))).

(** The remote prover of the network is kept, the random numbers come from the seed, and the
    transport network is connected. *)
Lemma built_client_takes_over_witness : ∃ n c,
  client_build (λ t, t) toy_builder (1, 2, 3, 4) (network toy_new) = Finished (n, Ok c) ∧
  connected_ok (bc_rpc_api c) ∧
  genesis_commitment (bc_rpc_api c) = Some (BlockHeader_commitment ((0, 8) : @BlockHeader toy_protocol)) ∧
  bc_rng c = 1 ∧ bc_tx_prover c = TESTNET_PROVER_ENDPOINT ∧ bc_max_block_number_delta c = Some 256 ∧
  is_Some (bc_note_transport_api c).
Proof.
  assert (Ht : match client_build (λ t, t) toy_builder (1, 2, 3, 4) (network toy_new) with Finished (_, Ok _) => true | _ => false end = true)
    by (vm_compute; reflexivity).
  destruct (client_build (λ t, t) toy_builder (1, 2, 3, 4) (network toy_new)) as [[n [c|]]| |] eqn:Hb; try discriminate Ht.
  exists n, c. split; [reflexivity|].
  destruct (built_client_takes_over (λ t, t) toy_builder toy_new toy_genesis_store
    toy_genesis_store toy_genesis_store ((0, 8) : @BlockHeader toy_protocol, Irrelevant) None (1, 2, 3, 4) (network toy_new) n c)
    as (_ & _ & Hc & Hg & _ & Hrng & Hprover & _ & _ & _ & Hdelta & Htr);
    [reflexivity|apply R_new|reflexivity..|exact Hb|].
  destruct Htr as (t & _ & Htr).
  split; [exact Hc|]. split; [exact Hg|]. split; [exact Hrng|]. split; [exact Hprover|].
  split; [exact Hdelta|]. rewrite Htr. by eexists.
Defined.
