(* ===== verification/TransportNode.v ===== *)
(** * A transport network in memory

    [test_utils/note_transport.rs]: the node of the note transport network that the tests
    run the client against.  It keeps the notes of each tag in the order they came, each
    with a cursor, which is the time it came at; the client is given the notes after a
    cursor.  It is an implementation of the interface of [NoteImport.v]. *)

From S2P Require Import Prelude Protocol Serde Model NoteStates InputNote OutputNote TxRecord.
From S2P Require Import TxTracker Errors NoteTracker Rpc Grpc SyncUpdate AccountTypes SmtForest Sql Store.
From S2P Require Import Client NoteImport.
From Stdlib Require Import ZArith Lia.
From stdpp Require Import base gmap list strings sorting.

Open Scope Z_scope.

Section node.
Context `{Protocol}.

Record MockNoteTransportNode := { node_notes : gmap NoteTag (list (NoteInfo * u64)) }.

Definition MockNoteTransportNode_new : MockNoteTransportNode := {| node_notes := ∅ |}.

(** [now] is the time of the system in microseconds. *)
Definition add_note (now : u64) (self : MockNoteTransportNode) (header : NoteId * NoteMetadata)
    (details_bytes : bytes) : MockNoteTransportNode :=
  let tag := NoteMetadata_tag header.2 in
  let info := {| ni_header := header; ni_details_bytes := details_bytes |} in
  {| node_notes :=
       <[tag := default [] (node_notes self !! tag) ++ [(info, now)]]> (node_notes self) |}.

(** The notes of a tag from the first one after the cursor on. *)
Fixpoint after_cursor (cursor : u64) (pg_notes : list (NoteInfo * u64)) : list (NoteInfo * u64) :=
  match pg_notes with
  | [] => []
  | pnote :: pg_notes' => if cursor <? pnote.2 then pg_notes else after_cursor cursor pg_notes'
  end.

Definition notes_of_tag (self : MockNoteTransportNode) (cursor : u64) (tag : NoteTag) :
    list (NoteInfo * u64) :=
  default [] (after_cursor cursor <$> node_notes self !! tag).

(** [iter().max()], of a list that may be empty. *)
Definition max_cursor (tnotes : list (NoteInfo * u64)) : u64 := foldl Z.max 0 tnotes.*2.

Definition get_notes (self : MockNoteTransportNode) (tags : list NoteTag) (cursor : u64) :
    list NoteInfo * u64 :=
  foldl (λ '(notes, rcursor) tag,
      let tnotes := notes_of_tag self cursor tag in
      (notes ++ tnotes.*1, Z.max rcursor (max_cursor tnotes)))
    ([], 0) tags.

(** The client of the node; sending changes the node, which the clients share. *)
Definition mock_send_note (now : u64) (mock_node : MockNoteTransportNode) (header : NoteId * NoteMetadata)
    (details : bytes) : MockNoteTransportNode * result foreign () :=
  (add_note now mock_node header details, Ok ()).
Definition mock_fetch_notes (mock_node : MockNoteTransportNode) (tags : list NoteTag) (cursor : u64) :
    result foreign (list NoteInfo * u64) :=
  Ok (get_notes mock_node tags cursor).

(** The interface between two sends. *)
Definition MockNoteTransportApi (mock_node : MockNoteTransportNode) : NoteTransportClient := {|
  transport_fetch_notes := mock_fetch_notes mock_node;
  transport_send_note := λ header details, (mock_send_note 0 mock_node header details).2
|}.

(** ** Order *)

(** The notes of each tag came in the order of their cursors, none after [now]. *)
Definition node_ordered (now : u64) (self : MockNoteTransportNode) : Prop :=
  ∀ tag l, node_notes self !! tag = Some l → StronglySorted Z.le l.*2 ∧ Forall (λ c, 0 ≤ c ≤ now) l.*2.

(** The notes of some tags that came after a cursor. *)
Definition notes_after (self : MockNoteTransportNode) (tags : list NoteTag) (cursor : u64) :
    list (NoteInfo * u64) :=
  tags ≫= λ tag, filter (λ x, cursor < x.2) (default [] (node_notes self !! tag)).

Lemma new_ordered now : node_ordered now MockNoteTransportNode_new.
Proof. intros tag l. cbn. by rewrite lookup_empty. Qed.

Lemma add_note_ordered now now' self header details :
  0 ≤ now ≤ now' → node_ordered now self → node_ordered now' (add_note now' self header details).
Proof.
  intros Hnow Ho tag l. cbn. destruct (decide (NoteMetadata_tag header.2 = tag)) as [->|Hne].
  - rewrite lookup_insert_eq. intros [= <-].
    assert (Hl : StronglySorted Z.le (default [] (node_notes self !! tag)).*2 ∧
      Forall (λ c, 0 ≤ c ≤ now) (default [] (node_notes self !! tag)).*2).
    { destruct (node_notes self !! tag) as [l|] eqn:El; [by eapply Ho|]. split; [apply SSorted_nil|by apply Forall_nil]. }
    destruct Hl as [Hs Hf]. rewrite fmap_app. cbn. split.
    + apply StronglySorted_app_2; [|done|repeat constructor]. intros x y Hx Hy.
      apply list_elem_of_singleton in Hy as ->. rewrite Forall_forall in Hf. specialize (Hf _ Hx). lia.
    + apply Forall_app. split; [|constructor; [lia|constructor]].
      eapply Forall_impl; [exact Hf|]. cbn. lia.
  - rewrite lookup_insert_ne by done. intros Hl. apply Ho in Hl as [Hs Hf]. split; [done|].
    eapply Forall_impl; [exact Hf|]. cbn. lia.
Qed.

Lemma filter_Forall {A} (P : A → Prop) `{∀ x, Decision (P x)} (l : list A) : Forall P l → filter P l = l.
Proof. induction 1 as [|x l Hx _ IH]; [done|]. by rewrite filter_cons_True, IH. Qed.
Lemma filter_Forall_not {A} (P : A → Prop) `{∀ x, Decision (P x)} (l : list A) :
  Forall (λ x, ¬ P x) l → filter P l = [].
Proof. induction 1 as [|x l Hx _ IH]; [done|]. by rewrite filter_cons_False. Qed.

Lemma after_cursor_filter cursor l :
  StronglySorted Z.le l.*2 → after_cursor cursor l = filter (λ x, cursor < x.2) l.
Proof.
  induction l as [|[info c] l IH]; [done|]. rewrite fmap_cons. intros [Hs Hf]%StronglySorted_inv. cbn [after_cursor snd].
  destruct (Z.ltb_spec cursor c).
  - rewrite filter_Forall; [done|]. constructor; [done|]. cbn in Hf. rewrite Forall_fmap in Hf.
    eapply Forall_impl; [exact Hf|]. cbn. lia.
  - rewrite filter_cons_False by (cbn; lia). by apply IH.
Qed.

Lemma notes_of_tag_filter now self cursor tag :
  node_ordered now self →
  notes_of_tag self cursor tag = filter (λ x, cursor < x.2) (default [] (node_notes self !! tag)).
Proof.
  intros Ho. unfold notes_of_tag. destruct (node_notes self !! tag) as [l|] eqn:El; [|done].
  cbn. apply after_cursor_filter. by eapply Ho.
Qed.

Lemma foldl_max_ge l z : z ≤ foldl Z.max z l.
Proof. revert z. induction l as [|x l IH]; intros z; cbn; [lia|]. specialize (IH (Z.max z x)). lia. Qed.
Lemma foldl_max_shift l z : 0 ≤ z → foldl Z.max z l = Z.max z (foldl Z.max 0 l).
Proof.
  revert z. induction l as [|x l IH]; intros z Hz; cbn [foldl]; [lia|].
  rewrite (IH (Z.max z x)), (IH (Z.max 0 x)) by lia. lia.
Qed.
Lemma max_cursor_app l k : max_cursor (l ++ k) = Z.max (max_cursor l) (max_cursor k).
Proof.
  unfold max_cursor. rewrite fmap_app, foldl_app. apply foldl_max_shift, foldl_max_ge.
Qed.
Lemma max_cursor_ge l x : x ∈ l → x.2 ≤ max_cursor l.
Proof.
  induction l as [|y l IH]; [by intros ?%not_elem_of_nil|].
  change (y :: l) with ([y] ++ l). rewrite max_cursor_app, elem_of_app, list_elem_of_singleton.
  intros [->|Hx]; [unfold max_cursor; cbn; lia|]. specialize (IH Hx). lia.
Qed.

(** What a fetch gives, in terms of all notes after the cursor. *)
Lemma get_notes_after now self tags cursor :
  node_ordered now self →
  get_notes self tags cursor = ((notes_after self tags cursor).*1, max_cursor (notes_after self tags cursor)).
Proof.
  intros Ho. unfold get_notes.
  assert (Hg : ∀ acc, foldl (λ '(notes, rcursor) tag,
      (notes ++ (notes_of_tag self cursor tag).*1, Z.max rcursor (max_cursor (notes_of_tag self cursor tag))))
      (acc.*1, max_cursor acc) tags =
    ((acc ++ notes_after self tags cursor).*1, max_cursor (acc ++ notes_after self tags cursor))).
  { unfold notes_after. induction tags as [|tag tags IH]; intros acc; cbn; [by rewrite app_nil_r|].
    rewrite <-fmap_app, <-max_cursor_app, (notes_of_tag_filter _ _ _ _ Ho), IH. by rewrite <-app_assoc. }
  apply (Hg []).
Qed.

(** ** Notes that are sent later *)

(** A send: its time, header and details. *)
Definition transport_send : Type := u64 * ((NoteId * NoteMetadata) * bytes).
Definition send_all (self : MockNoteTransportNode) (sends : list transport_send) : MockNoteTransportNode :=
  foldl (λ self x, add_note x.1 self x.2.1 x.2.2) self sends.
Definition sent_under (tag : NoteTag) (sends : list transport_send) : list (NoteInfo * u64) :=
  (λ x : transport_send, ({| ni_header := x.2.1; ni_details_bytes := x.2.2 |}, x.1)) <$>
    filter (λ x : transport_send, NoteMetadata_tag x.2.1.2 = tag) sends.

Lemma send_all_lookup self sends tag :
  default [] (node_notes (send_all self sends) !! tag) =
    default [] (node_notes self !! tag) ++ sent_under tag sends.
Proof.
  revert self. induction sends as [|x sends IH]; intros self; [by cbn; rewrite app_nil_r|].
  unfold send_all in *. cbn [foldl]. rewrite IH. unfold sent_under. rewrite filter_cons.
  unfold add_note at 1. cbn [node_notes].
  destruct (decide (NoteMetadata_tag x.2.1.2 = tag)) as [->|Hne].
  - rewrite lookup_insert_eq, fmap_cons. cbn. by rewrite <-app_assoc.
  - by rewrite lookup_insert_ne.
Qed.

Lemma send_all_ordered now self sends :
  0 ≤ now → node_ordered now self → StronglySorted Z.le sends.*1 → Forall (λ t, now ≤ t) sends.*1 →
  ∃ now', node_ordered now' (send_all self sends).
Proof.
  revert now self. induction sends as [|x sends IH]; intros now self Hn Ho Hs Hf; [by eexists|].
  rewrite fmap_cons in Hs, Hf. apply StronglySorted_inv in Hs as [Hs Hx]. apply Forall_cons_1 in Hf as [Hxn Hf].
  cbn. apply (IH x.1); [lia| |done|done]. apply (add_note_ordered now); [lia|done].
Qed.

Lemma max_cursor_le l now : 0 ≤ now → (∀ x, x ∈ l → x.2 ≤ now) → max_cursor l ≤ now.
Proof.
  intros Hn. induction l as [|y l IH]; intros Hl; [done|]. change (y :: l) with ([y] ++ l). rewrite max_cursor_app.
  assert (y.2 ≤ now) by apply Hl, list_elem_of_here.
  assert (max_cursor l ≤ now) by (apply IH; intros x Hx; by apply Hl, list_elem_of_further).
  unfold max_cursor at 1. cbn. lia.
Qed.

Lemma elem_of_notes_after self tags cursor x :
  x ∈ notes_after self tags cursor ↔
  ∃ tag, tag ∈ tags ∧ x ∈ default [] (node_notes self !! tag) ∧ cursor < x.2.
Proof.
  unfold notes_after. rewrite list_elem_of_bind. setoid_rewrite list_elem_of_filter. naive_solver.
Qed.

Lemma ordered_le now self tag x :
  node_ordered now self → x ∈ default [] (node_notes self !! tag) → x.2 ≤ now.
Proof.
  intros Ho. destruct (node_notes self !! tag) as [l|] eqn:El; [|by intros ?%not_elem_of_nil]. cbn.
  apply Ho in El as [_ Hf]. rewrite Forall_fmap, Forall_forall in Hf. intros Hx. specialize (Hf _ Hx).
  cbn in Hf. lia.
Qed.

Lemma bind_ext_in {A B} (f g : A → list B) l : (∀ a, a ∈ l → f a = g a) → l ≫= f = l ≫= g.
Proof.
  induction l as [|a l IH]; intros Hfg; [done|]. cbn. rewrite (Hfg a) by apply list_elem_of_here. f_equal.
  apply IH. intros b Hb. by apply Hfg, list_elem_of_further.
Qed.

Lemma sent_after cursor tag sends :
  Forall (λ t, cursor < t) sends.*1 → filter (λ x, cursor < x.2) (sent_under tag sends) = sent_under tag sends.
Proof.
  intros Hf. apply filter_Forall. unfold sent_under. rewrite Forall_fmap. rewrite Forall_fmap in Hf.
  apply Forall_forall. intros x [_ Hx]%list_elem_of_filter. rewrite Forall_forall in Hf. by apply Hf.
Qed.

End node.

(** ** Witness *)

Definition toy_transport_node : MockNoteTransportNode :=
  add_note 5 MockNoteTransportNode_new (Note_id toy_note, Note_metadata toy_note) [1; 2].
(** One in the same microsecond, and a later one. *)
Definition toy_later : list transport_send :=
  [(5, ((Note_id toy_note, Note_metadata toy_note), [4]));
   (12, ((Note_id toy_note, Note_metadata toy_note), [3]))].

