(* ===== verification/Cli.v ===== *)
(** * Accounts and assets on the command line

    [bin/miden-cli]: how the text of a user names accounts, notes and amounts.
    [utils.rs] and [lib.rs] resolve the text of an account, in full or by a prefix, and the
    default account; [faucet_details_map.rs] reads and shows amounts of tokens by the symbol
    of their faucet.  The hints that errors come with are those of [errors.rs] of the
    client.  What is printed and logged is left out. *)

From S2P Require Import Prelude Protocol Serde Model NoteStates InputNote OutputNote TxRecord.
From S2P Require Import TxTracker NodeErrors Errors NoteTracker TxOrdering Rpc Grpc SyncUpdate Text Amounts.
From S2P Require Import AccountTypes SmtForest Sql Store Db AccountDb ChainDb NoteSpec TxDb ChainSpec.
From S2P Require Import SqliteStore SqliteSync StoreContract Client NoteImport ClientSync ClientSpec.
From S2P Require Import ClientAccounts ClientAccountSpec ClientNotes FileSystem ClientBuild.
From Stdlib Require Import ZArith Lia Ascii.
From stdpp Require Import base gmap list strings pretty.

Open Scope Z_scope.
#[local] Arguments String.append : simpl nomatch.

(** ** Hints ([errors.rs] of the client) *)

(** The text of values of other crates, and the two errors of the executor that come with
    a hint. *)
Class HintText `{Protocol} := {
  AccountId_display : AccountId → string;
  NoteId_display : NoteId → string;
  Words_debug : list Word → string;
  ForeignAccountNotAnchoredInReference : foreign → option AccountId;
  is_TransactionProgramExecutionFailed : foreign → bool
}.

Record ErrorHint := { eh_message : string; docs_url : option string }.

Definition ErrorHint_fmt (self : ErrorHint) : string :=
  match docs_url self with
  | Some url => eh_message self +:+ " See docs: " +:+ url
  | None => eh_message self
  end.
Definition into_help_message (self : ErrorHint) : string := ErrorHint_fmt self.

Definition TROUBLESHOOTING_DOC : string := "https://0xmiden.github.io/miden-client/cli-troubleshooting.html".

Definition hint (message : string) : ErrorHint :=
  {| eh_message := message; docs_url := Some TROUBLESHOOTING_DOC |}.

Section hints.
Context `{HintText}.

Definition missing_recipient_hint (recipients : list Word) : ErrorHint :=
  hint ("Recipients " +:+ Words_debug recipients +:+ " were missing from the transaction outputs. Keep `TransactionRequestBuilder::expected_output_recipients(...)` aligned with the MASM program so the declared recipients appear in the outputs.").

Definition storage_miss_hint (slot : u8) (account_id : AccountId) : ErrorHint :=
  hint ("Storage slot " +:+ u_to_string slot +:+ " was not found on account " +:+ AccountId_display account_id +:+ ". Verify the account ABI and component ordering, then adjust the slot index used in the transaction.").

Definition transaction_executor_hint (err : foreign) : option ErrorHint :=
  match ForeignAccountNotAnchoredInReference err with
  | Some account_id =>
      Some (hint ("The foreign account proof for " +:+ AccountId_display account_id +:+ " was built against a different block. Re-fetch the account proof anchored at the request's reference block before retrying."))
  | None =>
      if is_TransactionProgramExecutionFailed err then
        Some (hint "Re-run the transaction with debug mode enabled, capture VM diagnostics, and inspect the source manager output to understand why execution failed.")
      else None
  end.

Definition request_error_hint (err : TransactionRequestError) : option ErrorHint :=
  match err with
  | Req_NoInputNotesNorAccountChange =>
      Some (hint "Transactions must consume input notes or mutate tracked account state. Add at least one authenticated/unauthenticated input note or include an explicit account state update in the request.")
  | Req_StorageSlotNotFound slot account_id => Some (storage_miss_hint slot account_id)
  | Req_InputNoteNotAuthenticated note_id =>
      Some (hint ("Note " +:+ NoteId_display note_id +:+ " needs an inclusion proof before it can be consumed as an authenticated input. Run `sync` to fetch the latest proofs from the network."))
  | Req_P2IDNoteWithoutAsset =>
      Some (hint "A pay-to-ID (P2ID) note transfers assets to a target account. Add at least one fungible or non-fungible asset to the note.")
  | Req_InvalidSenderAccount account_id =>
      Some (hint ("Account " +:+ AccountId_display account_id +:+ " is not tracked by this client. Import or create the account first, then retry the transaction."))
  | _ => None
  end.

Definition client_error_hint (err : ClientError) : option ErrorHint :=
  match err with
  | Client_MissingOutputRecipients recipients => Some (missing_recipient_hint recipients)
  | Client_TransactionRequestError inner => request_error_hint inner
  | Client_TransactionExecutorError inner => transaction_executor_hint inner
  | Client_NoteNotFoundOnChain note_id =>
      Some (hint ("Note " +:+ NoteId_display note_id +:+ " has not been found on chain. Double-check the note ID, ensure it has been committed, and run `miden-client sync` before retrying."))
  | Client_AccountLocked account_id =>
      Some (hint ("Account " +:+ AccountId_display account_id +:+ " is locked because the client may be missing its latest state. This can happen when the account is shared and another client executed a transaction. Run `sync` to fetch the latest state from the network."))
  | Client_AccountNonceTooLow =>
      Some (hint "The account you are trying to import has an older nonce than the version already tracked locally. Run `sync` to ensure your local state is current, or re-export the account from a more up-to-date source.")
  | Client_NoConsumableNoteForAccount account_id =>
      Some (hint ("No notes were found that account " +:+ AccountId_display account_id +:+ " can consume. Run `sync` to fetch the latest notes from the network, and verify that notes targeting this account have been committed on chain."))
  | Client_RpcError (Rpc_ConnectionError _) =>
      Some (hint "Could not reach the Miden node. Check that the node endpoint in your configuration is correct and that the node is running.")
  | Client_RpcError (Rpc_AcceptHeaderError _) =>
      Some (hint "The node rejected the request due to a version mismatch. Ensure your client version is compatible with the node version.")
  | Client_AddNewAccountWithoutSeed =>
      Some (hint "New accounts require a seed to derive their initial state. Use `Client::new_account()` which generates the seed automatically, or provide the seed when importing.")
  | _ => None
  end.
End hints.

(** ** Errors and computations of the command line *)

(** Network addresses of the protocol crate: the prefix of the network and the address, of
    which only those of an account have an identifier.  The format of the token symbol
    map is TOML. *)
Class CliLib `{AddressLib} := {
  Address_decode : string → result foreign (NetworkId * Address);
  (* [AddressId::AccountId]. *)
  Address_account_id : Address → option AccountId;
  Address_debug : Address → string;
  MAX_DECIMALS : Z
}.

Inductive SourceError :=
| Boxed_text (text : string)
| Boxed_foreign (e : foreign)
| Boxed_io (e : io_error)
| Boxed_ParseInt
| Boxed_TokenParse (e : TokenParseError).

(** The variants that this file makes. *)
Inductive CliError `{Protocol} :=
| Cli_Asset (e : foreign)
| Cli_Client (error : client_error) (help : option string)
| Cli_Config (source : SourceError) (what : string)
| Cli_Input (what : string)
| Cli_Parse (source : SourceError) (what : string).

Record FaucetDetails := { fd_id : string; decimals : u8 }.
Definition FaucetDetailsMap : Type := gmap string FaucetDetails.

Class TomlText := toml_from_str : bytes → result foreign FaucetDetailsMap.

(** [str::split_once]. *)
Definition split_once (delimiter s : string) : option (string * string) :=
  i ← str_find delimiter s;
  let j := (i + String.length delimiter)%nat in
  Some (String.substring 0 i s, String.substring j (String.length s - j) s).

(** *** Loading the token symbol map *)

(** The identifiers of the faucets have to differ. *)
Fixpoint check_faucet_ids `{Protocol} (faucet_ids : gset string) (l : list FaucetDetails) : result CliError () :=
  match l with
  | [] => Ok ()
  | faucet :: l =>
      if bool_decide (fd_id faucet ∈ faucet_ids) then
        Err (Cli_Config
          (Boxed_text ("Faucet ID " +:+ fd_id faucet +:+ " appears more than once in the token symbol map"))
          "Failed to parse token_symbol_map file")
      else check_faucet_ids ({[fd_id faucet]} ∪ faucet_ids) l
  end.

Definition FaucetDetailsMap_values : FaucetDetailsMap → list FaucetDetails :=
  btree_values (KeyType0 := string_key).

Definition FaucetDetailsMap_new `{Protocol} `{!TomlText} (token_symbol_map_filepath : path) :
    dbm CliError Disk FaucetDetailsMap := λ d,
  match fs_read_to_string token_symbol_map_filepath d with
  | Finished (d, content) =>
      Finished (d,
        token_symbol_map ←
          match content with
          | Ok content =>
              map_err (λ err, Cli_Config (Boxed_foreign err) "Failed to parse token_symbol_map file")
                (toml_from_str content)
          | Err err =>
              if ie_not_found err then Ok ∅
              else Err (Cli_Config (Boxed_io err) "Failed to read token_symbol_map file")
          end;
        check_faucet_ids ∅ (FaucetDetailsMap_values token_symbol_map);;
        Ok token_symbol_map)
  | Panicked => Panicked
  | OutOfFuel => OutOfFuel
  end.

Section cli.
Context `{StoreLib} `{!AddressLib} `{!CliLib} `{!HintText} `{!NoteIdText} {St : Type} `{!StoreOps St}.

Definition cli_m (A : Type) : Type := dbm CliError (ClientState St) A.

(** [From<ClientError> for CliError], and [?] on a call of the client. *)
Definition error_hint (error : client_error) : option ErrorHint :=
  match error with From_ClientError e => client_error_hint e | _ => None end.
Definition CliError_from (error : client_error) : CliError :=
  Cli_Client error (into_help_message <$> error_hint error).

Definition map_error {E E' A} (f : E → E') (m : dbm E (ClientState St) A) : dbm E' (ClientState St) A := λ c,
  match m c with
  | Finished (c, r) => Finished (c, map_err f r)
  | Panicked => Panicked
  | OutOfFuel => OutOfFuel
  end.
Definition call {A} (m : client_m St A) : cli_m A := map_error CliError_from m.
Definition cli_try {A} (r : result CliError A) : cli_m A := db_read (λ _, r).
(** A call whose error is looked at. *)
Definition attempt {E A} (m : dbm E (ClientState St) A) : dbm E (ClientState St) (result E A) := λ c,
  match m c with
  | Finished (c, r) => Finished (c, Ok r)
  | Panicked => Panicked
  | OutOfFuel => OutOfFuel
  end.

(** *** Lookup by a prefix ([lib.rs]) *)

Definition get_output_note_with_id_prefix (note_id_prefix : string) :
    dbm IdPrefixFetchError (ClientState St) OutputNoteRecord :=
  notes ← map_error (λ _, NoMatch ("note ID prefix " +:+ note_id_prefix))
    (client_get_output_notes NoteFilter_All);
  let output_note_records := filter (λ note_record,
    String.prefix note_id_prefix (NoteId_to_hex (OutputNoteRecord_id note_record)) = true) notes in
  match output_note_records with
  | [] => db_fail (NoMatch ("note ID prefix " +:+ note_id_prefix))
  | [note] => mret note
  | _ => db_fail (MultipleMatches ("note ID prefix " +:+ note_id_prefix))
  end.

Definition get_account_with_id_prefix (account_id_prefix : string) :
    dbm IdPrefixFetchError (ClientState St) AccountHeader :=
  headers ← map_error (λ _, NoMatch ("account ID prefix " +:+ account_id_prefix))
    client_get_account_headers;
  let accounts := fst <$> filter (λ header : AccountHeader * AccountStatus,
    String.prefix account_id_prefix (AccountId_to_hex (AccountHeader_id header.1)) = true) headers in
  match accounts with
  | [] => db_fail (NoMatch ("account ID prefix " +:+ account_id_prefix))
  | [account] => mret account
  | _ => db_fail (MultipleMatches ("account ID prefix " +:+ account_id_prefix))
  end.

(** *** The account of a command ([utils.rs], [commands/account.rs]) *)

Definition parse_account_id (account_id : string) : cli_m AccountId :=
  if String.prefix "0x" account_id then
    match AccountId_from_hex account_id with
    | Some account_id => mret account_id
    | None =>
        account ← map_error (λ _, Cli_Input ("Input account ID " +:+ account_id +:+
            " is neither a valid Account ID nor a hex prefix of a known Account ID"))
          (get_account_with_id_prefix account_id);
        mret (AccountHeader_id account)
    end
  else
    '(_, address) ← cli_try (map_err (λ err, Cli_Input ("error parsing bech32 address: " +:+ err))
      (Address_decode account_id));
    match Address_account_id address with
    | Some account_id_address => mret account_id_address
    | None => db_fail (Cli_Input ("Input account ID " +:+ Address_debug address +:+ " is not an ID based address"))
    end.

Definition DEFAULT_ACCOUNT_ID_KEY : string := "default_account_id".

Definition get_input_acc_id_by_prefix_or_default (account_id : option string) : cli_m AccountId :=
  account_id_str ←
    match account_id with
    | Some account_id_prefix => mret account_id_prefix
    | None =>
        stored ← call (client_get_setting AccountId_codec DEFAULT_ACCOUNT_ID_KEY);
        cli_try (ok_or (AccountId_to_hex <$> stored)
          (Cli_Input "No input account ID nor default account defined"))
    end;
  parse_account_id account_id_str.

Definition set_default_account_if_unset (account_id : AccountId) : cli_m () :=
  stored ← call (client_get_setting AccountId_codec DEFAULT_ACCOUNT_ID_KEY);
  match stored with
  | Some _ => mret ()
  | None => call (client_set_setting AccountId_codec DEFAULT_ACCOUNT_ID_KEY account_id)
  end.

(** *** Assets ([faucet_details_map.rs]) *)

Definition get_token_symbol (self : FaucetDetailsMap) (faucet_id : AccountId) : option string :=
  fst <$> btree_find (KeyType0 := string_key)
    (λ faucet, bool_decide (fd_id faucet = AccountId_to_hex faucet_id)) self.

Definition get_token_symbol_or_default (self : FaucetDetailsMap) (faucet_id : AccountId) : string :=
  default "Unknown"%string (get_token_symbol self faucet_id).

Definition parse_fungible_asset (self : FaucetDetailsMap) (arg : string) : cli_m FungibleAsset :=
  '(amount, asset) ← cli_try (ok_or (split_once "::" arg)
    (Cli_Parse (Boxed_text "separator `::` not found") "Failed to parse amount and asset"));
  parsed ← attempt (parse_account_id asset);
  '(faucet_id, amount) ←
    match parsed with
    | Ok id =>
        amount ← cli_try (ok_or (parse_unsigned U64_MAX amount)
          (Cli_Parse Boxed_ParseInt "Failed to parse u64"));
        mret (id, amount)
    | Err _ =>
        details ← cli_try (ok_or (self !! asset)
          (Cli_Config (Boxed_text "Token symbol not found in the map file") asset));
        amount ← (λ c,
          match tokens_to_base_units MAX_DECIMALS amount (decimals details) with
          | Finished r => Finished (c, map_err (λ err, Cli_Parse (Boxed_TokenParse err)
              "Failed to parse tokens to base units") r)
          | Panicked => Panicked
          | OutOfFuel => OutOfFuel
          end);
        id ← parse_account_id (fd_id details);
        mret (id, amount)
    end;
  cli_try (map_err Cli_Asset (FungibleAsset_new faucet_id amount)).

Definition format_fungible_asset (self : FaucetDetailsMap) (asset : FungibleAsset) :
    eff CliError (string * string) :=
  match get_token_symbol self (FungibleAsset_faucet_id asset) with
  | Some token_symbol =>
      details ← lift (ok_or (self !! token_symbol)
        (Cli_Config (Boxed_text "Token symbol not found in the map file") token_symbol));
      match base_units_to_tokens (FungibleAsset_amount asset) (decimals details) with
      | Finished amount => mret (token_symbol, amount)
      | Panicked => Panicked
      | OutOfFuel => OutOfFuel
      end
  | None =>
      mret (AccountId_to_hex (FungibleAsset_faucet_id asset), u_to_string (FungibleAsset_amount asset))
  end.
End cli.

(** ** The token symbol map *)

Lemma check_faucet_ids_Ok `{Protocol} l : ∀ faucet_ids,
  check_faucet_ids faucet_ids l = Ok () →
  NoDup (fd_id <$> l) ∧ ∀ faucet, faucet ∈ l → fd_id faucet ∉ faucet_ids.
Proof.
  induction l as [|faucet l IH]; intros faucet_ids; cbn [check_faucet_ids].
  { intros _. split; [constructor|]. by intros ? ?%not_elem_of_nil. }
  case_bool_decide as Hin; [done|]. intros (Hnd & Hout)%IH. cbn. split.
  - constructor; [|done]. intros (f & Heq & Hf)%list_elem_of_fmap. apply (Hout f Hf). set_solver.
  - intros f [->|Hf]%elem_of_cons; [done|]. specialize (Hout f Hf). set_solver.
Qed.

Lemma FaucetDetailsMap_new_Ok `{Protocol} `{!TomlText} p d d' m :
  FaucetDetailsMap_new p d = Finished (d', Ok m) → NoDup (fd_id <$> FaucetDetailsMap_values m).
Proof.
  unfold FaucetDetailsMap_new. destruct (fs_read_to_string p d) as [[d1 content]| |]; [|done..].
  intros [= _ Hm]. revert Hm. unfold mbind, result_bind. destruct (match content with Ok _ => _ | Err _ => _ end) as [m'|]; [|done].
  destruct (check_faucet_ids ∅ _) as [[]|] eqn:Ec; [|done]. intros [= <-]. by apply check_faucet_ids_Ok in Ec as [? _].
Qed.

Section facts.
Context `{StoreLib} `{!AddressLib} `{!CliLib} `{!HintText} {St : Type} `{!StoreOps St}.
Implicit Types (m : FaucetDetailsMap) (c : ClientState St).

Lemma map_error_Ok {E E' A} (f : E → E') (m : dbm E (ClientState St) A) c c' a :
  map_error f m c = Finished (c', Ok a) ↔ m c = Finished (c', Ok a).
Proof. unfold map_error. destruct (m c) as [[c1 [a'|e]]| |]; naive_solver. Qed.

(** The symbol of a faucet is the one whose entry has the text of its identifier. *)
Lemma token_symbol_exact m id symbol :
  NoDup (fd_id <$> FaucetDetailsMap_values m) →
  get_token_symbol m id = Some symbol ↔
  ∃ details, m !! symbol = Some details ∧ fd_id details = AccountId_to_hex id.
Proof.
  intros Hnd. unfold get_token_symbol, btree_find.
  set (l := filter _ _).
  assert (∀ s details, (s, details) ∈ l ↔ m !! s = Some details ∧ fd_id details = AccountId_to_hex id) as Hl.
  { intros s details. unfold l. rewrite list_elem_of_filter, elem_of_btree_to_list, bool_decide_eq_true. cbn. naive_solver. }
  destruct l as [|[s details] l'] eqn:El; cbn.
  { split; [done|]. intros (details & Hd). apply Hl in Hd. by apply not_elem_of_nil in Hd. }
  pose proof (proj1 (Hl s details) ltac:(left)) as [Hs Hid].
  split; [intros [= <-]; eauto|]. intros (details' & Hs' & Hid'). f_equal.
  assert ((s, details) = (symbol, details')) as [= -> _]; [|done].
  apply (NoDup_fmap_eq (λ kv, fd_id kv.2) (btree_to_list (KeyType0 := string_key) m)).
  - unfold FaucetDetailsMap_values, btree_values in Hnd. by rewrite <-list_fmap_compose in Hnd.
  - by apply elem_of_btree_to_list.
  - by apply elem_of_btree_to_list.
  - cbn. congruence.
Qed.

(** What the protocol crate documents: the text of an account is hexadecimal, and the parts
    of an asset make it again. *)
Class CliLaws : Prop := {
  AccountId_hex_prefix (id : AccountId) : String.prefix "0x" (AccountId_to_hex id) = true;
  FungibleAsset_new_parts (asset : FungibleAsset) :
    FungibleAsset_new (FungibleAsset_faucet_id asset) (FungibleAsset_amount asset) = Ok asset
}.
Context `{!AccountLaws} `{!CliLaws}.

(** A symbol that does not name an account. *)
Definition plain_symbol (symbol : string) : Prop :=
  String.prefix "0x" symbol = false ∧ ∃ e, Address_decode symbol = Err e.

Lemma parse_account_id_hex id c : parse_account_id (AccountId_to_hex id) c = Finished (c, Ok id).
Proof. unfold parse_account_id. by rewrite AccountId_hex_prefix, AccountId_hex_roundtrip. Qed.

Lemma parse_account_id_plain symbol c :
  plain_symbol symbol → ∃ e, parse_account_id symbol c = Finished (c, Err e).
Proof. intros [Hp [e He]]. unfold parse_account_id. rewrite Hp, He. by eexists. Qed.

Lemma split_once_app a p l r :
  str_free a l → split_once (String a p) (l +:+ String a p +:+ r) = Some (l, r).
Proof.
  intros Hl. unfold split_once. rewrite str_find_app by done. cbn [mbind option_bind].
  rewrite substring_app_l, string_app_assoc.
  assert (String.length l + String.length (String a p) = String.length (l +:+ String a p))%nat as ->
    by by rewrite string_app_length.
  replace (String.length ((l +:+ String a p) +:+ r) - String.length (l +:+ String a p))%nat
    with (String.length r) by (rewrite (string_app_length (l +:+ String a p) r); lia).
  by rewrite substring_app_r.
Qed.

(** What is shown of an amount has no colon. *)
Lemma base_units_no_colon units n s :
  in_range U64_MAX units → 0 ≤ n → base_units_to_tokens units n = Finished s → str_free ":"%char s.
Proof.
  intros Hu Hn Hs. destruct (base_units_shape units n Hu Hn) as (s' & i & f & Hs' & ((sign & Hsign & Hshape) & _ & Hi & Hf & _) & _).
  rewrite Hs in Hs'. injection Hs' as <-.
  pose proof (digits_free ":"%char _ _ _ eq_refl Hi) as Hfi. pose proof (digits_free ":"%char _ _ _ eq_refl Hf) as Hff.
  assert (str_free ":"%char sign) by (by destruct Hsign as [->| ->]).
  destruct Hshape as [[-> _]|[-> _]]; rewrite ?str_free_app; split_and!; done.
Qed.

Lemma u_to_string_parsed z : in_range U64_MAX z → parse_unsigned U64_MAX (u_to_string z) = Some z.
Proof.
  intros [Hz Hmax]. apply parse_unsigned_iff; [done|]. split; [done|]. exists EmptyString, (u_to_string z).
  split_and!; [by left|done|apply u_to_string_nonempty|by apply u_to_string_value].
Qed.

(** C25: An asset is read back from what is shown of it: for a token symbol map that loads,
    whose symbols do not name accounts and whose faucets have a number of decimals that a
    faucet can have, showing an asset gives a unit and an amount, and the two joined by [::]
    are parsed as the same asset, without a change of the client.  The unit is the one symbol
    whose entry has the faucet, with the amount in tokens, and the identifier of the faucet
    with the amount in base units when no entry has it. *)
Theorem formatted_asset_is_parsed `{!TomlText} p d d' m asset :
  FaucetDetailsMap_new p d = Finished (d', Ok m) →
  map_Forall (λ symbol details, plain_symbol symbol ∧ 0 ≤ decimals details ≤ MAX_DECIMALS) m →
  in_range U64_MAX (FungibleAsset_amount asset) →
  ∃ unit amount,
    format_fungible_asset m asset = Finished (Ok (unit, amount)) ∧
    (∀ c, parse_fungible_asset m (amount +:+ "::" +:+ unit) c = Finished (c, Ok asset)) ∧
    ((∃ details, m !! unit = Some details ∧
        fd_id details = AccountId_to_hex (FungibleAsset_faucet_id asset) ∧
        base_units_to_tokens (FungibleAsset_amount asset) (decimals details) = Finished amount) ∨
     (∀ symbol details, m !! symbol = Some details →
        fd_id details ≠ AccountId_to_hex (FungibleAsset_faucet_id asset)) ∧
     unit = AccountId_to_hex (FungibleAsset_faucet_id asset) ∧
     amount = u_to_string (FungibleAsset_amount asset)).
Proof.
  intros Hnew%FaucetDetailsMap_new_Ok Hm Hu. unfold format_fungible_asset.
  pose proof (λ s, token_symbol_exact m (FungibleAsset_faucet_id asset) s Hnew) as Hsym.
  destruct (get_token_symbol m _) as [symbol|].
  - destruct (proj1 (Hsym symbol) eq_refl) as (details & Hd & Hid).
    destruct (Hm symbol details Hd) as [Hplain Hdec].
    destruct (amount_roundtrip MAX_DECIMALS (FungibleAsset_amount asset) (decimals details) Hu Hdec) as (amount & Hs & Hback).
    exists symbol, amount. split; [by rewrite Hd; cbn; rewrite Hs|]. split; [|by left; exists details].
    intros c. unfold parse_fungible_asset.
    rewrite (split_once_app ":"%char ":") by (eapply base_units_no_colon; [done| |done]; lia).
    destruct (parse_account_id_plain symbol c Hplain) as [e He].
    cbv [mbind dbm_bind cli_try db_read ok_or attempt mret dbm_ret]. rewrite He, Hd. cbn.
    rewrite Hback. cbn. by rewrite Hid, parse_account_id_hex, FungibleAsset_new_parts.
  - exists (AccountId_to_hex (FungibleAsset_faucet_id asset)), (u_to_string (FungibleAsset_amount asset)).
    split; [done|]. split.
    + intros c. unfold parse_fungible_asset. destruct Hu as [Hu0 Hu].
      rewrite (split_once_app ":"%char ":") by (eapply digits_free; [done|by apply u_to_string_value]).
      cbv [mbind dbm_bind cli_try db_read ok_or attempt mret dbm_ret]. rewrite parse_account_id_hex.
      by rewrite u_to_string_parsed, FungibleAsset_new_parts.
    + right. split_and!; [|done..]. intros symbol details Hd Hid.
      discriminate (proj2 (Hsym symbol) (ex_intro _ details (conj Hd Hid))).
Qed.
End facts.

(** ** Naming an account *)

Section naming.
Context `{StoreContract} `{!AddressLib} `{!CliLib} `{!HintText}.
Implicit Types c : ClientState St.

(** A text that starts as hexadecimal names the account that it is in full, or else the one
    account of the client whose identifier starts with it.  The client is not changed. *)
Lemma account_text_exact c c' text id :
  String.prefix "0x" text = true → parse_account_id text c = Finished (c', Ok id) →
  c' = c ∧
  (AccountId_from_hex text = Some id ∨
   AccountId_from_hex text = None ∧ ∃ headers header status,
     get_account_headers (cl_store c) = Finished (cl_store c, Ok headers) ∧
     filter (λ h : AccountHeader * AccountStatus,
       String.prefix text (AccountId_to_hex (AccountHeader_id h.1)) = true) headers = [(header, status)] ∧
     AccountHeader_id header = id).
Proof.
  intros Hp. unfold parse_account_id. rewrite Hp.
  destruct (AccountId_from_hex text) as [id'|] eqn:Eh; [intros [= <- <-]; auto|].
  intros (c1 & header & Hfind & Hret)%dbm_bind_Ok. injection Hret as <- <-.
  apply map_error_Ok in Hfind. apply dbm_bind_Ok in Hfind as (c2 & headers & Hh & Hfind).
  apply map_error_Ok in Hh. unfold client_get_account_headers, on_store in Hh.
  destruct (get_account_headers (cl_store c)) as [[s [found|e]]| |] eqn:Eg; try discriminate Hh.
  apply sc_get_account_headers in Eg as Hs. subst s. injection Hh as <- <-.
  replace (set_cl_store (cl_store c) c) with c in Hfind by by destruct c. revert Hfind.
  match goal with |- context [fst <$> ?l] => destruct l as [|[h st] [|]] eqn:El end; cbn; [intros [=]| |intros [=]].
  intros [= <- <-]. split; [done|]. right. split; [done|]. by exists found, h, st.
Qed.
End naming.

Section default_account.
Context `{StoreLaws} `{Forest : !SmtForestLib} `{!ExecutedLib}.
Context `{!AddressLib} `{!CliLib} `{!HintText} `{!SerdeLaws} `{!AccountLaws} `{!CliLaws}.
Implicit Types c : ClientState StoreState.

(** After the default account was set if it was not, commands without an account use the
    one that was stored before, and the new one if there was none. *)
Lemma default_account_is_used c c0 c' stored id :
  client_get_setting AccountId_codec DEFAULT_ACCOUNT_ID_KEY c = Finished (c0, Ok stored) →
  set_default_account_if_unset id c = Finished (c', Ok ()) →
  get_input_acc_id_by_prefix_or_default None c' = Finished (c', Ok (default id stored)).
Proof.
  intros Hget. unfold set_default_account_if_unset, call, map_error, mbind at 1, dbm_bind at 1.
  rewrite Hget. cbn [map_err]. intros Hset.
  assert (c0 = c) as ->.
  { revert Hget. unfold client_get_setting, on_store, mbind, dbm_bind. cbn [get_setting sqlite_store_ops].
    unfold on_tables, zoom, sqlite_get_setting, db_read. cbn. destruct (settings _ !! _).
    - intros [= <- _]. by destruct c as [[] ? ?].
    - intros [= <- _]. by destruct c as [[] ? ?]. }
  assert (client_get_setting AccountId_codec DEFAULT_ACCOUNT_ID_KEY c' = Finished (c', Ok (Some (default id stored)))) as Hgot.
  { destruct stored as [old|]; [by injection Hset as <-|].
    destruct (client_set_setting _ _ _ c) as [[c1 [[]|e]]| |] eqn:Es; [|done..]. injection Hset as <-.
    by apply (setting_roundtrip AccountId_codec any DEFAULT_ACCOUNT_ID_KEY id c). }
  unfold get_input_acc_id_by_prefix_or_default, call, map_error, mbind, dbm_bind, cli_try, db_read.
  rewrite Hgot. cbn. apply parse_account_id_hex.
Qed.
End default_account.

(** ** Witness *)

#[export] Instance toy_cli : CliLib := {|
  Address_decode := λ s, if String.prefix "mlcl1" s then Ok (tt, 101) else Err "prefix"%string;
  Address_account_id := Some;
  Address_debug := z_to_text;
  MAX_DECIMALS := 12
|}.

#[export] Instance toy_cli_laws : CliLaws.
Proof.
  split; [|by intros []]. intros id. cbn. unfold toy_account_hex. apply (Text.prefix_app "0x").
Qed.

#[export] Instance toy_hint_text : @HintText toy_protocol := {|
  AccountId_display := z_to_text;
  NoteId_display := λ _, "note"%string;
  Words_debug := λ _, "[]"%string;
  ForeignAccountNotAnchoredInReference := λ _, None;
  is_TransactionProgramExecutionFailed := λ _, false
|}.

(** A map of one faucet with two decimals. *)
Definition toy_symbols : FaucetDetailsMap :=
  {[ "TST"%string := {| fd_id := toy_account_hex 101; decimals := 2 |} ]}.
#[export] Instance toy_toml : TomlText := λ content,
  if decide (content = [84]) then Ok toy_symbols else Err "toml"%string.
Definition toy_disk : Disk := {| files := {[ ["tokens"%string] := [84] ]}; dirs := ∅; faults := [] |}.
Definition toy_asset : @FungibleAsset toy_protocol := (101, 1205).

Lemma formatted_asset_is_parsed_witness :
  FaucetDetailsMap_new ["tokens"%string] toy_disk = Finished (toy_disk, Ok toy_symbols) ∧
  (∃ unit amount,
    format_fungible_asset toy_symbols toy_asset = Finished (Ok (unit, amount)) ∧
    parse_fungible_asset (St := StoreState) toy_symbols (amount +:+ "::" +:+ unit) toy_client =
      Finished (toy_client, Ok toy_asset)) ∧
  format_fungible_asset toy_symbols toy_asset = Finished (Ok ("TST", "12.05"))%string.
Proof.
  assert (Hnew : FaucetDetailsMap_new ["tokens"%string] toy_disk = Finished (toy_disk, Ok toy_symbols))
    by reflexivity.
  split; [exact Hnew|]. split; [|reflexivity].
  destruct (formatted_asset_is_parsed (St := StoreState) ["tokens"%string] toy_disk toy_disk toy_symbols toy_asset Hnew)
    as (unit & amount & Hf & Hp & _).
  - intros s details Hs. unfold toy_symbols in Hs. apply lookup_singleton_Some in Hs as [<- <-].
    split; [split; [reflexivity|by exists "prefix"%string]|]. cbn. lia.
  - unfold in_range, U64_MAX. cbn. lia.
  - exists unit, amount. split; [exact Hf|apply Hp].
Defined.
